(** * adiff: a function-level differ for C sources

    A shallow embedding of the parts of [adiff] (tools/j-tools-package/adiff)
    that its specification makes claims about, and the proofs of these
    claims.

    Conventions of the embedding.
    - A [char *] buffer is the list of the bytes it holds.  Reading one
      position past the list gives the terminating NUL, as it does in
      the C program, and [strlen] stops at the first NUL.
    - An [int] that the program only uses as a position in a buffer it
      walks from 0 upwards is a [nat]; an [int] stored in a record
      ([item], [fentry]) is a [Z].  The sentinel results [-1] ([END]) and
      [-2] ([ERROR]) of the scanners are [None].
    - A call can end the process ([exit], a failed [assert]); such calls
      return in the type [run].  Loops that are not structural take fuel;
      the fuel given is shown to be enough wherever a result is claimed.
    - The heap is not modelled: the growable arrays ([items],
      [fentries], children of an [element]) are lists, and an allocation
      of a size that is not negative succeeds.  The one [Malloc] whose
      size does not come from the length of a file, the array of
      [find_functions], is modelled with its exit.
    - What a call prints is kept with its outcome, in the type
      [printing]: the lines printed before an [exit] stay printed. *)

From Stdlib Require Import ZArith Lia Ascii String DecimalString.
From stdpp Require Import base list strings.

Local Open Scope char_scope.
Local Open Scope nat_scope.

(** ** Outcomes of a call *)

Inductive stop : Type :=
| ExitCall (msg : string)   (* printf (msg); exit (-1) *)
| AssertFailed              (* assert (...) did not hold *)
| OutOfBounds               (* an access outside the object: undefined in C *)
| ArithmeticTrap            (* a division by zero, or INT_MIN / -1 *)
| NoFuel.                   (* the fuel of the model ran out *)

Inductive run (A : Type) : Type :=
| Return (a : A)
| Stop (s : stop).

Arguments Return {A} a.
Arguments Stop {A} s.

#[global] Instance run_ret : MRet run := fun _ a => Return a.

#[global] Instance run_bind : MBind run := fun _ _ k r =>
  match r with
  | Return a => k a
  | Stop s => Stop s
  end.

#[global] Instance run_fmap : FMap run := fun _ _ f r =>
  match r with
  | Return a => Return (f a)
  | Stop s => Stop s
  end.

(** [assert (b)] *)
Definition assert (b : bool) : run unit :=
  if b then Return tt else Stop AssertFailed.

(** A [while (1)] loop: a round of the body either gives the state of
    the next round or leaves the loop with a result. *)
Fixpoint iterate {S R : Type} (step : S -> run (S + R)) (fuel : nat) (s : S) : run R :=
  match fuel with
  | O => Stop NoFuel
  | Datatypes.S fuel' =>
      x ← step s;
      match x with
      | inl s' => iterate step fuel' s'
      | inr r => Return r
      end
  end.

(** ** Output *)

(** A call that prints: what it has printed, in order, and its outcome.
    What was printed before an [exit] or a failed [assert] stays
    printed. *)
Definition printing (O A : Type) : Type := (list O * run A)%type.

#[global] Instance printing_ret {O} : MRet (printing O) := fun _ a => ([], Return a).

#[global] Instance printing_bind {O} : MBind (printing O) := fun _ _ k m =>
  match m with
  | (out, Return a) => let '(out', r) := k a in (out ++ out', r)
  | (out, Stop s) => (out, Stop s)
  end.

(** [printf] of one line. *)
Definition say {O} (line : O) : printing O unit := ([line], Return tt).

(** A call that prints nothing. *)
Definition quiet {O A} (r : run A) : printing O A := ([], r).

(** ** C strings *)

Module CStr.

Definition NUL : ascii := "000"%char.
Definition TAB : ascii := "009"%char.
Definition LF : ascii := "010"%char.
Definition CR : ascii := "013"%char.
Definition SPACE : ascii := " "%char.
Definition DQUOTE : ascii := "034"%char.
Definition SQUOTE : ascii := "'"%char.
Definition BACKSLASH : ascii := "\"%char.

(** [buffer[i]] *)
Definition get (buffer : list ascii) (i : nat) : ascii := nth i buffer NUL.

Fixpoint strlen (s : list ascii) : nat :=
  match s with
  | [] => 0
  | c :: s' => if Ascii.eqb c NUL then 0 else S (strlen s')
  end.

(** The string a [char *] points to: the bytes before the first NUL. *)
Definition cstr (s : list ascii) : list ascii := take (strlen s) s.

(** [strchr (s, c)] for [c] other than NUL, as an offset into [s]. *)
Fixpoint strchr (s : list ascii) (c : ascii) : option nat :=
  match s with
  | [] => None
  | x :: s' =>
      if Ascii.eqb x c then Some 0
      else if Ascii.eqb x NUL then None
      else option_map S (strchr s' c)
  end.

(** [strncmp (a, b, n) == 0] *)
Fixpoint strncmp_eq (a b : list ascii) (n : nat) : bool :=
  match n with
  | O => true
  | S n' =>
      let x := hd NUL a in
      let y := hd NUL b in
      if Ascii.eqb x y
      then (if Ascii.eqb x NUL then true else strncmp_eq (tl a) (tl b) n')
      else false
  end.

(** [strcmp (a, b) == 0] *)
Definition strcmp_eq (a b : list ascii) : bool :=
  strncmp_eq a b (S (length a)).

(** [s] begins with the two bytes [x y] *)
Definition starts2 (s : list ascii) (x y : ascii) : bool :=
  Ascii.eqb (get s 0) x && Ascii.eqb (get s 1) y.

(** [strstr (s, "xy")] for two bytes other than NUL, as an offset. *)
Fixpoint strstr2 (s : list ascii) (x y : ascii) : option nat :=
  match s with
  | [] => None
  | c :: s' =>
      if starts2 s x y then Some 0
      else if Ascii.eqb c NUL then None
      else option_map S (strstr2 s' x y)
  end.

End CStr.

Import CStr.

Definition chars (s : string) : list ascii := list_ascii_of_string s.

(** ** adiff.h: items, function entries, directive trees *)

Inductive pragma_type : Type :=
| PRAGMA_IF | PRAGMA_ELSE | PRAGMA_ENDIF | PRAGMA_OTHER
| STRING | LITERAL | COMMENT | OTHER | ESCSEQ.

#[global] Instance pragma_type_eq_dec : EqDecision pragma_type.
Proof. solve_decision. Defined.

Record item : Type := Item { begin_ : Z; end_ : Z; type_ : pragma_type }.

(** [items]: [number_of_items] is the length of the list. *)
Abbreviation items := (list item) (only parsing).

Record fentry : Type := FEntry { fname : list ascii; fbegin : Z; fend : Z }.

(** [fentries]: [num_funcs] is the length of the list. *)
Abbreviation fentries := (list fentry) (only parsing).

Inductive comp_type : Type := AND | OR | TERM.

#[global] Instance comp_type_eq_dec : EqDecision comp_type.
Proof. solve_decision. Defined.

(** [struct element]: [number_of_elements] is the length of [list_]. *)
#[local] Unset Elimination Schemes.
Inductive element : Type :=
  Element (type : comp_type) (pid text_begin text_end : Z) (list_ : list element).
#[local] Set Elimination Schemes.

Definition elem_type (e : element) : comp_type :=
  match e with Element t _ _ _ _ => t end.
Definition elem_text_begin (e : element) : Z :=
  match e with Element _ _ b _ _ => b end.
Definition elem_text_end (e : element) : Z :=
  match e with Element _ _ _ e' _ => e' end.
Definition elem_list (e : element) : list element :=
  match e with Element _ _ _ _ l => l end.

Record depth_width : Type := DW { depth : Z; width : Z }.

(** [MIN] and [MAX] of adiff.h *)
Definition MIN (x y : Z) : Z := if (x <=? y)%Z then x else y.
Definition MAX (x y : Z) : Z := if (x >=? y)%Z then x else y.

(** ** adiff_storage.c *)

(** [add_item]: the item goes to the end of the array. *)
Definition add_item (Items : items) (begin end' : Z) (type : pragma_type) : items :=
  Items ++ [Item begin end' type].

(** [fadd]: the entry goes to the end of the array. *)
Definition fadd (FEntries : fentries) (name : list ascii) (begin end' : Z) : fentries :=
  FEntries ++ [FEntry (cstr name) begin end'].

(** The inner loop of [clear]: [for (j = begin; j <= end; j++) buffer[j] = ' ']. *)
Definition blank_span (buffer : list ascii) (begin end' : Z) : list ascii :=
  foldl (fun buf j => <[j := SPACE]> buf) buffer
        (seq (Z.to_nat begin) (Z.to_nat (end' + 1 - begin))).

(** [clear]: blank every item of [Items] in [buffer].  A span that starts
    before the buffer is written outside the object. *)
Fixpoint clear_loop (n : nat) (buffer : list ascii) (Items : items) : run (list ascii) :=
  match Items with
  | [] => Return buffer
  | it :: rest =>
      _ ← assert (bool_decide (begin_ it < Z.of_nat n)%Z);
      _ ← assert (bool_decide (end_ it < Z.of_nat n)%Z);
      if bool_decide (begin_ it <= end_ it)%Z && bool_decide (begin_ it < 0)%Z
      then Stop OutOfBounds
      else clear_loop n (blank_span buffer (begin_ it) (end_ it)) rest
  end.

Definition clear (buffer : list ascii) (Items : items) : run (list ascii) :=
  clear_loop (strlen buffer) buffer Items.

Definition item_within (fbegin fend : Z) (it : item) : bool :=
  bool_decide (begin_ it >= fbegin)%Z && bool_decide (begin_ it <= fend)%Z &&
  bool_decide (end_ it >= fbegin)%Z && bool_decide (end_ it <= fend)%Z.

(** [create_func_items]: the items of [orig] that lie in the function. *)
Definition create_func_items (orig : items) (fbegin fend : Z) : items :=
  filter (fun it => item_within fbegin fend it = true) orig.

(** ** adiff_tokens.c *)

Definition delimiters : list ascii :=
  chars "!@#$%^&*()-+=|\`~[]{};:'" ++ [DQUOTE] ++ chars "<>,.?/ " ++ [TAB; CR; LF].

(** [strchr (delimiters, c) != NULL]: the terminating NUL of [delimiters]
    is found too. *)
Definition is_delimiter (c : ascii) : bool :=
  existsb (Ascii.eqb c) delimiters || Ascii.eqb c NUL.

Definition is_space (c : ascii) : bool :=
  Ascii.eqb c SPACE || Ascii.eqb c TAB || Ascii.eqb c LF || Ascii.eqb c CR.

(** [while (is_space (buffer[index])) index++], on the bytes from [index] on. *)
Fixpoint skip_spaces_from (rest : list ascii) (index : nat) : nat :=
  match rest with
  | [] => index
  | c :: rest' => if is_space c then skip_spaces_from rest' (S index) else index
  end.

Definition skip_spaces (buffer : list ascii) (index : nat) : nat :=
  skip_spaces_from (drop index buffer) index.

(** [for (; index < n; index++) if (is_delimiter (buffer[index])) break;] *)
Fixpoint scan_word_from (rest : list ascii) (n index : nat) : nat :=
  match rest with
  | [] => index
  | c :: rest' =>
      if (index <? n) && negb (is_delimiter c)
      then scan_word_from rest' n (S index)
      else index
  end.

(** What a scanner hands back: the index to go on from, the inclusive
    extent of the token, and its text. *)
Record token : Type :=
  Token { tk_next : nat; tk_begin : nat; tk_end : nat; tk_text : list ascii }.

Definition get_simple_token (buffer : list ascii) (n index : nat) : option token :=
  if n <=? index then None
  else
    let index := skip_spaces buffer index in
    if n <=? index then None
    else
      let begin := index in
      let end' :=
        if is_delimiter (get buffer index) then begin
        else scan_word_from (drop (S index) buffer) n (S index) - 1 in
      let text := cstr (take (end' - begin + 1) (drop begin buffer)) in
      Some (Token (skip_spaces buffer (end' + 1)) begin end' text).

(** One round of the loop of [compatible_tokens]. *)
Definition compatible_pair (c1 c2 : ascii) : bool :=
  let one x := Ascii.eqb c1 x in
  let two x := Ascii.eqb c2 x in
  ((one "<" || one ">" || one "=") && two "=")
  || ((one "+" || one "-" || one "/" || one "*" || one "&" || one "|"
       || one "%" || one "^" || one "~" || one "!") && two "=")
  || (one "<" && two "<")
  || (one ">" && two ">")
  || (one "-" && two ">")
  || (one "+" && two "+")
  || (one "-" && two "-")
  || (one "|" && two "|")
  || (one "&" && two "&")
  || (one "*" && two "/")
  || (one "/" && two "*").

Definition compatible_tokens (token1 token2 : list ascii) : bool :=
  if Ascii.eqb (get token1 0) "#" && Ascii.eqb (get token1 1) NUL then true
  else if Ascii.eqb (get token1 0) NUL || Ascii.eqb (get token2 0) NUL then false
  else if negb (Ascii.eqb (get token1 1) NUL) || negb (Ascii.eqb (get token2 1) NUL) then false
  else
    let c1 := get token1 0 in
    let c2 := get token2 0 in
    compatible_pair c1 c2 || compatible_pair c2 c1.

Definition get_token (buffer : list ascii) (n index : nat) : option token :=
  match get_simple_token buffer n index with
  | None => None
  | Some t1 =>
      match get_simple_token buffer n (tk_next t1) with
      | None => Some t1
      | Some t2 =>
          let special_case_flag :=
            Ascii.eqb (get (tk_text t1) 0) "#" && Ascii.eqb (get (tk_text t1) 1) NUL in
          if negb (index + strlen (tk_text t1) =? tk_next t1) && negb special_case_flag
          then Some t1
          else if compatible_tokens (tk_text t1) (tk_text t2)
          then Some (Token (tk_next t2) (tk_begin t1) (tk_end t2)
                           (tk_text t1 ++ tk_text t2))
          else Some t1
      end
  end.

(** ** adiff_parse.c: the bracket matcher *)

(** The state of the loop of [match_bracket]: [index], [counter], [flag]. *)
Definition match_bracket_step (buffer : list ascii) (n : nat)
    (opening closing : list ascii) (st : nat * Z * bool)
    : run (nat * Z * bool + option nat) :=
  let '(index, counter, flag) := st in
  match get_token buffer n index with
  | None => Return (inr None)
  | Some t =>
      if negb flag && negb (strcmp_eq (tk_text t) opening) then Return (inr None)
      else
        let counter := if strcmp_eq (tk_text t) opening then (counter + 1)%Z else counter in
        let counter := if strcmp_eq (tk_text t) closing then (counter - 1)%Z else counter in
        if (counter =? 0)%Z then Return (inr (Some (tk_begin t)))
        else Return (inl (tk_next t, counter, true))
  end.

(** [match_bracket]: [None] is [ERROR], [Some begin] the offset of the
    closing token. *)
Definition match_bracket (buffer : list ascii) (n index : nat)
    (opening closing : list ascii) : run (option nat) :=
  iterate (match_bracket_step buffer n opening closing) (S n) (index, 0%Z, false).

(** ** adiff_matching.c *)

(** The inner loop of [match_symbol]: after it [flag] tells whether an odd
    number of backslashes ends the bytes [begin .. end]. *)
Definition escape_flag (buffer : list ascii) (begin end' : nat) : bool :=
  foldl (fun (flag : bool) i =>
           if Ascii.eqb (get buffer i) BACKSLASH
           then (if flag then false else true)
           else false)
        false (seq begin (end' + 1 - begin)).

Definition match_symbol_step (buffer : list ascii) (index_orig : nat)
    (symbol : ascii) (index : nat) : run (nat + nat) :=
  match strchr (drop index buffer) symbol with
  | Some off =>
      let ptr := index + off in
      let index := ptr + 1 in
      if Ascii.eqb (get buffer (ptr - 1)) BACKSLASH then
        let begin := index_orig + 1 in
        _ ← assert (begin + 1 <=? ptr);
        if escape_flag buffer begin (ptr - 1) then Return (inl index)
        else Return (inr index)
      else Return (inr index)
  | None => Return (inr (strlen buffer))
  end.

(** [match_symbol]: [None] is [-1]. *)
Definition match_symbol (buffer : list ascii) (index : nat) (symbol : ascii)
    : run (option nat) :=
  if negb (Ascii.eqb (get buffer index) symbol) then Return None
  else
    end' ← iterate (match_symbol_step buffer index symbol) (S (length buffer)) (S index);
    Return (Some end').

(** [matchComment]: [None] is [-1]. *)
Definition matchComment (buffer : list ascii) (index : nat) : option nat :=
  if negb (Ascii.eqb (get buffer index) "/") then None
  else if negb (Ascii.eqb (get buffer (index + 1)) "*") then None
  else match strstr2 (drop (index + 2) buffer) "*" "/" with
       | Some off => Some (index + 2 + off + 2)
       | None => Some (strlen buffer)
       end.

(** The scanner flags: [flag_nested_comments] and the three [add_*]
    arguments of [find_comments_and_literals]. *)
Record scan_flags : Type :=
  ScanFlags { nested_comments : bool;
              add_literals : bool; add_comments : bool; add_backslashes : bool }.

Definition add_if (b : bool) (Items : items) (begin end' : nat) (type : pragma_type) : items :=
  if b then add_item Items (Z.of_nat begin) (Z.of_nat end') type else Items.

(** A quote at [i]: the literal of kind [type] that [symbol] opens. *)
Definition scan_literal (fl : scan_flags) (buffer : list ascii) (i : nat)
    (symbol : ascii) (type : pragma_type) (Items : items) : run (nat * items) :=
  r ← match_symbol buffer i symbol;
  match r with
  | None => Stop AssertFailed
  | Some end' =>
      _ ← assert (0 <? end');
      Return (end', add_if (add_literals fl) Items i (end' - 1) type)
  end.

Definition scan_comment (fl : scan_flags) (buffer : list ascii) (n i : nat)
    (Items : items) : run (nat * items) :=
  if nested_comments fl then
    r ← match_bracket buffer n i (chars "/*") (chars "*/");
    match r with
    | None => Stop (ExitCall "No matching closing comment")
    | Some end' => Return (end' + 2, add_if (add_comments fl) Items i (end' + 1) COMMENT)
    end
  else
    match matchComment buffer i with
    | None => Stop AssertFailed
    | Some end' =>
        _ ← assert (0 <? end');
        Return (end', add_if (add_comments fl) Items i (end' - 1) COMMENT)
    end.

(** One round of the loop of [find_comments_and_literals]; the state is
    [i] and the items found so far. *)
Definition fcl_step (fl : scan_flags) (buffer : list ascii) (n : nat)
    (st : nat * items) : run (nat * items + items) :=
  let '(i, Items) := st in
  if n <=? i then Return (inr Items)
  else
    let c := get buffer i in
    if Ascii.eqb c DQUOTE then inl <$> scan_literal fl buffer i DQUOTE STRING Items
    else if Ascii.eqb c SQUOTE then inl <$> scan_literal fl buffer i SQUOTE LITERAL Items
    else if Ascii.eqb c "/" then
      if Ascii.eqb (get buffer (i + 1)) "*"
      then inl <$> scan_comment fl buffer n i Items
      else Return (inl (i + 1, Items))
    else if Ascii.eqb c BACKSLASH then
      Return (inl (i + 2, add_if (add_backslashes fl) Items i (i + 1) ESCSEQ))
    else Return (inl (i + 1, Items)).

Definition find_comments_and_literals (fl : scan_flags) (buffer : list ascii)
    (Items : items) : run items :=
  let n := strlen buffer in
  iterate (fcl_step fl buffer n) (S n) (0, Items).

(** ** adiff_diff.c *)

Definition duplicate_substr (buffer : list ascii) (begin end' : Z) : run (list ascii) :=
  let n := Z.of_nat (strlen buffer) in
  if (begin >? n)%Z || (end' >? n)%Z || (begin >? end')%Z
  then Stop (ExitCall "Invalid subrange")
  else if (begin <? 0)%Z then Stop OutOfBounds
  else Return (cstr (take (Z.to_nat (end' - begin + 1)) (drop (Z.to_nat begin) buffer))).

(** An [int] length handed to a [size_t] parameter: a negative one is
    larger than any buffer. *)
Definition size_t_of (l : Z) (buffer : list ascii) : nat :=
  if (l <? 0)%Z then S (length buffer) else Z.to_nat l.

(** The first loop of [diff] and the two tests after it: the literals of
    the two functions, pairwise.  The result is [flag] and the two offsets. *)
Fixpoint diff_literals (_buffer1 _buffer2 : list ascii) (literals1 literals2 : items)
    (offset1 offset2 : Z) : bool * Z * Z :=
  match literals1, literals2 with
  | a :: rest1, b :: rest2 =>
      let l1 := (end_ a - begin_ a + 1)%Z in
      let l2 := (end_ b - begin_ b + 1)%Z in
      if negb (l1 =? l2)%Z then (true, begin_ a, begin_ b)
      else if negb (bool_decide (type_ a = type_ b)) then (true, begin_ a, begin_ b)
      else if negb (strncmp_eq (drop (Z.to_nat (begin_ a)) _buffer1)
                               (drop (Z.to_nat (begin_ b)) _buffer2)
                               (size_t_of l1 _buffer1))
      then (true, begin_ a, begin_ b)
      else diff_literals _buffer1 _buffer2 rest1 rest2 (begin_ a) (begin_ b)
  | a :: _, [] => (true, begin_ a, offset2)
  | [], b :: _ => (true, offset1, begin_ b)
  | [], [] => (false, offset1, offset2)
  end.

Definition is_blank (c : ascii) : bool :=
  Ascii.eqb c SPACE || Ascii.eqb c TAB || Ascii.eqb c LF.

(** [while ((b[i] == ' ') || (b[i] == '\t') || (b[i] == '\n')) i++] *)
Fixpoint skip_blanks_from (rest : list ascii) (i : nat) : nat :=
  match rest with
  | [] => i
  | c :: rest' => if is_blank c then skip_blanks_from rest' (S i) else i
  end.

Definition skip_blanks (buffer : list ascii) (i : nat) : nat :=
  skip_blanks_from (drop i buffer) i.

(** One round of the second loop of [diff].  The loop ends with [(true, i, j)]
    at a difference and with [(false, i, j)] when its condition fails. *)
Definition walk_step (newbuffer1 newbuffer2 : list ascii) (n1 n2 : nat)
    (st : nat * nat) : run (nat * nat + bool * nat * nat) :=
  let '(i, j) := st in
  if (i <? n1) && (j <? n2) then
    let i := skip_blanks newbuffer1 i in
    let j := skip_blanks newbuffer2 j in
    if negb (Ascii.eqb (get newbuffer1 i) (get newbuffer2 j))
    then Return (inr (true, i, j))
    else Return (inl (i + 1, j + 1))
  else Return (inr (false, i, j)).

(** [diff]: the result is [flag] (true: the functions differ) with
    [*offset1] and [*offset2]. *)
Definition diff (_buffer1 _newbuffer1 : list ascii) (fbegin1 fend1 : Z) (_literals1 : items)
    (_buffer2 _newbuffer2 : list ascii) (fbegin2 fend2 : Z) (_literals2 : items)
    : run (bool * Z * Z) :=
  buffer1 ← duplicate_substr _buffer1 fbegin1 fend1;
  newbuffer1 ← duplicate_substr _newbuffer1 fbegin1 fend1;
  buffer2 ← duplicate_substr _buffer2 fbegin2 fend2;
  newbuffer2 ← duplicate_substr _newbuffer2 fbegin2 fend2;
  let n1 := strlen buffer1 in
  let n2 := strlen buffer2 in
  if negb (n1 =? strlen newbuffer1) || negb (n2 =? strlen newbuffer2)
     || negb (strlen _buffer1 =? strlen _newbuffer1)
     || negb (strlen _buffer2 =? strlen _newbuffer2)
  then Stop (ExitCall "The size of the original and processed buffers do not match")
  else
    let literals1 := create_func_items _literals1 fbegin1 fend1 in
    let literals2 := create_func_items _literals2 fbegin2 fend2 in
    let '(flag, offset1, offset2) :=
      diff_literals _buffer1 _buffer2 literals1 literals2 (-1) (-1) in
    if flag then Return (true, offset1, offset2)
    else
      '(found, i, j) ← iterate (walk_step newbuffer1 newbuffer2 n1 n2) (S (S n1)) (0, 0);
      if found || (i <? n1) || (j <? n2)
      then Return (true, Z.of_nat i + fbegin1, Z.of_nat j + fbegin2)%Z
      else Return (false, offset1, offset2).

(** ** adiff_parse.c: merging the functions of the choices *)

Definition END : Z := (-1)%Z.
Definition ERROR : Z := (-2)%Z.

Definition between (x min max : Z) : bool := (x >=? min)%Z && (x <=? max)%Z.

(** [for (k = 0; k < destination->num_funcs; k++) if (strcmp (...) == 0) break]:
    the index of the first entry with this name. *)
Fixpoint find_func (destination : fentries) (name : list ascii) : option nat :=
  match destination with
  | [] => None
  | d :: rest =>
      if strcmp_eq (fname d) name then Some 0
      else option_map S (find_func rest name)
  end.

(** The body of the inner loop of [select_best_func_limits]. *)
Definition merge_entry (destination : fentries) (s : fentry) : fentries :=
  match find_func destination (fname s) with
  | Some k =>
      alter (fun d => FEntry (fname d) (MIN (fbegin d) (fbegin s)) (MAX (fend d) (fend s)))
            k destination
  | None => fadd destination (fname s) (fbegin s) (fend s)
  end.

(** [select_best_func_limits]: [counter] is the length of [source]. *)
Definition select_best_func_limits (source : list fentries) : fentries :=
  foldl (fun destination set => foldl merge_entry destination set) [] source.

(** The inner loop of [check_func_duplicates] for entry [i]. *)
Definition has_twin (functions : fentries) (i : nat) (f : fentry) : bool :=
  existsb (fun '(j, g) => negb (i =? j) && strcmp_eq (fname f) (fname g))
          (imap pair functions).

Definition check_func_duplicates (functions : fentries) : bool :=
  existsb (fun '(i, f) => has_twin functions i f) (imap pair functions).

Definition check_func_overlap (functions : fentries) : bool :=
  existsb (fun '(i, f) =>
             existsb (fun '(j, g) =>
                        negb (i =? j)
                        && (between (fbegin f) (fbegin g) (fend g)
                            || between (fend f) (fbegin g) (fend g)))
                     (imap pair functions))
          (imap pair functions).

(** What [find_functions] does that can be seen from outside: the calls
    of [find_functions_internal] and the lines it prints. *)
Inductive event : Type :=
| Call (choice : Z)
| Print (line : string).

(** [printf ("%i", z)] *)
Definition show_int (z : Z) : string := NilZero.string_of_int (Z.to_int z).

Definition warning_too_large (number_of_choices limit : Z) : string :=
  ("WARNING: search space for pragmas in too large (number_of_choices = "
   ++ show_int number_of_choices ++ "), reducing it to " ++ show_int limit
   ++ ": RESULTS CAN BE INCORRECT")%string.
Definition warning_duplicates : string :=
  "WARNING: duplicate function names found: RESULTS CAN BE INCORRECT".
Definition warning_overlap : string :=
  "WARNING: function declarations overlapped: RESULTS can show more changed functions than necessary".

(** A 32-bit [int] after an operation that can overflow. *)
Definition wrap (z : Z) : Z := ((z + 2 ^ 31) mod 2 ^ 32 - 2 ^ 31)%Z.

Definition INT_MIN : Z := (- 2 ^ 31)%Z.
Definition INT_MAX : Z := (2 ^ 31 - 1)%Z.

(** [printf ("%lf", n / 1024.0 / 1024.0)] for an [int] [n]: the quotient
    is a [double] without rounding, and it is shown with six decimals,
    rounded to the nearest, and to the even one of two nearest. *)
Definition show_megabytes (n : Z) : string :=
  let q := (Z.abs n * 1000000)%Z in
  let d := (q / 2 ^ 20)%Z in
  let r := (q mod 2 ^ 20)%Z in
  let d := if (2 ^ 19 <? r)%Z || ((r =? 2 ^ 19)%Z && Z.odd d) then (d + 1)%Z else d in
  let decimals := show_int (d mod 1000000) in
  ((if (n <? 0)%Z then "-" else EmptyString)
   ++ show_int (d / 1000000) ++ "."
   ++ string_of_list_ascii (replicate (6 - String.length decimals) "0"%char)
   ++ decimals)%string.

(** adiff_storage.c: [Malloc (size)].  Its argument is an [int], which
    [malloc] takes for a [size_t]: a negative size asks for more than
    there is, and [Malloc] ends the process. *)
Definition Malloc (size : Z) : run unit :=
  if (size <? 0)%Z
  then Stop (ExitCall ("Cannot allocate " ++ show_megabytes size ++ " MB of memory"))
  else Return tt.

(** [sizeof (fentries)]: two [int] and a pointer. *)
Definition sizeof_fentries : Z := 16.

Section FindFunctions.

(** [find_functions_internal buffer choice] with the text that the
    global [error_message] holds when it is called: the value it
    returns, the functions it adds to the empty set it is handed,
    [*number_of_choices], and the text that [error_message] holds
    after it. *)
Variable find_functions_internal :
  list ascii -> Z -> string -> run (Z * fentries * Z * string).

Variable number_of_choices_limit : Z.

(** A call of [find_functions_internal], seen from outside. *)
Definition call (buffer : list ascii) (choice : Z) (error_message : string)
    : printing event (Z * fentries * Z * string) :=
  ([Call choice], find_functions_internal buffer choice error_message).

(** The loop over the choices: the sets of the choices that did not
    return [ERROR], in order, and [error_message] after it.
    [functions_arr] has room for [capacity] sets, and [counter] of them
    are filled. *)
Fixpoint eval_choices (buffer : list ascii) (number_of_choices capacity : Z)
    (choices : list Z) (counter : nat) (error_message : string)
    : printing event (list fentries * string) :=
  match choices with
  | [] => mret ([], error_message)
  | i :: rest =>
      _ ← quiet (if (Z.of_nat counter <? capacity)%Z then Return tt else Stop OutOfBounds);
      '(error, funcs, x, error_message) ← call buffer i EmptyString;
      _ ← quiet (assert (x =? number_of_choices)%Z);
      '(arr, error_message) ←
        eval_choices buffer number_of_choices capacity rest
                     (if (error =? ERROR)%Z then counter else S counter) error_message;
      mret (if (error =? ERROR)%Z then arr else funcs :: arr, error_message)
  end.

(** [find_functions]: the calls it makes and the lines it prints, the
    functions it hands back, and [error_message] after it. *)
Definition find_functions (buffer : list ascii) (error_message : string)
    : printing event (fentries * string) :=
  '(_, _, number_of_choices, error_message) ← call buffer (-1)%Z error_message;
  let too_large := (number_of_choices >? number_of_choices_limit)%Z in
  _ ← (if too_large
       then say (Print (warning_too_large number_of_choices number_of_choices_limit))
       else mret tt);
  let current_number_of_choices :=
    if too_large then number_of_choices_limit else number_of_choices in
  (* the size is a [size_t] that [Malloc] takes for an [int] *)
  let size := wrap ((number_of_choices + 10) * sizeof_fentries) in
  _ ← quiet (Malloc size);
  '(functions_arr, error_message) ←
    eval_choices buffer number_of_choices (size / sizeof_fentries)
                 (Z.of_nat <$> seq 0 (Z.to_nat current_number_of_choices))
                 0 error_message;
  if (length functions_arr =? 0)
  then quiet (Stop (ExitCall ("ERROR: " ++ error_message)))
  else
    let functions := select_best_func_limits functions_arr in
    _ ← (if check_func_duplicates functions then say (Print warning_duplicates) else mret tt);
    _ ← (if check_func_overlap functions then say (Print warning_overlap) else mret tt);
    mret (functions, error_message).

End FindFunctions.

(** ** adiff_pragmas.c: the choices of branches *)

(** [a / b] and [a % b] on [int]. *)
Definition int_div (a b : Z) : run Z :=
  if (b =? 0)%Z || ((a =? INT_MIN)%Z && (b =? -1)%Z) then Stop ArithmeticTrap
  else Return (Z.quot a b).

Definition int_mod (a b : Z) : run Z :=
  if (b =? 0)%Z || ((a =? INT_MIN)%Z && (b =? -1)%Z) then Stop ArithmeticTrap
  else Return (Z.rem a b).

Fixpoint compute_depth_width (Pragmas : element) : depth_width :=
  match Pragmas with
  | Element type _ _ _ list_ =>
      let n := Z.of_nat (length list_) in
      let max_dw :=
        (fix children (l : list element) (max_dw : depth_width) : depth_width :=
           match l with
           | [] => max_dw
           | c :: l' =>
               let dw := compute_depth_width c in
               children l' (DW (MAX (depth max_dw) (depth dw))
                               (MAX (width max_dw) (width dw)))
           end) list_ (DW 0 0) in
      match type with
      | OR => DW (depth max_dw + 1) (MAX (width max_dw) n)
      | _ => max_dw
      end
  end.

(** [for (i = 0; i < dw.depth; i++) s *= dw.width] *)
Definition compute_VS (dw : depth_width) : Z :=
  Nat.iter (Z.to_nat (depth dw)) (fun s => wrap (s * width dw)) 1%Z.

(** The array [powers] of [create_selectors], for [n] levels:
    [powers[n - 1] = width] and [powers[i] = powers[i + 1] * width]. *)
Fixpoint powers (width : Z) (n : nat) : list Z :=
  match n with
  | O => []
  | S O => [width]
  | S n' =>
      let rest := powers width n' in
      wrap (hd 0%Z rest * width) :: rest
  end.

(** [selectors[i]] *)
Definition selector_digit (dw : depth_width) (selector : Z) (pw : list Z)
    (n i : nat) : run Z :=
  if i <? n - 1 then
    match pw !! (i + 1) with
    | Some p => q ← int_div selector p; int_mod q (width dw)
    | None => Stop OutOfBounds
    end
  else int_mod selector (width dw).

(** [create_selectors]: the [dw.depth] first cells of [selectors]. *)
Definition create_selectors (dw : depth_width) (selector : Z) : run (list Z) :=
  let n := Z.to_nat (depth dw) in
  _ ← assert (0 <? depth dw)%Z;
  mapM (selector_digit dw selector (powers (width dw) n) n) (seq 0 n).

(** [selector = selectors[depth]; if (selector >= n) selector = n - 1;] *)
Definition clamp (selector n : Z) : Z :=
  if (selector >=? n)%Z then (n - 1)%Z else selector.

(** The items [select_branch_internal] adds at an OR node: the text of
    every branch but the selected one. *)
Definition unselected (list_ : list element) (selector : Z) (deleted : items) : items :=
  foldl (fun deleted '(i, c) =>
           if negb (Z.of_nat i =? selector)%Z
           then add_item deleted (elem_text_begin c) (elem_text_end c) OTHER
           else deleted)
        deleted (imap pair list_).

(** [select_branch_internal].  A cell of [selectors] that was not written
    and a branch outside [list] are accesses out of bounds. *)
Fixpoint select_branch_internal (Pragmas : element) (deleted : items)
    (selectors : list Z) (depth : nat) : run items :=
  match Pragmas with
  | Element OR _ _ _ list_ =>
      match selectors !! depth with
      | None => Stop OutOfBounds
      | Some selector =>
          let selector := clamp selector (Z.of_nat (length list_)) in
          let deleted := unselected list_ selector deleted in
          if (selector <? 0)%Z then Stop OutOfBounds
          else
            (fix branch (l : list element) (k : nat) : run items :=
               match l, k with
               | [], _ => Stop OutOfBounds
               | c :: _, O => select_branch_internal c deleted selectors (S depth)
               | _ :: l', S k' => branch l' k'
               end) list_ (Z.to_nat selector)
      end
  | Element _ _ _ _ list_ =>
      (fix children (l : list element) (deleted : items) : run items :=
         match l with
         | [] => Return deleted
         | c :: l' =>
             deleted ← select_branch_internal c deleted selectors depth;
             children l' deleted
         end) list_ deleted
  end.

Definition select_branch (Pragmas : element) (selectors : list Z) : run items :=
  select_branch_internal Pragmas [] selectors 0.

(** The OR nodes [select_branch_internal] comes to, in order: for each
    its number of branches and the selector it uses after the clamp. *)
Fixpoint used_selectors (Pragmas : element) (selectors : list Z) (depth : nat)
    : list (Z * Z) :=
  match Pragmas with
  | Element OR _ _ _ list_ =>
      match selectors !! depth with
      | None => []
      | Some selector =>
          let n := Z.of_nat (length list_) in
          let selector := clamp selector n in
          (n, selector) ::
          (if (selector <? 0)%Z then []
           else
             (fix branch (l : list element) (k : nat) : list (Z * Z) :=
                match l, k with
                | [], _ => []
                | c :: _, O => used_selectors c selectors (S depth)
                | _ :: l', S k' => branch l' k'
                end) list_ (Z.to_nat selector))
      end
  | Element _ _ _ _ list_ =>
      (fix children (l : list element) : list (Z * Z) :=
         match l with
         | [] => []
         | c :: l' => used_selectors c selectors depth ++ children l'
         end) list_
  end.

(** ** adiff.c *)

(** The global flags that [main] sets from the command line. *)
Record globals : Type :=
  Globals { flag_print_all_funcs : bool;
            flag_find_full_function : bool;
            flag_nested_comments : bool;
            number_of_choices_limit : Z }.

(** How the process ends: [return s] from [main] and [exit (s)], or a
    signal after [assert] or an undefined operation. *)
Inductive termination : Type :=
| Exited (status : Z)
| Killed (s : stop).

Definition termination_of (s : stop) : termination :=
  match s with
  | ExitCall _ => Exited (-1)
  | _ => Killed s
  end.

(** The line an [exit] prints on its way out. *)
Definition last_words (s : stop) : list string :=
  match s with
  | ExitCall msg => [msg]
  | _ => []
  end.

Definition usage (argv0 : list ascii) : string :=
  (string_of_list_ascii argv0
   ++ " <input1> <input2> [<-show_all> print all functions] [<-body_only> compare whole functions declaration] [-not_nested disable nested comments] [-vs=<n> is the search space size for pragmas]")%string.

Section Main.

(** [compare_functions] under the flags: the lines it prints, and
    whether it returns. *)
Variable compare_functions : globals -> list ascii -> list ascii -> printing string unit.

(** [sscanf (arg, "-vs=%i", &x)]: the number it stores in [x], if any. *)
Variable sscanf_vs : list ascii -> option Z.

(** The loop of [main] over [argv[3 ..]]. *)
Fixpoint parse_flags (args : list (list ascii)) (g : globals) : run globals :=
  match args with
  | [] => Return g
  | arg :: rest =>
      if strcmp_eq arg (chars "-show_all")
      then parse_flags rest
             (Globals true (flag_find_full_function g) (flag_nested_comments g)
                      (number_of_choices_limit g))
      else if strcmp_eq arg (chars "-body_only")
      then parse_flags rest
             (Globals (flag_print_all_funcs g) false (flag_nested_comments g)
                      (number_of_choices_limit g))
      else if strcmp_eq arg (chars "-not_nested")
      then parse_flags rest
             (Globals (flag_print_all_funcs g) (flag_find_full_function g) false
                      (number_of_choices_limit g))
      else if strncmp_eq arg (chars "-vs=") 4
      then parse_flags rest
             (Globals (flag_print_all_funcs g) (flag_find_full_function g)
                      (flag_nested_comments g)
                      (default (number_of_choices_limit g) (sscanf_vs arg)))
      else Stop (ExitCall ("Invalid argument " ++ string_of_list_ascii arg))
  end.

(** [main]: the lines printed and the way the process ends.  [argc] is
    the length of [argv]. *)
Definition main (argv : list (list ascii)) : list string * termination :=
  if length argv <? 3 then ([usage (nth 0 argv [])], Exited 0)
  else
    match parse_flags (drop 3 argv) (Globals false true true 500) with
    | Stop s => (last_words s, termination_of s)
    | Return g =>
        match compare_functions g (nth 1 argv []) (nth 2 argv []) with
        | (out, Stop s) =>
            (["Processing functions in two files started"%string] ++ out
             ++ last_words s,
             termination_of s)
        | (out, Return _) =>
            (["Processing functions in two files started"%string] ++ out
             ++ ["Processing functions in two files finished"%string],
             Exited 0)
        end
    end.

End Main.

(** * The rest of the pipeline *)

(** ** adiff_storage.c: copies of items *)

(** [copy_items_type]: the items of [orig] of the type [type], added in
    their order to a [new] that starts empty. *)
Definition copy_items_type (orig : items) (type : pragma_type) : items :=
  foldl (fun new it =>
           if bool_decide (type_ it = type)
           then add_item new (begin_ it) (end_ it) (type_ it)
           else new)
        [] orig.

(** [delete_items_type]: the items of [orig] of any other type. *)
Definition delete_items_type (orig : items) (type : pragma_type) : items :=
  foldl (fun new it =>
           if bool_decide (type_ it <> type)
           then add_item new (begin_ it) (end_ it) (type_ it)
           else new)
        [] orig.

(** [create_items_from_functions]: one item of type [OTHER] for the
    extent of each function. *)
Definition create_items_from_functions (functions : fentries) : items :=
  foldl (fun fitems f => add_item fitems (fbegin f) (fend f) OTHER) [] functions.

(** ** adiff_parse.c: line numbers *)

Definition incorrect_usage (index : Z) (n : nat) : string :=
  ("Incorrect usage of get_line_number (index = " ++ show_int index
   ++ ", buffer length = " ++ show_int (Z.of_nat n) ++ ")")%string.

(** [get_line_number]: one more than the number of newlines before
    [index]. *)
Definition get_line_number (buffer : list ascii) (index : Z) : run Z :=
  if (index <? 0)%Z then Return (-1)%Z
  else if (index >? Z.of_nat (strlen buffer))%Z
  then Stop (ExitCall (incorrect_usage index (strlen buffer)))
  else Return (foldl (fun count i =>
                        if Ascii.eqb (get buffer i) LF then (count + 1)%Z else count)
                     1%Z (seq 0 (Z.to_nat index))).

(** [invert]: the string written to [dest], a buffer of its own. *)
Definition invert (src : list ascii) : list ascii :=
  let n := strlen src in
  (fun i => get src (n - i - 1)) <$> seq 0 n.

(** ** adiff_tokens.c: identifiers and the search for a token *)

Definition is_identifier (token : list ascii) : bool :=
  let n := strlen token in
  if n =? 0 then false
  else forallb (fun i => negb (is_delimiter (get token i))) (seq 0 n).

(** One round of the loop of [find_token]. *)
Definition find_token_step (buffer : list ascii) (n : nat) (target : list ascii)
    (index : nat) : run (nat + option nat) :=
  match get_token buffer n index with
  | None => Return (inr None)
  | Some t =>
      if strcmp_eq (tk_text t) target then Return (inr (Some (tk_begin t)))
      else Return (inl (tk_next t))
  end.

(** [find_token]: [None] is [-1], [Some begin] the offset of the first
    token from [index] on that reads [target]. *)
Definition find_token (buffer : list ascii) (n index : nat) (target : list ascii)
    : run (option nat) :=
  iterate (find_token_step buffer n target) (S n) index.

Definition is_data_declaration (token : list ascii) : bool :=
  strcmp_eq token (chars "struct") || strcmp_eq token (chars "union")
  || strcmp_eq token (chars "enum") || strcmp_eq token (chars "=").

(** ** adiff_parse.c and adiff_pragmas.c: the lines of directives *)

(** [while ((index > 0) && (buffer[index] != '\n')) index--] *)
Fixpoint scan_back (buffer : list ascii) (index : nat) : nat :=
  match index with
  | O => O
  | S index' =>
      if Ascii.eqb (get buffer index) LF then index else scan_back buffer index'
  end.

Definition move_to_BOL (buffer : list ascii) (index : nat) : nat :=
  if index <=? 0 then index
  else
    let index := scan_back buffer (index - 1) in
    if Ascii.eqb (get buffer index) LF then S index else index.

(** [while ((index < n) && (buffer[index] != '\n')) index++], with [k]
    the distance from [index] to [n]. *)
Fixpoint scan_forth (buffer : list ascii) (k index : nat) : nat :=
  match k with
  | O => index
  | S k' =>
      if Ascii.eqb (get buffer index) LF then index
      else scan_forth buffer k' (S index)
  end.

Definition move_to_EOL (buffer : list ascii) (n index : nat) : run nat :=
  if n <=? index then Return index
  else
    let index := scan_forth buffer (n - index) index in
    let index := if (0 <? n) && (n <=? index) then index - 1 else index in
    _ ← assert (index <? n);
    Return index.

(** [get_line]: [None] is [-1]; the line is handed back as a token, with
    [lbegin], [lend] and the index of the byte after the line. *)
Definition get_line (buffer : list ascii) (n index : nat) : run (option token) :=
  if n <=? index then Return None
  else
    let lbegin := move_to_BOL buffer index in
    lend ← move_to_EOL buffer n index;
    let m := lend + 1 - lbegin in
    Return (Some (Token (lend + 1) lbegin lend (cstr (take m (drop lbegin buffer))))).

Definition get_pragma_type (token : list ascii) : pragma_type :=
  if Ascii.eqb (get token 0) NUL then OTHER
  else if strcmp_eq token (chars "#define") then PRAGMA_OTHER
  else if strcmp_eq token (chars "#undef") then PRAGMA_OTHER
  else if strcmp_eq token (chars "#if") then PRAGMA_IF
  else if strcmp_eq token (chars "#ifdef") then PRAGMA_IF
  else if strcmp_eq token (chars "#ifndef") then PRAGMA_IF
  else if strcmp_eq token (chars "#else") then PRAGMA_ELSE
  else if strcmp_eq token (chars "#elif") then PRAGMA_ELSE
  else if strcmp_eq token (chars "#endif") then PRAGMA_ENDIF
  else if Ascii.eqb (get token 0) "#" then PRAGMA_OTHER
  else OTHER.

(** [extract_pragma_name]: the kind of the first token of the line. *)
Definition extract_pragma_name (line : list ascii) : pragma_type :=
  match get_token line (strlen line) 0 with
  | Some t => get_pragma_type (tk_text t)
  | None => OTHER
  end.

(** One round of the loop of [find_pragmas]; the state is [index] and
    the items found so far. *)
Definition find_pragmas_step (buffer : list ascii) (n : nat) (st : nat * items)
    : run (nat * items + items) :=
  let '(index, pragmas) := st in
  r ← get_line buffer n index;
  match r with
  | None => Return (inr pragmas)
  | Some l =>
      let ptype := extract_pragma_name (tk_text l) in
      if bool_decide (ptype = OTHER) then Return (inl (tk_next l, pragmas))
      else Return (inl (tk_next l,
                        add_item pragmas (Z.of_nat (tk_begin l)) (Z.of_nat (tk_end l)) ptype))
  end.

(** [find_pragmas]: the lines of [buffer] that open with a directive. *)
Definition find_pragmas (buffer : list ascii) : run items :=
  let n := strlen buffer in
  iterate (find_pragmas_step buffer n) (S n) (0, []).

(** ** adiff_storage.c and adiff_pragmas.c: the tree of directives *)

(** [create_pragmas]: a node without children.  The members
    [pragma_begin], [pragma_end] and [pragma_type] of the C structure,
    which only the debugging output reads, are not kept in [element]. *)
Definition create_pragmas (pid tbegin tend : Z) (type : comp_type) : element :=
  Element type pid tbegin tend [].

(** [add_pragma]: the child goes to the end of [list]. *)
Definition add_pragma (Element' subelement : element) : element :=
  match Element' with
  | Element type pid tbegin tend list_ => Element type pid tbegin tend (list_ ++ [subelement])
  end.

(** [p->pid = pid] *)
Definition set_pid (p : element) (pid : Z) : element :=
  match p with
  | Element type _ tbegin tend list_ => Element type pid tbegin tend list_
  end.

(** [input->data[index]]: an index outside the items is an access out
    of bounds. *)
Definition data (input : items) (index : Z) : run item :=
  if (index <? 0)%Z then Stop OutOfBounds
  else match input !! Z.to_nat index with
       | Some Item' => Return Item'
       | None => Stop OutOfBounds
       end.

(** The loop of [find_next_pragma] at [index], with [k] items left up to
    [end]: [None] when the loop comes to its end without a result. *)
Fixpoint find_next_pragma_loop (input : items) (counter : Z) (index k : nat)
    : run (option nat) :=
  match k with
  | O => Return None
  | S k' =>
      match input !! index with
      | None => Stop OutOfBounds
      | Some Item' =>
          match type_ Item' with
          | PRAGMA_IF => find_next_pragma_loop input (counter + 1) (S index) k'
          | PRAGMA_ELSE =>
              if (counter =? 0)%Z then Return (Some index)
              else find_next_pragma_loop input counter (S index) k'
          | PRAGMA_ENDIF =>
              if (counter =? 0)%Z then Return (Some index)
              else find_next_pragma_loop input (counter - 1) (S index) k'
          | _ => Stop (ExitCall "Invalid pragma type")
          end
      end
  end.

(** [find_next_pragma]: [None] is [-1].  The two line numbers of the
    last message are computed in the order of the arguments. *)
Definition find_next_pragma (orig_buffer : list ascii) (input : items) (start end' : Z)
    : run (option Z) :=
  let n := Z.of_nat (length input) in
  if (start <? 0)%Z || (start >=? n)%Z || (end' <? 0)%Z || (end' >=? n)%Z
     || (start >? end')%Z
  then Return None
  else
    r ← find_next_pragma_loop input 0 (Z.to_nat start) (Z.to_nat (end' - start + 1));
    match r with
    | Some index => Return (Some (Z.of_nat index))
    | None =>
        first ← data input start;
        last ← data input end';
        l1 ← get_line_number orig_buffer (begin_ first);
        l2 ← get_line_number orig_buffer (end_ last);
        Stop (ExitCall ("Cound not find closing pragma starting from " ++ show_int l1
                        ++ " and ending at " ++ show_int l2))
    end.

(** One round of the loop of [parse_OR_pragmas]; the state is [index],
    [done] and the node built so far.  [parse_AND] is the call of
    [parse_AND_pragmas] on a range of the same items. *)
Definition parse_OR_round (parse_AND : Z -> Z -> run (element * Z))
    (orig_buffer : list ascii) (input : items) (end' : Z)
    (st : Z * bool * element) : run (Z * bool * element + element * Z) :=
  let '(index, done, Pragmas) := st in
  let oldindex := index in
  r ← (if (done : bool) then find_next_pragma orig_buffer input (index + 1) end'
       else Return (Some index));
  oldItem ← data input oldindex;
  match r with
  | None =>
      l ← get_line_number orig_buffer (begin_ oldItem);
      Stop (ExitCall ("Cannot find matching #else or #endif for #if pragma at "
                      ++ show_int l))
  | Some index =>
      Item' ← data input index;
      if negb done then
        if negb (bool_decide (type_ oldItem = PRAGMA_IF))
        then Stop (ExitCall "Internal error in parsing pragmas: call to 'parse_OR_pragmas' was made without #if present")
        else Return (inl (index, true, Pragmas))
      else
        match type_ Item' with
        | PRAGMA_IF =>
            l ← get_line_number orig_buffer (begin_ Item');
            Stop (ExitCall ("Internal error in parsing pragmas: program used #if from the lower level to be as in the upper level at "
                            ++ show_int l))
        | PRAGMA_ELSE =>
            '(p, _) ← parse_AND (oldindex + 1)%Z (index - 1)%Z;
            Return (inl (index, true, add_pragma Pragmas (set_pid p oldindex)))
        | PRAGMA_ENDIF =>
            '(p, _) ← parse_AND (oldindex + 1)%Z (index - 1)%Z;
            Return (inr (add_pragma Pragmas (set_pid p oldindex), index))
        | _ => Stop (ExitCall "Internal error in pragmas handling")
        end
  end.

(** One round of the loop of [parse_AND_pragmas]; the state is [index]
    and the node built so far. *)
Definition parse_AND_round (parse_OR : Z -> Z -> run (element * Z))
    (orig_buffer : list ascii) (input : items) (end' : Z)
    (st : Z * element) : run (Z * element + element * Z) :=
  let '(index, Pragmas) := st in
  if (index >? end')%Z then Return (inr (Pragmas, index))
  else
    Item' ← data input index;
    match type_ Item' with
    | PRAGMA_IF =>
        '(p, index') ← parse_OR index end';
        Return (inl ((index' + 1)%Z, add_pragma Pragmas (set_pid p index)))
    | PRAGMA_ELSE | PRAGMA_ENDIF =>
        l ← get_line_number orig_buffer (begin_ Item');
        Stop (ExitCall ("#else or #endif appear without #if at " ++ show_int l))
    | _ =>
        Stop (ExitCall "Internal error in pragmas handling: more pragma types are present than should be")
    end.

(** [parse_OR_pragmas] and [parse_AND_pragmas]: the node and [*_index].
    The two functions call each other; [fuel] bounds the depth of the
    calls, and the loops run for as many rounds as there are items. *)
Fixpoint parse_OR_pragmas (fuel : nat) (orig_buffer : list ascii) (input : items)
    (begin end' : Z) {struct fuel} : run (element * Z) :=
  match fuel with
  | O => Stop NoFuel
  | S fuel' =>
      _ ← assert (0 <=? begin)%Z;
      _ ← assert (begin <=? end')%Z;
      iterate (parse_OR_round (parse_AND_pragmas fuel' orig_buffer input)
                              orig_buffer input end')
              (S (S (length input)))
              (begin, false, create_pragmas (-1) (-1) (-1) OR)
  end
with parse_AND_pragmas (fuel : nat) (orig_buffer : list ascii) (input : items)
    (begin end' : Z) {struct fuel} : run (element * Z) :=
  match fuel with
  | O => Stop NoFuel
  | S fuel' =>
      let Pragmas := create_pragmas (-1) (-1) (-1) AND in
      if (begin >? end')%Z then Return (Pragmas, (-1)%Z)
      else
        iterate (parse_AND_round (parse_OR_pragmas fuel' orig_buffer input)
                                 orig_buffer input end')
                (S (S (length input)))
                (begin, Pragmas)
  end.

(** ** adiff_pragmas.c: the text of the branches *)

(** [fill_pdata]: the directive of every node is read from [inputs],
    and the text of the node is reset.  Of what the function stores,
    [element] keeps the text. *)
Fixpoint fill_pdata (inputs : items) (Pragma : element) : run element :=
  match Pragma with
  | Element type pid _ _ list_ =>
      _ ← (if (0 <=? pid)%Z then data inputs pid ≫= (fun _ => Return tt) else Return tt);
      list' ← mapM (fill_pdata inputs) list_;
      Return (Element type pid (-1) (-1) list')
  end.

(** [fill_tdata]: the text of a node with children runs from the begin
    of its first child to the end of its last child; the text of a branch
    without children runs from its directive to the byte before the next
    directive. *)
Fixpoint fill_tdata (inputs : items) (Pragma : element) : run element :=
  match Pragma with
  | Element type pid text_begin text_end list_ =>
      list' ← mapM (fill_tdata inputs) list_;
      match type with
      | OR =>
          match head list', last list' with
          | Some first, Some last' =>
              Return (Element OR pid (elem_text_begin first) (elem_text_end last') list')
          | _, _ => Stop (ExitCall "Incorrect usage of OR-type pragma (internal error)")
          end
      | AND =>
          match head list', last list' with
          | Some first, Some last' =>
              Return (Element AND pid (elem_text_begin first) (elem_text_end last') list')
          | _, _ =>
              if (pid <? 0)%Z then Stop (ExitCall "Unassigned pid for AND-type pragma")
              else
                let first := pid in
                let last' := (pid + 1)%Z in
                if (last' >=? Z.of_nat (length inputs))%Z
                then Stop (ExitCall ("Internal error: didn't catch unmatched #if (first = "
                                     ++ show_int first ++ ", last = " ++ show_int last'
                                     ++ ")"))
                else
                  f ← data inputs first;
                  l ← data inputs last';
                  let text_end := (begin_ l - 1)%Z in
                  if (text_end <? 0)%Z
                  then Stop (ExitCall "Invalid pragma address: internal error")
                  else Return (Element AND pid (begin_ f) text_end list')
          end
      | TERM => Stop (ExitCall "Incorrect pragma element type (internal error)")
      end
  end.

(** ** adiff_parse.c: the functions of a file *)

(** What [get_next_function] hands back: the index to go on from with
    [fname], [*fbegin] and [*fend]; [END]; or [ERROR], with the text it
    leaves in [error_message]. *)
Inductive next_function : Type :=
| Found (index : nat) (fname : list ascii) (fbegin fend : nat)
| NoMore
| Failed (error_message : string).

(** [for (i = func_name_index; (i >= 0) && (i > prev_decl_end); i--)
    if (buffer[i] == ';') ...]: the offset of the [;] the loop breaks at. *)
Fixpoint last_semicolon (buffer : list ascii) (prev_decl_end : Z) (i : nat) : option nat :=
  if (Z.of_nat i >? prev_decl_end)%Z then
    if Ascii.eqb (get buffer i) ";" then Some i
    else match i with
         | O => None
         | S i' => last_semicolon buffer prev_decl_end i'
         end
  else None.

(** A round of [get_next_function] after the parameters of a function
    with a body were read: the limits of the function.  [old_index] is
    the offset after the parameters, [func_name_index] the index from
    which the token [(] was read. *)
Definition function_limits (g : globals) (buffer : list ascii) (n : nat)
    (prev_decl_end : Z) (func_name_index old_index : nat) (fname : list ascii)
    : run next_function :=
  r ← find_token buffer n old_index (chars "{");
  match r with
  | None => Return (Failed "Cannot find function body")
  | Some body_begin =>
      let fbegin :=
        if flag_find_full_function g then
          let fbegin :=
            match last_semicolon buffer prev_decl_end func_name_index with
            | Some i => (Z.of_nat i + 1)%Z
            | None => (prev_decl_end + 1)%Z
            end in
          if (fbegin <? 0)%Z then None
          else tk_begin <$> get_token buffer n (Z.to_nat fbegin)
        else Some body_begin in
      match fbegin with
      | None =>
          Return (Failed "Internal error in 'get_next_function' (no function name and body)")
      | Some fbegin =>
          r ← match_bracket buffer n body_begin (chars "{") (chars "}");
          match r with
          | None => Return (Failed "Cannot find function body")
          | Some fend => Return (Found (fend + 1) fname fbegin fend)
          end
      end
  end.

(** One round of the loop of [get_next_function]; the state is [index]
    and [token]. *)
Definition get_next_function_step (g : globals) (buffer : list ascii) (n : nat)
    (prev_decl_end : Z) (st : nat * list ascii)
    : run (nat * list ascii + next_function) :=
  let '(index, token) := st in
  let old_index := index in
  let old_token := token in
  match get_token buffer n index with
  | None => Return (inr NoMore)
  | Some t =>
      let token := tk_text t in
      let index := tk_next t in
      if strcmp_eq token (chars "(") then
        if is_identifier old_token then
          let func_name_index := old_index in
          let fname := old_token in
          r ← match_bracket buffer n old_index (chars "(") (chars ")");
          match r with
          | None => Return (inr (Failed "Cannot find matching ')'"))
          | Some index =>
              let index := index + 1 in
              if n <=? index then Return (inr (Failed "Cannot find function body"))
              else
                let old_index := index in
                match get_token buffer n index with
                | Some t' =>
                    if strcmp_eq (tk_text t') (chars ";") || strcmp_eq (tk_text t') (chars ",")
                    then Return (inl (tk_next t', tk_text t'))
                    else inr <$> function_limits g buffer n prev_decl_end
                                                 func_name_index old_index fname
                | None =>
                    (* [token] keeps its text, and [index] is -1 *)
                    if strcmp_eq token (chars ";") || strcmp_eq token (chars ",")
                    then Return (inr NoMore)
                    else inr <$> function_limits g buffer n prev_decl_end
                                                 func_name_index old_index fname
                end
          end
        else
          r ← match_bracket buffer n old_index (chars "(") (chars ")");
          match r with
          | None => Return (inr (Failed "No matching ')'"))
          | Some index => Return (inl (index + 1, token))
          end
      else if strcmp_eq token (chars "[") then
        r ← match_bracket buffer n old_index (chars "[") (chars "]");
        match r with
        | None => Return (inr (Failed "Cannot find matching ']'"))
        | Some index => Return (inl (index, token))
        end
      else if strcmp_eq token (chars "{") then
        r ← match_bracket buffer n old_index (chars "{") (chars "}");
        match r with
        | None => Return (inr (Failed "Cannot find matching '}'"))
        | Some index => Return (inl (index, token))
        end
      else Return (inl (index, token))
  end.

(** [get_next_function], for [current >= 0]. *)
Definition get_next_function (g : globals) (buffer : list ascii) (current : nat)
    (prev_decl_end : Z) : run next_function :=
  let n := strlen buffer in
  iterate (get_next_function_step g buffer n prev_decl_end) (S n) (current, []).

(** One round of the loop of [find_functions_internal] over the
    functions; the state is [index], [prev_decl_end] and [functions], the
    result the value that ends the loop, with the text that
    [error_message] then holds: [get_next_function] writes it before it
    returns [ERROR]. *)
Definition next_functions_step (g : globals) (newbuffer : list ascii)
    (error_message : string) (st : nat * Z * fentries)
    : run (nat * Z * fentries + Z * fentries * string) :=
  let '(index, prev_decl_end, functions) := st in
  r ← get_next_function g newbuffer index prev_decl_end;
  match r with
  | Found index name begin end' =>
      Return (inl (index, Z.of_nat end',
                   fadd functions name (Z.of_nat begin) (Z.of_nat end')))
  | NoMore => Return (inr (END, functions, error_message))
  | Failed error_message => Return (inr (ERROR, functions, error_message))
  end.

(** [find_functions_internal], called when the global [error_message]
    holds the text [error_message]: the value it returns, the functions
    it adds to the empty set it is handed, [*number_of_choices], and the
    text of [error_message] after it. *)
Definition find_functions_internal (g : globals) (buffer : list ascii) (choice : Z)
    (error_message : string) : run (Z * fentries * Z * string) :=
  let n := strlen buffer in
  let newbuffer := cstr buffer in
  Items ← find_comments_and_literals (ScanFlags (flag_nested_comments g) true true true)
                                     newbuffer [];
  newbuffer ← clear newbuffer Items;
  Items_pragmas ← find_pragmas newbuffer;
  let Items_pragmas_other := copy_items_type Items_pragmas PRAGMA_OTHER in
  newbuffer ← clear newbuffer Items_pragmas_other;
  let Items_pragmas_control := delete_items_type Items_pragmas PRAGMA_OTHER in
  '(newbuffer, number_of_choices) ←
    (if 0 <? length Items_pragmas_control then
       '(Pragmas, _) ← parse_AND_pragmas (length Items_pragmas_control + 2) buffer
                                         Items_pragmas_control
                                         0 (Z.of_nat (length Items_pragmas_control) - 1);
       Pragmas ← fill_pdata Items_pragmas_control Pragmas;
       Pragmas ← fill_tdata Items_pragmas_control Pragmas;
       let dw := compute_depth_width Pragmas in
       let number_of_choices := compute_VS dw in
       if (choice >=? 0)%Z then
         selectors ← create_selectors dw choice;
         Items_pragmas_unselected ← select_branch Pragmas selectors;
         newbuffer ← clear newbuffer Items_pragmas_unselected;
         Return (newbuffer, number_of_choices)
       else Return (newbuffer, number_of_choices)
     else Return (newbuffer, 1%Z));
  newbuffer ← clear newbuffer Items_pragmas;
  if (choice >=? 0)%Z then
    '(index, functions, error_message) ←
      iterate (next_functions_step g newbuffer error_message) (S n) (0, (-1)%Z, []);
    Return (index, functions, number_of_choices, error_message)
  else Return (0%Z, [], number_of_choices, error_message).

(** ** adiff_diff.c and adiff.c: the report *)

(** The lines that [compare_functions] and [diff_functions] print. *)
Inductive report : Type :=
| Missing (src : list ascii)
| Warning (line : string)
| Changed (fname : list ascii) (line1 line2 : Z)
| Same (fname : list ascii)
| Deleted (fname : list ascii) (line : Z)
| Added (fname : list ascii) (line : Z).

(** The name of a function as [printf] shows it, between double quotes. *)
Definition quoted (s : list ascii) : string :=
  String DQUOTE (string_of_list_ascii (cstr s) ++ String DQUOTE EmptyString)%string.

Definition show_report (r : report) : string :=
  match r with
  | Missing src => "File " ++ string_of_list_ascii (cstr src) ++ " is missing"
  | Warning line => line
  | Changed fname line1 line2 =>
      "Function " ++ quoted fname ++ " is changed at lines (" ++ show_int line1
      ++ ", " ++ show_int line2 ++ ")"
  | Same fname => "Function " ++ quoted fname ++ " is the same"
  | Deleted fname line =>
      "Function " ++ quoted fname ++ " is deleted at line " ++ show_int line
  | Added fname line =>
      "Function " ++ quoted fname ++ " is added at line " ++ show_int line
  end%string.

Section Report.

Variable g : globals.

(** What a comparison does to the file system, which is not modelled:
    four calls of [tempnam], two of [save_function] for the extents of
    the two functions, and the calls of [remove].  It ends the process
    with [exit (-1)] when a name or a file cannot be had. *)
Variable temporary_files : fentry -> fentry -> run unit.

(** The bytes of the file that [fopen] opens under a name, if it opens
    one; [stat] and [fread] agree with them. *)
Variable fs : list ascii -> option (list ascii).

(** [for (j = 0; j < functions->num_funcs; j++) if (strcmp (name, ...) == 0) break]:
    the first entry with this name. *)
Definition found (name : list ascii) (functions : fentries) : option fentry :=
  List.find (fun f => strcmp_eq name (fname f)) functions.

(** The two passes of [diff_functions] over a buffer: the literals are
    found and blanked, then the comments.  The result is [newbuffer] with
    [literals]. *)
Definition blank_literals_and_comments (buffer : list ascii) : run (list ascii * items) :=
  let newbuffer := cstr buffer in
  literals ← find_comments_and_literals (ScanFlags (flag_nested_comments g) true false false)
                                        newbuffer [];
  newbuffer ← clear newbuffer literals;
  comments ← find_comments_and_literals (ScanFlags (flag_nested_comments g) false true false)
                                        newbuffer [];
  newbuffer ← clear newbuffer comments;
  Return (newbuffer, literals).

(** A round of the first loop of [diff_functions] for a function found
    in both files: the line it prints when it is over.  The arguments of
    [printf] are taken from left to right. *)
Definition diff_function (buffer1 buffer2 : list ascii) (f1 f2 : fentry)
    : run (list report) :=
  _ ← temporary_files f1 f2;
  '(newbuffer1, literals1) ← blank_literals_and_comments buffer1;
  '(newbuffer2, literals2) ← blank_literals_and_comments buffer2;
  '(diff_flag, offset1, offset2) ←
    diff buffer1 newbuffer1 (fbegin f1) (fend f1) literals1
         buffer2 newbuffer2 (fbegin f2) (fend f2) literals2;
  if (diff_flag : bool) then
    line1 ← get_line_number buffer1 offset1;
    line2 ← get_line_number buffer2 offset2;
    Return [Changed (fname f1) line1 line2]
  else Return (if flag_print_all_funcs g then [Same (fname f1)] else []).

(** A round of a loop that prints when the round is over. *)
Definition round (r : run (list report)) : printing report unit :=
  match r with
  | Return lines => (lines, Return tt)
  | Stop s => ([], Stop s)
  end.

Fixpoint for_each {A : Type} (body : A -> run (list report)) (l : list A)
    : printing report unit :=
  match l with
  | [] => mret tt
  | a :: l' => _ ← round (body a); for_each body l'
  end.

(** [diff_functions]: the lines it prints. *)
Definition diff_functions (buffer1 buffer2 : list ascii) (functions1 functions2 : fentries)
    : printing report unit :=
  _ ← for_each (fun f1 =>
                  match found (fname f1) functions2 with
                  | Some f2 => diff_function buffer1 buffer2 f1 f2
                  | None =>
                      line ← get_line_number buffer1 (fbegin f1);
                      Return [Deleted (fname f1) line]
                  end) functions1;
  for_each (fun f2 =>
              match found (fname f2) functions1 with
              | Some _ => Return []
              | None =>
                  line ← get_line_number buffer2 (fbegin f2);
                  Return [Added (fname f2) line]
              end) functions2.

(** The buffer that [compare_functions] reads a file into; it prints a
    line for a file that is missing. *)
Definition read_file (src : list ascii) : printing report (list ascii) :=
  match fs src with
  | Some bytes => mret bytes
  | None => _ ← say (Missing src); mret []
  end.

(** The warnings among what [find_functions] does. *)
Definition warnings (log : list event) : list report :=
  omap (fun e => match e with
                 | Print line => Some (Warning line)
                 | Call _ => None
                 end) log.

(** [find_functions] as it is seen on the output. *)
Definition printed_warnings {A : Type} (m : printing event A) : printing report A :=
  (warnings (fst m), snd m).

Definition outside_of_functions : list ascii :=
  chars "#DATA DECLARATIONS OUTSIDE OF FUNCTIONS#".

(** [compare_functions]: the lines it prints.  [n1] and [n2] are the
    sizes of the files.  [error_message] is a global array, empty when
    the program starts. *)
Definition compare_functions (src1 src2 : list ascii) : printing report unit :=
  buffer1 ← read_file src1;
  let n1 := Z.of_nat (length buffer1) in
  buffer2 ← read_file src2;
  let n2 := Z.of_nat (length buffer2) in
  '(functions1, error_message) ←
    printed_warnings (find_functions (find_functions_internal g) (number_of_choices_limit g)
                                     buffer1 EmptyString);
  '(functions2, error_message) ←
    printed_warnings (find_functions (find_functions_internal g) (number_of_choices_limit g)
                                     buffer2 error_message);
  _ ← diff_functions buffer1 buffer2 functions1 functions2;
  let other1 := fadd [] outside_of_functions 0 n1 in
  let other2 := fadd [] outside_of_functions 0 n2 in
  let fitems1 := create_items_from_functions functions1 in
  let fitems2 := create_items_from_functions functions2 in
  buffer1_ ← quiet (clear (cstr buffer1) fitems1);
  buffer2_ ← quiet (clear (cstr buffer2) fitems2);
  diff_functions buffer1_ buffer2_ other1 other2.

(** The lines of [compare_functions] as [main] takes them. *)
Definition compare_functions_lines (src1 src2 : list ascii) : printing string unit :=
  let '(reports, r) := compare_functions src1 src2 in (map show_report reports, r).

End Report.

(** * The vocabulary of the properties *)

(** ** The command line *)

(** The claim of the specification for a wrong argument count: the
    process ends with a status other than 0. *)
Definition exits_nonzero (t : termination) : Prop :=
  match t with
  | Exited status => status <> 0%Z
  | Killed _ => True
  end.

(** ** Blanking *)

Definition in_span (begin end' : Z) (j : nat) : Prop :=
  (begin <= Z.of_nat j <= end')%Z.

(** The position [j] lies in the span of one of the items. *)
Definition covered (Items : list item) (j : nat) : Prop :=
  Exists (fun it => in_span (begin_ it) (end_ it) j) Items.

(** What [clear] asks of an item: its span lies below the terminator. *)
Definition item_in_buffer (buffer : list ascii) (it : item) : Prop :=
  (0 <= begin_ it < Z.of_nat (strlen buffer))%Z
  /\ (end_ it < Z.of_nat (strlen buffer))%Z.

(** ** Merging the functions of the choices *)

(** The entry carries the name [nm], as [strcmp] sees it. *)
Definition named (nm : list ascii) (e : fentry) : Prop :=
  strcmp_eq (fname e) nm = true.

#[global] Instance named_dec (nm : list ascii) (e : fentry) : Decision (named nm e).
Proof. unfold named. apply _. Defined.

(** No two entries carry the same name. *)
Definition distinct_names (D : list fentry) : Prop :=
  forall i j a b, D !! i = Some a -> D !! j = Some b -> named (fname a) b -> i = j.

(** [e] has the least begin and the greatest end of the entries [occ]. *)
Definition spans (e : fentry) (occ : list fentry) : Prop :=
  (exists s, s ∈ occ /\ fbegin e = fbegin s)
  /\ (forall s, s ∈ occ -> (fbegin e <= fbegin s)%Z)
  /\ (exists s, s ∈ occ /\ fend e = fend s)
  /\ (forall s, s ∈ occ -> (fend s <= fend e)%Z).

(** The entries of [L] with the name [nm]. *)
Definition occurrences (nm : list ascii) (L : list fentry) : list fentry :=
  filter (named nm) L.

(** What holds of [D] after the entries [L] were merged into the empty set. *)
Definition merged (D L : list fentry) : Prop :=
  distinct_names D
  /\ forall nm,
       (occurrences nm L = [] -> forall k d, D !! k = Some d -> ~ named nm d)
       /\ (occurrences nm L <> [] ->
           exists k e, D !! k = Some e /\ named nm e /\ spans e (occurrences nm L)).

(** Two choices, the function [g] in both: one entry, from 7 to 55. *)
Definition two_choices : list (list fentry) :=
  [[FEntry (chars "g") 7 27; FEntry (chars "h") 30 40];
   [FEntry (chars "g") 35 55]].

(** ** The cap on the number of choices *)

Section Choices.

Variable find_functions_internal :
  list ascii -> Z -> string -> run (Z * list fentry * Z * string).
Variable buffer : list ascii.

(** The set of a choice that returned something other than [ERROR]. *)
Definition survivor (i : Z) : option (list fentry) :=
  match find_functions_internal buffer i EmptyString with
  | Return (error, funcs, _, _) => if (error =? ERROR)%Z then None else Some funcs
  | Stop _ => None
  end.

(** The choice [i] returns to [find_functions], with the size of the
    choice space [number_of_choices] that the first call reported. *)
Definition returns (number_of_choices i : Z) : Prop :=
  exists error funcs error_message,
    find_functions_internal buffer i EmptyString
    = Return (error, funcs, number_of_choices, error_message).

End Choices.

(** The indices [0 .. n - 1]. *)
Definition first_choices (n : Z) : list Z := Z.of_nat <$> seq 0 (Z.to_nat n).

(** ** The selectors of a choice *)

(** Induction on a tree, with the property for the children of a node. *)
Section ElementInduction.

Variable P : element -> Prop.
Hypothesis node : forall type pid text_begin text_end list_,
  Forall P list_ -> P (Element type pid text_begin text_end list_).

Fixpoint element_ind (e : element) : P e :=
  match e with
  | Element type pid text_begin text_end list_ =>
      node type pid text_begin text_end list_
        ((fix children (l : list element) : Forall P l :=
            match l with
            | [] => @List.Forall_nil _ P
            | c :: l' => @List.Forall_cons _ P c l' (element_ind c) (children l')
            end) list_)
  end.

End ElementInduction.

(** Every OR node of the tree has a branch. *)
#[local] Unset Elimination Schemes.
Inductive or_nonempty : element -> Prop :=
| or_nonempty_node type pid text_begin text_end list_ :
    (type = OR -> list_ <> []) ->
    Forall or_nonempty list_ ->
    or_nonempty (Element type pid text_begin text_end list_).
#[local] Set Elimination Schemes.

(** [#if A / #else / #endif] followed by [#if B / #elif / #else / #endif]. *)
Definition two_conditionals : element :=
  Element AND (-1) 0 99
    [Element OR 0 0 40 [Element AND 0 0 20 []; Element AND 1 21 40 []];
     Element OR 3 50 99
       [Element AND 3 50 60 []; Element AND 4 61 80 []; Element AND 5 81 99 []]].

(** The loop of [compute_depth_width] over the children. *)
Definition children_depth_width : list element -> depth_width -> depth_width :=
  fix children (l : list element) (max_dw : depth_width) : depth_width :=
    match l with
    | [] => max_dw
    | c :: l' =>
        let dw := compute_depth_width c in
        children l' (DW (MAX (depth max_dw) (depth dw))
                        (MAX (width max_dw) (width dw)))
    end.

(** What the walk needs of the selectors at a node: none is negative,
    and there is one for every level from [d] down to the leaves. *)
Definition selectors_cover (Pragmas : element) (selectors : list Z) (d : nat) : Prop :=
  Forall (fun x => 0 <= x)%Z selectors
  /\ (Z.of_nat d + depth (compute_depth_width Pragmas) <= Z.of_nat (length selectors))%Z.

(** The walk from a node stays in the tree. *)
Definition stays_inside (Pragmas : element) (selectors : list Z) (d : nat) : Prop :=
  (forall deleted, exists deleted',
      select_branch_internal Pragmas deleted selectors d = Return deleted')
  /\ Forall (fun '(n, selector) => 0 <= selector < n)%Z
            (used_selectors Pragmas selectors d).

(** ** Tokens *)

(** A basic token in [buffer]: its extent, its text and where the scan
    goes on; it is one delimiter or a run of other bytes. *)
Record simple_token_at (buffer : list ascii) (index : nat) (t : token) : Prop := {
  st_index : index < strlen buffer;
  st_begin : tk_begin t = skip_spaces buffer index;
  st_extent : tk_begin t <= tk_end t < strlen buffer;
  st_next : tk_next t = skip_spaces buffer (S (tk_end t));
  st_text : tk_text t = take (tk_end t - tk_begin t + 1) (drop (tk_begin t) buffer);
  st_length : strlen (tk_text t) = tk_end t - tk_begin t + 1;
  st_delimiter :
    is_delimiter (get buffer (tk_begin t)) = true -> tk_end t = tk_begin t;
  st_word :
    is_delimiter (get buffer (tk_begin t)) = false ->
    forall i, tk_begin t <= i <= tk_end t -> is_delimiter (get buffer i) = false
}.

(** The operators the specification lists. *)
Definition recognized_operators : list string :=
  ["=="; "!="; "<="; ">="; "&&"; "||"; "++"; "--"; "->"; "<<"; ">>"; "/*"; "*/"]%string.

(** The pairs [compatible_tokens] accepts: an operator followed by [=],
    the doubled operators, the arrow and the comment brackets, each in
    both orders. *)
Definition merged_operators : list string :=
  ["<="; ">="; "=="; "+="; "-="; "/="; "*="; "&="; "|="; "%="; "^="; "~="; "!=";
   "=<"; "=>"; "=+"; "=-"; "=/"; "=*"; "=&"; "=|"; "=%"; "=^"; "=~"; "=!";
   "<<"; ">>"; "->"; ">-"; "++"; "--"; "||"; "&&"; "*/"; "/*"]%string.

Definition is_merged_operator (text : list ascii) : bool :=
  bool_decide (text ∈ chars <$> merged_operators).

(** The two basic tokens as one compound token. *)
Definition compound (t1 t2 : token) : token :=
  Token (tk_next t2) (tk_begin t1) (tk_end t2) (tk_text t1 ++ tk_text t2).

(** The first token is a lone [#]. *)
Definition lone_hash (text : list ascii) : Prop := text = chars "#".

(** ** Literals and comments *)

(** The number of backslashes at the head of [l]. *)
Fixpoint run_length (l : list ascii) : nat :=
  match l with
  | [] => 0
  | c :: l' => if Ascii.eqb c BACKSLASH then S (run_length l') else 0
  end.

(** The number of consecutive backslashes just before the position [p]. *)
Definition backslashes_before (buffer : list ascii) (p : nat) : nat :=
  run_length (reverse (take p buffer)).

(** A comment opens at [i]. *)
Definition opener_at (buffer : list ascii) (i : nat) : Prop :=
  get buffer i = "/" /\ get buffer (S i) = "*".

(** No [*/] follows the opener at [i]. *)
Definition no_terminator (buffer : list ascii) (i : nat) : Prop :=
  forall j, S (S i) <= j -> ~ (get buffer j = "*" /\ get buffer (S j) = "/").

(** No quote that closes the literal opened at [i] follows: every
    [symbol] after [i] has an odd number of backslashes before it. *)
Definition unclosed (buffer : list ascii) (i : nat) (symbol : ascii) : Prop :=
  forall q, i < q < strlen buffer -> get buffer q = symbol ->
            Nat.odd (backslashes_before buffer q) = true.

(** The states of the loop of [find_comments_and_literals]: the pass
    comes to [i] with the items found before [i]. *)
Inductive scans (fl : scan_flags) (buffer : list ascii) (Items0 : list item)
  : nat * list item -> Prop :=
| scans_start : scans fl buffer Items0 (0, Items0)
| scans_step st st' :
    scans fl buffer Items0 st ->
    fcl_step fl buffer (strlen buffer) st = Return (inl st') ->
    scans fl buffer Items0 st'.

(** The flags of the pass that [find_functions_internal] makes. *)
Definition all_items (nested : bool) : scan_flags := ScanFlags nested true true true.

(** ** The walk of [diff] *)

(** The bytes of [l] that are not blank. *)
Definition strip (l : list ascii) : list ascii := filter (fun c => is_blank c = false) l.

(** The last byte of [l] is blank. *)
Definition ends_blank (l : list ascii) : bool := is_blank (get l (length l - 1)).

(** The state of the walk when the two bodies differ by blanks only. *)
Definition in_step (a b : list ascii) (st : nat * nat) : Prop :=
  let '(i, j) := st in
  (i <= length a /\ j <= length b
   /\ strip (drop i a) = strip (drop j b)
   /\ (i = length a <-> j = length b))
  \/ (i = S (length a) /\ j = S (length b)).

(** The bytes of a function: what [duplicate_substr] copies. *)
Definition extent (buffer : list ascii) (fbegin fend : Z) : list ascii :=
  cstr (take (Z.to_nat (fend - fbegin + 1)) (drop (Z.to_nat fbegin) buffer)).

Definition valid_extent (buffer : list ascii) (fbegin fend : Z) : Prop :=
  (0 <= fbegin <= fend)%Z /\ (fend <= Z.of_nat (strlen buffer))%Z.

(** The files [int x;] with and without a newline at the end: no
    function, no literal, no comment in either, and the text outside
    the functions is the whole file, from 0 to its length. *)
Definition without_newline : list ascii := chars "int x;".
Definition with_newline : list ascii := chars "int x;" ++ [LF].

(** ** Lines *)

(** The number of newlines among the bytes [l]. *)
Definition newlines (l : list ascii) : nat :=
  length (filter (fun c => c = LF) l).

(** ** The stream of tokens *)

(** The tokens that [get_token] reads one after the other from [index]
    on, each from where the one before it ended. *)
Fixpoint tokens_from (buffer : list ascii) (fuel index : nat) : list token :=
  match fuel with
  | O => []
  | S fuel' =>
      match get_token buffer (strlen buffer) index with
      | None => []
      | Some t => t :: tokens_from buffer fuel' (tk_next t)
      end
  end.

Definition tokens (buffer : list ascii) (index : nat) : list token :=
  tokens_from buffer (S (strlen buffer)) index.

(** The number of tokens among [ts] whose text is [text]. *)
Definition count_text (text : list ascii) (ts : list token) : nat :=
  length (filter (fun t => strcmp_eq (tk_text t) text = true) ts).

(** The first [k + 1] tokens of [ts] hold as many [closing] as [opening]
    tokens. *)
Definition balanced (opening closing : list ascii) (ts : list token) (k : nat) : Prop :=
  count_text closing (take (S k) ts) = count_text opening (take (S k) ts).

(** The first [k + 1] tokens of [ts] hold fewer [closing] than [opening]
    tokens. *)
Definition unbalanced (opening closing : list ascii) (ts : list token) (k : nat) : Prop :=
  count_text closing (take (S k) ts) < count_text opening (take (S k) ts).

(** The comment opened at [i] has no end where comments nest: however
    many tokens of the stream from [i] are read, fewer [*/] than [/*]
    were met. *)
Definition unmatched (buffer : list ascii) (i : nat) : Prop :=
  forall k, k < length (tokens buffer i) ->
            unbalanced (chars "/*") (chars "*/") (tokens buffer i) k.

(** A comment in a comment: the [*/] closes the inner one only. *)
Definition comment_in_comment : list ascii := chars "/* a /* b */ c".

(** The state of the loop of [match_bracket] after the tokens [pre] of the
    stream from [i] were read. *)
Definition bracket_state (buffer : list ascii) (i : nat) (opening closing : list ascii)
    (st : nat * Z * bool) : Prop :=
  let '(index, counter, flag) := st in
  exists pre,
    tokens buffer i = pre ++ tokens buffer index
    /\ counter = (Z.of_nat (count_text opening pre) - Z.of_nat (count_text closing pre))%Z
    /\ flag = bool_decide (pre <> [])
    /\ (pre <> [] ->
        (0 < counter)%Z
        /\ (exists t0, head pre = Some t0 /\ strcmp_eq (tk_text t0) opening = true)
        /\ forall k, k < length pre -> unbalanced opening closing pre k).

(** What [match_bracket] hands back for the stream from [i]. *)
Definition bracket_result (buffer : list ascii) (i : nat) (opening closing : list ascii)
    (r : option nat) : Prop :=
  match r with
  | Some e =>
      exists k t t0,
        tokens buffer i !! k = Some t /\ tk_begin t = e
        /\ head (tokens buffer i) = Some t0 /\ strcmp_eq (tk_text t0) opening = true
        /\ balanced opening closing (tokens buffer i) k
        /\ forall k', k' < k -> unbalanced opening closing (tokens buffer i) k'
  | None =>
      (forall t0, head (tokens buffer i) = Some t0 -> strcmp_eq (tk_text t0) opening = false)
      \/ (forall k, k < length (tokens buffer i) ->
                    unbalanced opening closing (tokens buffer i) k)
  end.

(** ** Items in the order of the buffer *)

(** Each item ends before the next one begins. *)
Definition ascending (Items : list item) : Prop :=
  forall i j a b, Items !! i = Some a -> Items !! j = Some b -> i < j ->
                  (end_ a < begin_ b)%Z.

(** ** The lines of directives *)

(** The item is a line of [buffer] that opens with a directive: the line
    that starts at [p], with the kind of its first token. *)
Definition directive_line (buffer : list ascii) (it : item) : Prop :=
  exists p l,
    (p = 0 \/ get buffer (p - 1) = LF)
    /\ get_line buffer (strlen buffer) p = Return (Some l)
    /\ it = Item (Z.of_nat p) (Z.of_nat (tk_end l)) (extract_pragma_name (tk_text l))
    /\ extract_pragma_name (tk_text l) <> OTHER.

(** The state of the loop of [find_pragmas]: [index] is the start of a
    line, and [pragmas] holds the lines of directives before it. *)
Definition pragmas_state (buffer : list ascii) (st : nat * list item) : Prop :=
  let '(index, pragmas) := st in
  index <= strlen buffer
  /\ (index < strlen buffer -> index = 0 \/ get buffer (index - 1) = LF)
  /\ (forall it, it ∈ pragmas <->
                 directive_line buffer it /\ (begin_ it < Z.of_nat index)%Z)
  /\ ascending pragmas
  /\ Forall (fun it => (end_ it < Z.of_nat index)%Z) pragmas.

(** ** The items of the scanner *)

(** What [find_comments_and_literals] records under the flags [fl]: a
    string or a character literal from its opening quote on, a comment
    from its opener on, or a backslash with the byte after it. *)
Definition scanned_item (fl : scan_flags) (buffer : list ascii) (it : item) : Prop :=
  (0 <= begin_ it <= end_ it)%Z
  /\ (begin_ it < Z.of_nat (strlen buffer))%Z
  /\ match type_ it with
     | STRING =>
         add_literals fl = true /\ get buffer (Z.to_nat (begin_ it)) = DQUOTE
         /\ (end_ it < Z.of_nat (strlen buffer))%Z
     | LITERAL =>
         add_literals fl = true /\ get buffer (Z.to_nat (begin_ it)) = SQUOTE
         /\ (end_ it < Z.of_nat (strlen buffer))%Z
     | COMMENT =>
         add_comments fl = true /\ opener_at buffer (Z.to_nat (begin_ it))
         /\ (begin_ it < end_ it < Z.of_nat (strlen buffer))%Z
     | ESCSEQ =>
         add_backslashes fl = true /\ get buffer (Z.to_nat (begin_ it)) = BACKSLASH
         /\ end_ it = (begin_ it + 1)%Z
     | _ => False
     end.

(** The state of the loop of [find_comments_and_literals] at [i]: the
    items found so far, in order, each of them ending before [i]. *)
Definition scan_state (fl : scan_flags) (buffer : list ascii) (st : nat * list item) : Prop :=
  let '(i, Items) := st in
  ascending Items
  /\ Forall (fun it => scanned_item fl buffer it /\ (end_ it < Z.of_nat i)%Z) Items.

(** ** The tree of directives *)

(** The process ends by a call of [exit]. *)
Definition exits (why : stop) : Prop := exists msg, why = ExitCall msg.

(** The kind of the item at [index], if there is one. *)
Definition kind (input : list item) (index : Z) : option pragma_type :=
  if (index <? 0)%Z then None else type_ <$> input !! Z.to_nat index.

(** The item at [index] opens a branch: it is an [#if] or an [#else]. *)
Definition opens_branch (input : list item) (index : Z) : Prop :=
  kind input index = Some PRAGMA_IF \/ kind input index = Some PRAGMA_ELSE.

#[global] Instance opens_branch_dec input index : Decision (opens_branch input index).
Proof. unfold opens_branch. apply _. Defined.

(** The indices from [b] to [e] of the items that open a branch. *)
Definition branch_items (input : list item) (b e : Z) : list Z :=
  filter (opens_branch input) (seqZ b (e - b + 1)).

Definition elem_pid (e : element) : Z :=
  match e with Element _ pid _ _ _ => pid end.

(** The [pid] of the branches of a tree, in the order of the walk: the
    AND nodes but the root, which has no [pid]. *)
Fixpoint branch_pids (e : element) : list Z :=
  match e with
  | Element type pid _ _ list_ =>
      (match type with
       | AND => if (0 <=? pid)%Z then [pid] else []
       | _ => []
       end)
      ++ concat (map branch_pids list_)
  end.

(** The tree of the items [input].  Its levels alternate: the children
    of an AND node are OR nodes, one for each conditional, and the
    children of an OR node are AND nodes, one for each branch, and there
    is at least one.  The [pid] of an OR node is the [#if] that opens
    the conditional, the [pid] of an AND node is the [#if] or [#else] that
    opens the branch; the root, and a node that its caller has not yet
    numbered, has the [pid] -1. *)
#[local] Unset Elimination Schemes.
Inductive alternating (input : list item) : comp_type -> element -> Prop :=
| alternating_AND pid text_begin text_end list_ :
    pid = (-1)%Z \/ opens_branch input pid ->
    Forall (alternating input OR) list_ ->
    alternating input AND (Element AND pid text_begin text_end list_)
| alternating_OR pid text_begin text_end list_ :
    list_ <> [] ->
    pid = (-1)%Z \/ kind input pid = Some PRAGMA_IF ->
    Forall (alternating input AND) list_ ->
    alternating input OR (Element OR pid text_begin text_end list_).
#[local] Set Elimination Schemes.

(** What [parse_AND_pragmas] hands back for the items from [b] to [e]. *)
Definition parsed_AND (input : list item) (b e : Z) (r : run (element * Z)) : Prop :=
  match r with
  | Return (Pragmas, index) =>
      index = (if (b >? e)%Z then -1 else e + 1)%Z
      /\ elem_pid Pragmas = (-1)%Z
      /\ alternating input AND Pragmas
      /\ branch_pids Pragmas = branch_items input b e
  | Stop why => exits why
  end.

(** What [parse_OR_pragmas] hands back for the conditional that the
    item [i] opens: [index] is the [#endif] that closes it. *)
Definition parsed_OR (input : list item) (i e : Z) (r : run (element * Z)) : Prop :=
  match r with
  | Return (Pragmas, index) =>
      (i < index <= e)%Z
      /\ kind input index = Some PRAGMA_ENDIF
      /\ alternating input OR Pragmas
      /\ branch_pids Pragmas = branch_items input i (index - 1)
  | Stop why => exits why
  end.

(** The state of the loop of [parse_AND_pragmas] on the items from [b]
    to [e]. *)
Definition AND_state (input : list item) (b e : Z) (st : Z * element) : Prop :=
  let '(index, Pragmas) := st in
  (b <= index <= e + 1)%Z
  /\ (exists l, Pragmas = Element AND (-1) (-1) (-1) l /\ Forall (alternating input OR) l)
  /\ branch_pids Pragmas = branch_items input b (index - 1).

(** The state of the loop of [parse_OR_pragmas] on the conditional that
    the item [i] opens. *)
Definition OR_state (input : list item) (i e : Z) (st : Z * bool * element) : Prop :=
  let '(index, done, Pragmas) := st in
  (i <= index <= e)%Z
  /\ (exists l, Pragmas = Element OR (-1) (-1) (-1) l /\ Forall (alternating input AND) l
                /\ (done = true -> index = i \/ l <> []))
  /\ if done
     then opens_branch input index
          /\ branch_pids Pragmas = branch_items input i (index - 1)
     else index = i /\ branch_pids Pragmas = [].

(** ** The text of the branches *)

(** The nodes of a tree, the root first. *)
Fixpoint nodes (e : element) : list element :=
  match e with
  | Element _ _ _ _ list_ => e :: concat (map nodes list_)
  end.

(** The item that [select_branch_internal] adds for a branch it does not
    select. *)
Definition text_item (c : element) : item :=
  Item (elem_text_begin c) (elem_text_end c) OTHER.

(** The text of the node is what [fill_tdata] computes from [inputs]. *)
Definition text_filled (inputs : list item) (c : element) : Prop :=
  match head (elem_list c), last (elem_list c) with
  | Some first, Some last' =>
      elem_text_begin c = elem_text_begin first
      /\ elem_text_end c = elem_text_end last'
  | _, _ =>
      exists f l,
        (0 <= elem_pid c)%Z
        /\ inputs !! Z.to_nat (elem_pid c) = Some f
        /\ inputs !! Z.to_nat (elem_pid c + 1) = Some l
        /\ elem_text_begin c = begin_ f
        /\ elem_text_end c = (begin_ l - 1)%Z
  end.

(** A node of a filled tree: its text is the one [fill_tdata] computes,
    and it lies in the buffer. *)
Definition filled_node (buffer : list ascii) (inputs : list item) (c : element) : Prop :=
  text_filled inputs c /\ item_in_buffer buffer (text_item c).

(** The file [#if A / int x; / # else / int y; / #endif], its
    directives, and the tree that the parser builds from them. *)
Definition conditional_file : list ascii :=
  chars "#if A" ++ LF :: chars "int x;" ++ LF :: chars " # else" ++ LF
  :: chars "int y;" ++ LF :: chars "#endif" ++ [LF].

Definition conditional_items : list item :=
  [Item 0 5 PRAGMA_IF; Item 13 20 PRAGMA_ELSE; Item 28 34 PRAGMA_ENDIF].

Definition conditional_tree : element :=
  Element AND (-1) (-1) (-1)
    [Element OR 0 (-1) (-1) [Element AND 0 (-1) (-1) []; Element AND 1 (-1) (-1) []]].

(** ** The functions of a file *)

(** What [get_next_function] hands back when it is called at [current]
    after a declaration that ended at [prev_decl_end]: the name is an
    identifier, the function begins after that declaration and ends at a
    closing brace of the buffer after [current], and the index to go on
    from is the byte after it.  When only bodies are asked for, the function begins at an
    opening brace after [current]. *)
Definition function_found (g : globals) (buffer : list ascii) (current : nat)
    (prev_decl_end : Z) (r : next_function) : Prop :=
  match r with
  | Found index fname fbegin fend =>
      is_identifier fname = true
      /\ (prev_decl_end < Z.of_nat fbegin)%Z
      /\ fbegin < fend < strlen buffer
      /\ current < fend
      /\ get buffer fend = "}"
      /\ index = fend + 1
      /\ (flag_find_full_function g = false ->
          current < fbegin /\ get buffer fbegin = "{")
  | NoMore | Failed _ => True
  end.

(** A function as one pass over the file finds it: its name is an
    identifier, and its extent lies in the buffer and ends at a closing
    brace. *)
Definition function_of (buffer : list ascii) (f : fentry) : Prop :=
  is_identifier (fname f) = true
  /\ (0 <= fbegin f < fend f)%Z /\ (fend f < Z.of_nat (strlen buffer))%Z
  /\ get buffer (Z.to_nat (fend f)) = "}".

(** Each function ends before the next one begins. *)
Definition functions_apart (functions : list fentry) : Prop :=
  forall i j a b, functions !! i = Some a -> functions !! j = Some b -> i < j ->
                  (fend a < fbegin b)%Z.

(** The file [int x; int f(int a) { return a; }]. *)
Definition declaration_and_function : list ascii :=
  chars "int x; int f(int a) { return a; }".

(** [newbuffer] is [buffer] with some of its bytes blanked. *)
Definition blanked (buffer newbuffer : list ascii) : Prop :=
  strlen newbuffer = strlen buffer
  /\ forall j, j < strlen buffer ->
       get newbuffer j = get buffer j \/ get newbuffer j = SPACE.

(** ** The report *)

(** The line tells of a difference between the two files. *)
Definition reports_change (r : report) : Prop :=
  match r with
  | Changed _ _ _ | Deleted _ _ | Added _ _ => True
  | Missing _ | Warning _ | Same _ => False
  end.

(** The extent of the function lies in the buffer. *)
Definition function_in_buffer (buffer : list ascii) (f : fentry) : Prop :=
  (0 <= fbegin f < fend f)%Z /\ (fend f < Z.of_nat (strlen buffer))%Z.

(** Two files, [a.c] and [b.c]: [f] is written with other blanks in the
    second, [g] is only in the first, [h] and a declaration only in the
    second. *)
Definition file_a : list ascii :=
  chars "int x; int f(int a) { return a; }" ++ LF
  :: chars "void g() { if (x) { f(1); } }" ++ [LF].

Definition file_b : list ascii :=
  chars "int x; int f(int a) { return  a ; }" ++ LF :: chars "long y;" ++ LF
  :: chars "void h() { if (x) { f(2); } }" ++ [LF].

Definition two_files (name : list ascii) : option (list ascii) :=
  if strcmp_eq name (chars "a.c") then Some file_a
  else if strcmp_eq name (chars "b.c") then Some file_b
  else None.

(** A file system with room for the temporary files. *)
Definition room_for_files (f1 f2 : fentry) : run unit := Return tt.

(** The tree of [conditional_file] with the text of its branches. *)
Definition conditional_texts : element :=
  Element AND (-1) 0 27
    [Element OR 0 0 27 [Element AND 0 0 12 []; Element AND 1 13 27 []]].

(** ** What a call prints *)

(** All that a call prints satisfies [P], and it returns a value that
    satisfies [Q] or stops in a way that satisfies [Why]. *)
Definition prints {O A : Type} (P : O -> Prop) (Q : A -> Prop) (Why : stop -> Prop)
    (m : printing O A) : Prop :=
  Forall P (fst m)
  /\ match snd m with
     | Return a => Q a
     | Stop why => Why why
     end.

(** ** Conditionals inside conditionals *)

(** [n] conditionals, one inside the first branch of the other, around
    [body]; the second branch of each is empty. *)
Fixpoint nested_conditionals (n : nat) (body : list ascii) : list ascii :=
  match n with
  | O => body
  | S n' => chars "#if A" ++ LF :: nested_conditionals n' body
            ++ chars "#else" ++ LF :: chars "#endif" ++ [LF]
  end.

(** A function inside 27 conditionals. *)
Definition deep_file : list ascii :=
  nested_conditionals 27 (chars "int f(void) { return 1; }" ++ [LF]).

(** The same function inside two conditionals. *)
Definition shallow_file : list ascii :=
  nested_conditionals 2 (chars "int f(void) { return 1; }" ++ [LF]).

(** * Properties *)

Section CStrFacts.
Implicit Types (s : list ascii) (c : ascii) (i n : nat).

Lemma get_lookup s i : get s i = default NUL (s !! i).
Proof. apply nth_lookup. Qed.

Lemma get_cons_S c s i : get (c :: s) (S i) = get s i.
Proof. reflexivity. Qed.

Lemma get_drop s k i : get (drop k s) i = get s (k + i).
Proof. rewrite !get_lookup, lookup_drop. reflexivity. Qed.

Lemma get_ge s i : length s <= i -> get s i = NUL.
Proof. intros. rewrite get_lookup, lookup_ge_None_2; auto. Qed.

Lemma strlen_le_length s : strlen s <= length s.
Proof.
  induction s as [|c s IH]; simpl; [lia|].
  destruct (Ascii.eqb c NUL); simpl; lia.
Qed.

Lemma strlen_get_nul s : get s (strlen s) = NUL.
Proof.
  induction s as [|c s IH]; simpl; [reflexivity|].
  destruct (Ascii.eqb_spec c NUL) as [->|]; [reflexivity|]. exact IH.
Qed.

Lemma strlen_get_nonnul s i : i < strlen s -> get s i <> NUL.
Proof.
  revert i. induction s as [|c s IH]; simpl; intros i Hi; [lia|].
  destruct (Ascii.eqb_spec c NUL) as [->|Hc]; [lia|].
  destruct i as [|i]; [exact Hc|]. apply IH. lia.
Qed.

Lemma strlen_unique s n :
  (forall i, i < n -> get s i <> NUL) -> get s n = NUL -> strlen s = n.
Proof.
  intros Hlt Hn.
  destruct (Nat.lt_trichotomy (strlen s) n) as [H|[H|H]]; [|exact H|].
  - destruct (Hlt _ H). apply strlen_get_nul.
  - destruct (strlen_get_nonnul _ _ H Hn).
Qed.
End CStrFacts.

(** ** The command line *)

(** C4, as the code has it: with fewer than two input file names
    ([argc < 3]) [main] prints the usage line and returns 0, whatever the
    collaborators do. *)
Theorem main_usage_exit_0
    (compare_functions : globals -> list ascii -> list ascii -> printing string unit)
    (sscanf_vs : list ascii -> option Z) (argv : list (list ascii)) :
  length argv < 3 ->
  main compare_functions sscanf_vs argv = ([usage (nth 0 argv [])], Exited 0).
Proof.
  intros Hargc. unfold main.
  destruct (Nat.ltb_spec (length argv) 3) as [_|Hge]; [reflexivity|lia].
Qed.

Lemma main_usage_exit_0_witness :
  length [chars "adiff"; chars "old.c"] < 3 /\
  main (fun _ _ _ => ([], Return tt)) (fun _ => None) [chars "adiff"; chars "old.c"]
  = ([usage (chars "adiff")], Exited 0).
Proof.
  split; [simpl; lia|].
  apply (main_usage_exit_0 (fun _ _ _ => ([], Return tt)) (fun _ => None)
           [chars "adiff"; chars "old.c"]).
  simpl; lia.
Defined.

(** C4 as stated fails: called with one file name only, [adiff] ends with
    status 0. *)
Lemma main_one_file_not_nonzero :
  ~ exits_nonzero
      (snd (main (fun _ _ _ => ([], Return tt)) (fun _ => None) [chars "adiff"; chars "old.c"])).
Proof. simpl. intros H. apply H. reflexivity. Qed.

(** An argument that is no flag does end the run with status -1. *)
Lemma main_invalid_flag :
  main (fun _ _ _ => ([], Return tt)) (fun _ => None)
       [chars "adiff"; chars "old.c"; chars "new.c"; chars "-verbose"]
  = (["Invalid argument -verbose"%string], Exited (-1)).
Proof. reflexivity. Qed.

(** ** Blanking *)

Section Blanking.
Implicit Types (buffer : list ascii) (Items : items) (j : nat).

(** Writing the same byte at the positions [s .. s + k - 1]. *)
Lemma fill_lookup (x : ascii) k : forall s buffer j,
  foldl (fun buf i => <[i := x]> buf) buffer (seq s k) !! j
  = if bool_decide (s <= j < s + k /\ j < length buffer) then Some x else buffer !! j.
Proof.
  induction k as [|k IH]; intros s buffer j; simpl.
  - rewrite bool_decide_eq_false_2; [reflexivity|lia].
  - rewrite IH, length_insert.
    destruct (decide (j = s)) as [->|Hne].
    + destruct (decide (s < length buffer)) as [Hlt|Hge].
      * rewrite list_lookup_insert_eq by exact Hlt.
        rewrite bool_decide_eq_false_2 by lia.
        rewrite bool_decide_eq_true_2 by lia. reflexivity.
      * rewrite list_insert_ge by lia.
        rewrite !bool_decide_eq_false_2 by lia. reflexivity.
    + rewrite list_lookup_insert_ne by congruence.
      erewrite bool_decide_ext; [reflexivity|lia].
Qed.

Lemma fill_length (x : ascii) k : forall s buffer,
  length (foldl (fun buf i => <[i := x]> buf) buffer (seq s k)) = length buffer.
Proof.
  induction k as [|k IH]; intros s buffer; simpl; [reflexivity|].
  rewrite IH. apply length_insert.
Qed.

Lemma blank_span_length buffer begin end' :
  length (blank_span buffer begin end') = length buffer.
Proof. apply fill_length. Qed.

Lemma blank_span_inside buffer begin end' j :
  (0 <= begin)%Z -> in_span begin end' j -> j < length buffer ->
  blank_span buffer begin end' !! j = Some SPACE.
Proof.
  unfold in_span, blank_span. intros H0 Hj Hlen.
  rewrite fill_lookup, bool_decide_eq_true_2; [reflexivity|lia].
Qed.

Lemma blank_span_outside buffer begin end' j :
  (0 <= begin)%Z \/ (end' < begin)%Z ->
  ~ in_span begin end' j ->
  blank_span buffer begin end' !! j = buffer !! j.
Proof.
  unfold in_span, blank_span. intros H0 Hj.
  rewrite fill_lookup, bool_decide_eq_false_2; [reflexivity|lia].
Qed.

(** A span below the terminator leaves the terminator where it is. *)
Lemma blank_span_strlen buffer begin end' :
  (0 <= begin)%Z -> (end' < Z.of_nat (strlen buffer))%Z ->
  strlen (blank_span buffer begin end') = strlen buffer.
Proof.
  intros H0 Hend. pose proof (strlen_le_length buffer) as Hle.
  apply strlen_unique.
  - intros i Hi. rewrite get_lookup.
    destruct (decide (in_span begin end' i)) as [Hin|Hout].
    + rewrite blank_span_inside; [discriminate|assumption|assumption|lia].
    + rewrite blank_span_outside by (auto; lia).
      rewrite <- get_lookup. apply strlen_get_nonnul, Hi.
  - rewrite get_lookup, blank_span_outside, <- get_lookup.
    + apply strlen_get_nul.
    + lia.
    + unfold in_span. lia.
Qed.

Lemma blank_span_empty buffer begin end' :
  (end' < begin)%Z -> blank_span buffer begin end' = buffer.
Proof.
  intros H. unfold blank_span.
  replace (Z.to_nat (end' + 1 - begin)) with 0 by lia. reflexivity.
Qed.

Lemma covered_cons it Items j :
  covered (it :: Items) j <-> in_span (begin_ it) (end_ it) j \/ covered Items j.
Proof. apply Exists_cons. Qed.

Lemma clear_loop_frame Items : forall buffer buffer',
  clear_loop (strlen buffer) buffer Items = Return buffer' ->
  length buffer' = length buffer /\ strlen buffer' = strlen buffer /\
  forall j, (covered Items j -> buffer' !! j = Some SPACE)
            /\ (~ covered Items j -> buffer' !! j = buffer !! j).
Proof.
  induction Items as [|it Items IH]; intros buffer buffer'; simpl.
  - intros [= <-]. split; [reflexivity|]. split; [reflexivity|].
    intros j. split; [intros Hc; inversion Hc|reflexivity].
  - unfold assert.
    destruct (bool_decide_reflect (begin_ it < Z.of_nat (strlen buffer))%Z) as [Hb|];
      simpl; [|discriminate].
    destruct (bool_decide_reflect (end_ it < Z.of_nat (strlen buffer))%Z) as [He|];
      simpl; [|discriminate].
    pose proof (strlen_le_length buffer) as Hle.
    destruct (bool_decide_reflect (begin_ it <= end_ it)%Z) as [Hne|Hempty]; simpl.
    + destruct (bool_decide_reflect (begin_ it < 0)%Z) as [|H0]; simpl; [discriminate|].
      rewrite <- (blank_span_strlen buffer (begin_ it) (end_ it)) at 1 by lia.
      intros Hrest. apply IH in Hrest as (Hlen & Hstr & Hj).
      rewrite blank_span_length in Hlen.
      rewrite blank_span_strlen in Hstr by lia.
      split; [exact Hlen|]. split; [exact Hstr|].
      intros j. rewrite covered_cons. destruct (Hj j) as [Hin Hout].
      destruct (decide (covered Items j)) as [Hc|Hnc].
      * split; [auto|tauto].
      * rewrite Hout by exact Hnc. split.
        -- intros [Hs|Hc]; [|tauto].
           apply blank_span_inside; [lia|exact Hs|].
           unfold in_span in Hs. lia.
        -- intros Hn. apply blank_span_outside; [lia|tauto].
    + rewrite blank_span_empty by lia.
      intros Hrest. apply IH in Hrest as (Hlen & Hstr & Hj).
      split; [exact Hlen|]. split; [exact Hstr|].
      intros j. rewrite covered_cons. destruct (Hj j) as [Hin Hout].
      split.
      * intros [Hs|Hc]; [unfold in_span in Hs; lia|auto].
      * intros Hn. apply Hout. tauto.
Qed.

Lemma clear_loop_returns Items : forall buffer,
  Forall (item_in_buffer buffer) Items ->
  exists buffer', clear_loop (strlen buffer) buffer Items = Return buffer'.
Proof.
  induction Items as [|it Items IH]; intros buffer Hall; simpl; [eauto|].
  apply Forall_cons in Hall as [[Hb He] Hall]. unfold assert.
  rewrite (bool_decide_eq_true_2 (begin_ it < Z.of_nat (strlen buffer))%Z) by lia. simpl.
  rewrite (bool_decide_eq_true_2 (end_ it < Z.of_nat (strlen buffer))%Z) by lia. simpl.
  rewrite (bool_decide_eq_false_2 (begin_ it < 0)%Z), andb_false_r by lia.
  assert (Hs : strlen (blank_span buffer (begin_ it) (end_ it)) = strlen buffer)
    by (apply blank_span_strlen; lia).
  rewrite <- Hs. apply IH.
  eapply Forall_impl; [exact Hall|].
  unfold item_in_buffer. intros it'. rewrite Hs. tauto.
Qed.

(** C8: [clear] on items that lie in the buffer returns a buffer of the
    same length, with the same terminator, in which every byte inside
    a span is a space and every byte outside all spans is the byte
    that was there. *)
Theorem clear_frame buffer Items :
  Forall (item_in_buffer buffer) Items ->
  exists buffer',
    clear buffer Items = Return buffer'
    /\ length buffer' = length buffer
    /\ strlen buffer' = strlen buffer
    /\ forall j, (covered Items j -> buffer' !! j = Some SPACE)
                 /\ (~ covered Items j -> buffer' !! j = buffer !! j).
Proof.
  intros Hall. destruct (clear_loop_returns Items buffer Hall) as [buffer' Hrun].
  exists buffer'. split; [exact Hrun|]. apply clear_loop_frame, Hrun.
Qed.

(** Whenever [clear] returns, also on items with an empty span, the
    same holds. *)
Lemma clear_frame_returned buffer Items buffer' :
  clear buffer Items = Return buffer' ->
  length buffer' = length buffer /\ strlen buffer' = strlen buffer /\
  forall j, (covered Items j -> buffer' !! j = Some SPACE)
            /\ (~ covered Items j -> buffer' !! j = buffer !! j).
Proof. apply clear_loop_frame. Qed.
End Blanking.

Lemma clear_frame_witness :
  Forall (item_in_buffer (chars "a/*b*/c")) [Item 1 5 COMMENT]
  /\ exists buffer',
       clear (chars "a/*b*/c") [Item 1 5 COMMENT] = Return buffer'
       /\ length buffer' = length (chars "a/*b*/c")
       /\ strlen buffer' = strlen (chars "a/*b*/c")
       /\ forall j, (covered [Item 1 5 COMMENT] j -> buffer' !! j = Some SPACE)
                    /\ (~ covered [Item 1 5 COMMENT] j ->
                        buffer' !! j = chars "a/*b*/c" !! j).
Proof.
  assert (H : Forall (item_in_buffer (chars "a/*b*/c")) [Item 1 5 COMMENT]).
  { repeat constructor; simpl; lia. }
  split; [exact H|].
  exact (clear_frame (chars "a/*b*/c") [Item 1 5 COMMENT] H).
Defined.

Example clear_comment :
  clear (chars "a/*b*/c") [Item 1 5 COMMENT] = Return (chars "a     c").
Proof. reflexivity. Qed.
(** ** Names *)

#[local] Arguments Ascii.eqb : simpl never.

Section Names.
Implicit Types (a b s : list ascii) (c : ascii).

Lemma cstr_nil : cstr [] = [].
Proof. reflexivity. Qed.

Lemma cstr_cons c s :
  cstr (c :: s) = if Ascii.eqb c NUL then [] else c :: cstr s.
Proof. unfold cstr. simpl. destruct (Ascii.eqb c NUL); reflexivity. Qed.

Lemma cstr_idemp s : cstr (cstr s) = cstr s.
Proof.
  induction s as [|c s IH]; [reflexivity|].
  rewrite cstr_cons. destruct (Ascii.eqb c NUL) eqn:E; [reflexivity|].
  rewrite cstr_cons, E, IH. reflexivity.
Qed.

Lemma cstr_length s : length (cstr s) = strlen s.
Proof. unfold cstr. rewrite length_take. pose proof (strlen_le_length s). lia. Qed.

Lemma strlen_cstr s : strlen (cstr s) = strlen s.
Proof.
  induction s as [|c s IH]; [reflexivity|].
  rewrite cstr_cons. simpl. destruct (Ascii.eqb c NUL) eqn:E; [reflexivity|].
  simpl. rewrite E, IH. reflexivity.
Qed.

Lemma strncmp_eq_cstr a : forall b n,
  length a < n -> strncmp_eq a b n = true <-> cstr a = cstr b.
Proof.
  induction a as [|x a IH]; intros b n Hn; (destruct n as [|n]; [lia|]); simpl.
  - destruct b as [|y b]; simpl; [done|].
    rewrite cstr_cons, cstr_nil. rewrite (Ascii.eqb_sym y NUL).
    destruct (Ascii.eqb NUL y); [done|]. split; discriminate.
  - rewrite !cstr_cons.
    destruct b as [|y b]; simpl.
    + rewrite cstr_nil. destruct (Ascii.eqb_spec x NUL) as [->|Hx]; [done|].
      split; discriminate.
    + rewrite cstr_cons.
      destruct (Ascii.eqb_spec x y) as [<-|Hxy].
      * destruct (Ascii.eqb x NUL); [done|].
        rewrite IH by (simpl in Hn; lia).
        split; [intros ->; reflexivity|intros [= H]; exact H].
      * destruct (Ascii.eqb_spec x NUL), (Ascii.eqb_spec y NUL);
          split; try discriminate; intros; congruence.
Qed.

(** [strcmp] compares the strings up to their terminators. *)
Lemma strcmp_eq_cstr a b : strcmp_eq a b = true <-> cstr a = cstr b.
Proof. apply strncmp_eq_cstr. lia. Qed.

Lemma strcmp_eq_refl a : strcmp_eq a a = true.
Proof. apply strcmp_eq_cstr. reflexivity. Qed.

Lemma strcmp_eq_sym a b : strcmp_eq a b = strcmp_eq b a.
Proof.
  apply eq_true_iff_eq. rewrite !strcmp_eq_cstr. split; congruence.
Qed.
End Names.

(** ** Merging the functions of the choices *)

Section Merge.
Implicit Types (D L : list fentry) (s d e : fentry) (nm : list ascii).

Lemma named_cstr nm e : named nm e <-> cstr (fname e) = cstr nm.
Proof. apply strcmp_eq_cstr. Qed.

Lemma named_same nm s e : named (fname s) e -> named nm s -> named nm e.
Proof. rewrite !named_cstr. congruence. Qed.

Lemma named_other nm s e : named (fname s) e -> named nm e -> named nm s.
Proof. rewrite !named_cstr. congruence. Qed.

Lemma find_func_Some D nm k :
  find_func D nm = Some k -> exists d, D !! k = Some d /\ named nm d.
Proof.
  revert k. induction D as [|d D IH]; intros k; simpl; [discriminate|].
  destruct (strcmp_eq (fname d) nm) eqn:E.
  - intros [= <-]. exists d. split; [reflexivity|exact E].
  - destruct (find_func D nm) as [k'|]; simpl; [|discriminate].
    intros [= <-]. apply (IH k'). reflexivity.
Qed.

Lemma find_func_None D nm k d :
  find_func D nm = None -> D !! k = Some d -> ~ named nm d.
Proof.
  revert k. induction D as [|d' D IH]; intros k; simpl; [discriminate|].
  destruct (strcmp_eq (fname d') nm) eqn:E; [discriminate|].
  destruct (find_func D nm); simpl; [discriminate|]. intros _.
  destruct k as [|k]; simpl.
  - intros [= <-]. unfold named. congruence.
  - apply IH. reflexivity.
Qed.

Lemma spans_single e s :
  fbegin e = fbegin s -> fend e = fend s -> spans e [s].
Proof.
  intros Hb He. unfold spans.
  setoid_rewrite list_elem_of_singleton.
  repeat split; eauto; intros ? ->; lia.
Qed.

Lemma spans_snoc d s occ :
  spans d occ ->
  spans (FEntry (fname d) (MIN (fbegin d) (fbegin s)) (MAX (fend d) (fend s)))
        (occ ++ [s]).
Proof.
  intros ((sb & Hsb & Hb) & Hlb & (se & Hse & He) & Hub).
  unfold spans, MIN, MAX. simpl. setoid_rewrite elem_of_app.
  setoid_rewrite list_elem_of_singleton.
  split; [|split; [|split]].
  - destruct (Z.leb_spec (fbegin d) (fbegin s)); [exists sb|exists s]; auto.
  - intros x [Hx| ->]; [apply Hlb in Hx|];
      destruct (Z.leb_spec (fbegin d) (fbegin s)); lia.
  - destruct (Z.geb_spec (fend d) (fend s)); [exists se|exists s]; auto.
  - intros x [Hx| ->]; [apply Hub in Hx|];
      destruct (Z.geb_spec (fend d) (fend s)); lia.
Qed.

Lemma spans_ordered e occ :
  occ <> [] -> spans e occ ->
  (forall s, s ∈ occ -> (fbegin s <= fend s)%Z) -> (fbegin e <= fend e)%Z.
Proof.
  intros Hne (_ & Hlb & _ & Hub) Hord.
  destruct occ as [|s occ]; [congruence|].
  assert (Hs : s ∈ s :: occ) by apply list_elem_of_here.
  specialize (Hlb s Hs). specialize (Hub s Hs). specialize (Hord s Hs). lia.
Qed.

Lemma occurrences_snoc nm L s :
  occurrences nm (L ++ [s])
  = occurrences nm L ++ (if decide (named nm s) then [s] else []).
Proof.
  unfold occurrences. rewrite filter_app. f_equal.
Qed.

Lemma merged_nil : merged [] [].
Proof.
  split.
  - intros i j a b Hi. rewrite lookup_nil in Hi. discriminate.
  - intros nm. split.
    + intros _ k d Hk. rewrite lookup_nil in Hk. discriminate.
    + intros H. destruct H. reflexivity.
Qed.

Lemma merged_step D L s : merged D L -> merged (merge_entry D s) (L ++ [s]).
Proof.
  intros [Hdist Hocc]. unfold merge_entry.
  destruct (find_func D (fname s)) as [k|] eqn:Hfind.
  - (* the name is there: the entry [k] is widened *)
    destruct (find_func_Some _ _ _ Hfind) as (d & Hk & Hd).
    set (f := fun d0 => FEntry (fname d0) (MIN (fbegin d0) (fbegin s))
                               (MAX (fend d0) (fend s))).
    assert (Hnames : forall i a, alter f k D !! i = Some a ->
              exists a0, D !! i = Some a0 /\ fname a0 = fname a).
    { intros i a. rewrite list_lookup_alter.
      destruct (decide (k = i)) as [<-|]; [|eauto].
      rewrite Hk. simpl. intros [= <-]. eauto. }
    split.
    + intros i j a b Hi Hj Hab.
      apply Hnames in Hi as (a0 & Hi & Ha). apply Hnames in Hj as (b0 & Hj & Hb).
      apply (Hdist i j a0 b0 Hi Hj). unfold named in *. congruence.
    + intros nm. rewrite occurrences_snoc. destruct (Hocc nm) as [Hnone Hsome].
      destruct (decide (named nm s)) as [Hs|Hs].
      * split; [intros H; apply app_eq_nil in H as [_ H]; discriminate|]. intros _.
        assert (Hnd : named nm d) by (eapply named_same; eassumption).
        destruct (occurrences nm L) as [|o occ] eqn:Ho.
        { destruct (Hnone eq_refl k d Hk Hnd). }
        destruct Hsome as (k0 & e0 & Hk0 & He0 & Hspan); [discriminate|].
        assert (k0 = k) as ->.
        { apply (Hdist k0 k e0 d Hk0 Hk). apply named_cstr.
          apply named_cstr in He0, Hnd. congruence. }
        assert (e0 = d) as -> by congruence.
        exists k, (f d). split; [rewrite list_lookup_alter_eq, Hk; reflexivity|].
        split; [exact Hnd|]. apply spans_snoc, Hspan.
      * rewrite app_nil_r. split.
        -- intros Ho i a Hi Ha. apply Hnames in Hi as (a0 & Hi & Heq).
           apply (Hnone Ho i a0 Hi). unfold named in *. congruence.
        -- intros Ho. destruct (Hsome Ho) as (k0 & e0 & Hk0 & He0 & Hspan).
           exists k0, e0. split; [|auto].
           rewrite list_lookup_alter_ne; [exact Hk0|].
           intros <-. apply Hs. apply (named_other nm s e0); [|exact He0].
           congruence.
  - (* a new name: the entry is added at the end *)
    unfold fadd.
    set (e := FEntry (cstr (fname s)) (fbegin s) (fend s)).
    assert (He : forall nm, named nm e <-> named nm s).
    { intros nm. rewrite !named_cstr. simpl. rewrite cstr_idemp. reflexivity. }
    split.
    + intros i j a b Hi Hj Hab.
      apply lookup_snoc_Some in Hi as [[Hi Ha]|[-> <-]];
        apply lookup_snoc_Some in Hj as [[Hj Hb]|[-> <-]].
      * apply (Hdist i j a b Ha Hb Hab).
      * destruct (find_func_None _ _ _ _ Hfind Ha).
        apply named_cstr. apply named_cstr in Hab. simpl in Hab.
        rewrite cstr_idemp in Hab. congruence.
      * destruct (find_func_None _ _ _ _ Hfind Hb).
        apply named_cstr. apply named_cstr in Hab. simpl in Hab.
        rewrite cstr_idemp in Hab. congruence.
      * reflexivity.
    + intros nm. rewrite occurrences_snoc. destruct (Hocc nm) as [Hnone Hsome].
      destruct (decide (named nm s)) as [Hs|Hs].
      * split; [intros H; apply app_eq_nil in H as [_ H]; discriminate|]. intros _.
        destruct (occurrences nm L) as [|o occ] eqn:Ho.
        -- exists (length D), e. split; [apply list_lookup_middle; reflexivity|].
           split; [apply He, Hs|]. apply spans_single; reflexivity.
        -- destruct Hsome as (k0 & e0 & Hk0 & He0 & _); [discriminate|].
           destruct (find_func_None _ _ _ _ Hfind Hk0).
           apply named_cstr. apply named_cstr in He0, Hs. congruence.
      * rewrite app_nil_r. split.
        -- intros Ho i a Hi.
           apply lookup_snoc_Some in Hi as [[Hi Ha]|[-> <-]]; [eauto|].
           rewrite He. exact Hs.
        -- intros Ho. destruct (Hsome Ho) as (k0 & e0 & Hk0 & He0 & Hspan).
           exists k0, e0. split; [|auto]. apply lookup_app_l_Some, Hk0.
Qed.

Lemma merged_foldl L : merged (foldl merge_entry [] L) L.
Proof.
  induction L as [|s L IH] using rev_ind; [apply merged_nil|].
  rewrite foldl_snoc. apply merged_step, IH.
Qed.

Lemma select_best_func_limits_concat (source : list (list fentry)) :
  select_best_func_limits source = foldl merge_entry [] (concat source).
Proof.
  unfold select_best_func_limits. generalize (@nil fentry) as D.
  induction source as [|set source IH]; intros D; simpl; [reflexivity|].
  rewrite foldl_app. apply IH.
Qed.

Lemma select_best_func_limits_merged (source : list (list fentry)) :
  merged (select_best_func_limits source) (concat source).
Proof. rewrite select_best_func_limits_concat. apply merged_foldl. Qed.
End Merge.

Section MergeClaims.
Implicit Types (source : list (list fentry)) (nm : list ascii).

(** C2: a name that occurs in the sets of the choices has exactly one
    entry in the merged set; its begin is the least begin and its end
    the greatest end of the occurrences; and if every occurrence has
    [begin <= end], so has the merged entry. *)
Theorem select_best_func_limits_extent source nm :
  occurrences nm (concat source) <> [] ->
  exists k e,
    select_best_func_limits source !! k = Some e
    /\ named nm e
    /\ (forall k' e', select_best_func_limits source !! k' = Some e' ->
                      named nm e' -> k' = k)
    /\ spans e (occurrences nm (concat source))
    /\ ((forall s, s ∈ occurrences nm (concat source) -> (fbegin s <= fend s)%Z) ->
        (fbegin e <= fend e)%Z).
Proof.
  intros Hocc.
  destruct (select_best_func_limits_merged source) as [Hdist Hnames].
  destruct (Hnames nm) as [_ Hsome].
  destruct (Hsome Hocc) as (k & e & Hk & He & Hspan).
  exists k, e. split; [exact Hk|]. split; [exact He|]. split; [|split].
  - intros k' e' Hk' He'. apply (Hdist k' k e' e Hk' Hk).
    apply named_cstr. apply named_cstr in He, He'. congruence.
  - exact Hspan.
  - intros Hord. eapply spans_ordered; eassumption.
Qed.

(** The duplicate check finds two entries at different indices with
    the same name. *)
Lemma check_func_duplicates_true (functions : list fentry) :
  check_func_duplicates functions = true ->
  exists i j f g, functions !! i = Some f /\ functions !! j = Some g
                  /\ i <> j /\ named (fname g) f.
Proof.
  unfold check_func_duplicates, has_twin. intros H.
  apply existsb_exists in H as ([i f] & Hi & H).
  apply existsb_exists in H as ([j g] & Hj & H).
  apply list_elem_of_In, list_elem_of_lookup in Hi as [i' Hi].
  apply list_elem_of_In, list_elem_of_lookup in Hj as [j' Hj].
  apply list_lookup_imap_Some in Hi as (f' & Hi & [= -> ->]).
  apply list_lookup_imap_Some in Hj as (g' & Hj & [= -> ->]).
  apply andb_true_iff in H as [Hne Hcmp].
  exists i', j', f', g'. repeat split; try assumption.
  apply negb_true_iff, Nat.eqb_neq in Hne. exact Hne.
Qed.

(** Where no two entries have the same name, the check finds none. *)
Lemma distinct_names_no_duplicates (functions : list fentry) :
  distinct_names functions -> check_func_duplicates functions = false.
Proof.
  intros Hdist. apply not_true_is_false. intros H.
  apply check_func_duplicates_true in H as (i & j & f & g & Hi & Hj & Hne & Hfg).
  apply Hne. symmetry. apply (Hdist j i g f Hj Hi Hfg).
Qed.

(** C10: the names of the merged set are pairwise distinct, so that
    [check_func_duplicates] returns 0 on it. *)
Theorem select_best_func_limits_no_duplicates source :
  (forall i j a b,
      select_best_func_limits source !! i = Some a ->
      select_best_func_limits source !! j = Some b ->
      i <> j -> strcmp_eq (fname a) (fname b) = false)
  /\ check_func_duplicates (select_best_func_limits source) = false.
Proof.
  rewrite select_best_func_limits_concat.
  pose proof (merged_foldl (concat source)) as [Hdist _].
  set (functions := foldl merge_entry [] (concat source)) in *.
  split.
  - intros i j a b Hi Hj Hne.
    destruct (strcmp_eq (fname a) (fname b)) eqn:Hcmp; [|reflexivity].
    destruct Hne. symmetry. apply (Hdist j i b a Hj Hi). exact Hcmp.
  - destruct (check_func_duplicates functions) eqn:Hcheck; [|reflexivity].
    apply check_func_duplicates_true in Hcheck
      as (i & j & f & g & Hi & Hj & Hne & Hfg).
    destruct Hne. symmetry. apply (Hdist j i g f Hj Hi Hfg).
Qed.
End MergeClaims.

Example select_best_func_limits_two_choices :
  select_best_func_limits two_choices
  = [FEntry (chars "g") 7 55; FEntry (chars "h") 30 40].
Proof. reflexivity. Qed.

Lemma select_best_func_limits_extent_witness :
  occurrences (chars "g") (concat two_choices) <> []
  /\ exists k e,
       select_best_func_limits two_choices !! k = Some e
       /\ named (chars "g") e
       /\ (forall k' e', select_best_func_limits two_choices !! k' = Some e' ->
                         named (chars "g") e' -> k' = k)
       /\ spans e (occurrences (chars "g") (concat two_choices))
       /\ ((forall s, s ∈ occurrences (chars "g") (concat two_choices) ->
                      (fbegin s <= fend s)%Z) ->
           (fbegin e <= fend e)%Z).
Proof.
  assert (H : occurrences (chars "g") (concat two_choices) <> [])
    by (vm_compute; discriminate).
  split; [exact H|].
  exact (select_best_func_limits_extent two_choices (chars "g") H).
Defined.

(** ** The cap on the number of choices *)

Section Cap.
Variable find_functions_internal :
  list ascii -> Z -> string -> run (Z * list fentry * Z * string).
Variable limit : Z.
Variable buffer : list ascii.

Lemma eval_choices_returns number_of_choices capacity (choices : list Z) :
  Forall (returns find_functions_internal buffer number_of_choices) choices ->
  forall counter error_message,
  (Z.of_nat counter + Z.of_nat (length choices) <= capacity)%Z ->
  exists error_message',
    eval_choices find_functions_internal buffer number_of_choices capacity choices
                 counter error_message
    = (Call <$> choices,
       Return (omap (survivor find_functions_internal buffer) choices, error_message')).
Proof.
  induction 1 as [|i choices (error & funcs & msg & Hi) _ IH];
    intros counter error_message Hroom; simpl in *; [eexists; reflexivity|].
  destruct (Z.ltb_spec (Z.of_nat counter) capacity) as [_|]; [|lia].
  unfold call. rewrite Hi. unfold assert. rewrite Z.eqb_refl.
  destruct (IH (if (error =? ERROR)%Z then counter else S counter) msg) as [msg' IH'].
  { destruct (error =? ERROR)%Z; lia. }
  exists msg'. cbn. rewrite IH'. cbn.
  assert (Hs : survivor find_functions_internal buffer i
               = if (error =? ERROR)%Z then None else Some funcs)
    by (unfold survivor; rewrite Hi; reflexivity).
  rewrite Hs, app_nil_r. destruct (error =? ERROR)%Z; reflexivity.
Qed.

Lemma elem_of_first_choices n i : i ∈ first_choices n <-> (0 <= i < n)%Z.
Proof.
  unfold first_choices. rewrite list_elem_of_fmap. setoid_rewrite elem_of_seq.
  split.
  - intros (k & -> & Hk). lia.
  - intros Hi. exists (Z.to_nat i). lia.
Qed.

(** The cap where the array of the sets can be had: when the choice
    space is larger than the limit, its size with ten more sets fits an
    [int] in bytes, and the choices below the limit return, one of them
    with functions, then [find_functions] calls [find_functions_internal]
    for the choices [0 .. limit - 1] and no other, prints the warning,
    and returns the merge of the sets of the choices that did not
    fail. *)
Lemma find_functions_capped number_of_choices r0 f0 error_message error_message0 :
  find_functions_internal buffer (-1) error_message
  = Return (r0, f0, number_of_choices, error_message0) ->
  (number_of_choices > limit)%Z ->
  ((number_of_choices + 10) * sizeof_fentries <= INT_MAX)%Z ->
  (forall i, (0 <= i < limit)%Z ->
             returns find_functions_internal buffer number_of_choices i) ->
  (exists i, (0 <= i < limit)%Z
             /\ is_Some (survivor find_functions_internal buffer i)) ->
  let functions :=
  select_best_func_limits
    (omap (survivor find_functions_internal buffer) (first_choices limit)) in
  exists error_message',
    find_functions find_functions_internal limit buffer error_message
    = ([Call (-1); Print (warning_too_large number_of_choices limit)]
       ++ (Call <$> first_choices limit)
       ++ (if check_func_overlap functions then [Print warning_overlap] else []),
       Return (functions, error_message')).
Proof.
  intros Hprobe Hlarge Hfits Hret (i & Hi & Hsurv) functions.
  unfold find_functions, call. rewrite Hprobe.
  assert (Hsize : wrap ((number_of_choices + 10) * sizeof_fentries)
                  = ((number_of_choices + 10) * sizeof_fentries)%Z).
  { unfold wrap, sizeof_fentries, INT_MAX in *. rewrite Z.mod_small; lia. }
  assert (Hroom : Malloc ((number_of_choices + 10) * sizeof_fentries) = Return tt).
  { unfold Malloc.
    destruct (Z.ltb_spec ((number_of_choices + 10) * sizeof_fentries) 0) as [Hneg|_];
      [unfold sizeof_fentries in Hneg; lia|reflexivity]. }
  destruct (eval_choices_returns number_of_choices (number_of_choices + 10)
              (first_choices limit)) with (counter := 0) (error_message := error_message0)
    as [error_message' Hrun].
  { apply Forall_forall. intros j Hj. apply Hret, elem_of_first_choices, Hj. }
  { unfold first_choices. rewrite length_fmap, length_seq. lia. }
  exists error_message'.
  cbn -[wrap Malloc Z.div Z.mul Z.add].
  destruct (Z.gtb_spec number_of_choices limit) as [_|]; [|lia].
  fold (first_choices limit).
  rewrite Hsize, Hroom.
  replace ((number_of_choices + 10) * sizeof_fentries / sizeof_fentries)%Z
    with (number_of_choices + 10)%Z
    by (unfold sizeof_fentries; rewrite Z.div_mul; lia).
  cbn. rewrite Hrun. cbn.
  assert (Hne : omap (survivor find_functions_internal buffer) (first_choices limit) <> []).
  { destruct Hsurv as [funcs Hsurv]. intros Hnil.
    assert (Hin : funcs ∈ omap (survivor find_functions_internal buffer) (first_choices limit)).
    { apply list_elem_of_omap. exists i. split; [|exact Hsurv].
      apply elem_of_first_choices, Hi. }
    rewrite Hnil in Hin. inversion Hin. }
  subst functions.
  destruct (omap (survivor find_functions_internal buffer) (first_choices limit))
    as [|set sets] eqn:Hsets; [congruence|]. cbn -[select_best_func_limits].
  pose proof (distinct_names_no_duplicates _
              (proj1 (select_best_func_limits_merged (set :: sets)))) as Hdup.
  rewrite Hdup. cbn -[select_best_func_limits].
  destruct (check_func_overlap (select_best_func_limits (set :: sets)));
    cbn -[select_best_func_limits]; rewrite ?app_nil_r; reflexivity.
Qed.
End Cap.

(** ** The selectors of a choice *)

Section Selectors.
Implicit Types (Pragmas : element) (selectors : list Z) (depth : nat).

Lemma clamp_below selector n : (0 < n)%Z -> (clamp selector n < n)%Z.
Proof. unfold clamp. destruct (Z.geb_spec selector n); lia. Qed.
End Selectors.

Example two_conditionals_choice_2 :
  compute_depth_width two_conditionals = DW 1 3
  /\ compute_VS (DW 1 3) = 3%Z
  /\ create_selectors (DW 1 3) 2 = Return [2%Z]
  /\ used_selectors two_conditionals [2%Z] 0 = [(2, 1); (3, 2)]%Z
  /\ select_branch two_conditionals [2%Z]
     = Return [Item 0 20 OTHER; Item 50 60 OTHER; Item 61 80 OTHER].
Proof. repeat split. Qed.

(** ** Tokens *)

Section Scanning.
Implicit Types (buffer rest : list ascii) (index n : nat).

Lemma drop_cons_inv buffer index c rest :
  drop index buffer = c :: rest ->
  get buffer index = c /\ drop (S index) buffer = rest /\ index < length buffer.
Proof.
  intros H.
  assert (Hlt : index < length buffer).
  { destruct (decide (index < length buffer)) as [|Hge]; [assumption|].
    rewrite drop_ge in H by lia. discriminate. }
  destruct (lookup_lt_is_Some_2 buffer index Hlt) as [x Hx].
  rewrite (drop_S _ _ _ Hx) in H. injection H as -> <-.
  rewrite get_lookup, Hx. auto.
Qed.

Lemma drop_nil_inv buffer index : drop index buffer = [] -> length buffer <= index.
Proof.
  intros H. apply (f_equal length) in H. rewrite length_drop in H. simpl in H. lia.
Qed.

Lemma is_space_NUL : is_space NUL = false.
Proof. reflexivity. Qed.

(** [skip_spaces] stops at the first byte from [index] on that is no space. *)
Lemma skip_spaces_spec buffer index :
  let r := skip_spaces buffer index in
  index <= r
  /\ is_space (get buffer r) = false
  /\ forall i, index <= i < r -> is_space (get buffer i) = true.
Proof.
  unfold skip_spaces. remember (drop index buffer) as rest eqn:Hrest.
  revert index Hrest. induction rest as [|c rest IH]; intros index Hrest; simpl.
  - symmetry in Hrest. apply drop_nil_inv in Hrest.
    rewrite get_ge by lia. split; [lia|]. split; [reflexivity|]. intros i Hi. lia.
  - symmetry in Hrest. apply drop_cons_inv in Hrest as (Hc & Hrest & Hlt).
    destruct (is_space c) eqn:Hsp.
    + destruct (IH (S index) (eq_sym Hrest)) as (Hle & Hstop & Hrun).
      split; [lia|]. split; [exact Hstop|].
      intros i Hi. destruct (decide (i = index)) as [->|]; [congruence|].
      apply Hrun. lia.
    + split; [lia|]. split; [congruence|]. intros i Hi. lia.
Qed.

Lemma skip_spaces_ge buffer index : index <= skip_spaces buffer index.
Proof. apply skip_spaces_spec. Qed.

Lemma skip_spaces_stop buffer index :
  is_space (get buffer (skip_spaces buffer index)) = false.
Proof. apply skip_spaces_spec. Qed.

Lemma skip_spaces_fix buffer index :
  is_space (get buffer index) = false -> skip_spaces buffer index = index.
Proof.
  intros H. destruct (skip_spaces_spec buffer index) as (Hle & _ & Hrun).
  destruct (decide (skip_spaces buffer index = index)) as [|Hne]; [assumption|].
  rewrite Hrun in H by lia. discriminate.
Qed.

Lemma skip_spaces_idemp buffer index :
  skip_spaces buffer (skip_spaces buffer index) = skip_spaces buffer index.
Proof. apply skip_spaces_fix, skip_spaces_stop. Qed.

Lemma skip_spaces_le_strlen buffer index :
  index <= strlen buffer -> skip_spaces buffer index <= strlen buffer.
Proof.
  intros Hle. destruct (skip_spaces_spec buffer index) as (_ & _ & Hrun).
  destruct (decide (skip_spaces buffer index <= strlen buffer)) as [|Hgt]; [assumption|].
  specialize (Hrun (strlen buffer)). rewrite strlen_get_nul in Hrun.
  rewrite is_space_NUL in Hrun. assert (false = true) by (apply Hrun; lia). discriminate.
Qed.

(** [scan_word_from] stops at [n] or at the first delimiter. *)
Lemma scan_word_spec buffer n index :
  index <= n ->
  let r := scan_word_from (drop index buffer) n index in
  index <= r <= n
  /\ (forall i, index <= i < r -> is_delimiter (get buffer i) = false)
  /\ (r < n -> is_delimiter (get buffer r) = true).
Proof.
  remember (drop index buffer) as rest eqn:Hrest.
  revert index Hrest. induction rest as [|c rest IH]; intros index Hrest Hn; simpl.
  - symmetry in Hrest. apply drop_nil_inv in Hrest.
    split; [lia|]. split; [intros i Hi; lia|].
    intros _. rewrite get_ge by lia. reflexivity.
  - symmetry in Hrest. apply drop_cons_inv in Hrest as (Hc & Hrest & Hlt).
    destruct (Nat.ltb_spec index n) as [Hin|Hout]; simpl.
    + destruct (is_delimiter c) eqn:Hd; simpl.
      * split; [lia|]. split; [intros i Hi; lia|]. intros _. congruence.
      * destruct (IH (S index) (eq_sym Hrest)) as (Hle & Hrun & Hstop); [lia|].
        split; [lia|]. split; [|exact Hstop].
        intros i Hi. destruct (decide (i = index)) as [->|]; [congruence|].
        apply Hrun. lia.
    + split; [lia|]. split; [intros i Hi; lia|]. intros H. lia.
Qed.

Lemma cstr_id (s : list ascii) :
  (forall i, i < length s -> get s i <> NUL) -> cstr s = s.
Proof.
  intros H. unfold cstr. apply take_ge.
  destruct (decide (length s <= strlen s)) as [|Hlt]; [assumption|].
  destruct (H (strlen s)); [lia|]. apply strlen_get_nul.
Qed.

(** The bytes [begin .. begin + m - 1] below the terminator, as a string. *)
Lemma cstr_take_drop buffer begin m :
  begin + m <= strlen buffer ->
  cstr (take m (drop begin buffer)) = take m (drop begin buffer)
  /\ length (take m (drop begin buffer)) = m.
Proof.
  intros H. pose proof (strlen_le_length buffer) as Hle.
  assert (Hlen : length (take m (drop begin buffer)) = m).
  { rewrite length_take, length_drop. lia. }
  split; [|exact Hlen]. apply cstr_id. intros i Hi.
  rewrite get_lookup, lookup_take_lt, <- get_lookup, get_drop by lia.
  apply strlen_get_nonnul. lia.
Qed.
End Scanning.

Section SimpleTokens.
Implicit Types (buffer : list ascii) (index : nat) (t : token).

Lemma token_text buffer begin end' :
  begin <= end' < strlen buffer ->
  let text := take (end' - begin + 1) (drop begin buffer) in
  cstr text = text /\ strlen text = end' - begin + 1.
Proof.
  intros H text.
  destruct (cstr_take_drop buffer begin (end' - begin + 1)) as [Hc Hl]; [lia|].
  split; [exact Hc|]. fold text in Hc, Hl.
  rewrite <- cstr_length, Hc. exact Hl.
Qed.

Lemma get_simple_token_Some buffer index t :
  get_simple_token buffer (strlen buffer) index = Some t ->
  simple_token_at buffer index t.
Proof.
  unfold get_simple_token.
  destruct (Nat.leb_spec (strlen buffer) index) as [|Hindex]; [discriminate|].
  pose proof (skip_spaces_ge buffer index) as Hge.
  set (begin := skip_spaces buffer index) in *.
  destruct (Nat.leb_spec (strlen buffer) begin) as [|Hbegin]; [discriminate|].
  destruct (is_delimiter (get buffer begin)) eqn:Hd.
  - intros [= <-].
    destruct (token_text buffer begin begin) as [Hc Hl]; [lia|].
    constructor; simpl; rewrite ?Hc; try (reflexivity || lia || assumption).
    + f_equal. lia.
    + congruence.
  - destruct (scan_word_spec buffer (strlen buffer) (S begin)) as ((Hlo & Hhi) & Hrun & _);
      [lia|].
    set (r := scan_word_from (drop (S begin) buffer) (strlen buffer) (S begin)) in *.
    intros [= <-].
    destruct (token_text buffer begin (r - 1)) as [Hc Hl]; [lia|].
    constructor; simpl; rewrite ?Hc; try (reflexivity || lia || assumption).
    + f_equal. lia.
    + congruence.
    + intros _ i Hi. destruct (decide (i = begin)) as [->|]; [exact Hd|].
      apply Hrun. lia.
Qed.

(** There is a basic token wherever a byte other than a space is left. *)
Lemma get_simple_token_None buffer index :
  get_simple_token buffer (strlen buffer) index = None ->
  strlen buffer <= skip_spaces buffer index.
Proof.
  unfold get_simple_token.
  destruct (Nat.leb_spec (strlen buffer) index) as [Hindex|Hindex].
  - intros _. pose proof (skip_spaces_ge buffer index). lia.
  - destruct (Nat.leb_spec (strlen buffer) (skip_spaces buffer index)); [auto|].
    discriminate.
Qed.

Lemma simple_token_nonempty buffer index t :
  simple_token_at buffer index t ->
  exists c rest, tk_text t = c :: rest /\ c = get buffer (tk_begin t)
                 /\ strlen (tk_text t) = length (tk_text t).
Proof.
  intros H. pose proof (st_extent _ _ _ H) as He.
  pose proof (strlen_le_length buffer) as Hle.
  destruct (cstr_take_drop buffer (tk_begin t) (tk_end t - tk_begin t + 1)) as [Hc Hl];
    [lia|].
  rewrite <- (st_text _ _ _ H) in Hc, Hl.
  assert (Hs : strlen (tk_text t) = length (tk_text t))
    by (rewrite <- cstr_length, Hc; reflexivity).
  destruct (tk_text t) as [|c rest] eqn:Ht; [simpl in Hl; lia|].
  exists c, rest. split; [reflexivity|]. split; [|exact Hs].
  pose proof (st_text _ _ _ H) as Htext. rewrite Ht in Htext.
  apply (f_equal (fun l => get l 0)) in Htext.
  change (get (c :: rest) 0) with c in Htext.
  rewrite Htext, get_lookup, lookup_take_lt, <- get_lookup, get_drop by lia.
  f_equal. lia.
Qed.
End SimpleTokens.

(** ** Compound tokens *)

Ltac eqb_constants :=
  repeat match goal with
         | |- context [Ascii.eqb ?a ?b] =>
             let v := eval vm_compute in (Ascii.eqb a b) in
             match v with
             | true => change (Ascii.eqb a b) with true
             | false => change (Ascii.eqb a b) with false
             end
         end.

Ltac eqb_cases :=
  repeat (eqb_constants;
          match goal with
          | |- context [Ascii.eqb ?a ?b] =>
              destruct (Ascii.eqb_spec a b) as [->|?]
          end);
  eqb_constants.

Section Compound.
Implicit Types (c : ascii) (text : list ascii).

Lemma recognized_are_merged : recognized_operators ⊆ merged_operators.
Proof. apply (bool_decide_unpack _). vm_compute. exact I. Qed.

Lemma compatible_pair_merged c1 c2 :
  compatible_pair c1 c2 || compatible_pair c2 c1 = is_merged_operator [c1; c2].
Proof.
  unfold compatible_pair, is_merged_operator.
  destruct (bool_decide_reflect ([c1; c2] ∈ chars <$> merged_operators)) as [Hin|Hout].
  - apply list_elem_of_fmap in Hin as (op & Hop & Hin').
    vm_compute in Hin'.
    repeat (apply elem_of_cons in Hin' as [->|Hin'];
            [vm_compute in Hop; injection Hop as -> ->; reflexivity|]).
    inversion Hin'.
  - apply not_true_is_false. intros H. apply Hout. clear Hout. revert H.
    eqb_cases; simpl; try discriminate; intros _;
      apply (bool_decide_unpack _); vm_compute; exact I.
Qed.

Lemma merged_operator_length text :
  is_merged_operator text = true -> length text = 2.
Proof.
  unfold is_merged_operator. intros H. apply bool_decide_eq_true_1 in H.
  apply list_elem_of_fmap in H as (op & -> & Hin).
  vm_compute in Hin.
  repeat (apply elem_of_cons in Hin as [->|Hin]; [reflexivity|]).
  inversion Hin.
Qed.

Lemma nul_free_cons c text :
  strlen (c :: text) = length (c :: text) -> c <> NUL /\ strlen text = length text.
Proof.
  simpl. destruct (Ascii.eqb_spec c NUL) as [->|Hc]; [discriminate|].
  intros [= H]. auto.
Qed.

Lemma get_1_nul c text :
  strlen (c :: text) = length (c :: text) ->
  Ascii.eqb (get (c :: text) 1) NUL = bool_decide (text = []).
Proof.
  intros H. apply nul_free_cons in H as [_ H].
  destruct text as [|x text]; [reflexivity|].
  apply nul_free_cons in H as [Hx _].
  change (get (c :: x :: text) 1) with x.
  destruct (Ascii.eqb_spec x NUL); [congruence|].
  rewrite bool_decide_eq_false_2; [reflexivity|discriminate].
Qed.

(** On the texts of two basic tokens, the first not a lone [#],
    [compatible_tokens] tells whether the two together are one of
    [merged_operators]. *)
Lemma compatible_tokens_merged text1 text2 :
  text1 <> [] -> text2 <> [] ->
  strlen text1 = length text1 -> strlen text2 = length text2 ->
  text1 <> chars "#" ->
  compatible_tokens text1 text2 = is_merged_operator (text1 ++ text2).
Proof.
  intros Hne1 Hne2 Hs1 Hs2 Hhash.
  destruct text1 as [|c1 r1]; [congruence|]. destruct text2 as [|c2 r2]; [congruence|].
  unfold compatible_tokens. rewrite !get_1_nul by assumption.
  change (get (c1 :: r1) 0) with c1. change (get (c2 :: r2) 0) with c2.
  apply nul_free_cons in Hs1 as [Hc1 _]. apply nul_free_cons in Hs2 as [Hc2 _].
  destruct (Ascii.eqb_spec c1 NUL); [congruence|].
  destruct (Ascii.eqb_spec c2 NUL); [congruence|]. simpl.
  destruct (bool_decide_reflect (r1 = [])) as [->|Hr1]; simpl.
  - destruct (Ascii.eqb_spec c1 "#") as [->|_]; [destruct Hhash; reflexivity|]. simpl.
    destruct (bool_decide_reflect (r2 = [])) as [->|Hr2]; simpl.
    + apply compatible_pair_merged.
    + symmetry. apply not_true_is_false. intros H.
      apply merged_operator_length in H. destruct r2; [congruence|]. simpl in H. rewrite ?length_app in H. simpl in H. lia.
  - rewrite andb_false_r. symmetry. apply not_true_is_false. intros H.
    apply merged_operator_length in H. destruct r1; [congruence|]. simpl in H. rewrite ?length_app in H. simpl in H. lia.
Qed.

Lemma lone_hash_flag text :
  text <> [] -> strlen text = length text -> text <> chars "#" ->
  Ascii.eqb (get text 0) "#" && Ascii.eqb (get text 1) NUL = false.
Proof.
  intros Hne Hs Hhash. destruct text as [|c r]; [congruence|].
  rewrite get_1_nul by assumption. change (get (c :: r) 0) with c.
  destruct (Ascii.eqb_spec c "#") as [->|]; [|reflexivity].
  destruct r; [destruct Hhash; reflexivity|reflexivity].
Qed.

(** C5, as the code has it: of two adjacent basic tokens, the first not
    a lone [#] and the scan starting at its first byte, [get_token] makes
    one compound token exactly when the two together are one of
    [merged_operators]; otherwise it returns the first alone. *)
Theorem get_token_compound (buffer : list ascii) (index : nat) (t1 t2 : token) :
  get_simple_token buffer (strlen buffer) index = Some t1 ->
  get_simple_token buffer (strlen buffer) (tk_next t1) = Some t2 ->
  tk_begin t1 = index ->
  tk_begin t2 = S (tk_end t1) ->
  tk_text t1 <> chars "#" ->
  get_token buffer (strlen buffer) index
  = Some (if is_merged_operator (tk_text t1 ++ tk_text t2) then compound t1 t2 else t1).
Proof.
  intros H1 H2 Hstart Hadj Hhash. unfold get_token. rewrite H1, H2.
  apply get_simple_token_Some in H1, H2.
  destruct (simple_token_nonempty _ _ _ H1) as (c1 & r1 & Ht1 & _ & Hs1).
  destruct (simple_token_nonempty _ _ _ H2) as (c2 & r2 & Ht2 & _ & Hs2).
  rewrite lone_hash_flag by (assumption || congruence).
  assert (Hnext : tk_next t1 = S (tk_end t1)).
  { rewrite <- Hadj, (st_begin _ _ _ H2), (st_next _ _ _ H1).
    symmetry. apply skip_spaces_idemp. }
  rewrite (st_length _ _ _ H1), Hnext.
  pose proof (st_extent _ _ _ H1) as He.
  replace (index + (tk_end t1 - tk_begin t1 + 1) =? S (tk_end t1)) with true
    by (symmetry; apply Nat.eqb_eq; lia).
  simpl. rewrite compatible_tokens_merged by (assumption || congruence).
  destruct (is_merged_operator (tk_text t1 ++ tk_text t2)); reflexivity.
Qed.
End Compound.

(** C5 as stated fails: [+] and [=] are adjacent basic tokens, [+=] is
    not in the list of the specification, and [get_token] makes one
    token of them. *)
Lemma get_token_plus_assign :
  get_simple_token (chars "a+=b") 4 1 = Some (Token 2 1 1 (chars "+"))
  /\ get_simple_token (chars "a+=b") 4 2 = Some (Token 3 2 2 (chars "="))
  /\ get_token (chars "a+=b") 4 1 = Some (Token 3 1 2 (chars "+="))
  /\ chars "+=" ∉ chars <$> recognized_operators.
Proof.
  repeat split; try reflexivity.
  apply (bool_decide_unpack _). vm_compute. exact I.
Qed.

(** The pairs are taken in both orders. *)
Example get_token_reversed_arrow :
  get_token (chars "a>-b") 4 1 = Some (Token 3 1 2 (chars ">-")).
Proof. reflexivity. Qed.

Lemma get_token_compound_witness :
  get_simple_token (chars "p->q") (strlen (chars "p->q")) 1 = Some (Token 2 1 1 (chars "-"))
  /\ get_simple_token (chars "p->q") (strlen (chars "p->q")) 2
     = Some (Token 3 2 2 (chars ">"))
  /\ chars "-" <> chars "#"
  /\ get_token (chars "p->q") (strlen (chars "p->q")) 1
     = Some (Token 3 1 2 (chars "->")).
Proof.
  assert (H1 : get_simple_token (chars "p->q") (strlen (chars "p->q")) 1
               = Some (Token 2 1 1 (chars "-"))) by reflexivity.
  assert (H2 : get_simple_token (chars "p->q") (strlen (chars "p->q"))
                 (tk_next (Token 2 1 1 (chars "-")))
               = Some (Token 3 2 2 (chars ">"))) by reflexivity.
  assert (H3 : chars "-" <> chars "#") by discriminate.
  split; [exact H1|]. split; [exact H2|]. split; [exact H3|].
  rewrite (get_token_compound (chars "p->q") 1 _ _ H1 H2 eq_refl eq_refl H3).
  reflexivity.
Defined.

(** ** Loops *)

Section Iterate.
Context {S R : Type}.
Variable step : S -> run (S + R).

(** A loop that keeps [Inv], lowers [measure] in every round and can
    only be left with [Post], is left with [Post] when the fuel is more
    than the measure. *)
Lemma iterate_measure (Inv : S -> Prop) (measure : S -> nat) (Post : R -> Prop) :
  (forall s, Inv s ->
     match step s with
     | Return (inl s') => Inv s' /\ measure s' < measure s
     | Return (inr r) => Post r
     | Stop _ => False
     end) ->
  forall fuel s, Inv s -> measure s < fuel ->
    exists r, iterate step fuel s = Return r /\ Post r.
Proof.
  intros Hstep. induction fuel as [|fuel IH]; intros s Hinv Hfuel; [lia|].
  simpl. specialize (Hstep s Hinv).
  destruct (step s) as [[s'|r]|]; simpl; [|eauto|contradiction].
  destruct Hstep as [Hinv' Hlt]. apply IH; [exact Hinv'|lia].
Qed.

(** A loop that always stops in the same way. *)
Lemma iterate_stops (Inv : S -> Prop) (measure : S -> nat) (why : stop) :
  (forall s, Inv s ->
     match step s with
     | Return (inl s') => Inv s' /\ measure s' < measure s
     | Return (inr r) => False
     | Stop w => w = why
     end) ->
  forall fuel s, Inv s -> measure s < fuel -> iterate step fuel s = Stop why.
Proof.
  intros Hstep. induction fuel as [|fuel IH]; intros s Hinv Hfuel; [lia|].
  simpl. specialize (Hstep s Hinv).
  destruct (step s) as [[s'|r]|]; simpl; [|contradiction|congruence].
  destruct Hstep as [Hinv' Hlt]. apply IH; [exact Hinv'|lia].
Qed.

(** The rounds before a state that the loop comes to use up fuel only. *)
Lemma iterate_unroll fuel s s' :
  step s = Return (inl s') -> iterate step (Datatypes.S fuel) s = iterate step fuel s'.
Proof. intros H. simpl. rewrite H. reflexivity. Qed.
End Iterate.

(** ** Literals *)

Section Escapes.
Implicit Types (buffer l : list ascii) (c symbol : ascii) (p q index : nat).

Lemma run_length_app l1 l2 :
  run_length l2 = 0 -> run_length (l1 ++ l2) = run_length l1.
Proof.
  intros H. induction l1 as [|c l1 IH]; simpl; [exact H|].
  destruct (Ascii.eqb c BACKSLASH); [rewrite IH|]; reflexivity.
Qed.

Lemma take_S_snoc l k :
  k < length l -> take (Datatypes.S k) l = take k l ++ [get l k].
Proof.
  intros Hk. destruct (lookup_lt_is_Some_2 l k Hk) as [x Hx].
  rewrite (take_S_r _ _ _ Hx), get_lookup, Hx. reflexivity.
Qed.

Lemma backslashes_before_S buffer p :
  p < length buffer ->
  backslashes_before buffer (Datatypes.S p)
  = if Ascii.eqb (get buffer p) BACKSLASH
    then Datatypes.S (backslashes_before buffer p) else 0.
Proof.
  intros Hp. unfold backslashes_before.
  rewrite take_S_snoc, reverse_snoc by exact Hp. reflexivity.
Qed.

(** The flag after the bytes [begin .. begin + k - 1], from any flag
    that tells the parity of the backslashes before [begin]. *)
Lemma escape_flag_parity buffer begin k :
  begin + k <= length buffer ->
  foldl (fun (flag : bool) i =>
           if Ascii.eqb (get buffer i) BACKSLASH
           then (if flag then false else true)
           else false)
        (Nat.odd (backslashes_before buffer begin)) (seq begin k)
  = Nat.odd (backslashes_before buffer (begin + k)).
Proof.
  induction k as [|k IH]; intros Hk.
  - rewrite Nat.add_0_r. reflexivity.
  - rewrite seq_S, foldl_snoc, IH by lia.
    replace (begin + Datatypes.S k) with (Datatypes.S (begin + k)) by lia.
    rewrite backslashes_before_S by lia.
    destruct (Ascii.eqb (get buffer (begin + k)) BACKSLASH); [|reflexivity].
    rewrite Nat.odd_succ, <- Nat.negb_odd.
    destruct (Nat.odd (backslashes_before buffer (begin + k))); reflexivity.
Qed.

Lemma escape_flag_odd buffer begin end' :
  1 <= begin -> get buffer (begin - 1) <> BACKSLASH -> end' < length buffer ->
  begin <= Datatypes.S end' ->
  escape_flag buffer begin end'
  = Nat.odd (backslashes_before buffer (Datatypes.S end')).
Proof.
  intros Hb Hbefore Hend Hle. unfold escape_flag.
  assert (H0 : backslashes_before buffer begin = 0).
  { replace begin with (Datatypes.S (begin - 1)) by lia.
    rewrite backslashes_before_S by lia.
    destruct (Ascii.eqb_spec (get buffer (begin - 1)) BACKSLASH); [congruence|reflexivity]. }
  pose proof (escape_flag_parity buffer begin (end' + 1 - begin)) as H.
  rewrite H0 in H. change (Nat.odd 0) with false in H.
  replace (begin + (end' + 1 - begin)) with (Datatypes.S end') in H by lia.
  apply H. lia.
Qed.
End Escapes.

Section Strchr.
Implicit Types (s buffer : list ascii) (c symbol : ascii) (p q index off : nat).

Lemma strchr_Some s c off :
  strchr s c = Some off ->
  get s off = c /\ forall i, i < off -> get s i <> c /\ get s i <> NUL.
Proof.
  revert off. induction s as [|x s IH]; intros off; simpl; [discriminate|].
  destruct (Ascii.eqb_spec x c) as [->|Hx].
  - intros [= <-]. split; [reflexivity|]. intros i Hi. lia.
  - destruct (Ascii.eqb_spec x NUL) as [|Hnul]; [discriminate|].
    destruct (strchr s c) as [off'|]; simpl; [|discriminate].
    intros [= <-]. destruct (IH off' eq_refl) as [Hget Hbefore].
    split; [exact Hget|]. intros [|i] Hi; [auto|]. apply Hbefore. lia.
Qed.

Lemma strchr_None s c i :
  strchr s c = None -> i < strlen s -> get s i <> c.
Proof.
  revert i. induction s as [|x s IH]; intros i; simpl; [lia|].
  destruct (Ascii.eqb_spec x c) as [|Hx]; [discriminate|].
  destruct (Ascii.eqb_spec x NUL) as [|Hnul]; [lia|].
  destruct (strchr s c) as [off'|] eqn:E; simpl; [discriminate|].
  intros _ Hi. destruct i as [|i]; [exact Hx|]. apply IH; [reflexivity|lia].
Qed.

Lemma strchr_finds s c p :
  p < strlen s -> get s p = c ->
  exists off, strchr s c = Some off /\ off <= p.
Proof.
  intros Hp Hc. destruct (strchr s c) as [off|] eqn:E.
  - exists off. split; [reflexivity|].
    destruct (strchr_Some _ _ _ E) as [_ Hbefore].
    destruct (decide (off <= p)) as [|Hgt]; [assumption|].
    destruct (Hbefore p) as [Hne _]; [lia|congruence].
  - destruct (strchr_None _ _ _ E Hp Hc).
Qed.

Lemma strlen_drop s i : i <= strlen s -> strlen (drop i s) = strlen s - i.
Proof.
  intros Hi. apply strlen_unique.
  - intros j Hj. rewrite get_drop. apply strlen_get_nonnul. lia.
  - rewrite get_drop. replace (i + (strlen s - i)) with (strlen s) by lia.
    apply strlen_get_nul.
Qed.

Lemma strchr_Some_below s c off :
  c <> NUL -> strchr s c = Some off -> off < strlen s.
Proof.
  intros Hc H. destruct (strchr_Some _ _ _ H) as [Hget Hbefore].
  destruct (decide (off < strlen s)) as [|Hge]; [assumption|].
  destruct (decide (off = strlen s)) as [->|Hne].
  - rewrite strlen_get_nul in Hget. congruence.
  - destruct (Hbefore (strlen s)) as [_ Hnul]; [lia|].
    destruct Hnul. apply strlen_get_nul.
Qed.

(** A quote with an odd number of backslashes before it has one. *)
Lemma odd_backslash_before buffer q :
  1 <= q -> q <= length buffer ->
  Nat.odd (backslashes_before buffer q) = true ->
  get buffer (q - 1) = BACKSLASH.
Proof.
  intros H1 Hq. replace q with (Datatypes.S (q - 1)) at 1 by lia.
  rewrite backslashes_before_S by lia.
  destruct (Ascii.eqb_spec (get buffer (q - 1)) BACKSLASH); [auto|discriminate].
Qed.

Lemma not_backslash_before buffer q :
  1 <= q -> q <= length buffer ->
  get buffer (q - 1) <> BACKSLASH -> backslashes_before buffer q = 0.
Proof.
  intros H1 Hq Hne. replace q with (Datatypes.S (q - 1)) at 1 by lia.
  rewrite backslashes_before_S by lia.
  destruct (Ascii.eqb_spec (get buffer (q - 1)) BACKSLASH); [congruence|reflexivity].
Qed.

(** One round of [match_symbol] at a quote: the quote found at [q]
    closes the literal or not with the parity of its backslashes. *)
Lemma match_symbol_step_at buffer index symbol i q :
  symbol <> BACKSLASH -> symbol <> NUL ->
  get buffer index = symbol ->
  index < i -> i <= q -> q < strlen buffer ->
  get buffer q = symbol ->
  (forall j, i <= j < q -> get buffer j <> symbol) ->
  match_symbol_step buffer index symbol i
  = Return (if Nat.odd (backslashes_before buffer q)
            then inl (Datatypes.S q) else inr (Datatypes.S q)).
Proof.
  intros Hbs Hnul Hopen Hi Hiq Hq Hsym Hfirst.
  pose proof (strlen_le_length buffer) as Hlen.
  unfold match_symbol_step.
  destruct (strchr_finds (drop i buffer) symbol (q - i)) as (off & Hoff & Hle).
  { rewrite strlen_drop by lia. lia. }
  { rewrite get_drop. replace (i + (q - i)) with q by lia. exact Hsym. }
  rewrite Hoff. destruct (strchr_Some _ _ _ Hoff) as [Hget _].
  rewrite get_drop in Hget.
  assert (i + off = q) as ->.
  { destruct (decide (i + off = q)) as [|Hne]; [assumption|].
    destruct (Hfirst (i + off)); [lia|exact Hget]. }
  replace (q + 1) with (Datatypes.S q) by lia.
  destruct (Ascii.eqb_spec (get buffer (q - 1)) BACKSLASH) as [Hesc|Hesc].
  - assert (Hq1 : q - 1 <> index) by (intros E; rewrite E in Hesc; congruence).
    unfold assert. destruct (Nat.leb_spec (index + 1 + 1) q) as [_|]; [|lia]. simpl.
    rewrite escape_flag_odd; [|lia| |lia|lia].
    + replace (Datatypes.S (q - 1)) with q by lia.
      destruct (Nat.odd (backslashes_before buffer q)); reflexivity.
    + replace (index + 1 - 1) with index by lia. congruence.
  - rewrite not_backslash_before by (lia || assumption). reflexivity.
Qed.
End Strchr.

Section MatchSymbol.
Implicit Types (buffer : list ascii) (symbol : ascii) (p q index : nat).

(** The first quote from [i] on, when there is one at [p]. *)
Lemma first_quote buffer symbol i p :
  i <= p -> p < strlen buffer -> get buffer p = symbol ->
  exists q, i <= q <= p /\ get buffer q = symbol
            /\ forall j, i <= j < q -> get buffer j <> symbol.
Proof.
  intros Hi Hp Hsym.
  destruct (strchr_finds (drop i buffer) symbol (p - i)) as (off & Hoff & Hle).
  { rewrite strlen_drop by lia. lia. }
  { rewrite get_drop. replace (i + (p - i)) with p by lia. exact Hsym. }
  destruct (strchr_Some _ _ _ Hoff) as [Hget Hbefore]. rewrite get_drop in Hget.
  exists (i + off). split; [lia|]. split; [exact Hget|].
  intros j Hj. destruct (Hbefore (j - i)) as [Hne _]; [lia|].
  rewrite get_drop in Hne. replace (i + (j - i)) with j in Hne by lia. exact Hne.
Qed.

(** C6: a literal opened at [index] is closed at the first quote after
    it that has an even number of backslashes just before it; the quotes
    before that one, each with an odd number, are passed over.  The
    result of [match_symbol] is the offset after the closing quote. *)
Theorem match_symbol_closes buffer index symbol p :
  symbol = DQUOTE \/ symbol = SQUOTE ->
  get buffer index = symbol ->
  index < p -> p < strlen buffer ->
  get buffer p = symbol ->
  Nat.even (backslashes_before buffer p) = true ->
  (forall q, index < q < p -> get buffer q = symbol ->
             Nat.odd (backslashes_before buffer q) = true) ->
  match_symbol buffer index symbol = Return (Some (Datatypes.S p)).
Proof.
  intros Hquote Hopen Hip Hp Hsym Heven Hodd.
  assert (Hbs : symbol <> BACKSLASH) by (destruct Hquote as [->| ->]; discriminate).
  assert (Hnul : symbol <> NUL) by (destruct Hquote as [->| ->]; discriminate).
  pose proof (strlen_le_length buffer) as Hlen.
  unfold match_symbol. rewrite Hopen, Ascii.eqb_refl. cbn [negb].
  destruct (iterate_measure (match_symbol_step buffer index symbol)
              (fun i => index < i <= p) (fun i => p + 1 - i)
              (fun r => r = Datatypes.S p)) with (fuel := Datatypes.S (length buffer))
              (s := Datatypes.S index) as (r & Hrun & ->); [|lia|lia|].
  - intros i [Hi Hle].
    destruct (first_quote buffer symbol i p) as (q & Hq & Hqsym & Hfirst);
      [lia|exact Hp|exact Hsym|].
    rewrite (match_symbol_step_at buffer index symbol i q) by (assumption || lia).
    destruct (decide (q = p)) as [->|Hne].
    + rewrite <- Nat.negb_even, Heven. reflexivity.
    + rewrite Hodd by (assumption || lia). lia.
  - rewrite Hrun. reflexivity.
Qed.

(** Without a closing quote the literal runs to the end of the buffer. *)
Lemma match_symbol_unterminated buffer index symbol :
  symbol = DQUOTE \/ symbol = SQUOTE ->
  index < strlen buffer ->
  get buffer index = symbol ->
  (forall q, index < q < strlen buffer -> get buffer q = symbol ->
             Nat.odd (backslashes_before buffer q) = true) ->
  match_symbol buffer index symbol = Return (Some (strlen buffer)).
Proof.
  intros Hquote Hindex Hopen Hodd.
  assert (Hbs : symbol <> BACKSLASH) by (destruct Hquote as [->| ->]; discriminate).
  assert (Hnul : symbol <> NUL) by (destruct Hquote as [->| ->]; discriminate).
  pose proof (strlen_le_length buffer) as Hlen.
  unfold match_symbol. rewrite Hopen, Ascii.eqb_refl. cbn [negb].
  destruct (iterate_measure (match_symbol_step buffer index symbol)
              (fun i => index < i <= strlen buffer) (fun i => strlen buffer + 1 - i)
              (fun r => r = strlen buffer)) with (fuel := Datatypes.S (length buffer))
              (s := Datatypes.S index) as (r & Hrun & ->); [|lia|lia|].
  - intros i [Hi Hle].
    destruct (strchr (drop i buffer) symbol) as [off|] eqn:Hoff.
    + pose proof (strchr_Some_below _ _ _ Hnul Hoff) as Hbelow.
      rewrite strlen_drop in Hbelow by lia.
      destruct (strchr_Some _ _ _ Hoff) as [Hget Hbefore]. rewrite get_drop in Hget.
      rewrite (match_symbol_step_at buffer index symbol i (i + off));
        try (assumption || lia).
      * rewrite Hodd by (assumption || lia). lia.
      * intros j Hj. destruct (Hbefore (j - i)) as [Hne _]; [lia|].
        rewrite get_drop in Hne. replace (i + (j - i)) with j in Hne by lia. exact Hne.
    + unfold match_symbol_step. rewrite Hoff. reflexivity.
  - rewrite Hrun. reflexivity.
Qed.
End MatchSymbol.

Lemma match_symbol_closes_witness :
  (DQUOTE = DQUOTE \/ DQUOTE = SQUOTE)
  /\ get (DQUOTE :: chars "a\" ++ DQUOTE :: chars "b\\" ++ DQUOTE :: chars " c") 0 = DQUOTE
  /\ match_symbol (DQUOTE :: chars "a\" ++ DQUOTE :: chars "b\\" ++ DQUOTE :: chars " c")
                  0 DQUOTE
     = Return (Some 8).
Proof.
  assert (H1 : DQUOTE = DQUOTE \/ DQUOTE = SQUOTE) by (left; reflexivity).
  split; [exact H1|]. split; [reflexivity|].
  apply (match_symbol_closes _ 0 DQUOTE 7 H1); try reflexivity; try lia.
  { vm_compute. lia. }
  intros q Hq. assert (q = 1 \/ q = 2 \/ q = 3 \/ q = 4 \/ q = 5 \/ q = 6) as Hcases by lia.
  destruct Hcases as [->|[->|[->|[->|[->| ->]]]]]; vm_compute; congruence.
Defined.

(** ** The walk of [diff] *)

Section Blanks.
Implicit Types (a b l buffer : list ascii) (i j k : nat).

Lemma is_blank_NUL : is_blank NUL = false.
Proof. reflexivity. Qed.

(** [skip_blanks] stops at the first byte from [i] on that is not blank. *)
Lemma skip_blanks_spec buffer i :
  let r := skip_blanks buffer i in
  i <= r
  /\ is_blank (get buffer r) = false
  /\ forall k, i <= k < r -> is_blank (get buffer k) = true.
Proof.
  unfold skip_blanks. remember (drop i buffer) as rest eqn:Hrest.
  revert i Hrest. induction rest as [|c rest IH]; intros i Hrest; simpl.
  - symmetry in Hrest. apply drop_nil_inv in Hrest.
    rewrite get_ge by lia. split; [lia|]. split; [reflexivity|]. intros k Hk. lia.
  - symmetry in Hrest. apply drop_cons_inv in Hrest as (Hc & Hrest & Hlt).
    destruct (is_blank c) eqn:Hsp.
    + destruct (IH (S i) (eq_sym Hrest)) as (Hle & Hstop & Hrun).
      split; [lia|]. split; [exact Hstop|].
      intros k Hk. destruct (decide (k = i)) as [->|]; [congruence|].
      apply Hrun. lia.
    + split; [lia|]. split; [congruence|]. intros k Hk. lia.
Qed.

Lemma skip_blanks_le_length buffer i :
  i <= length buffer -> skip_blanks buffer i <= length buffer.
Proof.
  intros Hle. destruct (skip_blanks_spec buffer i) as (_ & _ & Hrun).
  destruct (decide (skip_blanks buffer i <= length buffer)) as [|Hgt]; [assumption|].
  specialize (Hrun (length buffer)). rewrite get_ge, is_blank_NUL in Hrun by lia.
  assert (false = true) by (apply Hrun; lia). discriminate.
Qed.

Lemma strip_drop_blank buffer i :
  i < length buffer -> is_blank (get buffer i) = true ->
  strip (drop i buffer) = strip (drop (S i) buffer).
Proof.
  intros Hi Hb. destruct (lookup_lt_is_Some_2 buffer i Hi) as [x Hx].
  rewrite (drop_S _ _ _ Hx). rewrite get_lookup, Hx in Hb. simpl in Hb.
  unfold strip. rewrite filter_cons_False; [reflexivity|]. congruence.
Qed.

Lemma strip_drop_byte buffer i :
  i < length buffer -> is_blank (get buffer i) = false ->
  strip (drop i buffer) = get buffer i :: strip (drop (S i) buffer).
Proof.
  intros Hi Hb. destruct (lookup_lt_is_Some_2 buffer i Hi) as [x Hx].
  rewrite (drop_S _ _ _ Hx). rewrite get_lookup, Hx in Hb |- *. simpl in Hb |- *.
  unfold strip. rewrite filter_cons_True; [reflexivity|]. exact Hb.
Qed.

Lemma strip_drop_run buffer i r :
  i <= r -> r <= length buffer ->
  (forall k, i <= k < r -> is_blank (get buffer k) = true) ->
  strip (drop i buffer) = strip (drop r buffer).
Proof.
  intros Hir Hr Hrun. induction Hir as [|r Hir IH]; [reflexivity|].
  rewrite IH by (try lia; intros k Hk; apply Hrun; lia).
  apply strip_drop_blank; [lia|]. apply Hrun. lia.
Qed.

Lemma strip_drop_skip buffer i :
  i <= length buffer ->
  strip (drop i buffer) = strip (drop (skip_blanks buffer i) buffer).
Proof.
  intros Hi. destruct (skip_blanks_spec buffer i) as (Hle & _ & Hrun).
  apply strip_drop_run; [exact Hle| |exact Hrun].
  apply skip_blanks_le_length, Hi.
Qed.

Lemma strip_nil_blank l k :
  strip l = [] -> k < length l -> is_blank (get l k) = true.
Proof.
  revert k. induction l as [|c l IH]; intros k; simpl; [lia|].
  unfold strip. rewrite filter_cons. destruct (decide (is_blank c = false)) as [|Hc];
    [discriminate|].
  intros Hnil Hk. destruct k as [|k]; [|apply IH; [exact Hnil|lia]].
  change (get (c :: l) 0) with c. destruct (is_blank c); congruence.
Qed.

(** What is left of [buffer] from [i] on has no byte other than blanks:
    either nothing is left or the buffer ends with a blank. *)
Lemma strip_drop_nil buffer i :
  i <= length buffer -> strip (drop i buffer) = [] ->
  i = length buffer \/ ends_blank buffer = true.
Proof.
  intros Hi Hnil. destruct (decide (i = length buffer)) as [|Hne]; [auto|]. right.
  unfold ends_blank.
  pose proof (strip_nil_blank _ (length buffer - 1 - i) Hnil) as H.
  rewrite get_drop, length_drop in H.
  replace (i + (length buffer - 1 - i)) with (length buffer - 1) in H by lia.
  apply H. lia.
Qed.
End Blanks.

Section Walk.
Implicit Types (a b : list ascii) (i j : nat).

Lemma ends_blank_last a i :
  S i = length a -> is_blank (get a i) = false -> ends_blank a = false.
Proof.
  intros Hi Hb. unfold ends_blank. replace (length a - 1) with i by lia. exact Hb.
Qed.

(** After a byte that is not blank, the rest of [a] is empty when the
    rest of [b] is, if both bodies end alike. *)
Lemma rest_alike a b i j :
  ends_blank a = ends_blank b ->
  i < length a -> j < length b ->
  is_blank (get a i) = false -> is_blank (get b j) = false ->
  strip (drop (S i) a) = strip (drop (S j) b) ->
  S i = length a <-> S j = length b.
Proof.
  intros Hends Hi Hj Hai Hbj Hrest. split; intros Hlast.
  - rewrite Hlast, drop_all in Hrest. symmetry in Hrest.
    apply strip_drop_nil in Hrest as [|Hb]; [assumption| |lia].
    rewrite <- Hends, (ends_blank_last a i) in Hb by assumption. discriminate.
  - rewrite Hlast, drop_all in Hrest.
    apply strip_drop_nil in Hrest as [|Ha]; [assumption| |lia].
    rewrite Hends, (ends_blank_last b j) in Ha by assumption. discriminate.
Qed.

Lemma walk_round a b st :
  ends_blank a = ends_blank b ->
  in_step a b st ->
  match walk_step a b (length a) (length b) st with
  | Return (inl st') => in_step a b st' /\ S (length a) - fst st' < S (length a) - fst st
  | Return (inr r) => r = (false, fst st, snd st)
                      /\ ~ fst st < length a /\ ~ snd st < length b
  | Stop _ => False
  end.
Proof.
  intros Hends. destruct st as [i j]. unfold walk_step. simpl fst. simpl snd.
  intros [(Hi & Hj & Hstrip & Hiff)|[-> ->]].
  2:{ destruct (Nat.ltb_spec (S (length a)) (length a)); [lia|]. simpl.
      split; [reflexivity|lia]. }
  destruct (Nat.ltb_spec i (length a)) as [Hia|Hia]; simpl.
  2:{ split; [reflexivity|lia]. }
  destruct (Nat.ltb_spec j (length b)) as [Hjb|Hjb]; simpl.
  2:{ split; [reflexivity|lia]. }
  destruct (skip_blanks_spec a i) as (Hle1 & Hstop1 & _).
  destruct (skip_blanks_spec b j) as (Hle2 & Hstop2 & _).
  pose proof (skip_blanks_le_length a i Hi) as Hr1.
  pose proof (skip_blanks_le_length b j Hj) as Hr2.
  rewrite (strip_drop_skip a i), (strip_drop_skip b j) in Hstrip by assumption.
  set (i' := skip_blanks a i) in *. set (j' := skip_blanks b j) in *.
  destruct (decide (i' = length a)) as [Ha|Ha];
    destruct (decide (j' = length b)) as [Hb|Hb].
  - rewrite Ha, Hb, !get_ge, Ascii.eqb_refl by lia. simpl.
    split; [right; lia|lia].
  - rewrite Ha, drop_all, (strip_drop_byte b j') in Hstrip by (lia || assumption).
    discriminate.
  - rewrite Hb, drop_all, (strip_drop_byte a i') in Hstrip by (lia || assumption).
    discriminate.
  - rewrite (strip_drop_byte a i'), (strip_drop_byte b j') in Hstrip
      by (lia || assumption).
    injection Hstrip as Hsame Hrest. rewrite Hsame, Ascii.eqb_refl. simpl.
    split; [|lia]. left.
    replace (i' + 1) with (S i') by lia. replace (j' + 1) with (S j') by lia.
    split; [lia|]. split; [lia|]. split; [exact Hrest|].
    apply rest_alike; (assumption || lia).
Qed.

(** Two bodies with the same bytes other than blanks, both ending with
    a blank or both not, are walked to their ends. *)
Lemma walk_unchanged a b :
  strip a = strip b -> ends_blank a = ends_blank b ->
  exists i j,
    iterate (walk_step a b (length a) (length b)) (S (S (length a))) (0, 0)
    = Return (false, i, j)
    /\ ~ i < length a /\ ~ j < length b.
Proof.
  intros Hstrip Hends.
  destruct (iterate_measure (walk_step a b (length a) (length b))
              (in_step a b) (fun st => S (length a) - fst st)
              (fun r => exists i j, r = (false, i, j)
                                    /\ ~ i < length a /\ ~ j < length b))
    with (fuel := S (S (length a))) (s := (0, 0)) as (r & Hrun & i & j & -> & Hij).
  - intros st Hst. pose proof (walk_round a b st Hends Hst) as H.
    destruct (walk_step a b (length a) (length b) st) as [[st'|r]|]; [exact H| |exact H].
    destruct H as (-> & H). eauto.
  - left. split; [lia|]. split; [lia|]. split; [exact Hstrip|].
    split; intros H0; symmetry in H0; apply length_zero_iff_nil in H0; subst.
    + simpl in Hstrip. symmetry in Hstrip.
      apply (strip_drop_nil b 0) in Hstrip as [<-|Hb]; [reflexivity| |lia].
      rewrite <- Hends in Hb. discriminate.
    + simpl in Hstrip.
      apply (strip_drop_nil a 0) in Hstrip as [<-|Ha]; [reflexivity| |lia].
      rewrite Hends in Ha. discriminate.
  - simpl. lia.
  - eauto.
Qed.
End Walk.

#[local] Arguments iterate : simpl never.

Section Diff.
Implicit Types (buffer : list ascii) (fbegin fend : Z).

Lemma duplicate_substr_valid buffer fbegin fend :
  valid_extent buffer fbegin fend ->
  duplicate_substr buffer fbegin fend = Return (extent buffer fbegin fend).
Proof.
  intros [Hb He]. unfold duplicate_substr.
  destruct (Z.gtb_spec fbegin (Z.of_nat (strlen buffer))); [lia|].
  destruct (Z.gtb_spec fend (Z.of_nat (strlen buffer))); [lia|].
  destruct (Z.gtb_spec fbegin fend); [lia|].
  destruct (Z.ltb_spec fbegin 0); [lia|]. reflexivity.
Qed.

Lemma strlen_take (s : list ascii) m : strlen (take m s) = Nat.min m (strlen s).
Proof.
  revert m. induction s as [|c s IH]; intros [|m]; simpl; try reflexivity.
  destruct (Ascii.eqb c NUL); [reflexivity|]. rewrite IH. reflexivity.
Qed.

Lemma extent_length buffer fbegin fend :
  valid_extent buffer fbegin fend ->
  strlen (extent buffer fbegin fend) = length (extent buffer fbegin fend)
  /\ length (extent buffer fbegin fend)
     = Nat.min (Z.to_nat (fend - fbegin + 1)) (strlen buffer - Z.to_nat fbegin).
Proof.
  intros [Hb He]. unfold extent.
  rewrite strlen_cstr, cstr_length, strlen_take, strlen_drop by lia. auto.
Qed.

(** The whole of C1 on the inputs where it holds: two functions whose
    literals agree and whose blanked bodies have the same bytes other
    than spaces, tabs and newlines, both ending with such a byte or both
    not, are reported as unchanged. *)
Lemma diff_blank_insensitive
    (_buffer1 _newbuffer1 : list ascii) (fbegin1 fend1 : Z) (_literals1 : list item)
    (_buffer2 _newbuffer2 : list ascii) (fbegin2 fend2 : Z) (_literals2 : list item)
    (offset1 offset2 : Z) :
  valid_extent _buffer1 fbegin1 fend1 ->
  valid_extent _buffer2 fbegin2 fend2 ->
  strlen _newbuffer1 = strlen _buffer1 ->
  strlen _newbuffer2 = strlen _buffer2 ->
  diff_literals _buffer1 _buffer2
    (create_func_items _literals1 fbegin1 fend1)
    (create_func_items _literals2 fbegin2 fend2) (-1) (-1)
  = (false, offset1, offset2) ->
  strip (extent _newbuffer1 fbegin1 fend1) = strip (extent _newbuffer2 fbegin2 fend2) ->
  ends_blank (extent _newbuffer1 fbegin1 fend1)
  = ends_blank (extent _newbuffer2 fbegin2 fend2) ->
  diff _buffer1 _newbuffer1 fbegin1 fend1 _literals1
       _buffer2 _newbuffer2 fbegin2 fend2 _literals2
  = Return (false, offset1, offset2).
Proof.
  intros Hv1 Hv2 Hn1 Hn2 Hlit Hstrip Hends.
  assert (Hv1' : valid_extent _newbuffer1 fbegin1 fend1)
    by (unfold valid_extent in *; rewrite Hn1; exact Hv1).
  assert (Hv2' : valid_extent _newbuffer2 fbegin2 fend2)
    by (unfold valid_extent in *; rewrite Hn2; exact Hv2).
  destruct (extent_length _ _ _ Hv1) as [Hs1 Hl1].
  destruct (extent_length _ _ _ Hv2) as [Hs2 Hl2].
  destruct (extent_length _ _ _ Hv1') as [Hs1' Hl1'].
  destruct (extent_length _ _ _ Hv2') as [Hs2' Hl2'].
  assert (E1 : strlen (extent _buffer1 fbegin1 fend1)
               = length (extent _newbuffer1 fbegin1 fend1)) by congruence.
  assert (E2 : strlen (extent _buffer2 fbegin2 fend2)
               = length (extent _newbuffer2 fbegin2 fend2)) by congruence.
  unfold diff.
  rewrite !duplicate_substr_valid by assumption. simpl.
  rewrite E1, E2, Hs1', Hs2', Hn1, Hn2, !Nat.eqb_refl. simpl.
  rewrite Hlit.
  destruct (walk_unchanged _ _ Hstrip Hends) as (i & j & Hrun & Hi & Hj).
  rewrite Hrun. simpl.
  destruct (Nat.ltb_spec i (length (extent _newbuffer1 fbegin1 fend1))); [lia|].
  destruct (Nat.ltb_spec j (length (extent _newbuffer2 fbegin2 fend2))); [lia|].
  reflexivity.
Qed.
End Diff.

(** C1 fails on the code: the second file is the first with a newline
    added at its end, and [diff] reports a change at the end of both. *)
Theorem diff_trailing_newline_changed :
  strip without_newline = strip with_newline
  /\ diff without_newline without_newline 0 6 []
          with_newline with_newline 0 7 []
     = Return (true, 6%Z, 6%Z).
Proof. split; reflexivity. Qed.

(** With a newline at the end of both files the walk comes to both ends. *)
Example diff_trailing_newlines_unchanged :
  diff with_newline with_newline 0 7 []
       (with_newline ++ [LF]) (with_newline ++ [LF]) 0 8 []
  = Return (false, (-1)%Z, (-1)%Z).
Proof. reflexivity. Qed.

(** Blanks inside a function do not count. *)
Example diff_inner_blanks_unchanged :
  diff (chars "int f(){return 1;}") (chars "int f(){return 1;}") 0 17 []
       (chars "int f ( ) { return 1; }") (chars "int f ( ) { return 1; }") 0 22 []
  = Return (false, (-1)%Z, (-1)%Z).
Proof. reflexivity. Qed.

(** ** Tokens in the bracket matcher *)

Section Tokens.
Implicit Types (buffer text : list ascii) (index : nat) (t : token).

(** What [get_token] returns: a basic token, or two of them that
    [compatible_tokens] accepts, the second right after the first unless
    the first is a lone [#]. *)
Lemma get_token_cases buffer index t :
  get_token buffer (strlen buffer) index = Some t ->
  simple_token_at buffer index t
  \/ exists t1 t2,
       simple_token_at buffer index t1
       /\ simple_token_at buffer (tk_next t1) t2
       /\ t = compound t1 t2
       /\ compatible_tokens (tk_text t1) (tk_text t2) = true
       /\ (lone_hash (tk_text t1) \/ index + strlen (tk_text t1) = tk_next t1).
Proof.
  unfold get_token.
  destruct (get_simple_token buffer (strlen buffer) index) as [t1|] eqn:H1;
    [|discriminate].
  apply get_simple_token_Some in H1.
  destruct (get_simple_token buffer (strlen buffer) (tk_next t1)) as [t2|] eqn:H2.
  2:{ intros [= <-]. left. exact H1. }
  apply get_simple_token_Some in H2.
  destruct (simple_token_nonempty _ _ _ H1) as (c1 & r1 & Ht1 & _ & Hs1).
  destruct (Nat.eqb_spec (index + strlen (tk_text t1)) (tk_next t1)) as [Hadj|Hadj];
    simpl.
  - destruct (compatible_tokens (tk_text t1) (tk_text t2)) eqn:Hc.
    + intros [= <-]. right. exists t1, t2. auto 6.
    + intros [= <-]. left. exact H1.
  - destruct (Ascii.eqb (get (tk_text t1) 0) "#" && Ascii.eqb (get (tk_text t1) 1) NUL)
      eqn:Hflag; simpl.
    + destruct (compatible_tokens (tk_text t1) (tk_text t2)) eqn:Hc.
      * intros [= <-]. right. exists t1, t2.
        split; [exact H1|]. split; [exact H2|]. split; [reflexivity|].
        split; [exact Hc|]. left. unfold lone_hash. rewrite Ht1 in Hflag |- *. rewrite Ht1 in Hs1.
        apply andb_true_iff in Hflag as [Hc1 Hr1].
        rewrite get_1_nul in Hr1 by assumption.
        apply bool_decide_eq_true_1 in Hr1. subst r1.
        change (get [c1] 0) with c1 in Hc1.
        destruct (Ascii.eqb_spec c1 "#"); [subst; reflexivity|discriminate].
      * intros [= <-]. left. exact H1.
    + intros [= <-]. left. exact H1.
Qed.

(** [get_token] moves on: the token lies at or after [index], and the
    scan goes on after its end. *)
Lemma get_token_Some buffer index t :
  get_token buffer (strlen buffer) index = Some t ->
  index < strlen buffer
  /\ index <= tk_begin t /\ tk_begin t <= tk_end t
  /\ tk_end t < tk_next t /\ tk_next t <= strlen buffer.
Proof.
  intros H. apply get_token_cases in H as [H1|(t1 & t2 & H1 & H2 & -> & _)].
  - pose proof (st_extent _ _ _ H1). pose proof (st_index _ _ _ H1).
    pose proof (skip_spaces_ge buffer index).
    pose proof (skip_spaces_ge buffer (S (tk_end t))).
    pose proof (skip_spaces_le_strlen buffer (S (tk_end t))).
    pose proof (st_begin _ _ _ H1). pose proof (st_next _ _ _ H1). lia.
  - pose proof (st_extent _ _ _ H1). pose proof (st_index _ _ _ H1).
    pose proof (st_extent _ _ _ H2).
    pose proof (skip_spaces_ge buffer index).
    pose proof (skip_spaces_ge buffer (S (tk_end t1))).
    pose proof (skip_spaces_ge buffer (tk_next t1)).
    pose proof (skip_spaces_ge buffer (S (tk_end t2))).
    pose proof (skip_spaces_le_strlen buffer (S (tk_end t2))).
    pose proof (st_begin _ _ _ H1). pose proof (st_next _ _ _ H1).
    pose proof (st_begin _ _ _ H2). pose proof (st_next _ _ _ H2).
    simpl. lia.
Qed.

Lemma get_token_None buffer index :
  get_token buffer (strlen buffer) index = None ->
  strlen buffer <= skip_spaces buffer index.
Proof.
  unfold get_token.
  destruct (get_simple_token buffer (strlen buffer) index) as [t1|] eqn:H1.
  - destruct (get_simple_token buffer (strlen buffer) (tk_next t1)) as [t2|];
      [|discriminate].
    repeat match goal with |- context [if ?b then _ else _] => destruct b end;
      discriminate.
  - intros _. apply get_simple_token_None, H1.
Qed.

(** The text of a basic token has the byte at its begin first; a
    delimiter there makes the token that byte alone. *)
Lemma simple_token_delimiter buffer index t c text :
  simple_token_at buffer index t ->
  tk_text t = c :: text -> is_delimiter c = true ->
  text = [] /\ get buffer (tk_begin t) = c /\ tk_end t = tk_begin t.
Proof.
  intros H Ht Hd.
  destruct (simple_token_nonempty _ _ _ H) as (c' & r & Ht' & Hc' & Hs).
  rewrite Ht in Ht'. injection Ht' as -> ->.
  assert (Hend : tk_end t = tk_begin t) by (apply (st_delimiter _ _ _ H); congruence).
  split; [|auto].
  pose proof (st_length _ _ _ H) as Hl. rewrite Hs, Ht, Hend in Hl. simpl in Hl.
  destruct r; [reflexivity|simpl in Hl; lia].
Qed.
End Tokens.

Section CommentTokens.
Implicit Types (buffer text : list ascii) (index i : nat) (t : token).

Lemma take_1_drop buffer i : i < length buffer -> take 1 (drop i buffer) = [get buffer i].
Proof.
  intros Hi. destruct (lookup_lt_is_Some_2 buffer i Hi) as [x Hx].
  rewrite (drop_S _ _ _ Hx), get_lookup, Hx. reflexivity.
Qed.

Lemma below_strlen buffer i c :
  i <= strlen buffer -> get buffer i = c -> c <> NUL -> i < strlen buffer.
Proof.
  intros Hle Hc Hnul. destruct (decide (i = strlen buffer)) as [->|]; [|lia].
  rewrite strlen_get_nul in Hc. congruence.
Qed.

(** A delimiter that is no space is a basic token of its own. *)
Lemma get_simple_token_delimiter buffer i c :
  i < strlen buffer -> get buffer i = c ->
  is_space c = false -> is_delimiter c = true ->
  get_simple_token buffer (strlen buffer) i
  = Some (Token (skip_spaces buffer (S i)) i i [c]).
Proof.
  intros Hi Hc Hsp Hd. pose proof (strlen_le_length buffer) as Hlen.
  unfold get_simple_token.
  destruct (Nat.leb_spec (strlen buffer) i); [lia|].
  rewrite skip_spaces_fix by congruence.
  destruct (Nat.leb_spec (strlen buffer) i); [lia|].
  rewrite Hc, Hd. replace (i - i + 1) with 1 by lia.
  rewrite take_1_drop, Hc by lia.
  replace (i + 1) with (S i) by lia. do 2 f_equal.
  rewrite cstr_cons.
  destruct (Ascii.eqb_spec c NUL) as [->|]; [destruct (strlen_get_nonnul buffer i Hi Hc)|].
  reflexivity.
Qed.

(** At [/*] the scanner returns the opening bracket of a comment. *)
Lemma get_token_opener buffer i :
  i < strlen buffer -> get buffer i = "/" -> get buffer (S i) = "*" ->
  get_token buffer (strlen buffer) i
  = Some (Token (skip_spaces buffer (S (S i))) i (S i) (chars "/*")).
Proof.
  intros Hi H1 H2.
  assert (Hi2 : S i < strlen buffer) by (eapply below_strlen; [lia|exact H2|discriminate]).
  pose proof (get_simple_token_delimiter buffer i "/" Hi H1 eq_refl eq_refl) as Ht1.
  assert (Hnext : skip_spaces buffer (S i) = S i)
    by (apply skip_spaces_fix; rewrite H2; reflexivity).
  rewrite Hnext in Ht1.
  pose proof (get_simple_token_delimiter buffer (S i) "*" Hi2 H2 eq_refl eq_refl) as Ht2.
  unfold get_token. rewrite Ht1. cbn [tk_next]. rewrite Ht2.
  cbn [tk_text tk_next tk_begin tk_end].
  change (strlen ["/"]) with 1.
  replace (i + 1 =? S i) with true by (symmetry; apply Nat.eqb_eq; lia).
  change (compatible_tokens ["/"] ["*"]) with true. reflexivity.
Qed.

Lemma strlen_app_nul_free (x y : list ascii) :
  strlen x = length x -> strlen (x ++ y) = length x + strlen y.
Proof.
  induction x as [|c x IH]; [reflexivity|]. intros H.
  apply nul_free_cons in H as [Hc H]. simpl.
  destruct (Ascii.eqb_spec c NUL); [congruence|]. rewrite IH by exact H. reflexivity.
Qed.

Lemma strcmp_eq_text text (lit : list ascii) :
  strlen text = length text -> strlen lit = length lit ->
  strcmp_eq text lit = true <-> text = lit.
Proof.
  intros Ht Hl. rewrite strcmp_eq_cstr. unfold cstr.
  rewrite Ht, Hl, !firstn_all. reflexivity.
Qed.

(** The text of a token has no NUL in it. *)
Lemma get_token_text buffer index t :
  get_token buffer (strlen buffer) index = Some t ->
  strlen (tk_text t) = length (tk_text t).
Proof.
  intros H. apply get_token_cases in H as [H1|(t1 & t2 & H1 & H2 & -> & _)].
  - destruct (simple_token_nonempty _ _ _ H1) as (_ & _ & _ & _ & Hs). exact Hs.
  - destruct (simple_token_nonempty _ _ _ H1) as (_ & _ & _ & _ & Hs1).
    destruct (simple_token_nonempty _ _ _ H2) as (_ & _ & _ & _ & Hs2).
    simpl. rewrite strlen_app_nul_free, length_app by exact Hs1. lia.
Qed.

(** A token [*/] stands for these two bytes in the buffer. *)
Lemma get_token_closing buffer index t :
  get_token buffer (strlen buffer) index = Some t ->
  strcmp_eq (tk_text t) (chars "*/") = true ->
  get buffer (tk_begin t) = "*" /\ get buffer (S (tk_begin t)) = "/".
Proof.
  intros H Hcmp. pose proof (get_token_text _ _ _ H) as Hs.
  apply strcmp_eq_text in Hcmp; [|exact Hs|reflexivity].
  apply get_token_cases in H as [H1|(t1 & t2 & H1 & H2 & -> & Hc & Hadj)].
  - destruct (simple_token_delimiter buffer index t "*" (chars "/") H1 Hcmp eq_refl)
      as (Hrest & _). discriminate.
  - simpl in Hcmp.
    destruct (simple_token_nonempty _ _ _ H1) as (c1 & r1 & Ht1 & Hc1 & Hs1).
    destruct (simple_token_nonempty _ _ _ H2) as (c2 & r2 & Ht2 & Hc2 & Hs2).
    rewrite Ht1, Ht2 in Hcmp. injection Hcmp as -> Hrest.
    assert (r1 = [] /\ c2 = "/" /\ r2 = []) as (-> & -> & ->).
    { destruct r1 as [|x r1]; [injection Hrest as -> ->; auto|].
      injection Hrest as _ Hrest. destruct r1; discriminate. }
    destruct Hadj as [Hhash|Hadj]; [rewrite Ht1 in Hhash; discriminate|].
    rewrite Hs1, Ht1 in Hadj. simpl in Hadj.
    pose proof (st_extent _ _ _ H1). pose proof (st_begin _ _ _ H1) as Hb1.
    pose proof (st_next _ _ _ H1) as Hn1. pose proof (st_begin _ _ _ H2) as Hb2.
    pose proof (skip_spaces_ge buffer index).
    pose proof (skip_spaces_ge buffer (S (tk_end t1))).
    assert (Hnext : tk_next t1 = S (tk_begin t1)) by lia.
    assert (Hb2' : tk_begin t2 = S (tk_begin t1)).
    { rewrite Hb2, Hn1, skip_spaces_idemp, <- Hn1. exact Hnext. }
    simpl. rewrite <- Hb2'. auto.
Qed.
End CommentTokens.

(** ** Comments without an end *)

Section IterateInvariant.
Context {S R : Type}.
Variable step : S -> run (S + R).

Lemma iterate_S fuel s :
  iterate step (Datatypes.S fuel) s
  = x ← step s; match x with inl s' => iterate step fuel s' | inr r => Return r end.
Proof. reflexivity. Qed.

(** What a loop returns, when it returns, under an invariant. *)
Lemma iterate_invariant (Inv : S -> Prop) (Post : R -> Prop) :
  (forall s, Inv s ->
     match step s with
     | Return (inl s') => Inv s'
     | Return (inr r) => Post r
     | Stop _ => True
     end) ->
  forall fuel s r, Inv s -> iterate step fuel s = Return r -> Post r.
Proof.
  intros Hstep. induction fuel as [|fuel IH]; intros s r Hinv; [discriminate|].
  rewrite iterate_S. specialize (Hstep s Hinv).
  destruct (step s) as [[s'|r']|]; simpl; [|congruence|discriminate].
  apply IH, Hstep.
Qed.
End IterateInvariant.

Section Unterminated.
Implicit Types (buffer : list ascii) (i index : nat).

Lemma match_bracket_unterminated buffer i :
  i < strlen buffer -> opener_at buffer i -> no_terminator buffer i ->
  match_bracket buffer (strlen buffer) i (chars "/*") (chars "*/") = Return None.
Proof.
  intros Hi [H1 H2] Hnone. unfold match_bracket.
  destruct (iterate_measure
              (match_bracket_step buffer (strlen buffer) (chars "/*") (chars "*/"))
              (fun '(index, counter, flag) =>
                 (flag = false /\ index = i /\ counter = 0%Z)
                 \/ (flag = true /\ S (S i) <= index /\ (1 <= counter)%Z))
              (fun '(index, _, _) => strlen buffer - index)
              (fun r => r = None))
    with (fuel := S (strlen buffer)) (s := (i, 0%Z, false)) as (r & Hrun & ->);
    [|auto|lia|exact Hrun].
  intros [[index counter] flag] [(-> & -> & ->)|(-> & Hindex & Hcounter)];
    unfold match_bracket_step.
  - rewrite get_token_opener by assumption. cbn [tk_text tk_begin tk_next].
    change (strcmp_eq (chars "/*") (chars "/*")) with true.
    change (strcmp_eq (chars "/*") (chars "*/")) with false. simpl.
    pose proof (skip_spaces_ge buffer (S (S i))).
    split; [right; split; [reflexivity|lia]|lia].
  - destruct (get_token buffer (strlen buffer) index) as [t|] eqn:Ht; [|reflexivity].
    destruct (get_token_Some _ _ _ Ht) as (Hlt & Hb & He & Hn & Hle).
    destruct (strcmp_eq (tk_text t) (chars "*/")) eqn:Hclose.
    { destruct (Hnone (tk_begin t)); [lia|].
      apply (get_token_closing _ _ _ Ht Hclose). }
    destruct (strcmp_eq (tk_text t) (chars "/*")).
    + simpl. destruct (Z.eqb_spec (counter + 1) 0); [lia|].
      split; [right; split; [reflexivity|lia]|lia].
    + simpl. destruct (Z.eqb_spec counter 0); [lia|].
      split; [right; split; [reflexivity|lia]|lia].
Qed.

Lemma strstr2_Some (s : list ascii) x y off :
  strstr2 s x y = Some off -> get s off = x /\ get s (S off) = y.
Proof.
  revert off. induction s as [|c s IH]; intros off; simpl; [discriminate|].
  destruct (starts2 (c :: s) x y) eqn:Hs.
  - intros [= <-]. unfold starts2 in Hs. apply andb_true_iff in Hs as [Hx Hy].
    destruct (Ascii.eqb_spec (get (c :: s) 0) x); [|discriminate].
    destruct (Ascii.eqb_spec (get (c :: s) 1) y); [|discriminate]. auto.
  - destruct (Ascii.eqb c NUL); [discriminate|].
    destruct (strstr2 s x y) as [off'|]; simpl; [|discriminate].
    intros [= <-]. apply (IH off'). reflexivity.
Qed.

Lemma matchComment_unterminated buffer i :
  opener_at buffer i -> no_terminator buffer i ->
  matchComment buffer i = Some (strlen buffer).
Proof.
  intros [H1 H2] Hnone. unfold matchComment.
  replace (i + 1) with (S i) by lia. rewrite H1, H2. simpl.
  destruct (strstr2 (drop (i + 2) buffer) "*" "/") as [off|] eqn:Hs; [|reflexivity].
  apply strstr2_Some in Hs as [Hx Hy]. rewrite !get_drop in Hx, Hy.
  destruct (Hnone (i + 2 + off)); [lia|].
  replace (S (i + 2 + off)) with (i + 2 + S off) by lia. auto.
Qed.
End Unterminated.

(** ** The classifier at a construct without an end *)

Section Progress.
Implicit Types (buffer : list ascii) (i index : nat) (fl : scan_flags).

Lemma match_symbol_progress buffer i symbol e :
  i < strlen buffer ->
  match_symbol buffer i symbol = Return (Some e) -> i < e.
Proof.
  intros Hi. unfold match_symbol.
  destruct (negb (Ascii.eqb (get buffer i) symbol)); [discriminate|].
  destruct (iterate (match_symbol_step buffer i symbol) (S (length buffer)) (S i))
    as [r|] eqn:Hrun; simpl; [|discriminate].
  intros [= <-]. revert Hrun.
  apply (iterate_invariant _ (fun index => i < index) (fun r => i < r)); [|lia].
  intros index Hindex. unfold match_symbol_step.
  destruct (strchr (drop index buffer) symbol) as [off|]; [|exact Hi].
  destruct (Ascii.eqb (get buffer (index + off - 1)) BACKSLASH); [|simpl; lia].
  unfold assert. destruct (i + 1 + 1 <=? index + off); simpl; [|exact I].
  destruct (escape_flag buffer (i + 1) (index + off - 1)); simpl; lia.
Qed.

Lemma match_bracket_progress buffer i opening closing e :
  match_bracket buffer (strlen buffer) i opening closing = Return (Some e) -> i <= e.
Proof.
  unfold match_bracket. intros Hrun.
  refine (iterate_invariant _ (fun '(index, _, _) => i <= index)
            (fun r => match r with Some e => i <= e | None => True end)
            _ _ _ (Some e) _ Hrun); [|lia].
  intros [[index counter] flag] Hindex. unfold match_bracket_step.
  destruct (get_token buffer (strlen buffer) index) as [t|] eqn:Ht; [|exact I].
  destruct (get_token_Some _ _ _ Ht) as (Hlt & Hb & He & Hn & Hle).
  destruct (negb flag && negb (strcmp_eq (tk_text t) opening)); [exact I|].
  match goal with |- context [Z.eqb ?c 0] => destruct (Z.eqb c 0) end; lia.
Qed.

Lemma matchComment_progress buffer i e :
  i < strlen buffer -> matchComment buffer i = Some e -> i < e.
Proof.
  intros Hi. unfold matchComment.
  destruct (negb (Ascii.eqb (get buffer i) "/")); [discriminate|].
  destruct (negb (Ascii.eqb (get buffer (i + 1)) "*")); [discriminate|].
  destruct (strstr2 (drop (i + 2) buffer) "*" "/"); intros [= <-]; lia.
Qed.

(** Every round of the classifier moves on. *)
Lemma fcl_step_progress fl buffer i Items i' Items' :
  fcl_step fl buffer (strlen buffer) (i, Items) = Return (inl (i', Items')) -> i < i'.
Proof.
  unfold fcl_step. destruct (Nat.leb_spec (strlen buffer) i) as [|Hi]; [discriminate|].
  assert (Hlit : forall symbol type,
    inl <$> scan_literal fl buffer i symbol type Items
    = (Return (inl (i', Items')) : run (nat * list item + list item)) -> i < i').
  { intros symbol type. unfold scan_literal.
    destruct (match_symbol buffer i symbol) as [[e|]|] eqn:Hm; simpl; try discriminate.
    apply match_symbol_progress in Hm; [|exact Hi].
    unfold assert. destruct (0 <? e); simpl; [|discriminate].
    intros [= <- _]. exact Hm. }
  destruct (Ascii.eqb (get buffer i) DQUOTE); [apply Hlit|].
  destruct (Ascii.eqb (get buffer i) SQUOTE); [apply Hlit|].
  destruct (Ascii.eqb (get buffer i) "/").
  - destruct (Ascii.eqb (get buffer (i + 1)) "*"); [|intros [= <- _]; lia].
    unfold scan_comment. destruct (nested_comments fl).
    + destruct (match_bracket buffer (strlen buffer) i (chars "/*") (chars "*/"))
        as [[e|]|] eqn:Hm; simpl; try discriminate.
      apply match_bracket_progress in Hm. intros [= <- _]. lia.
    + destruct (matchComment buffer i) as [e|] eqn:Hm; simpl; [|discriminate].
      apply matchComment_progress in Hm; [|exact Hi].
      unfold assert. destruct (0 <? e); simpl; [|discriminate].
      intros [= <- _]. exact Hm.
  - destruct (Ascii.eqb (get buffer i) BACKSLASH); intros [= <- _]; lia.
Qed.

(** The rounds that lead to a state take at most as much fuel as the
    state is far into the buffer. *)
Lemma scans_fuel fl buffer Items0 st :
  scans fl buffer Items0 st ->
  exists k, k <= fst st /\
    forall fuel,
      iterate (fcl_step fl buffer (strlen buffer)) (k + fuel) (0, Items0)
      = iterate (fcl_step fl buffer (strlen buffer)) fuel st.
Proof.
  induction 1 as [|[i Items] [i' Items'] _ (k & Hk & IH) Hstep].
  - exists 0. split; [simpl; lia|]. reflexivity.
  - exists (S k). pose proof (fcl_step_progress _ _ _ _ _ _ Hstep). cbn [fst] in *.
    split; [lia|]. intros fuel.
    replace (S k + fuel) with (k + S fuel) by lia.
    rewrite IH, iterate_S, Hstep. reflexivity.
Qed.

(** The pass ends as the round at a state it comes to ends it. *)
Lemma scans_stop fl buffer Items0 i Items why :
  scans fl buffer Items0 (i, Items) -> i < strlen buffer ->
  fcl_step fl buffer (strlen buffer) (i, Items) = Stop why ->
  find_comments_and_literals fl buffer Items0 = Stop why.
Proof.
  intros Hscan Hi Hstep. destruct (scans_fuel _ _ _ _ Hscan) as (k & Hk & Hfuel).
  unfold find_comments_and_literals. simpl in Hk.
  replace (S (strlen buffer)) with (k + S (strlen buffer - k)) by lia.
  rewrite Hfuel, iterate_S, Hstep. reflexivity.
Qed.

Lemma scans_to_end fl buffer Items0 i Items Items' :
  scans fl buffer Items0 (i, Items) -> i < strlen buffer ->
  fcl_step fl buffer (strlen buffer) (i, Items) = Return (inl (strlen buffer, Items')) ->
  find_comments_and_literals fl buffer Items0 = Return Items'.
Proof.
  intros Hscan Hi Hstep. destruct (scans_fuel _ _ _ _ Hscan) as (k & Hk & Hfuel).
  unfold find_comments_and_literals. simpl in Hk.
  replace (S (strlen buffer)) with (k + S (S (strlen buffer - k - 1))) by lia.
  rewrite Hfuel, iterate_S, Hstep. simpl. rewrite iterate_S. unfold fcl_step.
  rewrite Nat.leb_refl. reflexivity.
Qed.
End Progress.

Section UnterminatedClaims.
Implicit Types (buffer : list ascii) (i : nat) (fl : scan_flags) (Items : list item).

Lemma fcl_step_opener fl buffer i Items :
  i < strlen buffer -> opener_at buffer i -> no_terminator buffer i ->
  fcl_step fl buffer (strlen buffer) (i, Items)
  = if nested_comments fl
    then Stop (ExitCall "No matching closing comment")
    else Return (inl (strlen buffer,
                      add_if (add_comments fl) Items i (strlen buffer - 1) COMMENT)).
Proof.
  intros Hi Hopen Hnone. pose proof Hopen as [H1 H2]. unfold fcl_step.
  destruct (Nat.leb_spec (strlen buffer) i); [lia|].
  replace (i + 1) with (S i) by lia. rewrite H1, H2. eqb_constants. cbv iota.
  unfold scan_comment. destruct (nested_comments fl).
  - rewrite match_bracket_unterminated by assumption. reflexivity.
  - rewrite matchComment_unterminated by assumption. unfold assert.
    destruct (Nat.ltb_spec 0 (strlen buffer)); [|lia]. reflexivity.
Qed.

Lemma fcl_step_unclosed fl buffer i Items symbol type :
  (symbol, type) = (DQUOTE, STRING) \/ (symbol, type) = (SQUOTE, LITERAL) ->
  i < strlen buffer -> get buffer i = symbol -> unclosed buffer i symbol ->
  fcl_step fl buffer (strlen buffer) (i, Items)
  = Return (inl (strlen buffer,
                 add_if (add_literals fl) Items i (strlen buffer - 1) type)).
Proof.
  intros Hkind Hi Hget Hun. unfold fcl_step.
  destruct (Nat.leb_spec (strlen buffer) i); [lia|].
  assert (Hlit : scan_literal fl buffer i symbol type Items
                 = Return (strlen buffer,
                           add_if (add_literals fl) Items i (strlen buffer - 1) type)).
  { unfold scan_literal. rewrite match_symbol_unterminated; try assumption.
    - simpl. unfold assert. destruct (Nat.ltb_spec 0 (strlen buffer)); [|lia].
      reflexivity.
    - destruct Hkind as [[= -> _]|[= -> _]]; auto. }
  rewrite Hget.
  destruct Hkind as [[= -> ->]|[= -> ->]]; eqb_constants; cbv iota; rewrite Hlit;
    reflexivity.
Qed.
End UnterminatedClaims.

Lemma no_terminator_a_comment : no_terminator (chars "a /* x") 2.
Proof.
  intros j Hj [H1 _].
  destruct (decide (j = 4)) as [->|]; [discriminate|].
  destruct (decide (j = 5)) as [->|]; [discriminate|].
  rewrite get_ge in H1 by (simpl; lia). discriminate.
Qed.

(** C3 as stated fails: under [-not_nested] the comment of [a /* x] has
    no end, and the pass returns with a comment up to the last byte. *)
Lemma unterminated_comment_not_nested :
  opener_at (chars "a /* x") 2
  /\ no_terminator (chars "a /* x") 2
  /\ find_comments_and_literals (all_items false) (chars "a /* x") []
     = Return [Item 2 5 COMMENT].
Proof.
  split; [split; reflexivity|]. split; [exact no_terminator_a_comment|]. reflexivity.
Qed.

(** A string without its closing quote runs to the end of the buffer. *)
Example unterminated_string :
  find_comments_and_literals (all_items true) (DQUOTE :: chars "abc") []
  = Return [Item 0 3 STRING].
Proof. reflexivity. Qed.

(** ** The branch of a choice lies in the tree *)

Section InBounds.
Implicit Types (Pragmas : element) (selectors : list Z) (dw : depth_width).

Lemma wrap_small z : (INT_MIN <= z <= INT_MAX)%Z -> wrap z = z.
Proof.
  unfold wrap, INT_MIN, INT_MAX. intros H.
  rewrite Z.mod_small by lia. lia.
Qed.

(** Without overflow [powers[i]] is [width] to the power [n - i]. *)
Lemma powers_lookup w n i :
  (0 < w)%Z -> (w ^ Z.of_nat n <= INT_MAX)%Z -> i < n ->
  powers w n !! i = Some (w ^ Z.of_nat (n - i))%Z.
Proof.
  intros Hw. revert i. induction n as [|n IH]; intros i Hmax Hi; [lia|].
  destruct n as [|n].
  - destruct i; [|lia]. simpl. f_equal. lia.
  - assert (Hstep : (w ^ Z.of_nat (S (S n)) = w ^ Z.of_nat (S n) * w)%Z).
    { replace (Z.of_nat (S (S n))) with (Z.succ (Z.of_nat (S n))) by lia.
      rewrite Z.pow_succ_r by lia. lia. }
    assert (Hpos : (0 < w ^ Z.of_nat (S n))%Z) by (apply Z.pow_pos_nonneg; lia).
    assert (Hless : (w ^ Z.of_nat (S n) <= INT_MAX)%Z) by nia.
    change (powers w (S (S n)))
      with (wrap (hd 0%Z (powers w (S n)) * w) :: powers w (S n)).
    destruct i as [|i].
    + pose proof (IH 0 Hless ltac:(lia)) as H0.
      replace (S n - 0) with (S n) in H0 by lia.
      destruct (powers w (S n)) as [|p ps] eqn:Hp; [discriminate|].
      injection H0 as ->. simpl hd. simpl lookup.
      rewrite wrap_small by (unfold INT_MIN; nia).
      f_equal. replace (S (S n) - 0) with (S (S n)) by lia.
      symmetry. exact Hstep.
    + simpl lookup. rewrite IH by (assumption || lia). reflexivity.
Qed.

Lemma mapM_Return {A B} (f : A -> run B) (l : list A) (ys : list B) :
  mapM f l = Return ys -> Forall2 (fun x y => f x = Return y) l ys.
Proof.
  revert ys. induction l as [|x l IH]; intros ys; simpl.
  - intros [= <-]. constructor.
  - destruct (f x) as [y|] eqn:Hx; simpl; [|discriminate].
    destruct (mapM f l) as [k|]; simpl; [|discriminate].
    intros [= <-]. constructor; [exact Hx|]. apply IH. reflexivity.
Qed.

(** Without overflow the digits of a choice are not negative. *)
Lemma selector_digit_nonneg dw choice n i d :
  (0 <= choice)%Z -> (0 < width dw)%Z ->
  (width dw ^ Z.of_nat n <= INT_MAX)%Z -> i < n ->
  selector_digit dw choice (powers (width dw) n) n i = Return d ->
  (0 <= d < width dw)%Z.
Proof.
  intros Hc Hw Hmax Hi. unfold selector_digit.
  destruct (Nat.ltb_spec i (n - 1)) as [Hlt|Hge].
  - rewrite powers_lookup by (assumption || lia).
    assert (Hp : (0 < width dw ^ Z.of_nat (n - (i + 1)))%Z)
      by (apply Z.pow_pos_nonneg; lia).
    unfold int_div. destruct (Z.eqb_spec (width dw ^ Z.of_nat (n - (i + 1))) 0); [lia|].
    destruct (Z.eqb_spec (width dw ^ Z.of_nat (n - (i + 1))) (-1)); [lia|].
    rewrite andb_false_r. simpl.
    unfold int_mod. destruct (Z.eqb_spec (width dw) 0); [lia|].
    destruct (Z.eqb_spec (width dw) (-1)); [lia|]. rewrite andb_false_r. simpl.
    intros [= <-]. apply Z.rem_bound_pos; [|lia]. apply Z.quot_pos; lia.
  - unfold int_mod. destruct (Z.eqb_spec (width dw) 0); [lia|].
    destruct (Z.eqb_spec (width dw) (-1)); [lia|]. rewrite andb_false_r. simpl.
    intros [= <-]. apply Z.rem_bound_pos; lia.
Qed.

Lemma create_selectors_digits dw choice selectors :
  (0 <= choice)%Z -> (0 < width dw)%Z -> (width dw ^ depth dw <= INT_MAX)%Z ->
  create_selectors dw choice = Return selectors ->
  length selectors = Z.to_nat (depth dw)
  /\ Forall (fun d => 0 <= d < width dw)%Z selectors.
Proof.
  intros Hc Hw Hmax. unfold create_selectors, assert.
  destruct (Z.ltb_spec 0 (depth dw)) as [Hd|]; simpl; [|discriminate].
  intros H. apply mapM_Return in H.
  split.
  - apply Forall2_length in H. rewrite length_seq in H. auto.
  - apply Forall_forall. intros d Hin.
    apply list_elem_of_lookup in Hin as [i Hi].
    destruct (Forall2_lookup_r _ _ _ _ _ H Hi) as (x & Hx & Hdigit).
    apply lookup_seq in Hx as [-> Hlt]. simpl in Hdigit.
    eapply selector_digit_nonneg; try eassumption.
    rewrite Z2Nat.id by lia. exact Hmax.
Qed.
End InBounds.

Section InBoundsTree.
Implicit Types (Pragmas c : element) (selectors : list Z) (d : nat) (l : list element).

Lemma compute_depth_width_node type pid tb te l :
  compute_depth_width (Element type pid tb te l)
  = let max_dw := children_depth_width l (DW 0 0) in
    match type with
    | OR => DW (depth max_dw + 1) (MAX (width max_dw) (Z.of_nat (length l)))
    | _ => max_dw
    end.
Proof. reflexivity. Qed.

Lemma MAX_ge x y : (x <= MAX x y /\ y <= MAX x y)%Z.
Proof. unfold MAX. destruct (Z.geb_spec x y); lia. Qed.

Lemma children_depth_width_ge l : forall acc,
  (depth acc <= depth (children_depth_width l acc))%Z
  /\ Forall (fun c => depth (compute_depth_width c)
                      <= depth (children_depth_width l acc))%Z l.
Proof.
  induction l as [|c l IH]; intros acc; simpl; [split; [lia|constructor]|].
  destruct (IH (DW (MAX (depth acc) (depth (compute_depth_width c)))
                   (MAX (width acc) (width (compute_depth_width c)))))
    as [Hacc Hall].
  simpl in Hacc.
  pose proof (MAX_ge (depth acc) (depth (compute_depth_width c))).
  split; [lia|]. constructor; [lia|exact Hall].
Qed.

Lemma clamp_inside selector n : (0 <= selector)%Z -> (0 < n)%Z ->
  (0 <= clamp selector n < n)%Z.
Proof. unfold clamp. intros. destruct (Z.geb_spec selector n); lia. Qed.

Lemma children_inside l selectors d bound :
  Forall (fun c => or_nonempty c ->
                   forall selectors d, selectors_cover c selectors d ->
                                       stays_inside c selectors d) l ->
  Forall or_nonempty l ->
  Forall (fun c => depth (compute_depth_width c) <= bound)%Z l ->
  Forall (fun x => 0 <= x)%Z selectors ->
  (Z.of_nat d + bound <= Z.of_nat (length selectors))%Z ->
  Forall (fun c => stays_inside c selectors d) l.
Proof.
  intros IH Hsub Hbound Hnonneg Hd.
  induction l as [|c l IHl]; [constructor|].
  apply Forall_cons in IH as [IHc IH]. apply Forall_cons in Hsub as [Hc Hsub].
  apply Forall_cons in Hbound as [Hcd Hbound].
  constructor; [|apply IHl; assumption].
  apply IHc; [exact Hc|]. split; [exact Hnonneg|lia].
Qed.

Lemma select_branch_internal_inside Pragmas :
  or_nonempty Pragmas ->
  forall selectors d, selectors_cover Pragmas selectors d ->
                      stays_inside Pragmas selectors d.
Proof.
  induction Pragmas as [type pid tb te list_ IH] using element_ind.
  intros Hor selectors d [Hnonneg Hdepth].
  inversion_clear Hor as [? ? ? ? ? Hne Hsub].
  rewrite compute_depth_width_node in Hdepth.
  destruct (children_depth_width_ge list_ (DW 0 0)) as [H0 Hchildren].
  set (max_dw := children_depth_width list_ (DW 0 0)) in *. simpl in H0.
  assert (Hkids : forall d', (Z.of_nat d' + depth max_dw <= Z.of_nat (length selectors))%Z ->
            Forall (fun c => stays_inside c selectors d') list_).
  { intros d' Hd'. eapply children_inside; eassumption. }
  clearbody max_dw. clear IH Hsub Hchildren.
  destruct (decide (type = OR)) as [->|Hand].
  - specialize (Hne eq_refl). simpl in Hdepth.
    destruct (lookup_lt_is_Some_2 selectors d) as [x Hx]; [lia|].
    assert (Hx0 : (0 <= x)%Z).
    { rewrite Forall_forall in Hnonneg. apply Hnonneg.
      apply list_elem_of_lookup. eauto. }
    assert (Hn : (0 < Z.of_nat (length list_))%Z)
      by (destruct list_; [congruence|simpl; lia]).
    pose proof (clamp_inside x _ Hx0 Hn) as Hclamp.
    specialize (Hkids (S d) ltac:(lia)).
    set (s := clamp x (Z.of_nat (length list_))) in *.
    assert (Hk : Z.to_nat s < length list_) by lia.
    split.
    + intros deleted. simpl. rewrite Hx. fold s.
      destruct (Z.ltb_spec s 0); [lia|].
      generalize (unselected list_ s deleted) as deleted0.
      revert Hk Hkids. generalize (Z.to_nat s) as k. clear.
      induction list_ as [|c l IHl]; intros k Hk Hkids deleted0; [simpl in Hk; lia|].
      apply Forall_cons in Hkids as [[Hc _] Hkids].
      destruct k as [|k]; [apply Hc|]. apply IHl; [simpl in Hk; lia|exact Hkids].
    + simpl. rewrite Hx. fold s. constructor; [exact Hclamp|].
      destruct (Z.ltb_spec s 0); [constructor|].
      revert Hk Hkids. generalize (Z.to_nat s) as k. clear.
      induction list_ as [|c l IHl]; intros k Hk Hkids; [constructor|].
      apply Forall_cons in Hkids as [[_ Hc] Hkids].
      destruct k as [|k]; [apply Hc|]. apply IHl; [simpl in Hk; lia|exact Hkids].
  - assert (Hd' : (Z.of_nat d + depth max_dw <= Z.of_nat (length selectors))%Z)
      by (destruct type; simpl in Hdepth; congruence || lia).
    specialize (Hkids d Hd'). clear Hne Hdepth Hd'.
    split.
    + intros deleted.
      assert (Hgoal : exists deleted',
        (fix children (l : list element) (deleted : list item) : run (list item) :=
           match l with
           | [] => Return deleted
           | c :: l' =>
               deleted ← select_branch_internal c deleted selectors d;
               children l' deleted
           end) list_ deleted = Return deleted').
      { revert deleted. induction list_ as [|c l IHl]; intros deleted; [eauto|].
        apply Forall_cons in Hkids as [[Hc _] Hkids].
        destruct (Hc deleted) as [deleted1 H1]. rewrite H1. simpl.
        apply IHl. exact Hkids. }
      destruct type; try exact Hgoal. congruence.
    + assert (Hgoal : Forall (fun '(n, selector) => 0 <= selector < n)%Z
        ((fix children (l : list element) : list (Z * Z) :=
            match l with
            | [] => []
            | c :: l' => used_selectors c selectors d ++ children l'
            end) list_)).
      { induction list_ as [|c l IHl]; [constructor|].
        apply Forall_cons in Hkids as [[_ Hc] Hkids].
        apply Forall_app. split; [exact Hc|]. apply IHl. exact Hkids. }
      destruct type; try exact Hgoal. congruence.
Qed.

Lemma compute_depth_width_nonneg Pragmas :
  (0 <= depth (compute_depth_width Pragmas))%Z.
Proof.
  destruct Pragmas as [type pid tb te l]. rewrite compute_depth_width_node.
  destruct (children_depth_width_ge l (DW 0 0)) as [H0 _]. simpl in H0.
  destruct type; simpl; lia.
Qed.

Lemma select_branch_digits_inside Pragmas choice selectors :
  or_nonempty Pragmas ->
  (0 <= choice)%Z ->
  (0 < width (compute_depth_width Pragmas))%Z ->
  (width (compute_depth_width Pragmas) ^ depth (compute_depth_width Pragmas)
   <= INT_MAX)%Z ->
  create_selectors (compute_depth_width Pragmas) choice = Return selectors ->
  stays_inside Pragmas selectors 0.
Proof.
  intros Hor Hchoice Hwidth Hmax Hsel.
  destruct (create_selectors_digits _ _ _ Hchoice Hwidth Hmax Hsel) as [Hlen Hdigits].
  pose proof (compute_depth_width_nonneg Pragmas) as Hdepth.
  apply (select_branch_internal_inside Pragmas Hor selectors 0). split.
  - eapply Forall_impl; [exact Hdigits|]. simpl. intros x Hx. lia.
  - rewrite Hlen. lia.
Qed.

End InBoundsTree.


(** ** Copies of items *)

Section ItemCopies.
Implicit Types (orig : list item) (type : pragma_type).

Lemma add_item_snoc (Items : list item) it :
  add_item Items (begin_ it) (end_ it) (type_ it) = Items ++ [it].
Proof. now destruct it. Qed.

Lemma foldl_add_filter (P : item -> Prop) `{!forall it, Decision (P it)} orig :
  forall new : list item,
  foldl (fun new it =>
           if bool_decide (P it)
           then add_item new (begin_ it) (end_ it) (type_ it) else new) new orig
  = new ++ filter P orig.
Proof.
  induction orig as [|it orig IH]; intros new; simpl.
  - now rewrite app_nil_r.
  - rewrite IH, add_item_snoc, filter_cons.
    destruct (decide (P it)) as [HP|HP].
    + rewrite bool_decide_eq_true_2 by done. now rewrite <- app_assoc.
    + now rewrite bool_decide_eq_false_2 by done.
Qed.

Lemma copy_items_type_filter orig type :
  copy_items_type orig type = filter (fun it => type_ it = type) orig.
Proof. unfold copy_items_type. now rewrite (foldl_add_filter (fun it => type_ it = type)). Qed.

Lemma delete_items_type_filter orig type :
  delete_items_type orig type = filter (fun it => type_ it <> type) orig.
Proof. unfold delete_items_type. now rewrite (foldl_add_filter (fun it => type_ it <> type)). Qed.

End ItemCopies.

(** X1: [copy_items_type] and [delete_items_type] split the items of [orig]:
    each item goes to exactly one of the two copies, the first takes the
    items of the type and the second the others, and both keep the
    order of [orig]. *)
Theorem items_type_split (orig : list item) (type : pragma_type) :
  (forall it, it ∈ copy_items_type orig type <-> it ∈ orig /\ type_ it = type)
  /\ (forall it, it ∈ delete_items_type orig type <-> it ∈ orig /\ type_ it <> type)
  /\ copy_items_type orig type ++ delete_items_type orig type ≡ₚ orig
  /\ sublist (copy_items_type orig type) orig
  /\ sublist (delete_items_type orig type) orig.
Proof.
  rewrite copy_items_type_filter, delete_items_type_filter.
  split; [|split; [|split; [|split]]].
  - intros it. rewrite list_elem_of_filter. tauto.
  - intros it. rewrite list_elem_of_filter. tauto.
  - apply (filter_app_complement (fun it => type_ it = type)).
  - apply sublist_filter.
  - apply sublist_filter.
Qed.

(** ** The text outside the functions *)

Lemma create_items_from_functions_fmap (functions : list fentry) :
  create_items_from_functions functions
  = (fun f => Item (fbegin f) (fend f) OTHER) <$> functions.
Proof.
  unfold create_items_from_functions.
  enough (forall acc : list item,
    foldl (fun fitems f => add_item fitems (fbegin f) (fend f) OTHER) acc functions
    = acc ++ ((fun f => Item (fbegin f) (fend f) OTHER) <$> functions)) as H by apply (H []).
  induction functions as [|f functions IH]; intros acc; simpl.
  - now rewrite app_nil_r.
  - rewrite IH. unfold add_item. now rewrite <- app_assoc.
Qed.

(** X2: what [compare_functions] does to the copy of a file before it
    compares the text outside the functions: when every function lies in
    the buffer, [clear] of the items made by [create_items_from_functions]
    returns, keeps the length of the string, writes a space over every
    byte inside the extent of a function and leaves every other byte. *)
Theorem clear_functions_frame (buffer : list ascii) (functions : list fentry) :
  Forall (fun f => (0 <= fbegin f < Z.of_nat (strlen buffer))%Z
                   /\ (fend f < Z.of_nat (strlen buffer))%Z) functions ->
  exists buffer',
    clear buffer (create_items_from_functions functions) = Return buffer'
    /\ strlen buffer' = strlen buffer
    /\ forall j,
         (Exists (fun f => in_span (fbegin f) (fend f) j) functions ->
          buffer' !! j = Some SPACE)
         /\ (~ Exists (fun f => in_span (fbegin f) (fend f) j) functions ->
             buffer' !! j = buffer !! j).
Proof.
  intros Hin. rewrite create_items_from_functions_fmap. unfold clear.
  destruct (clear_loop_returns ((fun f => Item (fbegin f) (fend f) OTHER) <$> functions) buffer)
    as [buffer' Hret].
  { rewrite Forall_fmap. eapply Forall_impl; [exact Hin|]. intros f Hf. exact Hf. }
  exists buffer'. split; [exact Hret|].
  destruct (clear_loop_frame _ _ _ Hret) as (_ & Hlen & Hframe).
  split; [exact Hlen|]. intros j.
  assert (Hcov : covered ((fun f => Item (fbegin f) (fend f) OTHER) <$> functions) j
                 <-> Exists (fun f => in_span (fbegin f) (fend f) j) functions).
  { unfold covered. now rewrite Exists_fmap. }
  rewrite <- Hcov. apply Hframe.
Qed.

Lemma clear_functions_frame_witness :
  Forall (fun f => (0 <= fbegin f < Z.of_nat (strlen (chars "int f(){} int x;")))%Z
                   /\ (fend f < Z.of_nat (strlen (chars "int f(){} int x;")))%Z)
         [FEntry (chars "f") 0 8]
  /\ exists buffer',
    clear (chars "int f(){} int x;") (create_items_from_functions [FEntry (chars "f") 0 8])
    = Return buffer'
    /\ strlen buffer' = strlen (chars "int f(){} int x;")
    /\ forall j,
         (Exists (fun f => in_span (fbegin f) (fend f) j) [FEntry (chars "f") 0 8] ->
          buffer' !! j = Some SPACE)
         /\ (~ Exists (fun f => in_span (fbegin f) (fend f) j) [FEntry (chars "f") 0 8] ->
             buffer' !! j = chars "int f(){} int x;" !! j).
Proof.
  assert (H : Forall (fun f => (0 <= fbegin f < Z.of_nat (strlen (chars "int f(){} int x;")))%Z
                   /\ (fend f < Z.of_nat (strlen (chars "int f(){} int x;")))%Z)
         [FEntry (chars "f") 0 8]).
  { repeat constructor; vm_compute; congruence. }
  split; [exact H|].
  exact (clear_functions_frame (chars "int f(){} int x;") [FEntry (chars "f") 0 8] H).
Defined.

(** ** Line numbers *)

Section LineNumbers.
Implicit Types (buffer : list ascii) (i j k : nat).

Lemma newlines_app (l1 l2 : list ascii) :
  newlines (l1 ++ l2) = newlines l1 + newlines l2.
Proof. unfold newlines. now rewrite filter_app, length_app. Qed.

Lemma newlines_snoc (l : list ascii) c :
  newlines (l ++ [c]) = newlines l + (if Ascii.eqb c LF then 1 else 0).
Proof.
  rewrite newlines_app. f_equal. unfold newlines. rewrite filter_cons, filter_nil.
  destruct (Ascii.eqb_spec c LF) as [->|Hne].
  - now rewrite decide_True.
  - now rewrite decide_False.
Qed.

Lemma count_newlines buffer k :
  k <= length buffer ->
  foldl (fun count i => if Ascii.eqb (get buffer i) LF then (count + 1)%Z else count)
        1%Z (seq 0 k)
  = (1 + Z.of_nat (newlines (take k buffer)))%Z.
Proof.
  induction k as [|k IH]; intros Hk.
  - reflexivity.
  - rewrite seq_S, foldl_app. simpl. rewrite IH by lia.
    rewrite take_S_snoc by lia. rewrite newlines_snoc.
    destruct (Ascii.eqb (get buffer k) LF); lia.
Qed.

Lemma get_line_number_in buffer k :
  k <= strlen buffer ->
  get_line_number buffer (Z.of_nat k)
  = Return (1 + Z.of_nat (newlines (take k buffer)))%Z.
Proof.
  intros Hk. pose proof (strlen_le_length buffer). unfold get_line_number.
  destruct (Z.ltb_spec (Z.of_nat k) 0); [lia|].
  destruct (Z.gtb_spec (Z.of_nat k) (Z.of_nat (strlen buffer))); [lia|].
  rewrite Nat2Z.id. now rewrite count_newlines by lia.
Qed.

End LineNumbers.

(** X3: [get_line_number] counts lines from 1, and between two offsets of
    the buffer it advances by the number of newlines that lie between
    them; the offset of the terminator is still accepted. *)
Theorem get_line_number_between (buffer : list ascii) (i j : nat) :
  i <= j <= strlen buffer ->
  exists li lj,
    get_line_number buffer (Z.of_nat i) = Return li
    /\ get_line_number buffer (Z.of_nat j) = Return lj
    /\ (1 <= li)%Z
    /\ lj = (li + Z.of_nat (newlines (take (j - i) (drop i buffer))))%Z.
Proof.
  intros [Hij Hj].
  exists (1 + Z.of_nat (newlines (take i buffer)))%Z,
         (1 + Z.of_nat (newlines (take j buffer)))%Z.
  split; [apply get_line_number_in; lia|].
  split; [apply get_line_number_in; lia|].
  split; [lia|].
  replace (take j buffer) with (take i buffer ++ take (j - i) (drop i buffer)).
  - rewrite newlines_app. lia.
  - rewrite <- (take_drop i (take j buffer)).
    rewrite take_take, Nat.min_l by lia. f_equal.
    rewrite take_drop_commute. now replace (i + (j - i)) with j by lia.
Qed.

Lemma get_line_number_between_witness :
  1 <= 5 <= strlen ("a" :: LF :: "b" :: LF :: LF :: chars "c")
  /\ exists li lj,
       get_line_number ("a" :: LF :: "b" :: LF :: LF :: chars "c") 1%Z = Return li
       /\ get_line_number ("a" :: LF :: "b" :: LF :: LF :: chars "c") 5%Z = Return lj
       /\ (1 <= li)%Z
       /\ lj = (li + Z.of_nat (newlines (take (5 - 1)
                                  (drop 1 ("a" :: LF :: "b" :: LF :: LF :: chars "c")))))%Z.
Proof.
  assert (H : 1 <= 5 <= strlen ("a" :: LF :: "b" :: LF :: LF :: chars "c")).
  { vm_compute. lia. }
  split; [exact H|].
  exact (get_line_number_between ("a" :: LF :: "b" :: LF :: LF :: chars "c") 1 5 H).
Defined.

(** An offset beyond the terminator ends the process; a negative one
    gives -1. *)
Example get_line_number_outside :
  get_line_number (chars "ab") 3
  = Stop (ExitCall "Incorrect usage of get_line_number (index = 3, buffer length = 2)")
  /\ get_line_number (chars "ab") (-4) = Return (-1)%Z.
Proof. split; reflexivity. Qed.

(** ** Reversal of a string *)

Section Invert.
Implicit Types (s src : list ascii).

Lemma strlen_nul_free s : NUL ∉ s -> strlen s = length s.
Proof.
  induction s as [|c s IH]; intros Hs; [reflexivity|].
  simpl. rewrite not_elem_of_cons in Hs. destruct Hs as [Hc Hs].
  destruct (Ascii.eqb_spec c NUL) as [->|_]; [done|]. now rewrite IH.
Qed.

Lemma cstr_nul_free s : NUL ∉ cstr s.
Proof.
  induction s as [|c s IH]; [rewrite cstr_nil; apply not_elem_of_nil|].
  rewrite cstr_cons. destruct (Ascii.eqb_spec c NUL) as [->|Hc].
  - apply not_elem_of_nil.
  - rewrite not_elem_of_cons. split; [congruence|exact IH].
Qed.

Lemma cstr_of_nul_free s : NUL ∉ s -> cstr s = s.
Proof. intros Hs. unfold cstr. rewrite strlen_nul_free by done. apply firstn_all. Qed.

Lemma invert_reverse src : invert src = reverse (cstr src).
Proof.
  unfold invert. apply list_eq. intros i.
  pose proof (strlen_le_length src) as Hle.
  rewrite list_lookup_fmap.
  destruct (decide (i < strlen src)) as [Hi|Hi].
  - rewrite lookup_seq_lt by done. simpl.
    rewrite reverse_lookup by (rewrite cstr_length; lia).
    rewrite cstr_length. unfold cstr. rewrite lookup_take_lt by lia.
    rewrite get_lookup.
    replace (strlen src - i - 1) with (strlen src - S i) by lia.
    destruct (lookup_lt_is_Some_2 src (strlen src - S i)) as [c Hc]; [lia|].
    now rewrite Hc.
  - rewrite lookup_seq_ge by lia. simpl. symmetry.
    apply lookup_ge_None_2. rewrite length_reverse, cstr_length. lia.
Qed.

End Invert.

(** X4: [invert] writes the bytes of the string in the opposite order: the
    result has the length of the source, and inverting it again gives the
    source back. *)
Theorem invert_involutive (src : list ascii) :
  invert src = reverse (cstr src)
  /\ strlen (invert src) = strlen src
  /\ invert (invert src) = cstr src.
Proof.
  assert (Hfree : NUL ∉ reverse (cstr src)).
  { rewrite elem_of_reverse. apply cstr_nul_free. }
  split; [apply invert_reverse|]. split.
  - rewrite invert_reverse, strlen_nul_free by exact Hfree.
    now rewrite length_reverse, cstr_length.
  - rewrite !invert_reverse. rewrite (cstr_of_nul_free _ Hfree).
    apply reverse_involutive.
Qed.

(** ** The kinds of basic tokens *)

Section TokenKinds.
Implicit Types (buffer : list ascii) (index : nat) (t : token).

Lemma is_delimiter_NUL : is_delimiter NUL = true.
Proof. reflexivity. Qed.

Lemma get_simple_token_word_end buffer index t :
  get_simple_token buffer (strlen buffer) index = Some t ->
  is_delimiter (get buffer (tk_begin t)) = false ->
  is_delimiter (get buffer (S (tk_end t))) = true.
Proof.
  unfold get_simple_token.
  destruct (Nat.leb_spec (strlen buffer) index) as [|Hindex]; [discriminate|].
  set (begin := skip_spaces buffer index) in *.
  destruct (Nat.leb_spec (strlen buffer) begin) as [|Hbegin]; [discriminate|].
  destruct (is_delimiter (get buffer begin)) eqn:Hd.
  - intros [= <-]. simpl. congruence.
  - destruct (scan_word_spec buffer (strlen buffer) (S begin)) as ((Hlo & Hhi) & _ & Hstop);
      [lia|].
    set (r := scan_word_from (drop (S begin) buffer) (strlen buffer) (S begin)) in *.
    intros [= <-] _. simpl. replace (S (r - 1)) with r by lia.
    destruct (decide (r < strlen buffer)) as [Hr|Hr]; [now apply Hstop|].
    replace r with (strlen buffer) by lia. rewrite strlen_get_nul. apply is_delimiter_NUL.
Qed.

Lemma simple_token_get buffer index t i :
  simple_token_at buffer index t -> i <= tk_end t - tk_begin t ->
  get (tk_text t) i = get buffer (tk_begin t + i).
Proof.
  intros Ht Hi. rewrite (st_text _ _ _ Ht). rewrite !get_lookup.
  rewrite lookup_take_lt by lia. now rewrite lookup_drop.
Qed.

End TokenKinds.

(** X5: a basic token never starts on a blank, and it is one of two
    kinds: a single delimiter byte, which [is_identifier] refuses, or a
    run of bytes that are not delimiters, which [is_identifier] accepts
    and which ends just before a delimiter or the end of the string. *)
Theorem get_simple_token_kinds (buffer : list ascii) (index : nat) (t : token) :
  get_simple_token buffer (strlen buffer) index = Some t ->
  is_space (get buffer (tk_begin t)) = false
  /\ ((is_delimiter (get buffer (tk_begin t)) = true
       /\ tk_text t = [get buffer (tk_begin t)]
       /\ is_identifier (tk_text t) = false)
      \/ (is_delimiter (get buffer (tk_begin t)) = false
          /\ is_identifier (tk_text t) = true
          /\ is_delimiter (get buffer (S (tk_end t))) = true)).
Proof.
  intros Hget. pose proof (get_simple_token_Some _ _ _ Hget) as Ht.
  pose proof (st_extent _ _ _ Ht) as Hext. pose proof (st_length _ _ _ Ht) as Hlen.
  split.
  - rewrite (st_begin _ _ _ Ht). apply skip_spaces_stop.
  - destruct (is_delimiter (get buffer (tk_begin t))) eqn:Hd.
    + left. split; [reflexivity|].
      pose proof (st_delimiter _ _ _ Ht Hd) as Hend.
      assert (Htext : tk_text t = [get buffer (tk_begin t)]).
      { rewrite (st_text _ _ _ Ht), Hend.
        replace (tk_begin t - tk_begin t + 1) with 1 by lia.
        apply take_1_drop. pose proof (strlen_le_length buffer). lia. }
      split; [exact Htext|].
      unfold is_identifier. rewrite Hlen, Hend.
      replace (tk_begin t - tk_begin t + 1) with 1 by lia. simpl.
      rewrite Htext. change (get [get buffer (tk_begin t)] 0) with (get buffer (tk_begin t)).
      now rewrite Hd.
    + right. split; [reflexivity|]. split.
      * unfold is_identifier. rewrite Hlen.
        destruct (Nat.eqb_spec (tk_end t - tk_begin t + 1) 0) as [|_]; [lia|].
        apply forallb_forall. intros i Hi. apply in_seq in Hi.
        rewrite (simple_token_get buffer index) by (done || lia).
        rewrite (st_word _ _ _ Ht Hd); [reflexivity|lia].
      * now apply (get_simple_token_word_end buffer index).
Qed.

Lemma get_simple_token_kinds_witness :
  get_simple_token (chars "x = y1;") (strlen (chars "x = y1;")) 3
  = Some (Token 6 4 5 (chars "y1"))
  /\ is_space (get (chars "x = y1;") 4) = false
  /\ ((is_delimiter (get (chars "x = y1;") 4) = true
       /\ chars "y1" = [get (chars "x = y1;") 4]
       /\ is_identifier (chars "y1") = false)
      \/ (is_delimiter (get (chars "x = y1;") 4) = false
          /\ is_identifier (chars "y1") = true
          /\ is_delimiter (get (chars "x = y1;") 6) = true)).
Proof.
  assert (H : get_simple_token (chars "x = y1;") (strlen (chars "x = y1;")) 3
              = Some (Token 6 4 5 (chars "y1"))) by reflexivity.
  split; [exact H|].
  exact (get_simple_token_kinds (chars "x = y1;") 3 (Token 6 4 5 (chars "y1")) H).
Defined.

(** ** The stream of tokens *)

Section TokenStream.
Implicit Types (buffer : list ascii) (index fuel : nat) (t : token).

Lemma tokens_from_fuel buffer : forall fuel1 fuel2 index,
  strlen buffer - index < fuel1 -> strlen buffer - index < fuel2 ->
  tokens_from buffer fuel1 index = tokens_from buffer fuel2 index.
Proof.
  induction fuel1 as [|fuel1 IH]; intros fuel2 index H1 H2; [lia|].
  destruct fuel2 as [|fuel2]; [lia|]. simpl.
  destruct (get_token buffer (strlen buffer) index) as [t|] eqn:Ht; [|reflexivity].
  destruct (get_token_Some _ _ _ Ht) as (Hlt & Hb & He & Hn & Hle).
  f_equal. apply IH; lia.
Qed.

Lemma tokens_unfold buffer index :
  tokens buffer index
  = match get_token buffer (strlen buffer) index with
    | None => []
    | Some t => t :: tokens buffer (tk_next t)
    end.
Proof.
  unfold tokens at 1. simpl.
  destruct (get_token buffer (strlen buffer) index) as [t|] eqn:Ht; [|reflexivity].
  destruct (get_token_Some _ _ _ Ht) as (Hlt & Hb & He & Hn & Hle).
  f_equal. apply tokens_from_fuel; lia.
Qed.

Lemma find_token_fuel buffer target : forall fuel index,
  strlen buffer - index < fuel ->
  iterate (find_token_step buffer (strlen buffer) target) fuel index
  = Return (tk_begin <$> List.find (fun t => strcmp_eq (tk_text t) target)
                                   (tokens_from buffer fuel index)).
Proof.
  induction fuel as [|fuel IH]; intros index Hfuel; [lia|].
  rewrite iterate_S. simpl.
  assert (Hstep : find_token_step buffer (strlen buffer) target index
                  = match get_token buffer (strlen buffer) index with
                    | None => Return (inr None)
                    | Some t =>
                        if strcmp_eq (tk_text t) target
                        then Return (inr (Some (tk_begin t)))
                        else Return (inl (tk_next t))
                    end) by reflexivity.
  rewrite Hstep. clear Hstep.
  destruct (get_token buffer (strlen buffer) index) as [t|] eqn:Ht; [|reflexivity].
  destruct (get_token_Some _ _ _ Ht) as (Hlt & Hb & He & Hn & Hle).
  simpl. destruct (strcmp_eq (tk_text t) target); simpl; [reflexivity|].
  apply IH. lia.
Qed.

End TokenStream.

(** X6: [find_token] returns, and what it returns is the offset of the
    first token of the stream from [index] whose text is [target], or -1
    when the stream holds no such token. *)
Theorem find_token_first (buffer : list ascii) (index : nat) (target : list ascii) :
  find_token buffer (strlen buffer) index target
  = Return (tk_begin <$> List.find (fun t => strcmp_eq (tk_text t) target)
                                   (tokens buffer index)).
Proof.
  unfold find_token, tokens. apply find_token_fuel. lia.
Qed.

Example find_token_brace :
  find_token (chars "int f (a) { return a; }") 23 4 (chars "{") = Return (Some 10)
  /\ find_token (chars "int f (a);") 10 4 (chars "{") = Return None.
Proof. split; reflexivity. Qed.

Section TokenCover.
Implicit Types (buffer : list ascii) (index p : nat) (t : token).

Lemma spaces_to_next buffer e p :
  e < p -> p < skip_spaces buffer e -> is_space (get buffer p) = true.
Proof.
  intros H1 H2. destruct (skip_spaces_spec buffer e) as (_ & _ & Hrun). apply Hrun. lia.
Qed.

Lemma get_token_gaps buffer index t p :
  get_token buffer (strlen buffer) index = Some t ->
  is_space (get buffer p) = false ->
  index <= p -> p < tk_next t -> tk_begin t <= p <= tk_end t.
Proof.
  intros Ht Hp Hlo Hhi.
  assert (Hbefore : forall i, index <= i < skip_spaces buffer index ->
                              is_space (get buffer i) = true).
  { intros i Hi. destruct (skip_spaces_spec buffer index) as (_ & _ & Hrun). now apply Hrun. }
  assert (Hafter : forall e, e < p -> p < skip_spaces buffer (S e) -> False).
  { intros e H1 H2. destruct (skip_spaces_spec buffer (S e)) as (_ & _ & Hrun).
    rewrite Hrun in Hp by lia. discriminate. }
  apply get_token_cases in Ht as [H1|(t1 & t2 & H1 & H2 & -> & _)].
  - pose proof (st_begin _ _ _ H1) as Hb. pose proof (st_next _ _ _ H1) as Hn.
    split.
    + destruct (decide (tk_begin t <= p)) as [|Hlt]; [done|].
      rewrite Hbefore in Hp by lia. discriminate.
    + destruct (decide (p <= tk_end t)) as [|Hgt]; [done|].
      exfalso. apply (Hafter (tk_end t)); lia.
  - pose proof (st_begin _ _ _ H1) as Hb. pose proof (st_next _ _ _ H2) as Hn.
    simpl in *. split.
    + destruct (decide (tk_begin t1 <= p)) as [|Hlt]; [done|].
      rewrite Hbefore in Hp by lia. discriminate.
    + destruct (decide (p <= tk_end t2)) as [|Hgt]; [done|].
      exfalso. apply (Hafter (tk_end t2)); lia.
Qed.

Lemma tokens_extents buffer : forall m index,
  strlen buffer - index <= m ->
  Forall (fun t => index <= tk_begin t /\ tk_begin t <= tk_end t
                   /\ tk_end t < strlen buffer) (tokens buffer index)
  /\ (forall k t t', tokens buffer index !! k = Some t ->
                     tokens buffer index !! S k = Some t' -> tk_end t < tk_begin t')
  /\ (forall p, index <= p < strlen buffer -> is_space (get buffer p) = false ->
                exists k t, tokens buffer index !! k = Some t
                            /\ tk_begin t <= p <= tk_end t).
Proof.
  induction m as [|m IH]; intros index Hm; rewrite tokens_unfold.
  - destruct (get_token buffer (strlen buffer) index) as [t|] eqn:Ht.
    { destruct (get_token_Some _ _ _ Ht). lia. }
    split; [constructor|]. split; [intros k t t'; now rewrite lookup_nil|].
    intros p Hp. lia.
  - destruct (get_token buffer (strlen buffer) index) as [t|] eqn:Ht.
    + destruct (get_token_Some _ _ _ Ht) as (Hlt & Hb & He & Hn & Hle).
      destruct (IH (tk_next t)) as (Hall & Hord & Hcov); [lia|].
      split; [|split].
      * constructor; [lia|]. eapply Forall_impl; [exact Hall|]. simpl. intros; lia.
      * intros [|k] a b Ha Hb'; simpl in *.
        -- injection Ha as <-. rewrite Forall_lookup in Hall.
           specialize (Hall _ _ Hb'). simpl in Hall. lia.
        -- eapply Hord; eassumption.
      * intros p Hp Hsp. destruct (decide (p < tk_next t)) as [Hin|Hout].
        -- exists 0, t. split; [reflexivity|].
           apply (get_token_gaps buffer index); (done || lia).
        -- destruct (Hcov p) as (k & t' & Hk & Hext); [lia|done|].
           exists (S k), t'. split; [exact Hk|exact Hext].
    + split; [constructor|]. split; [intros k t t'; now rewrite lookup_nil|].
      intros p Hp Hsp. apply get_token_None in Ht.
      destruct (skip_spaces_spec buffer index) as (_ & _ & Hrun).
      rewrite Hrun in Hsp by lia. discriminate.
Qed.

End TokenCover.

(** X7: the stream of tokens misses nothing but blanks.  The tokens that
    the scan reads from [index] lie in the string, one after the other
    without overlap, and every byte from [index] on that is not a blank
    lies in one of them.  The scan goes on from where a token ended: the
    stream from [index] is the token at [index] and then the stream from
    its [tk_next]. *)
Theorem tokens_cover (buffer : list ascii) (index : nat) :
  tokens buffer index
  = match get_token buffer (strlen buffer) index with
    | None => []
    | Some t => t :: tokens buffer (tk_next t)
    end
  /\ Forall (fun t => index <= tk_begin t /\ tk_begin t <= tk_end t
                      /\ tk_end t < strlen buffer) (tokens buffer index)
  /\ (forall k t t', tokens buffer index !! k = Some t ->
                     tokens buffer index !! S k = Some t' -> tk_end t < tk_begin t')
  /\ (forall p, index <= p < strlen buffer -> is_space (get buffer p) = false ->
                exists k t, tokens buffer index !! k = Some t
                            /\ tk_begin t <= p <= tk_end t).
Proof.
  split; [apply tokens_unfold|].
  apply (tokens_extents buffer (strlen buffer - index)). lia.
Qed.

Example tokens_of_statement :
  tokens (chars "a->b += 10 ;") 0
  = [Token 1 0 0 (chars "a"); Token 3 1 2 (chars "->"); Token 5 3 3 (chars "b");
     Token 8 5 6 (chars "+="); Token 11 8 9 (chars "10"); Token 12 11 11 (chars ";")].
Proof. reflexivity. Qed.

(** ** The bracket matcher on the stream of tokens *)

Section MatchBracketStream.
Variables (buffer : list ascii) (i : nat) (opening closing : list ascii).

Lemma count_text_snoc (text : list ascii) (pre : list token) (t : token) :
  count_text text (pre ++ [t])
  = count_text text pre + (if strcmp_eq (tk_text t) text then 1 else 0).
Proof.
  unfold count_text. rewrite filter_app, length_app. f_equal.
  rewrite filter_cons, filter_nil.
  destruct (strcmp_eq (tk_text t) text).
  - now rewrite decide_True.
  - now rewrite decide_False.
Qed.

Lemma count_text_one (text : list ascii) (t : token) :
  count_text text [t] = if strcmp_eq (tk_text t) text then 1 else 0.
Proof. apply (count_text_snoc text [] t). Qed.

Lemma take_S_app_lt (pre rest : list token) k :
  k < length pre -> take (S k) (pre ++ rest) = take (S k) pre.
Proof. intros Hk. rewrite take_app_le by lia. reflexivity. Qed.

Lemma take_S_app_eq (pre rest : list token) t :
  take (S (length pre)) (pre ++ t :: rest) = pre ++ [t].
Proof.
  rewrite take_app_ge by lia. f_equal.
  replace (S (length pre) - length pre) with 1 by lia. reflexivity.
Qed.

Lemma match_bracket_round st :
  bracket_state buffer i opening closing st ->
  match match_bracket_step buffer (strlen buffer) opening closing st with
  | Return (inl st') =>
      bracket_state buffer i opening closing st'
      /\ strlen buffer - fst (fst st') < strlen buffer - fst (fst st)
  | Return (inr r) => bracket_result buffer i opening closing r
  | Stop _ => False
  end.
Proof.
  destruct st as [[index counter] flag].
  intros (pre & Hts & Hcounter & Hflag & Hpre).
  unfold match_bracket_step. rewrite (tokens_unfold buffer index) in Hts.
  destruct (get_token buffer (strlen buffer) index) as [t|] eqn:Ht.
  2:{ rewrite app_nil_r in Hts. simpl.
      destruct (decide (pre = [])) as [->|Hne].
      - left. rewrite Hts. discriminate.
      - right. rewrite Hts. intros k Hk. now apply Hpre. }
  destruct (get_token_Some _ _ _ Ht) as (Hlt & Hb & He & Hn & Hle).
  destruct (decide (pre = [])) as [->|Hne].
  - (* the first token *)
    rewrite bool_decide_eq_false_2 in Hflag by tauto. subst flag. simpl in Hts.
    change (count_text opening []) with 0 in Hcounter.
    change (count_text closing []) with 0 in Hcounter. subst counter.
    destruct (strcmp_eq (tk_text t) opening) eqn:Ho; simpl.
    2:{ left. rewrite Hts. intros t0 [= <-]. exact Ho. }
    destruct (strcmp_eq (tk_text t) closing) eqn:Hc; simpl.
    + exists 0, t, t. rewrite Hts. simpl.
      split; [reflexivity|]. split; [reflexivity|]. split; [reflexivity|].
      split; [exact Ho|]. split; [|intros; lia].
      unfold balanced. simpl. rewrite ?take_0.
      rewrite !count_text_one. now rewrite Ho, Hc.
    + split; [|lia]. exists [t]. split; [exact Hts|].
      rewrite !count_text_one, Ho, Hc.
      split; [reflexivity|]. split; [now rewrite bool_decide_eq_true_2|].
      intros _. split; [lia|]. split; [exists t; now split|].
      intros k Hk. simpl in Hk. replace k with 0 by lia. unfold unbalanced. simpl.
      rewrite ?take_0.
      rewrite !count_text_one, Ho, Hc.
      simpl. lia.
  - (* a later token *)
    rewrite bool_decide_eq_true_2 in Hflag by exact Hne. subst flag. simpl.
    destruct (Hpre Hne) as (Hpos & (t0 & Hhead & Ht0) & Hun).
    set (counter' := (let c := if strcmp_eq (tk_text t) opening
                               then (counter + 1)%Z else counter in
                      if strcmp_eq (tk_text t) closing then (c - 1)%Z else c)).
    assert (Hcounter' :
              counter' = (Z.of_nat (count_text opening (pre ++ [t]))
                          - Z.of_nat (count_text closing (pre ++ [t])))%Z).
    { unfold counter'. rewrite !count_text_snoc.
      destruct (strcmp_eq (tk_text t) opening), (strcmp_eq (tk_text t) closing); lia. }
    assert (Hge : (0 <= counter')%Z).
    { unfold counter'.
      destruct (strcmp_eq (tk_text t) opening), (strcmp_eq (tk_text t) closing); lia. }
    fold counter'.
    destruct (Z.eqb_spec counter' 0) as [Hzero|Hnz].
    + exists (length pre), t, t0. rewrite Hts.
      split; [now rewrite list_lookup_middle|]. split; [reflexivity|].
      split; [destruct pre; [done|exact Hhead]|]. split; [exact Ht0|].
      split.
      * unfold balanced. rewrite take_S_app_eq. lia.
      * intros k Hk. unfold unbalanced. rewrite take_S_app_lt by exact Hk.
        now apply Hun.
    + split; [|simpl; lia]. exists (pre ++ [t]).
      split; [now rewrite <- app_assoc|]. split; [exact Hcounter'|].
      split; [rewrite bool_decide_eq_true_2; [reflexivity|now destruct pre]|].
      intros _. split; [lia|]. split.
      * exists t0. split; [destruct pre; [done|exact Hhead]|exact Ht0].
      * intros k Hk. rewrite length_app in Hk. simpl in Hk.
        destruct (decide (k < length pre)) as [Hlt'|Hge'].
        -- unfold unbalanced. rewrite take_S_app_lt by exact Hlt'. now apply Hun.
        -- replace k with (length pre) by lia. unfold unbalanced.
           rewrite (take_S_app_eq pre [] t). lia.
Qed.

End MatchBracketStream.

(** X8: [match_bracket] returns on every input, and it matches brackets
    by count.  It gives the offset of the first token of the stream from
    [index] at which as many [closing] as [opening] tokens were read,
    the first token being an [opening] one; it gives [ERROR] when the
    first token is not [opening] or when no token balances the count. *)
Theorem match_bracket_balance (buffer : list ascii) (index : nat)
    (opening closing : list ascii) :
  exists r,
    match_bracket buffer (strlen buffer) index opening closing = Return r
    /\ match r with
       | Some e =>
           exists k t t0,
             tokens buffer index !! k = Some t /\ tk_begin t = e
             /\ head (tokens buffer index) = Some t0
             /\ strcmp_eq (tk_text t0) opening = true
             /\ balanced opening closing (tokens buffer index) k
             /\ forall k', k' < k -> unbalanced opening closing (tokens buffer index) k'
       | None =>
           (forall t0, head (tokens buffer index) = Some t0 ->
                       strcmp_eq (tk_text t0) opening = false)
           \/ (forall k, k < length (tokens buffer index) ->
                         unbalanced opening closing (tokens buffer index) k)
       end.
Proof.
  unfold match_bracket.
  apply (iterate_measure (match_bracket_step buffer (strlen buffer) opening closing)
           (bracket_state buffer index opening closing)
           (fun st => strlen buffer - fst (fst st))
           (bracket_result buffer index opening closing)).
  - apply match_bracket_round.
  - exists []. split; [reflexivity|]. split; [reflexivity|].
    split; [now rewrite bool_decide_eq_false_2 by tauto|]. tauto.
  - simpl. lia.
Qed.

Example match_bracket_nested :
  match_bracket (chars "f (a, (b)) + (c)") 16 2 (chars "(") (chars ")") = Return (Some 9)
  /\ match_bracket (chars "f (a, (b) + c") 13 2 (chars "(") (chars ")") = Return None
  /\ match_bracket (chars "f (a)") 5 0 (chars "(") (chars ")") = Return None.
Proof. repeat split; reflexivity. Qed.

(** ** Constructs without an end *)

Section Unended.
Implicit Types (buffer : list ascii) (i : nat) (fl : scan_flags) (Items : list item).

Lemma match_bracket_returns buffer i (opening closing : list ascii) :
  exists r,
    match_bracket buffer (strlen buffer) i opening closing = Return r
    /\ bracket_result buffer i opening closing r.
Proof.
  unfold match_bracket.
  apply (iterate_measure (match_bracket_step buffer (strlen buffer) opening closing)
           (bracket_state buffer i opening closing)
           (fun st => strlen buffer - fst (fst st))
           (bracket_result buffer i opening closing)).
  - apply match_bracket_round.
  - exists []. split; [reflexivity|]. split; [reflexivity|].
    split; [now rewrite bool_decide_eq_false_2 by tauto|]. tauto.
  - simpl. lia.
Qed.

Lemma match_bracket_unmatched buffer i :
  unmatched buffer i ->
  match_bracket buffer (strlen buffer) i (chars "/*") (chars "*/") = Return None.
Proof.
  intros Hun.
  destruct (match_bracket_returns buffer i (chars "/*") (chars "*/")) as (r & Hr & Hres).
  destruct r as [e|]; [|exact Hr].
  destruct Hres as (k & t & t0 & Hk & _ & _ & _ & Hbal & _).
  apply lookup_lt_Some in Hk. specialize (Hun k Hk).
  unfold balanced in Hbal. unfold unbalanced in Hun. lia.
Qed.

(** A comment that no [*/] follows has no end where comments nest. *)
Lemma no_terminator_unmatched buffer i :
  i < strlen buffer -> opener_at buffer i -> no_terminator buffer i ->
  unmatched buffer i.
Proof.
  intros Hi Hopen Hnone.
  pose proof (match_bracket_unterminated buffer i Hi Hopen Hnone) as Hrun.
  destruct (match_bracket_returns buffer i (chars "/*") (chars "*/")) as (r & Hr & Hres).
  rewrite Hrun in Hr. injection Hr as <-.
  destruct Hres as [Hhead|Hun]; [|exact Hun].
  destruct Hopen as [H1 H2]. rewrite (tokens_unfold buffer i) in Hhead.
  rewrite (get_token_opener buffer i Hi H1 H2) in Hhead.
  specialize (Hhead _ eq_refl). discriminate.
Qed.

Lemma fcl_step_unmatched fl buffer i Items :
  i < strlen buffer -> opener_at buffer i -> nested_comments fl = true ->
  unmatched buffer i ->
  fcl_step fl buffer (strlen buffer) (i, Items)
  = Stop (ExitCall "No matching closing comment").
Proof.
  intros Hi [H1 H2] Hnested Hun. unfold fcl_step.
  destruct (Nat.leb_spec (strlen buffer) i); [lia|].
  replace (i + 1) with (S i) by lia. rewrite H1, H2. eqb_constants. cbv iota.
  unfold scan_comment. rewrite Hnested, match_bracket_unmatched by exact Hun.
  reflexivity.
Qed.

(** C3, as the code has it.  The pass is at [i].  Where comments nest,
    a comment opened there that has no matching terminator, none of the
    [*/] after it bringing the count of the [/*] read down to zero, ends
    the run.  Under [-not_nested] a comment opened there that no [*/]
    follows is taken to run to the end of the buffer, and the pass
    returns; so does a string or character literal opened there that no
    quote closes, in both configurations. *)
Theorem unterminated_constructs fl buffer Items0 i Items :
  scans fl buffer Items0 (i, Items) -> i < strlen buffer ->
  (opener_at buffer i -> nested_comments fl = true -> unmatched buffer i ->
   find_comments_and_literals fl buffer Items0
   = Stop (ExitCall "No matching closing comment"))
  /\ (opener_at buffer i -> nested_comments fl = false -> no_terminator buffer i ->
      find_comments_and_literals fl buffer Items0
      = Return (add_if (add_comments fl) Items i (strlen buffer - 1) COMMENT))
  /\ (get buffer i = DQUOTE -> unclosed buffer i DQUOTE ->
      find_comments_and_literals fl buffer Items0
      = Return (add_if (add_literals fl) Items i (strlen buffer - 1) STRING))
  /\ (get buffer i = SQUOTE -> unclosed buffer i SQUOTE ->
      find_comments_and_literals fl buffer Items0
      = Return (add_if (add_literals fl) Items i (strlen buffer - 1) LITERAL)).
Proof.
  intros Hscan Hi. split; [|split; [|split]].
  - intros Hopen Hnested Hun. eapply scans_stop; [eassumption|exact Hi|].
    now apply fcl_step_unmatched.
  - intros Hopen Hnested Hnone.
    pose proof (fcl_step_opener fl buffer i Items Hi Hopen Hnone) as Hstep.
    rewrite Hnested in Hstep. eapply scans_to_end; eassumption.
  - intros Hget Hun. eapply scans_to_end; [eassumption|exact Hi|].
    apply (fcl_step_unclosed fl buffer i Items DQUOTE STRING); auto.
  - intros Hget Hun. eapply scans_to_end; [eassumption|exact Hi|].
    apply (fcl_step_unclosed fl buffer i Items SQUOTE LITERAL); auto.
Qed.
End Unended.

Lemma unmatched_comment_in_comment : unmatched comment_in_comment 0.
Proof.
  intros k Hk. vm_compute in Hk.
  do 6 (destruct k as [|k]; [vm_compute; lia|]). lia.
Qed.

Lemma unterminated_constructs_witness :
  scans (all_items true) comment_in_comment [] (0, [])
  /\ 0 < strlen comment_in_comment
  /\ opener_at comment_in_comment 0
  /\ nested_comments (all_items true) = true
  /\ unmatched comment_in_comment 0
  /\ find_comments_and_literals (all_items true) comment_in_comment []
     = Stop (ExitCall "No matching closing comment").
Proof.
  assert (H1 : scans (all_items true) comment_in_comment [] (0, []))
    by apply scans_start.
  assert (H2 : 0 < strlen comment_in_comment) by (vm_compute; lia).
  assert (H3 : opener_at comment_in_comment 0) by (split; reflexivity).
  split; [exact H1|]. split; [exact H2|]. split; [exact H3|].
  split; [reflexivity|]. split; [exact unmatched_comment_in_comment|].
  destruct (unterminated_constructs (all_items true) comment_in_comment [] 0 [] H1 H2)
    as [Hcomment _].
  exact (Hcomment H3 eq_refl unmatched_comment_in_comment).
Defined.

(** The comment of [a /* x], which no [*/] follows, in both
    configurations. *)
Example unterminated_comment_both :
  find_comments_and_literals (all_items true) (chars "a /* x") []
  = Stop (ExitCall "No matching closing comment")
  /\ find_comments_and_literals (all_items false) (chars "a /* x") []
     = Return [Item 2 5 COMMENT].
Proof. split; reflexivity. Qed.

(** ** Lines *)

Section Lines.
Implicit Types (buffer : list ascii) (index k p q : nat).

Lemma scan_back_spec buffer k :
  let q := scan_back buffer k in
  q <= k
  /\ (q = 0 \/ get buffer q = LF)
  /\ forall p, q < p <= k -> get buffer p <> LF.
Proof.
  induction k as [|k IH]; simpl.
  - split; [lia|]. split; [now left|]. intros p Hp. lia.
  - destruct (Ascii.eqb_spec (get buffer (S k)) LF) as [Heq|Hne].
    + split; [lia|]. split; [now right|]. intros p Hp. lia.
    + destruct IH as (Hle & Hq & Hrun).
      split; [lia|]. split; [exact Hq|]. intros p Hp.
      destruct (decide (p = S k)) as [->|]; [exact Hne|]. apply Hrun. lia.
Qed.

Lemma move_to_BOL_spec buffer index :
  let b := move_to_BOL buffer index in
  b <= index
  /\ (b = 0 \/ get buffer (b - 1) = LF)
  /\ forall p, b <= p < index -> get buffer p <> LF.
Proof.
  unfold move_to_BOL.
  destruct (Nat.leb_spec index 0) as [Hz|Hpos].
  - simpl. split; [lia|]. split; [left; lia|]. intros p Hp. lia.
  - destruct (scan_back_spec buffer (index - 1)) as (Hle & Hq & Hrun).
    set (q := scan_back buffer (index - 1)) in *.
    destruct (Ascii.eqb_spec (get buffer q) LF) as [Heq|Hne]; cbv zeta.
    + split; [lia|]. split; [right; replace (S q - 1) with q by lia; exact Heq|].
      intros p Hp. apply Hrun. lia.
    + destruct Hq as [Hq|Hq]; [|contradiction].
      split; [lia|]. split; [now left|]. intros p Hp.
      destruct (decide (p = q)) as [->|]; [exact Hne|]. apply Hrun. lia.
Qed.

Lemma scan_forth_spec buffer : forall k index,
  let r := scan_forth buffer k index in
  index <= r <= index + k
  /\ (r < index + k -> get buffer r = LF)
  /\ forall p, index <= p < r -> get buffer p <> LF.
Proof.
  induction k as [|k IH]; intros index; simpl.
  - split; [lia|]. split; [lia|]. intros p Hp. lia.
  - destruct (Ascii.eqb_spec (get buffer index) LF) as [Heq|Hne].
    + split; [lia|]. split; [done|]. intros p Hp. lia.
    + destruct (IH (S index)) as (Hle & Hstop & Hrun).
      split; [lia|]. split; [intros Hr; apply Hstop; lia|]. intros p Hp.
      destruct (decide (p = index)) as [->|]; [exact Hne|]. apply Hrun. lia.
Qed.

Lemma move_to_EOL_spec buffer n index :
  index < n ->
  exists e,
    move_to_EOL buffer n index = Return e
    /\ index <= e < n
    /\ (get buffer e = LF \/ S e = n)
    /\ forall p, index <= p < e -> get buffer p <> LF.
Proof.
  intros Hlt. unfold move_to_EOL.
  destruct (Nat.leb_spec n index) as [|_]; [lia|].
  destruct (scan_forth_spec buffer (n - index) index) as (Hle & Hstop & Hrun).
  set (r := scan_forth buffer (n - index) index) in *.
  destruct (Nat.ltb_spec 0 n) as [_|]; [|lia]. simpl.
  destruct (Nat.leb_spec n r) as [Hge|Hin].
  - exists (r - 1). unfold assert.
    destruct (Nat.ltb_spec (r - 1) n) as [_|]; [|lia]. simpl.
    split; [reflexivity|]. split; [lia|]. split; [right; lia|].
    intros p Hp. apply Hrun. lia.
  - exists r. unfold assert.
    destruct (Nat.ltb_spec r n) as [_|]; [|lia]. simpl.
    split; [reflexivity|]. split; [lia|]. split; [left; apply Hstop; lia|].
    exact Hrun.
Qed.

Lemma get_line_holds (buffer : list ascii) (index : nat) :
  index < strlen buffer ->
  exists l,
    get_line buffer (strlen buffer) index = Return (Some l)
    /\ tk_begin l <= index <= tk_end l
    /\ tk_end l < strlen buffer
    /\ tk_next l = S (tk_end l)
    /\ (tk_begin l = 0 \/ get buffer (tk_begin l - 1) = LF)
    /\ (get buffer (tk_end l) = LF \/ S (tk_end l) = strlen buffer)
    /\ (forall p, tk_begin l <= p < tk_end l -> get buffer p <> LF)
    /\ tk_text l = take (tk_end l + 1 - tk_begin l) (drop (tk_begin l) buffer).
Proof.
  intros Hlt. unfold get_line.
  destruct (Nat.leb_spec (strlen buffer) index) as [|_]; [lia|].
  destruct (move_to_BOL_spec buffer index) as (Hb & Hstart & Hrun1).
  destruct (move_to_EOL_spec buffer (strlen buffer) index Hlt)
    as (e & -> & He & Hend & Hrun2).
  set (b := move_to_BOL buffer index) in *. simpl.
  eexists. split; [reflexivity|]. simpl.
  split; [lia|]. split; [lia|]. split; [lia|]. split; [exact Hstart|].
  split; [exact Hend|]. split.
  - intros p Hp. destruct (decide (p < index)); [apply Hrun1|apply Hrun2]; lia.
  - apply cstr_take_drop. lia.
Qed.

End Lines.

(** X9: [get_line] at an offset of the string returns the line that holds
    the offset: it starts at the beginning of the buffer or just after a
    newline, it ends at the next newline or at the last byte, no newline
    lies before its end, its text is the bytes of this extent, and the
    index handed back is the byte after its end. *)
Theorem get_line_extent (buffer : list ascii) (index : nat) :
  index < strlen buffer ->
  exists l,
    get_line buffer (strlen buffer) index = Return (Some l)
    /\ tk_begin l <= index <= tk_end l
    /\ tk_end l < strlen buffer
    /\ tk_next l = S (tk_end l)
    /\ (tk_begin l = 0 \/ get buffer (tk_begin l - 1) = LF)
    /\ (get buffer (tk_end l) = LF \/ S (tk_end l) = strlen buffer)
    /\ (forall p, tk_begin l <= p < tk_end l -> get buffer p <> LF)
    /\ tk_text l = take (tk_end l + 1 - tk_begin l) (drop (tk_begin l) buffer).
Proof.
  intros Hlt. exact (get_line_holds buffer index Hlt).
Qed.

Lemma get_line_extent_witness :
  4 < strlen (chars "ab" ++ LF :: chars "cde" ++ LF :: chars "f")
  /\ exists l,
       get_line (chars "ab" ++ LF :: chars "cde" ++ LF :: chars "f")
                (strlen (chars "ab" ++ LF :: chars "cde" ++ LF :: chars "f")) 4
       = Return (Some l)
       /\ tk_begin l <= 4 <= tk_end l
       /\ tk_end l < strlen (chars "ab" ++ LF :: chars "cde" ++ LF :: chars "f")
       /\ tk_next l = S (tk_end l)
       /\ (tk_begin l = 0
           \/ get (chars "ab" ++ LF :: chars "cde" ++ LF :: chars "f") (tk_begin l - 1) = LF)
       /\ (get (chars "ab" ++ LF :: chars "cde" ++ LF :: chars "f") (tk_end l) = LF
           \/ S (tk_end l) = strlen (chars "ab" ++ LF :: chars "cde" ++ LF :: chars "f"))
       /\ (forall p, tk_begin l <= p < tk_end l ->
                     get (chars "ab" ++ LF :: chars "cde" ++ LF :: chars "f") p <> LF)
       /\ tk_text l
          = take (tk_end l + 1 - tk_begin l)
                 (drop (tk_begin l) (chars "ab" ++ LF :: chars "cde" ++ LF :: chars "f")).
Proof.
  assert (H : 4 < strlen (chars "ab" ++ LF :: chars "cde" ++ LF :: chars "f")).
  { vm_compute. lia. }
  split; [exact H|].
  exact (get_line_extent (chars "ab" ++ LF :: chars "cde" ++ LF :: chars "f") 4 H).
Defined.

Example get_line_second :
  get_line (chars "ab" ++ LF :: chars "cde" ++ LF :: chars "f") 8 4
  = Return (Some (Token 7 3 6 (chars "cde" ++ [LF]))).
Proof. reflexivity. Qed.

(** ** The kinds of directives *)

Section PragmaKinds.
Implicit Types (token line : list ascii).

Lemma strcmp_eq_first token c (rest : list ascii) :
  strcmp_eq token (c :: rest) = true -> get token 0 = c.
Proof.
  unfold strcmp_eq. simpl.
  destruct (Ascii.eqb_spec (hd NUL token) c) as [Heq|]; [|discriminate].
  intros _. now destruct token.
Qed.

Lemma get_pragma_type_other token :
  get_pragma_type token = OTHER <-> get token 0 <> "#".
Proof.
  unfold get_pragma_type.
  destruct (Ascii.eqb_spec (get token 0) NUL) as [Hnul|_].
  { rewrite Hnul. split; [intros _; unfold NUL; discriminate|reflexivity]. }
  assert (Hlit : forall lit : list ascii,
             strcmp_eq token ("#" :: lit) = true -> forall k,
             k <> OTHER -> (k = OTHER <-> get token 0 <> "#")).
  { intros lit H k Hk. apply strcmp_eq_first in H. rewrite H. split; congruence. }
  destruct (strcmp_eq token (chars "#define")) eqn:H1; [now apply (Hlit _ H1)|].
  destruct (strcmp_eq token (chars "#undef")) eqn:H2; [now apply (Hlit _ H2)|].
  destruct (strcmp_eq token (chars "#if")) eqn:H3; [now apply (Hlit _ H3)|].
  destruct (strcmp_eq token (chars "#ifdef")) eqn:H4; [now apply (Hlit _ H4)|].
  destruct (strcmp_eq token (chars "#ifndef")) eqn:H5; [now apply (Hlit _ H5)|].
  destruct (strcmp_eq token (chars "#else")) eqn:H6; [now apply (Hlit _ H6)|].
  destruct (strcmp_eq token (chars "#elif")) eqn:H7; [now apply (Hlit _ H7)|].
  destruct (strcmp_eq token (chars "#endif")) eqn:H8; [now apply (Hlit _ H8)|].
  destruct (Ascii.eqb_spec (get token 0) "#") as [->|Hne].
  - split; congruence.
  - split; [intros _; exact Hne|reflexivity].
Qed.

Lemma get_pragma_type_range token :
  get_pragma_type token ∈ [OTHER; PRAGMA_OTHER; PRAGMA_IF; PRAGMA_ELSE; PRAGMA_ENDIF].
Proof.
  unfold get_pragma_type.
  repeat match goal with
  | |- context [if ?b then _ else _] => destruct b
  end; repeat (first [apply list_elem_of_here | apply list_elem_of_further]).
Qed.

Lemma get_token_first line t :
  get_token line (strlen line) 0 = Some t ->
  get (tk_text t) 0 = get line (skip_spaces line 0).
Proof.
  intros Ht. apply get_token_cases in Ht as [H1|(t1 & t2 & H1 & _ & -> & _)].
  - destruct (simple_token_nonempty _ _ _ H1) as (c & rest & -> & -> & _).
    now rewrite (st_begin _ _ _ H1).
  - destruct (simple_token_nonempty _ _ _ H1) as (c & rest & Htext & -> & _).
    simpl. rewrite Htext. now rewrite (st_begin _ _ _ H1).
Qed.

End PragmaKinds.

(** X10: what makes a line a directive is its first byte that is not a
    blank.  [extract_pragma_name] gives a kind other than [OTHER] exactly
    for the lines on which this byte is [#], and then the kind is one of
    the four kinds of directives. *)
Theorem extract_pragma_name_hash (line : list ascii) :
  (extract_pragma_name line <> OTHER <-> get line (skip_spaces line 0) = "#")
  /\ extract_pragma_name line
     ∈ [OTHER; PRAGMA_OTHER; PRAGMA_IF; PRAGMA_ELSE; PRAGMA_ENDIF].
Proof.
  unfold extract_pragma_name.
  destruct (get_token line (strlen line) 0) as [t|] eqn:Ht.
  - split; [|apply get_pragma_type_range].
    rewrite <- (get_token_first line t Ht).
    pose proof (get_pragma_type_other (tk_text t)) as Hother.
    destruct (decide (get (tk_text t) 0 = "#")) as [Heq|Hne]; split; intros H; tauto.
  - split; [|apply list_elem_of_here]. apply get_token_None in Ht.
    pose proof (skip_spaces_le_strlen line 0 ltac:(lia)) as Hle.
    replace (skip_spaces line 0) with (strlen line) by lia.
    rewrite strlen_get_nul. split; [congruence|unfold NUL; discriminate].
Qed.

Example extract_pragma_name_lines :
  extract_pragma_name (chars "  # ifdef A") = PRAGMA_IF
  /\ extract_pragma_name (chars "#elif B") = PRAGMA_ELSE
  /\ extract_pragma_name (chars "#endif") = PRAGMA_ENDIF
  /\ extract_pragma_name (chars "#include <x.h>") = PRAGMA_OTHER
  /\ extract_pragma_name (chars "int x; # if") = OTHER.
Proof. repeat split; reflexivity. Qed.

(** ** The lines of directives *)

Section FindPragmas.
Variable buffer : list ascii.
Implicit Types (index p : nat) (pragmas : list item) (l : token).

Lemma ascending_nil : ascending [].
Proof. intros i j a b Ha. now rewrite lookup_nil in Ha. Qed.

Lemma ascending_snoc (Items : list item) (it : item) :
  ascending Items ->
  Forall (fun a => (end_ a < begin_ it)%Z) Items ->
  ascending (Items ++ [it]).
Proof.
  intros Hasc Hall i j a b Ha Hb Hij.
  destruct (decide (j < length Items)) as [Hj|Hj].
  - rewrite lookup_app_l in Ha, Hb by lia. now apply (Hasc i j).
  - assert (Hi : i < length Items).
    { apply lookup_lt_Some in Hb. rewrite length_app in Hb. simpl in Hb. lia. }
    rewrite lookup_app_l in Ha by lia. rewrite lookup_app_r in Hb by lia.
    apply lookup_lt_Some in Hb as Hb'. simpl in Hb'.
    replace (j - length Items) with 0 in Hb by lia. injection Hb as <-.
    rewrite Forall_lookup in Hall. now apply (Hall i).
Qed.

Lemma get_line_Some_lt index l :
  get_line buffer (strlen buffer) index = Return (Some l) -> index < strlen buffer.
Proof.
  unfold get_line. destruct (Nat.leb_spec (strlen buffer) index) as [|H]; [discriminate|].
  intros _. exact H.
Qed.

Lemma get_line_at_start index l :
  index = 0 \/ get buffer (index - 1) = LF ->
  get_line buffer (strlen buffer) index = Return (Some l) ->
  tk_begin l = index /\ index <= tk_end l /\ tk_end l < strlen buffer
  /\ tk_next l = S (tk_end l)
  /\ (get buffer (tk_end l) = LF \/ S (tk_end l) = strlen buffer)
  /\ forall p, index <= p < tk_end l -> get buffer p <> LF.
Proof.
  intros Hstart Hl. pose proof (get_line_Some_lt _ _ Hl) as Hlt.
  destruct (get_line_holds buffer index Hlt)
    as (l' & Hl' & Hb & He & Hn & _ & Hend & Hrun & _).
  rewrite Hl in Hl'. injection Hl' as <-.
  assert (Hbegin : tk_begin l = index).
  { destruct (decide (tk_begin l = index)) as [|Hne]; [done|].
    destruct Hstart as [->|Hlf]; [lia|].
    exfalso. apply (Hrun (index - 1)); [lia|exact Hlf]. }
  split; [exact Hbegin|]. split; [lia|]. split; [lia|]. split; [exact Hn|].
  split; [exact Hend|]. intros p Hp. apply Hrun. lia.
Qed.

Lemma directive_line_in_buffer it :
  directive_line buffer it -> item_in_buffer buffer it.
Proof.
  intros (p & l & Hstart & Hl & -> & _).
  destruct (get_line_at_start p l Hstart Hl) as (_ & _ & He & _).
  pose proof (get_line_Some_lt _ _ Hl). unfold item_in_buffer. simpl. lia.
Qed.

Lemma find_pragmas_round st :
  pragmas_state buffer st ->
  match find_pragmas_step buffer (strlen buffer) st with
  | Return (inl st') =>
      pragmas_state buffer st' /\ strlen buffer - fst st' < strlen buffer - fst st
  | Return (inr pragmas) =>
      (forall it, it ∈ pragmas <-> directive_line buffer it)
      /\ ascending pragmas
      /\ Forall (item_in_buffer buffer) pragmas
  | Stop _ => False
  end.
Proof.
  destruct st as [index pragmas]. intros (Hle & Hstart & Hmem & Hasc & Hends).
  unfold find_pragmas_step.
  destruct (decide (index < strlen buffer)) as [Hlt|Hge].
  - destruct (get_line_holds buffer index Hlt) as (l & Hl & _).
    rewrite Hl. simpl.
    destruct (get_line_at_start index l (Hstart Hlt) Hl)
      as (Hb & He & Hen & Hn & Hend & Hrun).
    assert (Hnew : forall it,
               directive_line buffer it -> (begin_ it < Z.of_nat (tk_next l))%Z ->
               (directive_line buffer it /\ (begin_ it < Z.of_nat index)%Z)
               \/ (it = Item (Z.of_nat index) (Z.of_nat (tk_end l))
                             (extract_pragma_name (tk_text l))
                   /\ extract_pragma_name (tk_text l) <> OTHER)).
    { intros it (p & l' & Hp & Hl' & -> & Hkind) Hbefore. simpl in Hbefore.
      destruct (decide (p < index)) as [Hpi|Hpi].
      - left. split; [|simpl; lia]. exists p, l'. auto.
      - right. destruct (decide (p = index)) as [->|Hne].
        + rewrite Hl in Hl'. injection Hl' as <-. auto.
        + exfalso. destruct Hp as [->|Hlf]; [lia|].
          apply (Hrun (p - 1)); [lia|exact Hlf]. }
    assert (Hstart' : tk_next l < strlen buffer ->
                      tk_next l = 0 \/ get buffer (tk_next l - 1) = LF).
    { intros Hnext. right. rewrite Hn. replace (S (tk_end l) - 1) with (tk_end l) by lia.
      destruct Hend as [|]; [done|lia]. }
    destruct (decide (extract_pragma_name (tk_text l) = OTHER)) as [Hother|Hkind].
    + rewrite bool_decide_eq_true_2 by exact Hother.
      split; [|simpl; lia]. split; [lia|]. split; [exact Hstart'|]. split; [|split].
      * intros it. split.
        -- intros Hit. apply Hmem in Hit as [Hd Hlt']. split; [exact Hd|lia].
        -- intros [Hd Hlt']. destruct (Hnew it Hd Hlt') as [Hold|[_ Hk]];
             [now apply Hmem|contradiction].
      * exact Hasc.
      * eapply Forall_impl; [exact Hends|]. simpl. intros; lia.
    + rewrite bool_decide_eq_false_2 by exact Hkind.
      split; [|simpl; lia]. split; [lia|]. split; [exact Hstart'|]. split; [|split].
      * intros it. unfold add_item. rewrite elem_of_app, list_elem_of_singleton. split.
        -- intros [Hit| ->].
           ++ apply Hmem in Hit as [Hd Hlt']. split; [exact Hd|lia].
           ++ rewrite Hb. split; [|simpl; lia]. exists index, l.
              split; [exact (Hstart Hlt)|]. auto.
        -- intros [Hd Hlt']. destruct (Hnew it Hd Hlt') as [Hold|[-> _]].
           ++ left. now apply Hmem.
           ++ right. now rewrite Hb.
      * apply ascending_snoc; [exact Hasc|]. rewrite Hb. simpl. exact Hends.
      * unfold add_item. rewrite Forall_app. split.
        -- eapply Forall_impl; [exact Hends|]. simpl. intros; lia.
        -- constructor; [simpl; lia|constructor].
  - assert (Hnone : get_line buffer (strlen buffer) index = Return None).
    { unfold get_line. destruct (Nat.leb_spec (strlen buffer) index); [reflexivity|lia]. }
    rewrite Hnone. simpl.
    assert (Hall : forall it, it ∈ pragmas <-> directive_line buffer it).
    { intros it. rewrite Hmem. split; [tauto|]. intros Hd. split; [exact Hd|].
      apply directive_line_in_buffer in Hd. unfold item_in_buffer in Hd. lia. }
    split; [exact Hall|]. split; [exact Hasc|].
    rewrite Forall_forall. intros it Hit. apply directive_line_in_buffer. now apply Hall.
Qed.

End FindPragmas.

(** X11: [find_pragmas] returns on every buffer, and its items are the
    lines that open with a directive: each line of the buffer whose first
    byte after the blanks is [#] is there with its extent and its kind,
    nothing else is there, the items come in the order of the buffer
    without overlap, and each lies below the terminator, which is what
    [clear] asserts of it. *)
Theorem find_pragmas_lines (buffer : list ascii) :
  exists pragmas,
    find_pragmas buffer = Return pragmas
    /\ (forall it, it ∈ pragmas <-> directive_line buffer it)
    /\ ascending pragmas
    /\ Forall (item_in_buffer buffer) pragmas.
Proof.
  unfold find_pragmas.
  apply (iterate_measure (find_pragmas_step buffer (strlen buffer))
           (pragmas_state buffer) (fun st => strlen buffer - fst st)
           (fun pragmas => (forall it, it ∈ pragmas <-> directive_line buffer it)
                           /\ ascending pragmas
                           /\ Forall (item_in_buffer buffer) pragmas)).
  - apply find_pragmas_round.
  - split; [lia|]. split; [now left|]. split; [|split].
    + intros it. rewrite elem_of_nil. split; [tauto|].
      intros [(p & l & _ & _ & -> & _) H]. simpl in H. lia.
    + apply ascending_nil.
    + constructor.
  - simpl. lia.
Qed.

Example find_pragmas_conditional :
  find_pragmas (chars "#if A" ++ LF :: chars "int x;" ++ LF :: chars " # else" ++ LF
                :: chars "int y;" ++ LF :: chars "#endif" ++ [LF])
  = Return [Item 0 5 PRAGMA_IF; Item 13 20 PRAGMA_ELSE; Item 28 34 PRAGMA_ENDIF].
Proof. reflexivity. Qed.

(** ** How a loop ends *)

Section IterateEnds.
Context {S R : Type} (step : S -> run (S + R)).

Lemma iterate_ends (Inv : S -> Prop) (measure : S -> nat)
    (Post : R -> Prop) (Why : stop -> Prop) :
  (forall s, Inv s ->
     match step s with
     | Return (inl s') => Inv s' /\ measure s' < measure s
     | Return (inr r) => Post r
     | Stop why => Why why
     end) ->
  forall fuel s, Inv s -> measure s < fuel ->
    match iterate step fuel s with
    | Return r => Post r
    | Stop why => Why why
    end.
Proof.
  intros Hstep. induction fuel as [|fuel IH]; intros s Hinv Hfuel; [lia|].
  rewrite iterate_S. specialize (Hstep s Hinv).
  destruct (step s) as [[s'|r]|why]; simpl; [|exact Hstep|exact Hstep].
  destruct Hstep as [Hinv' Hlt]. apply IH; [exact Hinv'|lia].
Qed.

End IterateEnds.

(** ** The ends of literals and comments *)

Section ScanEnds.
Implicit Types (buffer : list ascii) (i e : nat) (symbol : ascii).

Lemma match_symbol_returns buffer i symbol :
  symbol <> NUL -> symbol <> BACKSLASH ->
  i < strlen buffer -> get buffer i = symbol ->
  exists e, match_symbol buffer i symbol = Return (Some e) /\ i < e <= strlen buffer.
Proof.
  intros Hnul Hbs Hi Hget. unfold match_symbol.
  destruct (Ascii.eqb_spec (get buffer i) symbol) as [_|]; [|contradiction]. simpl.
  pose proof (strlen_le_length buffer) as Hlen.
  destruct (iterate_measure (match_symbol_step buffer i symbol)
              (fun index => i < index <= strlen buffer)
              (fun index => length buffer - index)
              (fun e => i < e <= strlen buffer)) with (fuel := Datatypes.S (length buffer))
              (s := Datatypes.S i) as (e & -> & He); [|lia|lia|].
  - intros index Hindex. unfold match_symbol_step.
    destruct (strchr (drop index buffer) symbol) as [off|] eqn:Hoff; [|lia].
    apply strchr_Some_below in Hoff as Hbelow; [|exact Hnul].
    rewrite strlen_drop in Hbelow by lia.
    destruct (Ascii.eqb_spec (get buffer (index + off - 1)) BACKSLASH) as [Hesc|_];
      [|simpl; lia].
    unfold assert. destruct (Nat.leb_spec (i + 1 + 1) (index + off)) as [_|Hshort].
    + simpl. destruct (escape_flag buffer (i + 1) (index + off - 1)); simpl; lia.
    + exfalso. replace (index + off - 1) with i in Hesc by lia. congruence.
  - simpl. exists e. split; [reflexivity|exact He].
Qed.

Lemma strstr2_below (s : list ascii) x y : forall off,
  x <> NUL -> y <> NUL -> strstr2 s x y = Some off -> Datatypes.S off < strlen s.
Proof.
  induction s as [|c s IH]; intros off Hx Hy; simpl; [discriminate|].
  destruct (starts2 (c :: s) x y) eqn:Hs.
  - intros [= <-]. unfold starts2 in Hs. apply andb_true_iff in Hs as [Hc Hd].
    change (get (c :: s) 0) with c in Hc. rewrite get_cons_S in Hd.
    destruct (Ascii.eqb_spec c x) as [->|]; [|discriminate].
    destruct (Ascii.eqb_spec (get s 0) y) as [Hy0|]; [|discriminate].
    destruct (Ascii.eqb_spec x NUL) as [|_]; [contradiction|].
    destruct s as [|d s]; [change (get [] 0) with NUL in Hy0; congruence|].
    change (get (d :: s) 0) with d in Hy0. subst d. simpl.
    destruct (Ascii.eqb_spec y NUL) as [|_]; [contradiction|]. lia.
  - destruct (Ascii.eqb c NUL); [discriminate|].
    destruct (strstr2 s x y) as [off'|] eqn:Hoff; simpl; [|discriminate].
    intros [= <-]. specialize (IH off' Hx Hy eq_refl). lia.
Qed.

Lemma matchComment_returns buffer i :
  i < strlen buffer -> opener_at buffer i ->
  exists e, matchComment buffer i = Some e /\ i + 1 < e <= strlen buffer.
Proof.
  intros Hi [Hslash Hstar]. unfold matchComment.
  replace (i + 1) with (Datatypes.S i) by lia. rewrite Hslash, Hstar. simpl.
  assert (Hi1 : Datatypes.S i < strlen buffer).
  { apply (below_strlen buffer (Datatypes.S i) "*"); [lia|exact Hstar|discriminate]. }
  destruct (strstr2 (drop (i + 2) buffer) "*" "/") as [off|] eqn:Hoff.
  - apply strstr2_below in Hoff; [|discriminate|discriminate].
    rewrite strlen_drop in Hoff by lia.
    eexists. split; [reflexivity|]. lia.
  - eexists. split; [reflexivity|]. lia.
Qed.

Lemma tokens_elem buffer (t : token) : forall m index,
  strlen buffer - index <= m -> t ∈ tokens buffer index ->
  exists idx, index <= idx /\ get_token buffer (strlen buffer) idx = Some t.
Proof.
  induction m as [|m IH]; intros index Hm; rewrite tokens_unfold;
    destruct (get_token buffer (strlen buffer) index) as [t'|] eqn:Ht;
    try (intros H; now apply elem_of_nil in H).
  - destruct (get_token_Some _ _ _ Ht). lia.
  - destruct (get_token_Some _ _ _ Ht) as (Hlt & Hb & He & Hn & Hle).
    rewrite elem_of_cons. intros [->|Hin].
    + exists index. split; [lia|exact Ht].
    + destruct (IH (tk_next t')) as (idx & Hidx & Hget); [lia|exact Hin|].
      exists idx. split; [lia|exact Hget].
Qed.

Lemma bracket_result_closing buffer i (opening closing : list ascii) e :
  bracket_result buffer i opening closing (Some e) ->
  exists t, t ∈ tokens buffer i /\ tk_begin t = e
            /\ strcmp_eq (tk_text t) closing = true.
Proof.
  intros (k & t & t0 & Hk & He & Hhead & Ho & Hbal & Hun).
  exists t. split; [now apply list_elem_of_lookup_2 in Hk|]. split; [exact He|].
  unfold balanced in Hbal. rewrite (take_S_r _ _ _ Hk) in Hbal.
  rewrite !count_text_snoc in Hbal.
  destruct (strcmp_eq (tk_text t) closing); [reflexivity|exfalso].
  destruct k as [|k].
  - rewrite take_0 in Hbal. rewrite head_lookup in Hhead.
    rewrite Hk in Hhead. injection Hhead as ->. rewrite Ho in Hbal.
    change (count_text closing []) with 0 in Hbal. lia.
  - specialize (Hun k ltac:(lia)). unfold unbalanced in Hun.
    destruct (strcmp_eq (tk_text t) opening); lia.
Qed.

Lemma match_bracket_comment buffer i :
  exists r,
    match_bracket buffer (strlen buffer) i (chars "/*") (chars "*/") = Return r
    /\ forall e, r = Some e -> i <= e /\ Datatypes.S e < strlen buffer.
Proof.
  destruct (iterate_measure
              (match_bracket_step buffer (strlen buffer) (chars "/*") (chars "*/"))
              (bracket_state buffer i (chars "/*") (chars "*/"))
              (fun st => strlen buffer - fst (fst st))
              (bracket_result buffer i (chars "/*") (chars "*/")))
    with (fuel := Datatypes.S (strlen buffer)) (s := (i, 0%Z, false))
    as (r & Hr & Hres).
  - apply match_bracket_round.
  - exists []. split; [reflexivity|]. split; [reflexivity|].
    split; [now rewrite bool_decide_eq_false_2 by tauto|]. tauto.
  - simpl. lia.
  - exists r. split; [exact Hr|]. intros e ->.
    destruct (bracket_result_closing _ _ _ _ _ Hres) as (t & Hin & <- & Hclose).
    apply (tokens_elem buffer t (strlen buffer - i)) in Hin as (idx & Hidx & Hget); [|lia].
    destruct (get_token_Some _ _ _ Hget) as (Hlt & Hb & He & Hn & Hle).
    destruct (get_token_closing _ _ _ Hget Hclose) as [_ Hslash].
    split; [lia|].
    apply (below_strlen buffer (Datatypes.S (tk_begin t)) "/"); [lia|exact Hslash|discriminate].
Qed.

End ScanEnds.

Section ScanItems.
Variables (fl : scan_flags) (buffer : list ascii).
Implicit Types (i e : nat) (Items : list item).

Lemma scan_state_add i Items (b : bool) e type i' :
  scan_state fl buffer (i, Items) -> e < i' -> i <= i' ->
  (b = true -> scanned_item fl buffer (Item (Z.of_nat i) (Z.of_nat e) type)) ->
  scan_state fl buffer (i', add_if b Items i e type).
Proof.
  intros [Hasc Hall] He Hi Hnew. unfold add_if, add_item. destruct b.
  - split.
    + apply ascending_snoc; [exact Hasc|]. simpl.
      eapply Forall_impl; [exact Hall|]. simpl. intros it [_ Hend]. exact Hend.
    + rewrite Forall_app. split.
      * eapply Forall_impl; [exact Hall|]. simpl. intros it [Hit Hend]. split; [exact Hit|lia].
      * constructor; [|constructor]. split; [now apply Hnew|simpl; lia].
  - split; [exact Hasc|].
    eapply Forall_impl; [exact Hall|]. simpl. intros it [Hit Hend]. split; [exact Hit|lia].
Qed.

Lemma scan_literal_round i Items symbol type :
  (symbol, type) = (DQUOTE, STRING) \/ (symbol, type) = (SQUOTE, LITERAL) ->
  scan_state fl buffer (i, Items) ->
  i < strlen buffer -> get buffer i = symbol ->
  exists st',
    scan_literal fl buffer i symbol type Items = Return st'
    /\ scan_state fl buffer st' /\ i < fst st'.
Proof.
  intros Hkind Hst Hi Hget.
  destruct (match_symbol_returns buffer i symbol) as (e & He & Hrange);
    [destruct Hkind as [[= -> _]|[= -> _]]; discriminate
    |destruct Hkind as [[= -> _]|[= -> _]]; discriminate
    |exact Hi|exact Hget|].
  unfold scan_literal. rewrite He. simpl. unfold assert.
  destruct (Nat.ltb_spec 0 e) as [_|]; [|lia]. simpl.
  eexists. split; [reflexivity|]. split; [|simpl; lia].
  apply scan_state_add; [exact Hst|lia|lia|].
  intros Hadd. unfold scanned_item. simpl. rewrite Nat2Z.id.
  split; [lia|]. split; [lia|].
  destruct Hkind as [[= -> ->]|[= -> ->]]; (split; [exact Hadd|]; split; [exact Hget|lia]).
Qed.

Lemma scan_comment_round i Items :
  scan_state fl buffer (i, Items) ->
  i < strlen buffer -> opener_at buffer i ->
  match scan_comment fl buffer (strlen buffer) i Items with
  | Return st' => scan_state fl buffer st' /\ i < fst st'
  | Stop why => nested_comments fl = true /\ why = ExitCall "No matching closing comment"
  end.
Proof.
  intros Hst Hi Hopen. unfold scan_comment.
  assert (Hitem : forall e, i < e < strlen buffer -> add_comments fl = true ->
            scanned_item fl buffer (Item (Z.of_nat i) (Z.of_nat e) COMMENT)).
  { intros e He Hadd. unfold scanned_item. simpl. rewrite Nat2Z.id.
    split; [lia|]. split; [lia|]. split; [exact Hadd|]. split; [exact Hopen|lia]. }
  destruct (nested_comments fl).
  - destruct (match_bracket_comment buffer i) as (r & -> & Hr). simpl.
    destruct r as [e|]; [|now split].
    destruct (Hr e eq_refl) as [Hle Hlt].
    split; [|simpl; lia]. apply scan_state_add; [exact Hst|lia|lia|].
    apply Hitem. lia.
  - destruct (matchComment_returns buffer i Hi Hopen) as (e & -> & He).
    unfold assert. destruct (Nat.ltb_spec 0 e) as [_|]; [|lia]. simpl.
    split; [|lia]. apply scan_state_add; [exact Hst|lia|lia|].
    apply Hitem. lia.
Qed.

Lemma scan_state_forget i Items :
  scan_state fl buffer (i, Items) ->
  ascending Items /\ Forall (scanned_item fl buffer) Items.
Proof.
  intros [Hasc Hall]. split; [exact Hasc|].
  eapply Forall_impl; [exact Hall|]. simpl. tauto.
Qed.

Lemma fcl_round st :
  scan_state fl buffer st ->
  match fcl_step fl buffer (strlen buffer) st with
  | Return (inl st') =>
      scan_state fl buffer st' /\ strlen buffer - fst st' < strlen buffer - fst st
  | Return (inr Items) => ascending Items /\ Forall (scanned_item fl buffer) Items
  | Stop why => nested_comments fl = true /\ why = ExitCall "No matching closing comment"
  end.
Proof.
  destruct st as [i Items]. intros Hst. unfold fcl_step.
  destruct (Nat.leb_spec (strlen buffer) i) as [|Hi]; [now apply (scan_state_forget i)|].
  destruct (Ascii.eqb_spec (get buffer i) DQUOTE) as [Hq|_].
  { destruct (scan_literal_round i Items DQUOTE STRING) as (st' & -> & Hst' & Hlt);
      [now left|exact Hst|exact Hi|exact Hq|]. simpl. split; [exact Hst'|simpl; lia]. }
  destruct (Ascii.eqb_spec (get buffer i) SQUOTE) as [Hq|_].
  { destruct (scan_literal_round i Items SQUOTE LITERAL) as (st' & -> & Hst' & Hlt);
      [now right|exact Hst|exact Hi|exact Hq|]. simpl. split; [exact Hst'|simpl; lia]. }
  assert (Hskip : forall k, i < k -> scan_state fl buffer (k, Items)).
  { intros k Hk. apply (scan_state_add i Items false 0 OTHER k) in Hst;
      [exact Hst|lia|lia|discriminate]. }
  destruct (Ascii.eqb_spec (get buffer i) "/") as [Hslash|_].
  { destruct (Ascii.eqb_spec (get buffer (i + 1)) "*") as [Hstar|_].
    - pose proof (scan_comment_round i Items Hst Hi) as Hc.
      replace (i + 1) with (Datatypes.S i) in Hstar by lia.
      specialize (Hc (conj Hslash Hstar)).
      destruct (scan_comment fl buffer (strlen buffer) i Items) as [st'|why]; simpl.
      + split; [tauto|simpl; lia].
      + exact Hc.
    - split; [apply Hskip; lia|simpl; lia]. }
  destruct (Ascii.eqb_spec (get buffer i) BACKSLASH) as [Hbs|_].
  - split; [|simpl; lia]. apply scan_state_add; [exact Hst|lia|lia|].
    intros Hadd. unfold scanned_item. simpl. rewrite Nat2Z.id.
    split; [lia|]. split; [lia|]. split; [exact Hadd|]. split; [exact Hbs|lia].
  - split; [apply Hskip; lia|simpl; lia].
Qed.

Lemma scan_state_start : scan_state fl buffer (0, []).
Proof. split; [apply ascending_nil|constructor]. Qed.

End ScanItems.

(** X12: [find_comments_and_literals] ends on every buffer.  It returns,
    or under nested comments it exits with the message for a comment
    that is not closed; no assertion fails.  The items it returns come in
    the order of the buffer without overlap, and each is a literal from
    its opening quote, a comment from its opener, both ending below the
    terminator, or a backslash with the byte after it, recorded only
    when the flag for its kind is set. *)
Theorem find_comments_and_literals_ends (fl : scan_flags) (buffer : list ascii) :
  match find_comments_and_literals fl buffer [] with
  | Return Items => ascending Items /\ Forall (scanned_item fl buffer) Items
  | Stop why => nested_comments fl = true /\ why = ExitCall "No matching closing comment"
  end.
Proof.
  unfold find_comments_and_literals.
  apply (iterate_ends (fcl_step fl buffer (strlen buffer))
           (scan_state fl buffer) (fun st => strlen buffer - fst st)).
  - apply fcl_round.
  - apply scan_state_start.
  - simpl. lia.
Qed.

Example find_comments_and_literals_kinds :
  find_comments_and_literals (all_items true)
    (chars "a = 'x'; /* b */ s = " ++ DQUOTE :: chars "c\n" ++ DQUOTE :: chars ";") []
  = Return [Item 4 6 LITERAL; Item 9 15 COMMENT; Item 21 25 STRING].
Proof. reflexivity. Qed.

(** ** Blanking what the scanner found *)

Section ClearScanned.
Implicit Types (buffer : list ascii) (Items : list item).

Lemma scanned_items fl buffer Items :
  find_comments_and_literals fl buffer [] = Return Items ->
  ascending Items /\ Forall (scanned_item fl buffer) Items.
Proof.
  intros Hrun.
  pose proof (iterate_ends (fcl_step fl buffer (strlen buffer))
                (scan_state fl buffer) (fun st => strlen buffer - fst st)
                (fun Items => ascending Items /\ Forall (scanned_item fl buffer) Items)
                (fun why => nested_comments fl = true
                            /\ why = ExitCall "No matching closing comment")
                (fcl_round fl buffer) (S (strlen buffer)) (0, [])
                (scan_state_start fl buffer)) as Hends.
  unfold find_comments_and_literals in Hrun. rewrite Hrun in Hends.
  apply Hends. simpl. lia.
Qed.

Lemma scanned_item_in_buffer fl buffer it :
  add_backslashes fl = false -> scanned_item fl buffer it -> item_in_buffer buffer it.
Proof.
  intros Hfl (Hb & Hlt & Hkind). unfold item_in_buffer.
  destruct (type_ it); try contradiction; destruct Hkind as (Hadd & _ & He);
    [lia|lia|lia|congruence].
Qed.

Lemma clear_loop_fails n Items : forall buffer,
  Forall (fun it => (0 <= begin_ it < Z.of_nat n)%Z) Items ->
  Exists (fun it => (Z.of_nat n <= end_ it)%Z) Items ->
  clear_loop n buffer Items = Stop AssertFailed.
Proof.
  induction Items as [|it Items IH]; intros buffer Hall Hex.
  - now apply Exists_nil in Hex.
  - apply Forall_cons in Hall as [Hit Hall]. simpl.
    rewrite (bool_decide_eq_true_2 (begin_ it < Z.of_nat n)%Z) by lia. simpl.
    destruct (decide (end_ it < Z.of_nat n)%Z) as [Hend|Hend].
    + rewrite (bool_decide_eq_true_2 (end_ it < Z.of_nat n)%Z) by exact Hend. simpl.
      rewrite (bool_decide_eq_false_2 (begin_ it < 0)%Z) by lia.
      rewrite andb_false_r. apply IH; [exact Hall|].
      apply Exists_cons in Hex as [Hhere|Hrest]; [lia|exact Hrest].
    + now rewrite (bool_decide_eq_false_2 (end_ it < Z.of_nat n)%Z) by exact Hend.
Qed.

End ClearScanned.

(** X13: the two passes that [diff_functions] makes over a file, each
    followed by [clear], never trip the assertions of [clear].  When no
    backslash items are asked for, every item that
    [find_comments_and_literals] returns lies below the terminator, so
    [clear] returns, keeps the length of the string and blanks exactly
    the bytes of the literals or comments found. *)
Theorem clear_scanned_items (fl : scan_flags) (buffer : list ascii) (Items : list item) :
  add_backslashes fl = false ->
  find_comments_and_literals fl buffer [] = Return Items ->
  exists buffer',
    clear buffer Items = Return buffer'
    /\ strlen buffer' = strlen buffer
    /\ forall j, (covered Items j -> buffer' !! j = Some SPACE)
                 /\ (~ covered Items j -> buffer' !! j = buffer !! j).
Proof.
  intros Hfl Hrun. destruct (scanned_items fl buffer Items Hrun) as [_ Hall].
  assert (Hin : Forall (item_in_buffer buffer) Items).
  { eapply Forall_impl; [exact Hall|]. intros it. now apply scanned_item_in_buffer. }
  unfold clear. destruct (clear_loop_returns Items buffer Hin) as [buffer' Hret].
  exists buffer'. split; [exact Hret|].
  destruct (clear_loop_frame _ _ _ Hret) as (_ & Hlen & Hframe). now split.
Qed.

Lemma clear_scanned_items_witness :
  add_backslashes (ScanFlags true true false false) = false
  /\ find_comments_and_literals (ScanFlags true true false false)
       (chars "c = 'x';") [] = Return [Item 4 6 LITERAL]
  /\ exists buffer',
       clear (chars "c = 'x';") [Item 4 6 LITERAL] = Return buffer'
       /\ strlen buffer' = strlen (chars "c = 'x';")
       /\ forall j, (covered [Item 4 6 LITERAL] j -> buffer' !! j = Some SPACE)
                    /\ (~ covered [Item 4 6 LITERAL] j ->
                        buffer' !! j = chars "c = 'x';" !! j).
Proof.
  assert (H1 : add_backslashes (ScanFlags true true false false) = false) by reflexivity.
  assert (H2 : find_comments_and_literals (ScanFlags true true false false)
                 (chars "c = 'x';") [] = Return [Item 4 6 LITERAL]) by reflexivity.
  split; [exact H1|]. split; [exact H2|].
  exact (clear_scanned_items (ScanFlags true true false false) (chars "c = 'x';")
           [Item 4 6 LITERAL] H1 H2).
Defined.

(** X14: a backslash that the scanner meets as the last byte of the buffer
    is recorded as an item that reaches the terminator, and [clear] then
    fails its assertion on the end of the item: the pass of
    [find_functions_internal], which records backslashes, does not
    survive such a file. *)
Theorem clear_backslash_at_end (fl : scan_flags) (buffer : list ascii) (Items : list item) :
  find_comments_and_literals fl buffer [] = Return Items ->
  Exists (fun it => end_ it = Z.of_nat (strlen buffer)) Items ->
  clear buffer Items = Stop AssertFailed
  /\ Exists (fun it => it = Item (Z.of_nat (strlen buffer) - 1) (Z.of_nat (strlen buffer)) ESCSEQ
                       /\ get buffer (strlen buffer - 1) = BACKSLASH) Items.
Proof.
  intros Hrun Hex. destruct (scanned_items fl buffer Items Hrun) as [_ Hall]. split.
  - unfold clear. apply clear_loop_fails.
    + eapply Forall_impl; [exact Hall|]. intros it (Hb & Hlt & _). lia.
    + eapply Exists_impl; [exact Hex|]. simpl. intros; lia.
  - rewrite Exists_exists in Hex |- *. destruct Hex as (it & Hin & Hend).
    exists it. split; [exact Hin|].
    rewrite Forall_forall in Hall. destruct (Hall it Hin) as (Hb & Hlt & Hkind).
    destruct it as [b e ty]. simpl in *.
    destruct ty; try contradiction; try (destruct Hkind as (_ & _ & He); lia).
    destruct Hkind as (_ & Hbs & He). split.
    + f_equal; lia.
    + replace (strlen buffer - 1) with (Z.to_nat b) by lia. exact Hbs.
Qed.

Lemma clear_backslash_at_end_witness :
  find_comments_and_literals (all_items true) (chars "x\") [] = Return [Item 1 2 ESCSEQ]
  /\ Exists (fun it => end_ it = Z.of_nat (strlen (chars "x\"))) [Item 1 2 ESCSEQ]
  /\ clear (chars "x\") [Item 1 2 ESCSEQ] = Stop AssertFailed
  /\ Exists (fun it => it = Item (Z.of_nat (strlen (chars "x\")) - 1)
                                 (Z.of_nat (strlen (chars "x\"))) ESCSEQ
                       /\ get (chars "x\") (strlen (chars "x\") - 1) = BACKSLASH)
            [Item 1 2 ESCSEQ].
Proof.
  assert (H1 : find_comments_and_literals (all_items true) (chars "x\") []
               = Return [Item 1 2 ESCSEQ]) by reflexivity.
  assert (H2 : Exists (fun it => end_ it = Z.of_nat (strlen (chars "x\")))
                      [Item 1 2 ESCSEQ]) by (left; reflexivity).
  split; [exact H1|]. split; [exact H2|].
  exact (clear_backslash_at_end (all_items true) (chars "x\") [Item 1 2 ESCSEQ] H1 H2).
Defined.

(** ** Overlapping functions *)

Section Overlap.
Implicit Types (functions : list fentry) (f g : fentry).

Lemma elem_of_imap_pair functions i f :
  In (i, f) (imap pair functions) <-> functions !! i = Some f.
Proof.
  rewrite <- list_elem_of_In, list_elem_of_lookup. split.
  - intros [k Hk]. apply list_lookup_imap_Some in Hk as (f' & Hk & [= -> ->]). exact Hk.
  - intros Hi. exists i. rewrite list_lookup_imap, Hi. reflexivity.
Qed.

Lemma check_func_overlap_true functions :
  check_func_overlap functions = true <->
  exists i j f g,
    functions !! i = Some f /\ functions !! j = Some g /\ i <> j
    /\ (between (fbegin f) (fbegin g) (fend g) = true
        \/ between (fend f) (fbegin g) (fend g) = true).
Proof.
  unfold check_func_overlap. rewrite existsb_exists. split.
  - intros ([i f] & Hi & H). apply existsb_exists in H as ([j g] & Hj & H).
    apply elem_of_imap_pair in Hi, Hj.
    apply andb_true_iff in H as [Hne H]. apply orb_true_iff in H.
    apply negb_true_iff, Nat.eqb_neq in Hne. exists i, j, f, g. auto.
  - intros (i & j & f & g & Hi & Hj & Hne & H). exists (i, f).
    split; [now apply elem_of_imap_pair|]. apply existsb_exists. exists (j, g).
    split; [now apply elem_of_imap_pair|].
    apply andb_true_iff. split; [now apply negb_true_iff, Nat.eqb_neq|].
    now apply orb_true_iff.
Qed.

Lemma between_spec x lo hi : between x lo hi = true <-> (lo <= x <= hi)%Z.
Proof. unfold between. rewrite andb_true_iff, Z.geb_le, Z.leb_le. lia. Qed.

End Overlap.

(** X15: [check_func_overlap] tells whether two functions share a byte.
    For functions that each begin before they end, it returns 0 exactly
    when the extents of every two of them are apart: one ends before the
    other begins.  An extent that lies inside another one is found too. *)
Theorem check_func_overlap_apart (functions : list fentry) :
  Forall (fun f => (fbegin f <= fend f)%Z) functions ->
  (check_func_overlap functions = false <->
   forall i j f g, functions !! i = Some f -> functions !! j = Some g -> i <> j ->
                   (fend f < fbegin g \/ fend g < fbegin f)%Z).
Proof.
  intros Hwf. rewrite Forall_lookup in Hwf. split.
  - intros Hcheck i j f g Hi Hj Hne.
    destruct (decide (fend f < fbegin g \/ fend g < fbegin f)%Z) as [|Hover]; [done|].
    exfalso. apply not_true_iff_false in Hcheck. apply Hcheck.
    apply check_func_overlap_true.
    destruct (decide (fbegin g <= fbegin f)%Z) as [Hle|Hgt].
    + exists i, j, f, g. split; [exact Hi|]. split; [exact Hj|]. split; [exact Hne|].
      left. apply between_spec. lia.
    + exists j, i, g, f. split; [exact Hj|]. split; [exact Hi|]. split; [congruence|].
      left. apply between_spec. lia.
  - intros Hapart. apply not_true_iff_false. intros Hcheck.
    apply check_func_overlap_true in Hcheck as (i & j & f & g & Hi & Hj & Hne & H).
    specialize (Hapart i j f g Hi Hj Hne).
    pose proof (Hwf _ _ Hi). pose proof (Hwf _ _ Hj).
    rewrite !between_spec in H. lia.
Qed.

Lemma check_func_overlap_apart_witness :
  Forall (fun f => (fbegin f <= fend f)%Z)
         [FEntry (chars "f") 0 40; FEntry (chars "g") 10 20]
  /\ (check_func_overlap [FEntry (chars "f") 0 40; FEntry (chars "g") 10 20] = false <->
      forall i j f g,
        [FEntry (chars "f") 0 40; FEntry (chars "g") 10 20] !! i = Some f ->
        [FEntry (chars "f") 0 40; FEntry (chars "g") 10 20] !! j = Some g -> i <> j ->
        (fend f < fbegin g \/ fend g < fbegin f)%Z).
Proof.
  assert (H : Forall (fun f => (fbegin f <= fend f)%Z)
                     [FEntry (chars "f") 0 40; FEntry (chars "g") 10 20]).
  { repeat constructor; simpl; lia. }
  split; [exact H|].
  exact (check_func_overlap_apart [FEntry (chars "f") 0 40; FEntry (chars "g") 10 20] H).
Defined.

Example check_func_overlap_inside :
  check_func_overlap [FEntry (chars "f") 0 40; FEntry (chars "g") 10 20] = true
  /\ check_func_overlap [FEntry (chars "f") 0 9; FEntry (chars "g") 10 20] = false.
Proof. split; reflexivity. Qed.

(** ** The selectors as digits *)

Section Digits.
Implicit Types (dw : depth_width) (choice w : Z) (n i : nat).

Lemma mapM_Return_fmap {A B} (f : A -> run B) (g : A -> B) (l : list A) :
  (forall x, x ∈ l -> f x = Return (g x)) -> mapM f l = Return (g <$> l).
Proof.
  induction l as [|x l IH]; intros Hf; [reflexivity|].
  simpl. rewrite (Hf x) by apply list_elem_of_here. simpl.
  rewrite IH; [reflexivity|]. intros y Hy. apply Hf. now apply list_elem_of_further.
Qed.

Lemma selector_digit_value dw choice n i :
  (0 <= choice)%Z -> (0 < width dw)%Z ->
  (width dw ^ Z.of_nat n <= INT_MAX)%Z -> i < n ->
  selector_digit dw choice (powers (width dw) n) n i
  = Return ((choice / width dw ^ Z.of_nat (n - 1 - i)) mod width dw)%Z.
Proof.
  intros Hc Hw Hmax Hi. unfold selector_digit.
  assert (Hmod : forall q, (0 <= q)%Z -> int_mod q (width dw) = Return (q mod width dw)%Z).
  { intros q Hq. unfold int_mod. destruct (Z.eqb_spec (width dw) 0); [lia|].
    destruct (Z.eqb_spec (width dw) (-1)); [lia|]. rewrite andb_false_r. simpl.
    now rewrite Z.rem_mod_nonneg by lia. }
  destruct (Nat.ltb_spec i (n - 1)) as [Hlt|Hge].
  - rewrite powers_lookup by (assumption || lia).
    replace (n - (i + 1)) with (n - 1 - i) by lia.
    assert (Hp : (0 < width dw ^ Z.of_nat (n - 1 - i))%Z)
      by (apply Z.pow_pos_nonneg; lia).
    unfold int_div. destruct (Z.eqb_spec (width dw ^ Z.of_nat (n - 1 - i)) 0); [lia|].
    destruct (Z.eqb_spec (width dw ^ Z.of_nat (n - 1 - i)) (-1)); [lia|].
    rewrite andb_false_r. simpl.
    rewrite Z.quot_div_nonneg by lia. apply Hmod. apply Z.div_pos; lia.
  - replace (n - 1 - i) with 0 by lia. simpl. rewrite Z.div_1_r. now apply Hmod.
Qed.

Lemma horner_digits choice w n : forall m,
  (0 < w)%Z -> m <= n ->
  foldl (fun acc d => acc * w + d)%Z 0%Z
        ((fun i => (choice / w ^ Z.of_nat (n - 1 - i)) mod w)%Z <$> seq 0 m)
  = ((choice / w ^ Z.of_nat (n - m)) mod w ^ Z.of_nat m)%Z.
Proof.
  intros m Hw. induction m as [|m IH]; intros Hm.
  - simpl. now rewrite Z.mod_1_r.
  - rewrite seq_S, fmap_app, foldl_app. simpl. rewrite IH by lia.
    replace (n - 1 - m) with (n - S m) by lia.
    replace (n - m) with (S (n - S m)) by lia.
    set (q := (choice / w ^ Z.of_nat (n - S m))%Z).
    assert (Hq : (choice / w ^ Z.of_nat (S (n - S m)) = q / w)%Z).
    { unfold q. rewrite Nat2Z.inj_succ, Z.pow_succ_r by lia.
      rewrite (Z.mul_comm w). rewrite Z.div_div by (try apply Z.pow_pos_nonneg; lia).
      reflexivity. }
    rewrite Hq. rewrite (Nat2Z.inj_succ m), Z.pow_succ_r by lia.
    rewrite Z.rem_mul_r by (try apply Z.pow_pos_nonneg; lia). lia.
Qed.

Lemma compute_VS_power w : forall k,
  (0 < w)%Z -> (w ^ Z.of_nat k <= INT_MAX)%Z ->
  Nat.iter k (fun s => wrap (s * w)) 1%Z = (w ^ Z.of_nat k)%Z.
Proof.
  intros k Hw. induction k as [|k IH]; intros Hmax; [reflexivity|].
  assert (Hstep : (w ^ Z.of_nat (S k) = w ^ Z.of_nat k * w)%Z).
  { rewrite Nat2Z.inj_succ, Z.pow_succ_r by lia. lia. }
  assert (Hpos : (0 < w ^ Z.of_nat k)%Z) by (apply Z.pow_pos_nonneg; lia).
  simpl. rewrite IH by nia. rewrite wrap_small by (unfold INT_MIN; nia).
  symmetry. exact Hstep.
Qed.

End Digits.

(** X16: the selectors of a choice are its digits.  When the number of
    choices fits an [int], [compute_VS] is the power [width ^ depth], and
    [create_selectors] returns [depth] selectors, each from 0 to
    [width - 1], that read as a number in base [width], the first selector
    the most significant digit, give the choice back (modulo the number
    of choices): two choices below [compute_VS] never have the same
    selectors. *)
Theorem create_selectors_positional (dw : depth_width) (choice : Z) :
  (0 < depth dw)%Z -> (0 < width dw)%Z ->
  (width dw ^ depth dw <= INT_MAX)%Z -> (0 <= choice)%Z ->
  compute_VS dw = (width dw ^ depth dw)%Z
  /\ exists selectors,
       create_selectors dw choice = Return selectors
       /\ length selectors = Z.to_nat (depth dw)
       /\ Forall (fun d => 0 <= d < width dw)%Z selectors
       /\ foldl (fun acc d => acc * width dw + d)%Z 0%Z selectors
          = (choice mod compute_VS dw)%Z.
Proof.
  intros Hd Hw Hmax Hc.
  assert (Hmax' : (width dw ^ Z.of_nat (Z.to_nat (depth dw)) <= INT_MAX)%Z)
    by (rewrite Z2Nat.id by lia; exact Hmax).
  assert (HVS : compute_VS dw = (width dw ^ depth dw)%Z).
  { unfold compute_VS. rewrite compute_VS_power by (exact Hw || exact Hmax').
    now rewrite Z2Nat.id by lia. }
  split; [exact HVS|].
  set (n := Z.to_nat (depth dw)) in *.
  exists ((fun i => (choice / width dw ^ Z.of_nat (n - 1 - i)) mod width dw)%Z <$> seq 0 n).
  split; [|split; [|split]].
  - unfold create_selectors, assert. fold n.
    destruct (Z.ltb_spec 0 (depth dw)) as [_|]; [|lia]. simpl.
    apply mapM_Return_fmap. intros i Hi. apply elem_of_seq in Hi.
    apply selector_digit_value; (assumption || lia).
  - now rewrite length_fmap, length_seq.
  - rewrite Forall_fmap, Forall_forall. intros i _. simpl.
    apply Z.mod_pos_bound. exact Hw.
  - rewrite (horner_digits choice (width dw) n n) by (exact Hw || lia).
    rewrite Nat.sub_diag. simpl. rewrite Z.div_1_r, HVS. unfold n.
    now rewrite Z2Nat.id by lia.
Qed.

Lemma create_selectors_positional_witness :
  (0 < depth (DW 2 3))%Z /\ (0 < width (DW 2 3))%Z
  /\ (width (DW 2 3) ^ depth (DW 2 3) <= INT_MAX)%Z /\ (0 <= 7)%Z
  /\ compute_VS (DW 2 3) = (width (DW 2 3) ^ depth (DW 2 3))%Z
  /\ exists selectors,
       create_selectors (DW 2 3) 7 = Return selectors
       /\ length selectors = Z.to_nat (depth (DW 2 3))
       /\ Forall (fun d => 0 <= d < width (DW 2 3))%Z selectors
       /\ foldl (fun acc d => acc * width (DW 2 3) + d)%Z 0%Z selectors
          = (7 mod compute_VS (DW 2 3))%Z.
Proof.
  assert (H1 : (0 < depth (DW 2 3))%Z) by (simpl; lia).
  assert (H2 : (0 < width (DW 2 3))%Z) by (simpl; lia).
  assert (H3 : (width (DW 2 3) ^ depth (DW 2 3) <= INT_MAX)%Z) by (vm_compute; congruence).
  assert (H4 : (0 <= 7)%Z) by lia.
  split; [exact H1|]. split; [exact H2|]. split; [exact H3|]. split; [exact H4|].
  exact (create_selectors_positional (DW 2 3) 7 H1 H2 H3 H4).
Defined.

Example create_selectors_7 : create_selectors (DW 2 3) 7 = Return [2%Z; 1%Z].
Proof. reflexivity. Qed.

(** ** A function against itself, and the two orders of a comparison *)

Section DiffSame.
Implicit Types (a b : list ascii) (n : nat).

Lemma strncmp_eq_refl a : forall n, strncmp_eq a a n = true.
Proof.
  intros n. revert a. induction n as [|n IH]; intros a; [reflexivity|].
  simpl. rewrite Ascii.eqb_refl. destruct (Ascii.eqb (hd NUL a) NUL); [reflexivity|apply IH].
Qed.

Lemma strncmp_eq_sym a b : forall n, strncmp_eq a b n = strncmp_eq b a n.
Proof.
  intros n. revert a b. induction n as [|n IH]; intros a b; [reflexivity|].
  simpl. rewrite (Ascii.eqb_sym (hd NUL a) (hd NUL b)).
  destruct (Ascii.eqb_spec (hd NUL b) (hd NUL a)) as [->|]; [|reflexivity].
  destruct (Ascii.eqb (hd NUL a) NUL); [reflexivity|apply IH].
Qed.

Lemma diff_literals_same (buffer : list ascii) (literals : list item) :
  forall offset1 offset2,
  exists offset1' offset2',
    diff_literals buffer buffer literals literals offset1 offset2
    = (false, offset1', offset2').
Proof.
  induction literals as [|it literals IH]; intros offset1 offset2; simpl.
  - eauto.
  - rewrite Z.eqb_refl. simpl. rewrite bool_decide_eq_true_2 by reflexivity. simpl.
    rewrite strncmp_eq_refl. simpl. apply IH.
Qed.

Lemma diff_itself (buffer newbuffer : list ascii) (fbegin fend : Z) (literals : list item) :
  valid_extent buffer fbegin fend ->
  strlen newbuffer = strlen buffer ->
  exists offset1 offset2,
    diff buffer newbuffer fbegin fend literals buffer newbuffer fbegin fend literals
    = Return (false, offset1, offset2).
Proof.
  intros Hv Hn.
  assert (Hv' : valid_extent newbuffer fbegin fend)
    by (unfold valid_extent in *; rewrite Hn; exact Hv).
  destruct (extent_length _ _ _ Hv) as [Hs Hl].
  destruct (extent_length _ _ _ Hv') as [Hs' Hl'].
  assert (E : strlen (extent buffer fbegin fend) = length (extent newbuffer fbegin fend))
    by congruence.
  destruct (diff_literals_same buffer (create_func_items literals fbegin fend) (-1) (-1))
    as (offset1 & offset2 & Hlit).
  exists offset1, offset2. unfold diff.
  rewrite !duplicate_substr_valid by assumption. simpl.
  rewrite E, Hs', Hn, !Nat.eqb_refl. simpl. rewrite Hlit.
  destruct (walk_unchanged (extent newbuffer fbegin fend) (extent newbuffer fbegin fend)
              eq_refl eq_refl) as (i & j & Hrun & Hi & Hj).
  rewrite Hrun. simpl.
  destruct (Nat.ltb_spec i (length (extent newbuffer fbegin fend))); [lia|].
  destruct (Nat.ltb_spec j (length (extent newbuffer fbegin fend))); [lia|].
  reflexivity.
Qed.

End DiffSame.

(** X17: a function compared with itself is never reported as changed:
    for an extent that lies in the buffer, and a processed buffer of the
    same length, [diff] returns 0. *)
Theorem diff_same (buffer newbuffer : list ascii) (fbegin fend : Z) (literals : list item) :
  valid_extent buffer fbegin fend ->
  strlen newbuffer = strlen buffer ->
  exists offset1 offset2,
    diff buffer newbuffer fbegin fend literals buffer newbuffer fbegin fend literals
    = Return (false, offset1, offset2).
Proof.
  intros Hv Hn. exact (diff_itself buffer newbuffer fbegin fend literals Hv Hn).
Qed.

Lemma diff_same_witness :
  valid_extent (chars "int f(){return 'a';}") 0 19
  /\ strlen (chars "int f(){return    ;}") = strlen (chars "int f(){return 'a';}")
  /\ exists offset1 offset2,
       diff (chars "int f(){return 'a';}") (chars "int f(){return    ;}") 0 19
            [Item 15 17 LITERAL]
            (chars "int f(){return 'a';}") (chars "int f(){return    ;}") 0 19
            [Item 15 17 LITERAL]
       = Return (false, offset1, offset2).
Proof.
  assert (H1 : valid_extent (chars "int f(){return 'a';}") 0 19).
  { unfold valid_extent. vm_compute. repeat split; congruence. }
  assert (H2 : strlen (chars "int f(){return    ;}") = strlen (chars "int f(){return 'a';}"))
    by reflexivity.
  split; [exact H1|]. split; [exact H2|].
  exact (diff_same (chars "int f(){return 'a';}") (chars "int f(){return    ;}") 0 19
           [Item 15 17 LITERAL] H1 H2).
Defined.

Section IterateFuel.
Context {S R : Type} (step : S -> run (S + R)).

Lemma iterate_fuel_mono : forall fuel fuel' s r,
  iterate step fuel s = Return r -> fuel <= fuel' -> iterate step fuel' s = Return r.
Proof.
  induction fuel as [|fuel IH]; intros fuel' s r Hrun Hle; [discriminate|].
  destruct fuel' as [|fuel']; [lia|]. rewrite iterate_S in Hrun |- *.
  destruct (step s) as [[s'|r']|why]; simpl in *; [|exact Hrun|discriminate].
  apply IH; [exact Hrun|lia].
Qed.

End IterateFuel.

Section DiffSwap.
Implicit Types (a b : list ascii) (i j : nat).

Lemma walk_step_swap a b (n1 n2 : nat) i j :
  walk_step b a n2 n1 (j, i)
  = match walk_step a b n1 n2 (i, j) with
    | Return (inl (i', j')) => Return (inl (j', i'))
    | Return (inr (found, i', j')) => Return (inr (found, j', i'))
    | Stop why => Stop why
    end.
Proof.
  unfold walk_step. rewrite (andb_comm (j <? n2)).
  destruct ((i <? n1) && (j <? n2)); [|reflexivity].
  rewrite (Ascii.eqb_sym (get b (skip_blanks b j))).
  destruct (Ascii.eqb (get a (skip_blanks a i)) (get b (skip_blanks b j))); reflexivity.
Qed.

Lemma walk_swap a b (n1 n2 : nat) : forall fuel i j found i' j',
  iterate (walk_step a b n1 n2) fuel (i, j) = Return (found, i', j') ->
  iterate (walk_step b a n2 n1) fuel (j, i) = Return (found, j', i').
Proof.
  induction fuel as [|fuel IH]; intros i j found i' j' Hrun; [discriminate|].
  rewrite iterate_S in Hrun |- *. rewrite walk_step_swap.
  destruct (walk_step a b n1 n2 (i, j)) as [[[i1 j1]|[[f1 i1] j1]]|why];
    simpl in *; [|congruence|discriminate].
  now apply IH.
Qed.

Lemma walk_returns a b (n1 n2 : nat) :
  exists r, iterate (walk_step a b n1 n2) (S (S n1)) (0, 0) = Return r.
Proof.
  destruct (iterate_measure (walk_step a b n1 n2) (fun _ => True)
              (fun st => S n1 - fst st) (fun _ => True))
    with (fuel := S (S n1)) (s := (0, 0)) as (r & Hr & _); [|done|simpl; lia|eauto].
  intros [i j] _. unfold walk_step.
  destruct (Nat.ltb_spec i n1) as [Hi|_]; [|done]. simpl.
  destruct (j <? n2); [|done].
  destruct (negb _); [done|]. split; [done|].
  pose proof (skip_blanks_spec a i) as (Hge & _). simpl. lia.
Qed.

Lemma diff_literals_swap (_buffer1 _buffer2 : list ascii) (literals1 : list item) :
  forall (literals2 : list item) offset1 offset2 flag x y,
  diff_literals _buffer1 _buffer2 literals1 literals2 offset1 offset2 = (flag, x, y) ->
  diff_literals _buffer2 _buffer1 literals2 literals1 offset2 offset1 = (flag, y, x).
Proof.
  induction literals1 as [|it1 literals1 IH];
    intros [|it2 literals2] offset1 offset2 flag x y; simpl;
    try (intros [= <- <- <-]; reflexivity).
  rewrite (Z.eqb_sym (end_ it2 - begin_ it2 + 1)).
  destruct (Z.eqb_spec (end_ it1 - begin_ it1 + 1) (end_ it2 - begin_ it2 + 1)) as [Hl|_];
    simpl; [|intros [= <- <- <-]; reflexivity].
  assert (Hty : bool_decide (type_ it2 = type_ it1) = bool_decide (type_ it1 = type_ it2)).
  { apply bool_decide_ext. split; congruence. }
  rewrite Hty. destruct (bool_decide (type_ it1 = type_ it2)); simpl;
    [|intros [= <- <- <-]; reflexivity].
  set (s1 := drop (Z.to_nat (begin_ it1)) _buffer1).
  set (s2 := drop (Z.to_nat (begin_ it2)) _buffer2).
  assert (Hcmp : strncmp_eq s2 s1 (size_t_of (end_ it2 - begin_ it2 + 1) _buffer2)
                 = strncmp_eq s1 s2 (size_t_of (end_ it1 - begin_ it1 + 1) _buffer1)).
  { rewrite <- Hl. unfold size_t_of.
    destruct (Z.ltb_spec (end_ it1 - begin_ it1 + 1) 0) as [Hneg|_];
      [|apply strncmp_eq_sym].
    assert (H1 : length s1 < S (length _buffer1))
      by (unfold s1; rewrite length_drop; lia).
    assert (H2 : length s2 < S (length _buffer2))
      by (unfold s2; rewrite length_drop; lia).
    pose proof (strncmp_eq_cstr s1 s2 _ H1) as E1.
    pose proof (strncmp_eq_cstr s2 s1 _ H2) as E2.
    destruct (strncmp_eq s1 s2 (S (length _buffer1))),
             (strncmp_eq s2 s1 (S (length _buffer2))); try reflexivity.
    - destruct E1 as [E1 _]. specialize (E1 eq_refl). symmetry in E1.
      apply E2 in E1. discriminate.
    - destruct E2 as [E2 _]. specialize (E2 eq_refl). symmetry in E2.
      apply E1 in E2. discriminate. }
  rewrite Hcmp. destruct (strncmp_eq s1 s2 _); simpl;
    [|intros [= <- <- <-]; reflexivity].
  apply IH.
Qed.

End DiffSwap.

(** X18: the verdict of [diff] does not depend on which of the two
    functions comes first: when the comparison of two functions returns,
    the comparison in the other order returns the same flag, with the two
    offsets exchanged. *)
Theorem diff_symmetric
    (_buffer1 _newbuffer1 : list ascii) (fbegin1 fend1 : Z) (_literals1 : list item)
    (_buffer2 _newbuffer2 : list ascii) (fbegin2 fend2 : Z) (_literals2 : list item)
    (flag : bool) (offset1 offset2 : Z) :
  diff _buffer1 _newbuffer1 fbegin1 fend1 _literals1
       _buffer2 _newbuffer2 fbegin2 fend2 _literals2
  = Return (flag, offset1, offset2) ->
  diff _buffer2 _newbuffer2 fbegin2 fend2 _literals2
       _buffer1 _newbuffer1 fbegin1 fend1 _literals1
  = Return (flag, offset2, offset1).
Proof.
  unfold diff.
  destruct (duplicate_substr _buffer1 fbegin1 fend1) as [buffer1|]; [|discriminate].
  destruct (duplicate_substr _newbuffer1 fbegin1 fend1) as [newbuffer1|]; [|discriminate].
  destruct (duplicate_substr _buffer2 fbegin2 fend2) as [buffer2|]; [|discriminate].
  destruct (duplicate_substr _newbuffer2 fbegin2 fend2) as [newbuffer2|]; [|discriminate].
  simpl.
  destruct (negb (strlen buffer1 =? strlen newbuffer1)); [discriminate|].
  destruct (negb (strlen buffer2 =? strlen newbuffer2)); [discriminate|].
  destruct (negb (strlen _buffer1 =? strlen _newbuffer1)); [discriminate|].
  destruct (negb (strlen _buffer2 =? strlen _newbuffer2)); [discriminate|].
  simpl.
  destruct (diff_literals _buffer1 _buffer2 (create_func_items _literals1 fbegin1 fend1)
              (create_func_items _literals2 fbegin2 fend2) (-1) (-1))
    as [[f x] y] eqn:Hlit.
  rewrite (diff_literals_swap _ _ _ _ _ _ _ _ _ Hlit).
  destruct f; [intros [= <- <- <-]; reflexivity|].
  set (n1 := strlen buffer1). set (n2 := strlen buffer2).
  destruct (iterate (walk_step newbuffer1 newbuffer2 n1 n2) (S (S n1)) (0, 0))
    as [[[found i] j]|why] eqn:Hwalk; simpl; [|discriminate].
  apply walk_swap in Hwalk.
  destruct (walk_returns newbuffer2 newbuffer1 n2 n1) as [r Hr].
  assert (Hsame : r = (found, j, i)).
  { apply (iterate_fuel_mono _ _ (S (S n1) + S (S n2))) in Hwalk; [|lia].
    apply (iterate_fuel_mono _ _ (S (S n1) + S (S n2))) in Hr; [|lia]. congruence. }
  rewrite Hr, Hsame. simpl.
  rewrite <- (orb_assoc found (j <? n2)), (orb_comm (j <? n2)), orb_assoc.
  destruct (found || (i <? n1) || (j <? n2)); intros [= <- <- <-]; reflexivity.
Qed.

Lemma diff_symmetric_witness :
  diff (chars "f(){a;}") (chars "f(){a;}") 0 6 [] (chars "f(){ b;}") (chars "f(){ b;}") 0 7 []
  = Return (true, 4%Z, 5%Z)
  /\ diff (chars "f(){ b;}") (chars "f(){ b;}") 0 7 [] (chars "f(){a;}") (chars "f(){a;}") 0 6 []
     = Return (true, 5%Z, 4%Z).
Proof.
  assert (H : diff (chars "f(){a;}") (chars "f(){a;}") 0 6 []
                   (chars "f(){ b;}") (chars "f(){ b;}") 0 7 []
              = Return (true, 4%Z, 5%Z)) by reflexivity.
  split; [exact H|].
  exact (diff_symmetric _ _ _ _ _ _ _ _ _ _ _ _ _ H).
Defined.

(** ** Blanks between the tokens *)

(** X19: [diff] does not see the blanks.  Two functions whose literals
    agree and whose blanked bodies hold the same bytes other than
    spaces, tabs and newlines, in the same order, both ending with such
    a byte or both not, are reported as unchanged, wherever the blanks
    stand. *)
Theorem diff_ignores_blanks
    (_buffer1 _newbuffer1 : list ascii) (fbegin1 fend1 : Z) (_literals1 : list item)
    (_buffer2 _newbuffer2 : list ascii) (fbegin2 fend2 : Z) (_literals2 : list item)
    (offset1 offset2 : Z) :
  valid_extent _buffer1 fbegin1 fend1 ->
  valid_extent _buffer2 fbegin2 fend2 ->
  strlen _newbuffer1 = strlen _buffer1 ->
  strlen _newbuffer2 = strlen _buffer2 ->
  diff_literals _buffer1 _buffer2
    (create_func_items _literals1 fbegin1 fend1)
    (create_func_items _literals2 fbegin2 fend2) (-1) (-1)
  = (false, offset1, offset2) ->
  strip (extent _newbuffer1 fbegin1 fend1) = strip (extent _newbuffer2 fbegin2 fend2) ->
  ends_blank (extent _newbuffer1 fbegin1 fend1)
  = ends_blank (extent _newbuffer2 fbegin2 fend2) ->
  diff _buffer1 _newbuffer1 fbegin1 fend1 _literals1
       _buffer2 _newbuffer2 fbegin2 fend2 _literals2
  = Return (false, offset1, offset2).
Proof.
  intros Hv1 Hv2 Hn1 Hn2 Hlit Hstrip Hends.
  exact (diff_blank_insensitive _ _ _ _ _ _ _ _ _ _ _ _ Hv1 Hv2 Hn1 Hn2 Hlit Hstrip Hends).
Qed.

Lemma diff_ignores_blanks_witness :
  valid_extent (chars "int f(){return 1;}") 0 17
  /\ valid_extent (chars "int f ( ) { return 1; }") 0 22
  /\ strip (extent (chars "int f(){return 1;}") 0 17)
     = strip (extent (chars "int f ( ) { return 1; }") 0 22)
  /\ ends_blank (extent (chars "int f(){return 1;}") 0 17)
     = ends_blank (extent (chars "int f ( ) { return 1; }") 0 22)
  /\ diff (chars "int f(){return 1;}") (chars "int f(){return 1;}") 0 17 []
          (chars "int f ( ) { return 1; }") (chars "int f ( ) { return 1; }") 0 22 []
     = Return (false, (-1)%Z, (-1)%Z).
Proof.
  assert (H1 : valid_extent (chars "int f(){return 1;}") 0 17).
  { unfold valid_extent. vm_compute. repeat split; congruence. }
  assert (H2 : valid_extent (chars "int f ( ) { return 1; }") 0 22).
  { unfold valid_extent. vm_compute. repeat split; congruence. }
  assert (H3 : strip (extent (chars "int f(){return 1;}") 0 17)
               = strip (extent (chars "int f ( ) { return 1; }") 0 22)) by reflexivity.
  assert (H4 : ends_blank (extent (chars "int f(){return 1;}") 0 17)
               = ends_blank (extent (chars "int f ( ) { return 1; }") 0 22)) by reflexivity.
  split; [exact H1|]. split; [exact H2|]. split; [exact H3|]. split; [exact H4|].
  exact (diff_ignores_blanks
           (chars "int f(){return 1;}") (chars "int f(){return 1;}") 0 17 []
           (chars "int f ( ) { return 1; }") (chars "int f ( ) { return 1; }") 0 22 []
           (-1) (-1) H1 H2 eq_refl eq_refl eq_refl H3 H4).
Defined.

(** ** The parser of directives *)

Section ParsePragmas.
Variables (orig_buffer : list ascii) (input : list item).
Implicit Types (index start b e i k : Z) (fuel : nat).

Lemma data_in index :
  (0 <= index < Z.of_nat (length input))%Z ->
  exists it, data input index = Return it /\ kind input index = Some (type_ it).
Proof.
  intros Hin. unfold data, kind.
  destruct (Z.ltb_spec index 0) as [|_]; [lia|].
  destruct (lookup_lt_is_Some_2 input (Z.to_nat index)) as [it Hit]; [lia|].
  rewrite Hit. eauto.
Qed.

Lemma exits_line {A} index (msg : Z -> string) :
  exists why,
    (l ← get_line_number orig_buffer index; (Stop (ExitCall (msg l)) : run A)) = Stop why
    /\ exits why.
Proof.
  destruct (get_line_number orig_buffer index) as [l|why] eqn:Hl; simpl.
  - eexists. split; [reflexivity|]. now eexists.
  - exists why. split; [reflexivity|]. unfold get_line_number in Hl.
    destruct (index <? 0)%Z; [discriminate|].
    destruct (index >? Z.of_nat (strlen orig_buffer))%Z; [|discriminate].
    injection Hl as <-. now eexists.
Qed.

Lemma kind_nat (j : nat) : kind input (Z.of_nat j) = type_ <$> input !! j.
Proof.
  unfold kind. destruct (Z.ltb_spec (Z.of_nat j) 0) as [|_]; [lia|].
  now rewrite Nat2Z.id.
Qed.

Lemma find_next_pragma_loop_ends : forall (k : nat) counter (index : nat),
  index + k <= length input ->
  match find_next_pragma_loop input counter index k with
  | Return (Some j) =>
      index <= j < index + k
      /\ (kind input (Z.of_nat j) = Some PRAGMA_ELSE
          \/ kind input (Z.of_nat j) = Some PRAGMA_ENDIF)
  | Return None => True
  | Stop why => exits why
  end.
Proof.
  induction k as [|k IH]; intros counter index Hk; simpl; [exact I|].
  destruct (lookup_lt_is_Some_2 input index) as [it Hit]; [lia|]. rewrite Hit.
  assert (Hnext : forall c,
    match find_next_pragma_loop input c (S index) k with
    | Return (Some j) =>
        index <= j < index + S k
        /\ (kind input (Z.of_nat j) = Some PRAGMA_ELSE
            \/ kind input (Z.of_nat j) = Some PRAGMA_ENDIF)
    | Return None => True
    | Stop why => exits why
    end).
  { intros c. specialize (IH c (S index) ltac:(lia)).
    destruct (find_next_pragma_loop input c (S index) k) as [[j|]|]; try exact IH.
    split; [lia|tauto]. }
  assert (Hhere : forall ty, type_ it = ty -> kind input (Z.of_nat index) = Some ty).
  { intros ty <-. now rewrite kind_nat, Hit. }
  destruct (type_ it) eqn:Hty; try (now eexists); try apply Hnext.
  - destruct (counter =? 0)%Z; [|apply Hnext].
    split; [lia|]. left. now apply Hhere.
  - destruct (counter =? 0)%Z; [|apply Hnext].
    split; [lia|]. right. now apply Hhere.
Qed.

Lemma find_next_pragma_ends start e :
  (0 <= start)%Z -> (e < Z.of_nat (length input))%Z ->
  match find_next_pragma orig_buffer input start e with
  | Return (Some k) =>
      (start <= k <= e)%Z
      /\ (kind input k = Some PRAGMA_ELSE \/ kind input k = Some PRAGMA_ENDIF)
  | Return None => (e < start)%Z
  | Stop why => exits why
  end.
Proof.
  intros Hstart He. unfold find_next_pragma.
  destruct (Z.ltb_spec start 0) as [|_]; [lia|].
  destruct (Z.geb_spec start (Z.of_nat (length input))) as [|Hs]; [simpl; lia|].
  destruct (Z.ltb_spec e 0) as [|He0]; [simpl; lia|].
  destruct (Z.geb_spec e (Z.of_nat (length input))) as [|_]; [lia|].
  destruct (Z.gtb_spec start e) as [|Hse]; [simpl; lia|]. simpl.
  pose proof (find_next_pragma_loop_ends (Z.to_nat (e - start + 1)) 0 (Z.to_nat start)
                ltac:(lia)) as Hloop.
  destruct (find_next_pragma_loop input 0 (Z.to_nat start) (Z.to_nat (e - start + 1)))
    as [[j|]|why]; simpl.
  - destruct Hloop as [Hj Hkind]. split; [lia|exact Hkind].
  - destruct (data_in start) as (first & -> & _); [lia|].
    destruct (data_in e) as (last & -> & _); [lia|]. simpl.
    destruct (get_line_number orig_buffer (begin_ first)) as [l1|why] eqn:H1; simpl.
    + destruct (exits_line (A := option Z) (end_ last)
                  (fun l2 => ("Cound not find closing pragma starting from " ++ show_int l1
                              ++ " and ending at " ++ show_int l2)%string))
        as (why & -> & Hx). exact Hx.
    + destruct (exits_line (A := unit) (begin_ first) (fun _ => EmptyString))
        as (why' & Hw & Hx). rewrite H1 in Hw. simpl in Hw. injection Hw as <-. exact Hx.
  - exact Hloop.
Qed.

Lemma branch_items_empty b e : (e < b)%Z -> branch_items input b e = [].
Proof.
  intros H. unfold branch_items. replace (seqZ b (e - b + 1)) with (@nil Z); [reflexivity|].
  symmetry. apply seqZ_nil. lia.
Qed.

Lemma branch_items_split b m e :
  (b <= m <= e + 1)%Z ->
  branch_items input b e = branch_items input b (m - 1) ++ branch_items input m e.
Proof.
  intros H. unfold branch_items.
  replace (e - b + 1)%Z with ((m - 1 - b + 1) + (e - m + 1))%Z by lia.
  rewrite seqZ_app by lia. rewrite filter_app.
  replace (b + (m - 1 - b + 1))%Z with m by lia.
  now replace (m - 1 - b + 1 + (e - m + 1) - (m - 1 - b + 1))%Z with (e - m + 1)%Z by lia.
Qed.

Lemma branch_items_one i :
  branch_items input i i = if decide (opens_branch input i) then [i] else [].
Proof.
  unfold branch_items. replace (i - i + 1)%Z with 1%Z by lia.
  rewrite seqZ_cons by lia. rewrite seqZ_nil by lia.
  rewrite filter_cons, filter_nil. reflexivity.
Qed.

Lemma branch_items_snoc b e :
  (b <= e)%Z ->
  branch_items input b e
  = branch_items input b (e - 1) ++ (if decide (opens_branch input e) then [e] else []).
Proof.
  intros H. rewrite (branch_items_split b e e) by lia. now rewrite branch_items_one.
Qed.

Lemma branch_pids_add (Pragmas p : element) :
  branch_pids (add_pragma Pragmas p) = branch_pids Pragmas ++ branch_pids p.
Proof.
  destruct Pragmas as [type pid tb te l]. simpl.
  rewrite map_app, concat_app. simpl. rewrite app_nil_r. now rewrite app_assoc.
Qed.

Lemma branch_pids_set_AND p pid :
  alternating input AND p -> elem_pid p = (-1)%Z -> (0 <= pid)%Z ->
  branch_pids (set_pid p pid) = pid :: branch_pids p.
Proof.
  intros Hp Hroot Hpid. inversion Hp as [pid' tb te l _ Hl|]; subst. simpl in *. subst pid'.
  destruct (Z.leb_spec 0 pid); [|lia]. reflexivity.
Qed.

Lemma branch_pids_set_OR p pid :
  alternating input OR p -> branch_pids (set_pid p pid) = branch_pids p.
Proof. intros Hp. inversion Hp; subst. reflexivity. Qed.

Lemma alternating_set_pid type p pid :
  alternating input type p ->
  match type with
  | AND => opens_branch input pid
  | OR => kind input pid = Some PRAGMA_IF
  | TERM => True
  end ->
  alternating input type (set_pid p pid).
Proof. intros Hp Hpid. inversion Hp; subst; simpl; constructor; auto. Qed.

#[local] Arguments branch_pids : simpl never.

Lemma parse_AND_round_ends (parse_OR : Z -> Z -> run (element * Z)) b e st :
  (0 <= b)%Z -> (e < Z.of_nat (length input))%Z ->
  (forall i, (b <= i <= e)%Z -> parsed_OR input i e (parse_OR i e)) ->
  AND_state input b e st ->
  match parse_AND_round parse_OR orig_buffer input e st with
  | Return (inl st') =>
      AND_state input b e st' /\ Z.to_nat (e + 1 - fst st') < Z.to_nat (e + 1 - fst st)
  | Return (inr r) => (b <= e)%Z -> parsed_AND input b e (Return r)
  | Stop why => exits why
  end.
Proof.
  destruct st as [index Pragmas].
  intros Hb He HOR ((Hlo & Hhi) & (l & -> & Hl) & Hpids). unfold parse_AND_round.
  destruct (Z.gtb_spec index e) as [Hout|Hin].
  - intros Hbe. simpl. destruct (Z.gtb_spec b e) as [|_]; [lia|].
    split; [lia|]. split; [reflexivity|]. split; [constructor; [now left|exact Hl]|].
    rewrite Hpids. f_equal. lia.
  - destruct (data_in index) as (it & -> & Hkind); [lia|]. simpl.
    assert (Hline : forall msg,
               match (l0 ← get_line_number orig_buffer (begin_ it);
                      (Stop (ExitCall (msg l0)) : run (Z * element + element * Z))) with
               | Return (inl st') =>
                   AND_state input b e st'
                   /\ Z.to_nat (e + 1 - fst st') < Z.to_nat (e + 1 - index)
               | Return (inr r) => (b <= e)%Z -> parsed_AND input b e (Return r)
               | Stop why => exits why
               end).
    { intros msg. destruct (exits_line (A := Z * element + element * Z)
                              (begin_ it) msg) as (why & -> & Hx). exact Hx. }
    destruct (type_ it) eqn:Hty; try (now eexists); try apply Hline.
    specialize (HOR index ltac:(lia)).
    destruct (parse_OR index e) as [[p k]|why]; simpl in *; [|exact HOR].
    destruct HOR as (Hk & Hend & Halt & Hp).
    split; [|lia]. split; [lia|]. split.
    + exists (l ++ [set_pid p index]). split; [reflexivity|].
      rewrite Forall_app. split; [exact Hl|]. constructor; [|constructor].
      apply alternating_set_pid; [exact Halt|]. congruence.
    + change (Element AND (-1) (-1) (-1) (l ++ [set_pid p index]))
        with (add_pragma (Element AND (-1) (-1) (-1) l) (set_pid p index)).
      rewrite branch_pids_add, Hpids, branch_pids_set_OR, Hp by exact Halt.
      replace (k + 1 - 1)%Z with k by lia.
      rewrite (branch_items_snoc b k) by lia.
      rewrite (branch_items_split b index (k - 1)) by lia.
      rewrite decide_False; [now rewrite app_nil_r|].
      unfold opens_branch. rewrite Hend. intros [|]; discriminate.
Qed.

Lemma parse_OR_round_ends (parse_AND : Z -> Z -> run (element * Z)) i e st :
  (0 <= i)%Z -> (e < Z.of_nat (length input))%Z ->
  (forall b' e', (i < b' <= e' + 1)%Z -> (e' < e)%Z ->
                 parsed_AND input b' e' (parse_AND b' e')) ->
  OR_state input i e st ->
  match parse_OR_round parse_AND orig_buffer input e st with
  | Return (inl st') =>
      OR_state input i e st'
      /\ Z.to_nat (e - fst (fst st')) + (if snd (fst st') then 0 else 1)
         < Z.to_nat (e - fst (fst st)) + (if snd (fst st) then 0 else 1)
  | Return (inr r) => parsed_OR input i e (Return r)
  | Stop why => exits why
  end.
Proof.
  destruct st as [[index done] Pragmas].
  intros Hi He HAND ((Hlo & Hhi) & (l & -> & Hl & Hne) & Hdone). unfold parse_OR_round.
  destruct done.
  - destruct Hdone as [Hopen Hpids].
    pose proof (find_next_pragma_ends (index + 1) e ltac:(lia) He) as Hnext.
    destruct (find_next_pragma orig_buffer input (index + 1) e) as [[k|]|why];
      simpl; [| |exact Hnext].
    + destruct Hnext as [Hk Hkind].
      destruct (data_in index) as (oldItem & -> & _); [lia|]. simpl.
      destruct (data_in k) as (it & -> & Hit); [lia|]. simpl.
      assert (Hchild : forall p idx,
                 parsed_AND input (index + 1) (k - 1) (Return (p, idx)) ->
                 Forall (alternating input AND) (l ++ [set_pid p index])
                 /\ branch_pids (Element OR (-1) (-1) (-1) (l ++ [set_pid p index]))
                    = branch_items input i (k - 1)).
      { intros p idx (_ & Hroot & Halt & Hp). split.
        - rewrite Forall_app. split; [exact Hl|]. constructor; [|constructor].
          now apply alternating_set_pid.
        - change (Element OR (-1) (-1) (-1) (l ++ [set_pid p index]))
            with (add_pragma (Element OR (-1) (-1) (-1) l) (set_pid p index)).
          rewrite branch_pids_add, Hpids, branch_pids_set_AND, Hp by (assumption || lia).
          rewrite (branch_items_split i index (k - 1)) by lia. f_equal.
          rewrite (branch_items_split index (index + 1) (k - 1)) by lia.
          replace (index + 1 - 1)%Z with index by lia.
          rewrite branch_items_one, decide_True by exact Hopen. reflexivity. }
      specialize (HAND (index + 1)%Z (k - 1)%Z ltac:(lia) ltac:(lia)).
      destruct Hkind as [Hkind|Hkind]; rewrite Hit in Hkind; injection Hkind as Hty;
        rewrite Hty in *.
      * destruct (parse_AND (index + 1)%Z (k - 1)%Z) as [[p idx]|why]; simpl;
          [|exact HAND].
        destruct (Hchild p idx HAND) as (Hl' & Hpids').
        split; [|lia]. split; [lia|]. split.
        -- exists (l ++ [set_pid p index]). split; [reflexivity|]. split; [exact Hl'|].
           intros _. right. intros Hnil. now apply app_eq_nil in Hnil as [_ Hnil].
        -- split; [|exact Hpids']. right. exact Hit.
      * destruct (parse_AND (index + 1)%Z (k - 1)%Z) as [[p idx]|why]; simpl;
          [|exact HAND].
        destruct (Hchild p idx HAND) as (Hl' & Hpids').
        split; [lia|]. split; [exact Hit|]. split; [|exact Hpids'].
        constructor; [|now left|exact Hl'].
        intros Hnil. now apply app_eq_nil in Hnil as [_ Hnil].
    + destruct (data_in index) as (oldItem & -> & _); [lia|]. simpl.
      destruct (exits_line (A := Z * bool * element + element * Z) (begin_ oldItem)
                  (fun l0 => ("Cannot find matching #else or #endif for #if pragma at "
                              ++ show_int l0)%string)) as (why & -> & Hx). exact Hx.
  - destruct Hdone as [-> Hpids]. simpl.
    destruct (data_in i) as (oldItem & -> & Hold); [lia|]. simpl.
    destruct (decide (type_ oldItem = PRAGMA_IF)) as [Hif|Hnot].
    + rewrite bool_decide_eq_true_2 by exact Hif. simpl.
      split; [|lia]. split; [lia|]. split.
      * exists l. split; [reflexivity|]. split; [exact Hl|]. intros _. now left.
      * split; [left; now rewrite Hold, Hif|].
        rewrite Hpids. symmetry. apply branch_items_empty. lia.
    + rewrite bool_decide_eq_false_2 by exact Hnot. simpl. now eexists.
Qed.

Lemma alternating_or_nonempty (p : element) :
  forall type, alternating input type p -> or_nonempty p.
Proof.
  induction p as [type' pid tb te l IH] using element_ind. intros type Hp.
  inversion Hp as [? ? ? ? _ Hl|? ? ? ? Hne _ Hl]; subst; constructor.
  - discriminate.
  - rewrite Forall_forall in IH, Hl |- *. intros c Hc. exact (IH c Hc OR (Hl c Hc)).
  - intros _. exact Hne.
  - rewrite Forall_forall in IH, Hl |- *. intros c Hc. exact (IH c Hc AND (Hl c Hc)).
Qed.

Lemma parse_pragmas_ends : forall fuel,
  (forall b e, (0 <= b)%Z -> (e < Z.of_nat (length input))%Z ->
               (Z.max 0 (e - b + 1) < Z.of_nat fuel)%Z ->
               parsed_AND input b e (parse_AND_pragmas fuel orig_buffer input b e))
  /\ (forall i e, (0 <= i <= e)%Z -> (e < Z.of_nat (length input))%Z ->
                  (e - i + 1 <= Z.of_nat fuel)%Z ->
                  parsed_OR input i e (parse_OR_pragmas fuel orig_buffer input i e)).
Proof.
  induction fuel as [|fuel [IHAND IHOR]].
  - split; intros; lia.
  - split.
    + intros b e Hb He Hfuel. simpl.
      destruct (Z.gtb_spec b e) as [Hempty|Hbe].
      * simpl. destruct (Z.gtb_spec b e) as [_|]; [|lia].
        split; [reflexivity|]. split; [reflexivity|].
        split; [constructor; [now left|constructor]|].
        simpl. symmetry. apply branch_items_empty. lia.
      * pose proof (iterate_ends
                      (parse_AND_round (parse_OR_pragmas fuel orig_buffer input)
                                       orig_buffer input e)
                      (AND_state input b e) (fun st => Z.to_nat (e + 1 - fst st))
                      (fun r => parsed_AND input b e (Return r)) exits) as Hloop.
        apply Hloop.
        -- intros st Hst.
           pose proof (parse_AND_round_ends (parse_OR_pragmas fuel orig_buffer input)
                         b e st Hb He) as Hround.
           destruct (parse_AND_round (parse_OR_pragmas fuel orig_buffer input)
                       orig_buffer input e st) as [[st'|r]|why] eqn:Hr.
           ++ apply Hround; [|exact Hst]. intros i Hi. apply IHOR; lia.
           ++ apply Hround; [|exact Hst|lia]. intros i Hi. apply IHOR; lia.
           ++ apply Hround; [|exact Hst]. intros i Hi. apply IHOR; lia.
        -- split; [lia|]. split; [exists []; split; [reflexivity|constructor]|].
           simpl. symmetry. apply branch_items_empty. lia.
        -- simpl. lia.
    + intros i e Hi He Hfuel. simpl. unfold assert.
      destruct (Z.leb_spec 0 i) as [_|]; [|lia]. simpl.
      destruct (Z.leb_spec i e) as [_|]; [|lia]. simpl.
      pose proof (iterate_ends
                    (parse_OR_round (parse_AND_pragmas fuel orig_buffer input)
                                    orig_buffer input e)
                    (OR_state input i e)
                    (fun st => Z.to_nat (e - fst (fst st))
                               + (if snd (fst st) then 0 else 1))
                    (fun r => parsed_OR input i e (Return r)) exits) as Hloop.
      apply Hloop.
      * intros st Hst. apply parse_OR_round_ends; [lia|exact He| |exact Hst].
        intros b' e' Hb' He'. apply IHAND; lia.
      * split; [lia|]. split; [|now split].
        exists []. split; [reflexivity|]. split; [constructor|discriminate].
      * simpl. lia.
Qed.

End ParsePragmas.

(** X20: [parse_AND_pragmas] on all the items of a file ends, by a result
    or by an [exit] with a message; it reads no item outside the array.
    The tree of a result has the two kinds of nodes in turn, AND nodes
    for runs of conditionals and OR nodes with at least one branch each,
    numbered by the items that open them,
    so that [select_branch] finds a branch to select at every OR node,
    and its branches are the [#if] and [#else] items of the input, each
    once and in their order. *)
Theorem parse_AND_pragmas_tree (orig_buffer : list ascii) (input : list item) :
  match parse_AND_pragmas (length input + 2) orig_buffer input
                          0 (Z.of_nat (length input) - 1) with
  | Return (Pragmas, index) =>
      index = (if decide (input = []) then -1 else Z.of_nat (length input))%Z
      /\ alternating input AND Pragmas
      /\ or_nonempty Pragmas
      /\ branch_pids Pragmas = branch_items input 0 (Z.of_nat (length input) - 1)
  | Stop why => exits why
  end.
Proof.
  destruct (parse_pragmas_ends orig_buffer input (length input + 2)) as [HAND _].
  specialize (HAND 0%Z (Z.of_nat (length input) - 1)%Z ltac:(lia) ltac:(lia) ltac:(lia)).
  destruct (parse_AND_pragmas (length input + 2) orig_buffer input 0
              (Z.of_nat (length input) - 1)) as [[Pragmas index]|why]; [|exact HAND].
  destruct HAND as (Hindex & _ & Halt & Hpids).
  split; [|split; [exact Halt|split; [exact (alternating_or_nonempty _ _ _ Halt)|exact Hpids]]].
  rewrite Hindex.
  destruct (decide (input = [])) as [->|Hne].
  - reflexivity.
  - destruct input as [|it rest]; [done|]. simpl length.
    destruct (Z.gtb_spec 0 (Z.of_nat (S (length rest)) - 1)); lia.
Qed.

Example parse_AND_pragmas_nested :
  parse_AND_pragmas 7 [] [Item 0 5 PRAGMA_IF; Item 10 15 PRAGMA_IF; Item 20 25 PRAGMA_ENDIF;
                          Item 30 35 PRAGMA_ELSE; Item 40 45 PRAGMA_ENDIF] 0 4
  = Return (Element AND (-1) (-1) (-1)
              [Element OR 0 (-1) (-1)
                 [Element AND 0 (-1) (-1)
                    [Element OR 1 (-1) (-1) [Element AND 1 (-1) (-1) []]];
                  Element AND 3 (-1) (-1) []]],
            5%Z)
  /\ parse_AND_pragmas 4 (replicate 20 "x") [Item 0 5 PRAGMA_IF; Item 10 15 PRAGMA_ELSE] 0 1
     = Stop (ExitCall "Cannot find matching #else or #endif for #if pragma at 1")
  /\ parse_AND_pragmas 3 (replicate 20 "x") [Item 0 5 PRAGMA_ENDIF] 0 0
     = Stop (ExitCall "#else or #endif appear without #if at 1").
Proof. repeat split; reflexivity. Qed.

(** ** The text of the branches *)

Section FillText.
Variables (buffer : list ascii) (inputs : list item).

Lemma mapM_ends {A B} (f : A -> run B) (Q : B -> Prop) (W : stop -> Prop) (l : list A) :
  Forall (fun x => match f x with Return y => Q y | Stop why => W why end) l ->
  match mapM f l with
  | Return ys => Forall Q ys /\ length ys = length l
  | Stop why => W why
  end.
Proof.
  induction l as [|x l IH]; intros Hl; simpl.
  - split; [constructor|reflexivity].
  - apply Forall_cons in Hl as [Hx Hl]. specialize (IH Hl).
    destruct (f x) as [y|why]; simpl; [|exact Hx].
    destruct (mapM f l) as [ys|why]; simpl; [|exact IH].
    destruct IH as [Hys Hlen]. split; [now constructor|simpl; lia].
Qed.

Lemma data_kind index ty :
  kind inputs index = Some ty ->
  exists it, data inputs index = Return it /\ inputs !! Z.to_nat index = Some it
             /\ (0 <= index)%Z.
Proof.
  unfold kind, data. destruct (Z.ltb_spec index 0) as [|Hge]; [discriminate|].
  destruct (inputs !! Z.to_nat index) as [it|]; [|discriminate]. eauto.
Qed.

Lemma fill_pdata_alternating (Pragma : element) :
  forall type, alternating inputs type Pragma ->
  exists Pragma', fill_pdata inputs Pragma = Return Pragma'
                  /\ alternating inputs type Pragma'.
Proof.
  induction Pragma as [type' pid tb te l IH] using element_ind. intros type Halt.
  assert (Hread : (pid = -1)%Z \/ (exists ty, kind inputs pid = Some ty) ->
            (if (0 <=? pid)%Z then data inputs pid ≫= (fun _ => Return tt) else Return tt)
            = Return tt).
  { intros [->|[ty Hty]]; [reflexivity|].
    destruct (data_kind _ _ Hty) as (it & -> & _). now destruct (0 <=? pid)%Z. }
  assert (Hkids : forall type0,
            Forall (alternating inputs type0) l ->
            exists l', mapM (fill_pdata inputs) l = Return l'
                       /\ Forall (alternating inputs type0) l'
                       /\ length l' = length l).
  { intros type0 Hl.
    pose proof (mapM_ends (fill_pdata inputs) (alternating inputs type0)
                  (fun _ => False) l) as Hm.
    destruct (mapM (fill_pdata inputs) l) as [l'|why].
    - exists l'. split; [reflexivity|]. apply Hm.
      rewrite Forall_forall in IH, Hl |- *. intros c Hc.
      destruct (IH c Hc type0 (Hl c Hc)) as (c' & -> & Hc'). exact Hc'.
    - exfalso. apply Hm.
      rewrite Forall_forall in IH, Hl |- *. intros c Hc.
      destruct (IH c Hc type0 (Hl c Hc)) as (c' & -> & Hc'). exact Hc'. }
  inversion Halt as [? ? ? ? Hpid Hl|? ? ? ? Hne Hpid Hl]; subst.
  - destruct (Hkids OR Hl) as (l' & Hm & Hl' & _). simpl.
    rewrite Hread, Hm; [|destruct Hpid as [|[H|H]]; eauto]. simpl.
    eexists. split; [reflexivity|]. now constructor.
  - destruct (Hkids AND Hl) as (l' & Hm & Hl' & Hlen). simpl.
    rewrite Hread, Hm; [|destruct Hpid as [|H]; eauto]. simpl.
    eexists. split; [reflexivity|]. constructor; [|exact Hpid|exact Hl'].
    destruct l; [done|]. now destruct l'.
Qed.

Lemma data_lookup index :
  (0 <= index < Z.of_nat (length inputs))%Z ->
  exists it, data inputs index = Return it /\ inputs !! Z.to_nat index = Some it.
Proof.
  intros Hin. unfold data. destruct (Z.ltb_spec index 0) as [|_]; [lia|].
  destruct (lookup_lt_is_Some_2 inputs (Z.to_nat index)) as [it Hit]; [lia|].
  rewrite Hit. eauto.
Qed.

Lemma item_in_buffer_span (first last' : element) :
  item_in_buffer buffer (text_item first) ->
  item_in_buffer buffer (text_item last') ->
  item_in_buffer buffer (Item (elem_text_begin first) (elem_text_end last') OTHER).
Proof. unfold item_in_buffer, text_item. simpl. lia. Qed.

Lemma nodes_head (c : element) : head (nodes c) = Some c.
Proof. now destruct c. Qed.

Lemma filled_span type0 type1 pid (l' : list element) first last' :
  Forall (fun c => alternating inputs type0 c
                   /\ Forall (filled_node buffer inputs) (nodes c)) l' ->
  head l' = Some first -> last l' = Some last' ->
  Forall (alternating inputs type0) l'
  /\ Forall (filled_node buffer inputs)
       (nodes (Element type1 pid (elem_text_begin first) (elem_text_end last') l')).
Proof.
  intros Hl' Hfirst Hlast. split.
  - eapply Forall_impl; [exact Hl'|]. simpl. tauto.
  - assert (Hnode : forall c, c ∈ l' -> filled_node buffer inputs c).
    { intros c Hc. rewrite Forall_forall in Hl'. destruct (Hl' c Hc) as [_ Hn].
      destruct c. simpl in Hn. now apply Forall_cons in Hn as [Hn _]. }
    apply head_Some_elem_of in Hfirst as Hfirst'.
    apply last_Some_elem_of in Hlast as Hlast'.
    destruct (Hnode first Hfirst') as [_ Hf]. destruct (Hnode last' Hlast') as [_ Hl].
    simpl. constructor.
    + split.
      * unfold text_filled. simpl. now rewrite Hfirst, Hlast.
      * exact (item_in_buffer_span first last' Hf Hl).
    + apply Forall_concat. rewrite Forall_forall. intros ns Hns.
      apply list_elem_of_In, in_map_iff in Hns as (c & <- & Hc).
      apply list_elem_of_In in Hc. rewrite Forall_forall in Hl'. now apply Hl'.
Qed.

Lemma fill_tdata_filled (Pragma : element) :
  Forall (item_in_buffer buffer) inputs ->
  forall type, alternating inputs type Pragma ->
  match fill_tdata inputs Pragma with
  | Return Pragma' =>
      alternating inputs type Pragma'
      /\ Forall (filled_node buffer inputs) (nodes Pragma')
  | Stop why => exits why
  end.
Proof.
  intros Hin. induction Pragma as [type' pid tb te l IH] using element_ind.
  intros type Halt.
  assert (Hkids : forall type0,
            Forall (alternating inputs type0) l ->
            match mapM (fill_tdata inputs) l with
            | Return l' =>
                Forall (fun c => alternating inputs type0 c
                                 /\ Forall (filled_node buffer inputs) (nodes c)) l'
                /\ length l' = length l
            | Stop why => exits why
            end).
  { intros type0 Hl. apply mapM_ends.
    rewrite Forall_forall in IH, Hl |- *. intros c Hc. exact (IH c Hc type0 (Hl c Hc)). }
  inversion Halt as [? ? ? ? Hpid Hl|? ? ? ? Hne Hpid Hl]; subst; simpl.
  - specialize (Hkids OR Hl).
    destruct (mapM (fill_tdata inputs) l) as [l'|why]; simpl; [|exact Hkids].
    destruct Hkids as [Hl' Hlen].
    destruct (head l') as [first|] eqn:Hfirst; destruct (last l') as [last'|] eqn:Hlast.
    + destruct (filled_span OR AND pid l' first last' Hl' Hfirst Hlast) as [Halt' Hnodes].
      split; [now constructor|exact Hnodes].
    + apply last_None in Hlast. subst l'. discriminate.
    + apply head_None in Hfirst. subst l'. discriminate.
    + apply head_None in Hfirst. subst l'.
      destruct (Z.ltb_spec pid 0) as [|Hpid0]; [now eexists|].
      destruct (Z.geb_spec (pid + 1) (Z.of_nat (length inputs))) as [|Hlast'];
        [now eexists|].
      destruct (data_lookup pid) as (f & -> & Hf); [lia|].
      destruct (data_lookup (pid + 1)) as (l0 & Hl0 & Hl0'); [lia|].
      simpl. rewrite Hl0. simpl.
      destruct (Z.ltb_spec (begin_ l0 - 1) 0) as [|Hte]; [now eexists|].
      split; [now constructor|]. simpl. constructor; [|constructor].
      rewrite Forall_forall in Hin.
      pose proof (Hin f ltac:(eapply list_elem_of_lookup_2; exact Hf)) as [Hfb _].
      pose proof (Hin l0 ltac:(eapply list_elem_of_lookup_2; exact Hl0')) as [Hlb _].
      split.
      * unfold text_filled. simpl. exists f, l0. auto.
      * unfold item_in_buffer, text_item. simpl. lia.
  - specialize (Hkids AND Hl).
    destruct (mapM (fill_tdata inputs) l) as [l'|why]; simpl; [|exact Hkids].
    destruct Hkids as [Hl' Hlen].
    assert (Hne' : l' <> []) by (destruct l; [done|]; now destruct l').
    destruct (head l') as [first|] eqn:Hfirst; [|now apply head_None in Hfirst].
    destruct (last l') as [last'|] eqn:Hlast; [|now apply last_None in Hlast].
    destruct (filled_span AND OR pid l' first last' Hl' Hfirst Hlast) as [Halt' Hnodes].
    split; [now constructor|exact Hnodes].
Qed.

End FillText.

(** X21: [fill_pdata] and then [fill_tdata], on a tree that the parser
    built from items that lie in the buffer, end by a result or by an
    [exit]; no item is read outside the array.  In the tree of a result
    the text of a branch without children runs from its directive to the
    byte before the next directive, the text of any other node runs from
    the begin of its first child to the end of its last child, and the
    text of every node lies in the buffer. *)
Theorem fill_tdata_texts (buffer : list ascii) (inputs : list item)
    (type : comp_type) (Pragmas : element) :
  Forall (item_in_buffer buffer) inputs ->
  alternating inputs type Pragmas ->
  match (Pragmas' ← fill_pdata inputs Pragmas; fill_tdata inputs Pragmas') with
  | Return Pragmas' =>
      alternating inputs type Pragmas'
      /\ Forall (filled_node buffer inputs) (nodes Pragmas')
  | Stop why => exits why
  end.
Proof.
  intros Hin Halt.
  destruct (fill_pdata_alternating inputs Pragmas type Halt) as (Pragmas1 & -> & Halt1).
  simpl. now apply fill_tdata_filled.
Qed.

Example conditional_file_tree :
  find_pragmas conditional_file = Return conditional_items
  /\ parse_AND_pragmas 5 conditional_file conditional_items 0 2
     = Return (conditional_tree, 3%Z)
  /\ (Pragmas' ← fill_pdata conditional_items conditional_tree;
      fill_tdata conditional_items Pragmas')
     = Return (Element AND (-1) 0 27
                 [Element OR 0 0 27 [Element AND 0 0 12 []; Element AND 1 13 27 []]]).
Proof. repeat split; reflexivity. Qed.

Lemma fill_tdata_texts_witness :
  Forall (item_in_buffer conditional_file) conditional_items
  /\ alternating conditional_items AND conditional_tree
  /\ match (Pragmas' ← fill_pdata conditional_items conditional_tree;
            fill_tdata conditional_items Pragmas') with
     | Return Pragmas' =>
         alternating conditional_items AND Pragmas'
         /\ Forall (filled_node conditional_file conditional_items) (nodes Pragmas')
     | Stop why => exits why
     end.
Proof.
  assert (H1 : Forall (item_in_buffer conditional_file) conditional_items).
  { repeat constructor; vm_compute; congruence. }
  assert (H2 : alternating conditional_items AND conditional_tree).
  { constructor; [now left|]. constructor; [|constructor].
    constructor; [discriminate|right; reflexivity|].
    constructor; [|constructor; [|constructor]].
    - constructor; [right; left; reflexivity|constructor].
    - constructor; [right; right; reflexivity|constructor]. }
  split; [exact H1|]. split; [exact H2|].
  exact (fill_tdata_texts conditional_file conditional_items AND conditional_tree H1 H2).
Defined.

(** ** Blanking the branches that are not selected *)

Section DeletedTexts.
Variable Q : item -> Prop.

Lemma unselected_texts (l : list element) (selector : Z) (deleted : list item) :
  Forall Q deleted -> Forall (fun c => Q (text_item c)) l ->
  Forall Q (unselected l selector deleted).
Proof.
  intros Hdel Hl. unfold unselected.
  assert (Hpairs : Forall (fun p : nat * element => Q (text_item (snd p))) (imap pair l)).
  { rewrite Forall_forall. intros [i c] Hic.
    apply list_elem_of_lookup in Hic as [k Hk].
    apply list_lookup_imap_Some in Hk as (c' & Hc' & [= -> ->]).
    rewrite Forall_forall in Hl. apply Hl. now apply list_elem_of_lookup_2 in Hc'. }
  revert deleted Hdel. induction (imap pair l) as [|[i c] ps IH]; intros deleted Hdel.
  - exact Hdel.
  - apply Forall_cons in Hpairs as [Hc Hps]. simpl. apply IH; [exact Hps|].
    destruct (negb (Z.of_nat i =? selector)%Z); [|exact Hdel].
    unfold add_item. rewrite Forall_app. split; [exact Hdel|].
    constructor; [exact Hc|constructor].
Qed.

Lemma nodes_children type pid tb te (l : list element) :
  Forall (fun c => Q (text_item c)) (nodes (Element type pid tb te l)) ->
  Forall (fun c => Q (text_item c)) l
  /\ Forall (fun c => Forall (fun c' => Q (text_item c')) (nodes c)) l.
Proof.
  simpl. intros Hn. apply Forall_cons in Hn as [_ Hn].
  rewrite Forall_concat in Hn.
  assert (Hsub : Forall (fun c => Forall (fun c' => Q (text_item c')) (nodes c)) l).
  { apply Forall_forall. intros c Hc.
    apply (proj1 (Forall_forall _ _) Hn (nodes c)).
    apply list_elem_of_In, in_map, list_elem_of_In. exact Hc. }
  split; [|exact Hsub].
  eapply Forall_impl; [exact Hsub|]. intros c Hc. destruct c. simpl in Hc.
  now apply Forall_cons in Hc as [Hc _].
Qed.

Lemma select_branch_internal_texts (Pragmas : element) :
  Forall (fun c => Q (text_item c)) (nodes Pragmas) ->
  forall deleted selectors d deleted',
    Forall Q deleted ->
    select_branch_internal Pragmas deleted selectors d = Return deleted' ->
    Forall Q deleted'.
Proof.
  induction Pragmas as [type pid tb te l IH] using element_ind.
  intros Hnodes deleted selectors d deleted' Hdel.
  destruct (nodes_children _ _ _ _ _ Hnodes) as [Hkids Hsub].
  assert (Hchildren : forall deleted,
    Forall Q deleted ->
    (fix children (l : list element) (deleted : list item) : run (list item) :=
       match l with
       | [] => Return deleted
       | c :: l' =>
           deleted ← select_branch_internal c deleted selectors d;
           children l' deleted
       end) l deleted = Return deleted' ->
    Forall Q deleted').
  { clear Hdel deleted Hkids Hnodes.
    induction l as [|c l IHl]; intros deleted Hdel; [now intros [= <-]|].
    apply Forall_cons in IH as [IHc IH]. apply Forall_cons in Hsub as [Hc Hsub].
    destruct (select_branch_internal c deleted selectors d) as [deleted1|] eqn:H1;
      simpl; [|discriminate].
    apply IHl; [exact IH|exact Hsub|]. exact (IHc Hc _ _ _ _ Hdel H1). }
  destruct type; simpl; [now apply Hchildren| |now apply Hchildren].
  destruct (selectors !! d) as [selector|]; [|discriminate].
  set (s := clamp selector (Z.of_nat (length l))).
  destruct (s <? 0)%Z; [discriminate|].
  pose proof (unselected_texts l s deleted Hdel Hkids) as Hun.
  revert Hun. generalize (unselected l s deleted) as deleted0.
  generalize (Z.to_nat s) as k. clear Hchildren Hkids Hnodes Hdel.
  induction l as [|c l IHl]; intros k deleted0 Hun; [discriminate|].
  apply Forall_cons in IH as [IHc IH]. apply Forall_cons in Hsub as [Hc Hsub].
  destruct k as [|k].
  - intros Hrun. exact (IHc Hc _ _ _ _ Hun Hrun).
  - apply IHl; assumption.
Qed.

End DeletedTexts.

(** X22: for every choice that is not negative, when the number of
    choices fits an [int], the three steps by which
    [find_functions_internal] blanks the branches that are not chosen all
    return: [create_selectors] gives the selectors of the choice,
    [select_branch] finds a branch of every OR node it comes to, and
    what it deletes are texts of nodes of the tree, which lie in the
    buffer as [fill_tdata] leaves them, so that [clear] returns and keeps
    the length of the string. *)
Theorem select_branch_clear (buffer : list ascii) (Pragmas : element) (choice : Z) :
  or_nonempty Pragmas ->
  Forall (fun c => item_in_buffer buffer (text_item c)) (nodes Pragmas) ->
  (0 < depth (compute_depth_width Pragmas))%Z ->
  (0 < width (compute_depth_width Pragmas))%Z ->
  (width (compute_depth_width Pragmas) ^ depth (compute_depth_width Pragmas)
   <= INT_MAX)%Z ->
  (0 <= choice)%Z ->
  exists selectors deleted buffer',
    create_selectors (compute_depth_width Pragmas) choice = Return selectors
    /\ select_branch Pragmas selectors = Return deleted
    /\ Forall (fun it => exists c, c ∈ nodes Pragmas /\ it = text_item c) deleted
    /\ clear buffer deleted = Return buffer'
    /\ strlen buffer' = strlen buffer.
Proof.
  intros Hor Hnodes Hd Hw Hmax Hc.
  set (dw := compute_depth_width Pragmas) in *.
  set (n := Z.to_nat (depth dw)).
  assert (Hsel : create_selectors dw choice
                 = Return ((fun i => (choice / width dw ^ Z.of_nat (n - 1 - i))
                                     mod width dw)%Z <$> seq 0 n)).
  { unfold create_selectors, assert. fold n.
    destruct (Z.ltb_spec 0 (depth dw)) as [_|]; [|lia]. simpl.
    apply mapM_Return_fmap. intros i Hi. apply elem_of_seq in Hi.
    apply selector_digit_value; try (assumption || lia).
    unfold n. rewrite Z2Nat.id by lia. exact Hmax. }
  revert Hsel.
  generalize ((fun i => (choice / width dw ^ Z.of_nat (n - 1 - i)) mod width dw)%Z
              <$> seq 0 n) as selectors.
  intros selectors Hsel.
  destruct (select_branch_digits_inside Pragmas choice selectors Hor Hc Hw Hmax Hsel)
    as [Hinside _].
  destruct (Hinside []) as [deleted Hrun].
  assert (Hin : Forall (item_in_buffer buffer) deleted).
  { apply (select_branch_internal_texts (item_in_buffer buffer) Pragmas Hnodes
             [] selectors 0 deleted); [constructor|exact Hrun]. }
  destruct (clear_loop_returns deleted buffer Hin) as [buffer' Hret].
  exists selectors, deleted, buffer'. split; [exact Hsel|]. split; [exact Hrun|].
  split; [|split; [exact Hret|]].
  - apply (select_branch_internal_texts
             (fun it => exists c, c ∈ nodes Pragmas /\ it = text_item c) Pragmas)
      with (deleted := []) (selectors := selectors) (d := 0);
      [|constructor|exact Hrun].
    rewrite Forall_forall. intros c Hc'. now exists c.
  - now destruct (clear_loop_frame _ _ _ Hret) as (_ & Hlen & _).
Qed.

Example select_branch_conditional :
  create_selectors (compute_depth_width conditional_texts) 1 = Return [1%Z]
  /\ select_branch conditional_texts [1%Z] = Return [Item 0 12 OTHER]
  /\ select_branch conditional_texts [0%Z] = Return [Item 13 27 OTHER]
  /\ clear conditional_file [Item 0 12 OTHER]
     = Return (replicate 13 SPACE ++ chars " # else" ++ LF :: chars "int y;"
               ++ LF :: chars "#endif" ++ [LF]).
Proof. repeat split; reflexivity. Qed.

Lemma select_branch_clear_witness :
  or_nonempty conditional_texts
  /\ Forall (fun c => item_in_buffer conditional_file (text_item c))
            (nodes conditional_texts)
  /\ (0 < depth (compute_depth_width conditional_texts))%Z
  /\ (0 < width (compute_depth_width conditional_texts))%Z
  /\ (width (compute_depth_width conditional_texts)
       ^ depth (compute_depth_width conditional_texts) <= INT_MAX)%Z
  /\ (0 <= 1)%Z
  /\ exists selectors deleted buffer',
       create_selectors (compute_depth_width conditional_texts) 1 = Return selectors
       /\ select_branch conditional_texts selectors = Return deleted
       /\ Forall (fun it => exists c, c ∈ nodes conditional_texts /\ it = text_item c)
                 deleted
       /\ clear conditional_file deleted = Return buffer'
       /\ strlen buffer' = strlen conditional_file.
Proof.
  assert (H1 : or_nonempty conditional_texts) by (repeat constructor; discriminate).
  assert (H2 : Forall (fun c => item_in_buffer conditional_file (text_item c))
                      (nodes conditional_texts))
    by (repeat constructor; vm_compute; congruence).
  assert (H3 : (0 < depth (compute_depth_width conditional_texts))%Z) by reflexivity.
  assert (H4 : (0 < width (compute_depth_width conditional_texts))%Z) by reflexivity.
  assert (H5 : (width (compute_depth_width conditional_texts)
                ^ depth (compute_depth_width conditional_texts) <= INT_MAX)%Z)
    by (vm_compute; discriminate).
  assert (H6 : (0 <= 1)%Z) by lia.
  split; [exact H1|]. split; [exact H2|]. split; [exact H3|]. split; [exact H4|].
  split; [exact H5|]. split; [exact H6|].
  exact (select_branch_clear conditional_file conditional_texts 1 H1 H2 H3 H4 H5 H6).
Defined.

(** ** The next function *)

Section NextFunction.
Implicit Types (buffer : list ascii) (t : token) (g : globals).

Lemma get_token_head buffer index t :
  get_token buffer (strlen buffer) index = Some t ->
  tk_begin t = skip_spaces buffer index
  /\ exists c rest, tk_text t = c :: rest /\ c = get buffer (tk_begin t).
Proof.
  intros H. apply get_token_cases in H as [H1|(t1 & t2 & H1 & H2 & -> & _)].
  - split; [exact (st_begin _ _ _ H1)|].
    destruct (simple_token_nonempty _ _ _ H1) as (c & rest & Ht & Hc & _). eauto.
  - split; [exact (st_begin _ _ _ H1)|].
    destruct (simple_token_nonempty _ _ _ H1) as (c & rest & Ht & Hc & _).
    exists c, (rest ++ tk_text t2). simpl. rewrite Ht. split; [reflexivity|exact Hc].
Qed.

Lemma get_token_byte buffer index t (c : ascii) :
  get_token buffer (strlen buffer) index = Some t ->
  strcmp_eq (tk_text t) [c] = true -> c <> NUL ->
  tk_text t = [c] /\ get buffer (tk_begin t) = c.
Proof.
  intros H Hcmp Hc. pose proof (get_token_text _ _ _ H) as Hs.
  apply strcmp_eq_text in Hcmp; [|exact Hs|].
  - split; [exact Hcmp|].
    destruct (get_token_head _ _ _ H) as (_ & c' & rest & Ht & Hc').
    rewrite Hcmp in Ht. injection Ht as -> _. now symmetry.
  - simpl. destruct (Ascii.eqb_spec c NUL); [contradiction|reflexivity].
Qed.

(** The closing token that [match_bracket] finds comes after the opening
    token at [i]. *)
Lemma bracket_after buffer i (o c : ascii) e :
  o <> NUL -> c <> NUL -> o <> c ->
  bracket_result buffer i [o] [c] (Some e) ->
  exists t0 t idx,
    get_token buffer (strlen buffer) i = Some t0
    /\ tk_next t0 <= idx
    /\ get_token buffer (strlen buffer) idx = Some t
    /\ tk_begin t = e
    /\ get buffer e = c.
Proof.
  intros Ho Hc Hoc (k & t & t0 & Hk & He & Hhead & Hopen & Hbal & Hun).
  assert (Hclose : strcmp_eq (tk_text t) [c] = true).
  { unfold balanced in Hbal. rewrite (take_S_r _ _ _ Hk) in Hbal.
    rewrite !count_text_snoc in Hbal.
    destruct (strcmp_eq (tk_text t) [c]); [reflexivity|exfalso].
    destruct k as [|k].
    - rewrite take_0 in Hbal. rewrite head_lookup in Hhead.
      rewrite Hk in Hhead. injection Hhead as ->. rewrite Hopen in Hbal.
      change (count_text [c] []) with 0 in Hbal. lia.
    - specialize (Hun k ltac:(lia)). unfold unbalanced in Hun.
      destruct (strcmp_eq (tk_text t) [o]); lia. }
  rewrite tokens_unfold in Hk, Hhead.
  destruct (get_token buffer (strlen buffer) i) as [t0'|] eqn:Ht0; [|discriminate].
  injection Hhead as ->.
  destruct k as [|k].
  - injection Hk as ->. exfalso.
    destruct (get_token_byte _ _ _ o Ht0 Hopen Ho) as [Ho' _].
    destruct (get_token_byte _ _ _ c Ht0 Hclose Hc) as [Hc' _]. congruence.
  - simpl in Hk. apply list_elem_of_lookup_2 in Hk.
    apply (tokens_elem buffer t (strlen buffer - tk_next t0)) in Hk
      as (idx & Hidx & Hget); [|lia].
    exists t0, t, idx. split; [reflexivity|]. split; [exact Hidx|].
    split; [exact Hget|]. split; [exact He|].
    destruct (get_token_byte _ _ _ c Hget Hclose Hc) as [_ Hbyte]. now rewrite <- He.
Qed.

Lemma match_bracket_ends buffer i (o c : ascii) :
  o <> NUL -> c <> NUL -> o <> c ->
  exists r,
    match_bracket buffer (strlen buffer) i [o] [c] = Return r
    /\ forall e, r = Some e ->
         skip_spaces buffer i < e < strlen buffer /\ get buffer e = c.
Proof.
  intros Ho Hc Hoc.
  destruct (match_bracket_returns buffer i [o] [c]) as (r & Hr & Hres).
  exists r. split; [exact Hr|]. intros e ->.
  destruct (bracket_after _ _ _ _ _ Ho Hc Hoc Hres) as (t0 & t & idx & H0 & Hidx & Ht & He & Hb).
  destruct (get_token_Some _ _ _ H0) as (? & ? & ? & ? & ?).
  destruct (get_token_Some _ _ _ Ht) as (? & ? & ? & ? & ?).
  destruct (get_token_head _ _ _ H0) as [Hbegin _].
  split; [lia|exact Hb].
Qed.

Lemma last_semicolon_Some buffer (prev_decl_end : Z) : forall i j,
  last_semicolon buffer prev_decl_end i = Some j ->
  j <= i /\ (prev_decl_end < Z.of_nat j)%Z /\ get buffer j = ";".
Proof.
  assert (Hunfold : forall i,
    last_semicolon buffer prev_decl_end i
    = if (Z.of_nat i >? prev_decl_end)%Z then
        if Ascii.eqb (get buffer i) ";" then Some i
        else match i with
             | O => None
             | S i' => last_semicolon buffer prev_decl_end i'
             end
      else None) by (now intros [|i]).
  induction i as [|i IH]; intros j; rewrite Hunfold.
  - destruct (Z.gtb_spec (Z.of_nat 0) prev_decl_end); [|discriminate].
    destruct (Ascii.eqb_spec (get buffer 0) ";"); [|discriminate].
    intros [= <-]. split; [lia|]. split; [lia|assumption].
  - destruct (Z.gtb_spec (Z.of_nat (S i)) prev_decl_end); [|discriminate].
    destruct (Ascii.eqb_spec (get buffer (S i)) ";").
    + intros [= <-]. split; [lia|]. split; [lia|assumption].
    + intros Hrec. destruct (IH j Hrec) as (? & ? & ?). split; [lia|]. split; assumption.
Qed.

Lemma find_token_returns buffer index (target : list ascii) :
  exists r,
    find_token buffer (strlen buffer) index target = Return r
    /\ forall b, r = Some b ->
         exists t idx, index <= idx /\ get_token buffer (strlen buffer) idx = Some t
                       /\ tk_begin t = b /\ strcmp_eq (tk_text t) target = true.
Proof.
  unfold find_token. rewrite find_token_fuel by lia. eexists. split; [reflexivity|].
  intros b Hb.
  destruct (List.find _ _) as [t|] eqn:Hfind; [|discriminate]. injection Hb as <-.
  apply find_some in Hfind as [Hin Hcmp]. apply list_elem_of_In in Hin.
  apply (tokens_elem buffer t (strlen buffer - index)) in Hin as (idx & Hidx & Hget); [|lia].
  exists t, idx. auto.
Qed.

Lemma skip_spaces_to buffer index p :
  index <= p -> is_space (get buffer p) = false -> skip_spaces buffer index <= p.
Proof.
  intros Hle Hp. destruct (skip_spaces_spec buffer index) as (_ & _ & Hrun).
  destruct (Nat.le_gt_cases (skip_spaces buffer index) p) as [|Hgt]; [assumption|].
  rewrite Hrun in Hp by lia. discriminate.
Qed.

Lemma function_limits_found g buffer (current : nat) (prev_decl_end : Z)
    (func_name_index old_index : nat) (fname : list ascii) t :
  (prev_decl_end < Z.of_nat current)%Z ->
  current <= func_name_index ->
  get_token buffer (strlen buffer) func_name_index = Some t ->
  strcmp_eq (tk_text t) (chars "(") = true ->
  tk_begin t < old_index ->
  is_identifier fname = true ->
  match function_limits g buffer (strlen buffer) prev_decl_end
                        func_name_index old_index fname with
  | Return r => function_found g buffer current prev_decl_end r
  | Stop _ => False
  end.
Proof.
  intros Hprev Hcur Ht Hparen Hold Hid. unfold function_limits.
  destruct (find_token_returns buffer old_index (chars "{")) as (r & -> & Hr). simpl.
  destruct r as [body_begin|]; [|exact I].
  destruct (Hr body_begin eq_refl) as (tb & idxb & Hidxb & Hgetb & Hbb & Hcmpb).
  destruct (get_token_Some _ _ _ Hgetb) as (? & ? & ? & ? & ?).
  destruct (get_token_byte _ _ _ "{" Hgetb Hcmpb ltac:(discriminate)) as [_ Hbrace].
  rewrite Hbb in Hbrace.
  destruct (get_token_Some _ _ _ Ht) as (? & ? & ? & ? & ?).
  destruct (get_token_byte _ _ _ "(" Ht Hparen ltac:(discriminate)) as [_ Hp].
  destruct (get_token_head _ _ _ Ht) as [Hbegin _].
  set (fbegin := if flag_find_full_function g then _ else _).
  assert (Hfb : forall b, fbegin = Some b ->
            (prev_decl_end < Z.of_nat b)%Z /\ b <= body_begin
            /\ (flag_find_full_function g = false -> current < b /\ get buffer b = "{")).
  { intros b. subst fbegin. destruct (flag_find_full_function g).
    - set (start := match last_semicolon _ _ _ with Some i => _ | None => _ end).
      assert (Hstart : (prev_decl_end < start <= Z.of_nat func_name_index)%Z).
      { subst start.
        destruct (last_semicolon buffer prev_decl_end func_name_index) as [i|] eqn:Hi; [|lia].
        apply last_semicolon_Some in Hi as (Hle & Hlt & Hsemi).
        assert (i <> func_name_index); [|lia]. intros ->.
        rewrite skip_spaces_fix in Hbegin by now rewrite Hsemi.
        rewrite Hbegin in Hp. congruence. }
      destruct (Z.ltb_spec start 0); [discriminate|].
      destruct (get_token buffer (strlen buffer) (Z.to_nat start)) as [tf|] eqn:Htf;
        [|discriminate].
      intros [= <-]. destruct (get_token_head _ _ _ Htf) as [Hbf _].
      pose proof (skip_spaces_ge buffer (Z.to_nat start)).
      assert (skip_spaces buffer (Z.to_nat start) <= tk_begin t).
      { apply skip_spaces_to; [lia|now rewrite Hp]. }
      split; [lia|]. split; [lia|discriminate].
    - intros [= <-]. split; [lia|]. split; [lia|]. intros _. split; [lia|exact Hbrace]. }
  destruct fbegin as [b|]; [|exact I].
  destruct (Hfb b eq_refl) as (Hb1 & Hb2 & Hb3).
  destruct (match_bracket_ends buffer body_begin "{" "}") as (r & Hm & He);
    [discriminate..|].
  change (chars "{") with ["{"]. change (chars "}") with ["}"]. rewrite Hm. simpl.
  destruct r as [fend|]; [|exact I].
  destruct (He fend eq_refl) as [Hfend Hclose].
  pose proof (skip_spaces_ge buffer body_begin).
  simpl. split; [exact Hid|]. split; [exact Hb1|]. split; [lia|]. split; [lia|].
  split; [exact Hclose|]. split; [reflexivity|exact Hb3].
Qed.

Lemma get_next_function_round g buffer (current : nat) (prev_decl_end : Z)
    (st : nat * list ascii) :
  (prev_decl_end < Z.of_nat current)%Z ->
  current <= fst st ->
  match get_next_function_step g buffer (strlen buffer) prev_decl_end st with
  | Return (inl st') =>
      current <= fst st' /\ strlen buffer - fst st' < strlen buffer - fst st
  | Return (inr r) => function_found g buffer current prev_decl_end r
  | Stop _ => False
  end.
Proof.
  destruct st as [index token]. simpl. intros Hprev Hcur.
  unfold get_next_function_step. cbv zeta.
  destruct (get_token buffer (strlen buffer) index) as [t|] eqn:Ht; [|exact I].
  destruct (get_token_Some _ _ _ Ht) as (Hlt & Hb & He & Hn & Hle).
  destruct (get_token_head _ _ _ Ht) as [Hbegin _].
  pose proof (skip_spaces_ge buffer index) as Hskip.
  destruct (strcmp_eq (tk_text t) ["("]) eqn:Hparen.
  { destruct (match_bracket_ends buffer index "(" ")") as (r & Hm & Hr);
      [discriminate..|].
    rewrite Hm.
    destruct (is_identifier token) eqn:Hid; simpl.
    - destruct r as [e|]; [|exact I]. destruct (Hr e eq_refl) as [Hlo _].
      destruct (Nat.leb_spec (strlen buffer) (e + 1)); [exact I|].
      assert (Hlimits :
        match (inr <$> function_limits g buffer (strlen buffer) prev_decl_end
                                       index (e + 1) token
               : run (nat * list ascii + next_function)) with
        | Return (inl st') =>
            current <= fst st'
            /\ strlen buffer - fst st' < strlen buffer - index
        | Return (inr r) => function_found g buffer current prev_decl_end r
        | Stop _ => False
        end).
      { pose proof (function_limits_found g buffer current prev_decl_end index (e + 1)
                      token t Hprev Hcur Ht Hparen ltac:(lia) Hid) as Hfound.
        destruct (function_limits g buffer (strlen buffer) prev_decl_end index (e + 1) token);
          exact Hfound. }
      destruct (get_token buffer (strlen buffer) (e + 1)) as [t'|] eqn:Ht'.
      + destruct (get_token_Some _ _ _ Ht') as (? & ? & ? & ? & ?).
        destruct (strcmp_eq (tk_text t') [";"] || strcmp_eq (tk_text t') [","]);
          [simpl; lia|exact Hlimits].
      + destruct (strcmp_eq (tk_text t) [";"] || strcmp_eq (tk_text t) [","]);
          [exact I|exact Hlimits].
    - destruct r as [e|]; [|exact I]. destruct (Hr e eq_refl) as [Hlo _]. simpl. lia. }
  destruct (strcmp_eq (tk_text t) ["["]) eqn:Hsquare.
  { destruct (match_bracket_ends buffer index "[" "]") as (r & Hm & Hr);
      [discriminate..|].
    rewrite Hm. simpl.
    destruct r as [e|]; [|exact I]. destruct (Hr e eq_refl) as [Hlo _]. simpl. lia. }
  destruct (strcmp_eq (tk_text t) ["{"]) eqn:Hcurly.
  { destruct (match_bracket_ends buffer index "{" "}") as (r & Hm & Hr);
      [discriminate..|].
    rewrite Hm. simpl.
    destruct r as [e|]; [|exact I]. destruct (Hr e eq_refl) as [Hlo _]. simpl. lia. }
  simpl. lia.
Qed.

Lemma get_next_function_cases g buffer (current : nat) (prev_decl_end : Z) :
  (prev_decl_end < Z.of_nat current)%Z ->
  match get_next_function g buffer current prev_decl_end with
  | Return r => function_found g buffer current prev_decl_end r
  | Stop _ => False
  end.
Proof.
  intros Hprev. unfold get_next_function.
  apply (iterate_ends
           (get_next_function_step g buffer (strlen buffer) prev_decl_end)
           (fun st => current <= fst st)
           (fun st => strlen buffer - fst st)
           (function_found g buffer current prev_decl_end) (fun _ => False)).
  - intros st Hst. now apply get_next_function_round.
  - simpl. lia.
  - simpl. lia.
Qed.

End NextFunction.

(** X23: [get_next_function] returns on every buffer, with a function,
    with [END] or with [ERROR].  The function it finds from [current] on,
    after a declaration that ended before [current], has an identifier
    for its name, begins after that declaration and ends at a closing
    brace after [current], below the terminator; the index to go on from
    is the byte after that brace; and when only bodies are asked for the
    function begins at an opening brace. *)
Theorem get_next_function_found (g : globals) (buffer : list ascii) (current : nat)
    (prev_decl_end : Z) :
  (prev_decl_end < Z.of_nat current)%Z ->
  exists r,
    get_next_function g buffer current prev_decl_end = Return r
    /\ function_found g buffer current prev_decl_end r.
Proof.
  intros Hprev. unfold get_next_function.
  apply (iterate_measure
           (get_next_function_step g buffer (strlen buffer) prev_decl_end)
           (fun st => current <= fst st)
           (fun st => strlen buffer - fst st)
           (function_found g buffer current prev_decl_end)).
  - intros st Hst. now apply get_next_function_round.
  - simpl. lia.
  - simpl. lia.
Qed.

Example get_next_function_declaration :
  get_next_function (Globals false true true 500) declaration_and_function 0 (-1)
  = Return (Found 33 (chars "f") 7 32)
  /\ get_next_function (Globals false false true 500) declaration_and_function 0 (-1)
    = Return (Found 33 (chars "f") 20 32)
  /\ get_next_function (Globals false true true 500) declaration_and_function 33 32
    = Return NoMore
  /\ get_next_function (Globals false true true 500) (chars "int f(int a) { return a;") 0 (-1)
    = Return (Failed "Cannot find function body")
  /\ get_next_function (Globals false true true 500) (chars "int f(int a);") 0 (-1)
    = Return NoMore.
Proof. repeat split; reflexivity. Qed.

Lemma get_next_function_found_witness :
  (-1 < Z.of_nat 0)%Z
  /\ exists r,
       get_next_function (Globals false true true 500) declaration_and_function 0 (-1)
       = Return r
       /\ function_found (Globals false true true 500) declaration_and_function 0 (-1) r.
Proof.
  assert (H : (-1 < Z.of_nat 0)%Z) by (simpl; lia).
  split; [exact H|].
  exact (get_next_function_found (Globals false true true 500)
           declaration_and_function 0 (-1) H).
Defined.

(** ** One pass over the file *)

Section Pass.
Implicit Types (buffer newbuffer : list ascii) (Items : list item)
  (functions : list fentry) (why : stop).

Lemma exits_fuel why : exits why -> why <> NoFuel.
Proof. intros [msg ->]. discriminate. Qed.

Lemma clear_loop_stops n Items : forall buffer why,
  clear_loop n buffer Items = Stop why -> why <> NoFuel.
Proof.
  induction Items as [|it Items IH]; intros buffer why; simpl; [discriminate|].
  unfold assert.
  destruct (bool_decide (begin_ it < Z.of_nat n)%Z); simpl; [|intros [= <-]; discriminate].
  destruct (bool_decide (end_ it < Z.of_nat n)%Z); simpl; [|intros [= <-]; discriminate].
  destruct (bool_decide (begin_ it <= end_ it)%Z && bool_decide (begin_ it < 0)%Z);
    [intros [= <-]; discriminate|apply IH].
Qed.

Lemma blanked_trans buffer newbuffer newbuffer' :
  blanked buffer newbuffer -> blanked newbuffer newbuffer' -> blanked buffer newbuffer'.
Proof.
  intros [Hs1 H1] [Hs2 H2]. split; [congruence|]. intros j Hj.
  destruct (H2 j ltac:(lia)) as [E2|E2]; [|now right].
  rewrite E2. apply H1, Hj.
Qed.

Lemma blanked_cstr buffer : blanked buffer (cstr buffer).
Proof.
  split; [apply strlen_cstr|]. intros j Hj. left.
  unfold cstr. rewrite !get_lookup, lookup_take_lt by exact Hj. reflexivity.
Qed.

Lemma clear_blanks buffer Items :
  match clear buffer Items with
  | Return buffer' => blanked buffer buffer'
  | Stop why => why <> NoFuel
  end.
Proof.
  destruct (clear buffer Items) as [buffer'|why] eqn:Hrun;
    [|exact (clear_loop_stops _ _ _ _ Hrun)].
  destruct (clear_frame_returned _ _ _ Hrun) as (_ & Hs & Hj).
  split; [exact Hs|]. intros j _. rewrite !get_lookup.
  assert (Hdec : forall it, Decision (in_span (begin_ it) (end_ it) j))
    by (intros it; unfold in_span; apply _).
  destruct (decide (covered Items j)) as [Hc|Hc].
  - right. now rewrite (proj1 (Hj j) Hc).
  - left. now rewrite (proj2 (Hj j) Hc).
Qed.

Lemma fcl_stops (fl : scan_flags) buffer why :
  find_comments_and_literals fl buffer [] = Stop why -> why <> NoFuel.
Proof.
  intros Hrun.
  pose proof (iterate_ends (fcl_step fl buffer (strlen buffer))
                (scan_state fl buffer) (fun st => strlen buffer - fst st)
                (fun Items => ascending Items /\ Forall (scanned_item fl buffer) Items)
                (fun why => nested_comments fl = true
                            /\ why = ExitCall "No matching closing comment")
                (fcl_round fl buffer) (S (strlen buffer)) (0, [])
                (scan_state_start fl buffer) ltac:(simpl; lia)) as H.
  unfold find_comments_and_literals in Hrun. rewrite Hrun in H.
  destruct H as [_ ->]. discriminate.
Qed.

Lemma find_pragmas_returns buffer :
  exists pragmas, find_pragmas buffer = Return pragmas.
Proof.
  destruct (iterate_measure (find_pragmas_step buffer (strlen buffer))
              (pragmas_state buffer) (fun st => strlen buffer - fst st)
              (fun pragmas => (forall it, it ∈ pragmas <-> directive_line buffer it)
                              /\ ascending pragmas
                              /\ Forall (item_in_buffer buffer) pragmas)
              (find_pragmas_round buffer) (S (strlen buffer)) (0, []))
    as (pragmas & Hrun & _).
  - split; [lia|]. split; [now left|]. split; [|split].
    + intros it. rewrite elem_of_nil. split; [tauto|].
      intros [(p & l & _ & _ & -> & _) H]. simpl in H. lia.
    + apply ascending_nil.
    + constructor.
  - simpl. lia.
  - exists pragmas. exact Hrun.
Qed.

Lemma mapM_stops {A B} (f : A -> run B) (l : list A) why :
  (forall x why, x ∈ l -> f x = Stop why -> why <> NoFuel) ->
  mapM f l = Stop why -> why <> NoFuel.
Proof.
  intros Hf Hrun.
  pose proof (mapM_ends f (fun _ => True) (fun why => why <> NoFuel) l) as H.
  rewrite Hrun in H. apply H. rewrite Forall_forall. intros x Hx.
  destruct (f x) as [y|why'] eqn:Hfx; [exact I|exact (Hf x why' Hx Hfx)].
Qed.

Lemma data_stops Items (index : Z) why : data Items index = Stop why -> why <> NoFuel.
Proof.
  unfold data. destruct (index <? 0)%Z; [intros [= <-]; discriminate|].
  destruct (Items !! Z.to_nat index); [discriminate|intros [= <-]; discriminate].
Qed.

Lemma fill_pdata_stops Items (Pragma : element) :
  forall why, fill_pdata Items Pragma = Stop why -> why <> NoFuel.
Proof.
  induction Pragma as [type pid tb te l IH] using element_ind. intros why. simpl.
  destruct (0 <=? pid)%Z.
  - destruct (data Items pid) as [it|why'] eqn:Hdata; simpl;
      [|intros [= <-]; exact (data_stops _ _ _ Hdata)].
    destruct (mapM (fill_pdata Items) l) as [l'|why'] eqn:Hl; simpl; [discriminate|].
    intros [= <-]. apply (mapM_stops _ _ _) in Hl; [exact Hl|].
    intros c why Hc. rewrite Forall_forall in IH. now apply IH.
  - simpl. destruct (mapM (fill_pdata Items) l) as [l'|why'] eqn:Hl; simpl; [discriminate|].
    intros [= <-]. apply (mapM_stops _ _ _) in Hl; [exact Hl|].
    intros c why Hc. rewrite Forall_forall in IH. now apply IH.
Qed.

Lemma fill_tdata_stops Items (Pragma : element) :
  forall why, fill_tdata Items Pragma = Stop why -> why <> NoFuel.
Proof.
  induction Pragma as [type pid tb te l IH] using element_ind. intros why. simpl.
  destruct (mapM (fill_tdata Items) l) as [l'|why'] eqn:Hl; simpl.
  2:{ intros [= <-]. apply (mapM_stops _ _ _) in Hl; [exact Hl|].
      intros c why Hc. rewrite Forall_forall in IH. now apply IH. }
  destruct type; [| |intros [= <-]; discriminate].
  - assert (Hleaf :
      (if (pid <? 0)%Z then Stop (ExitCall "Unassigned pid for AND-type pragma")
       else
         if (pid + 1 >=? Z.of_nat (length Items))%Z
         then Stop (ExitCall ("Internal error: didn't catch unmatched #if (first = "
                              ++ show_int pid ++ ", last = " ++ show_int (pid + 1)
                              ++ ")"))
         else
           f ← data Items pid;
           l ← data Items (pid + 1);
           if (begin_ l - 1 <? 0)%Z
           then Stop (ExitCall "Invalid pragma address: internal error")
           else Return (Element AND pid (begin_ f) (begin_ l - 1) l'))
      = Stop why -> why <> NoFuel).
    { destruct (pid <? 0)%Z; [intros [= <-]; discriminate|].
      destruct (pid + 1 >=? Z.of_nat (length Items))%Z; [intros [= <-]; discriminate|].
      destruct (data Items pid) as [f|why'] eqn:Hf; simpl;
        [|intros [= <-]; exact (data_stops _ _ _ Hf)].
      destruct (data Items (pid + 1)) as [f'|why'] eqn:Hf'; simpl;
        [|intros [= <-]; exact (data_stops _ _ _ Hf')].
      destruct (begin_ f' - 1 <? 0)%Z; [intros [= <-]; discriminate|discriminate]. }
    destruct (head l'), (last l'); [discriminate|exact Hleaf..].
  - destruct (head l'), (last l'); try discriminate; intros [= <-]; discriminate.
Qed.

Lemma int_div_stops (a b : Z) why : int_div a b = Stop why -> why <> NoFuel.
Proof. unfold int_div. destruct (_ || _); [intros [= <-]|]; discriminate. Qed.

Lemma int_mod_stops (a b : Z) why : int_mod a b = Stop why -> why <> NoFuel.
Proof. unfold int_mod. destruct (_ || _); [intros [= <-]|]; discriminate. Qed.

Lemma create_selectors_stops (dw : depth_width) (selector : Z) why :
  create_selectors dw selector = Stop why -> why <> NoFuel.
Proof.
  unfold create_selectors, assert.
  destruct (0 <? depth dw)%Z; simpl; [|intros [= <-]; discriminate].
  apply mapM_stops. intros i why' _. unfold selector_digit.
  destruct (i <? Z.to_nat (depth dw) - 1); [|apply int_mod_stops].
  destruct (powers (width dw) (Z.to_nat (depth dw)) !! (i + 1)) as [p|];
    [|intros [= <-]; discriminate].
  destruct (int_div selector p) as [q|why''] eqn:Hq; simpl; [apply int_mod_stops|].
  intros [= <-]. exact (int_div_stops _ _ _ Hq).
Qed.

Lemma select_branch_internal_stops (Pragmas : element) :
  forall deleted (selectors : list Z) d why,
    select_branch_internal Pragmas deleted selectors d = Stop why -> why <> NoFuel.
Proof.
  induction Pragmas as [type pid tb te l IH] using element_ind.
  intros deleted selectors d why.
  assert (Hchildren : forall deleted,
    (fix children (l : list element) (deleted : list item) : run (list item) :=
       match l with
       | [] => Return deleted
       | c :: l' =>
           deleted ← select_branch_internal c deleted selectors d;
           children l' deleted
       end) l deleted = Stop why ->
    why <> NoFuel).
  { clear deleted. induction l as [|c l IHl]; intros deleted; [discriminate|].
    apply Forall_cons in IH as [IHc IH].
    destruct (select_branch_internal c deleted selectors d) as [deleted1|why'] eqn:H1;
      simpl; [now apply IHl|].
    intros [= <-]. exact (IHc _ _ _ _ H1). }
  destruct type; simpl; [now apply Hchildren| |now apply Hchildren].
  destruct (selectors !! d) as [selector|]; [|intros [= <-]; discriminate].
  destruct (clamp selector (Z.of_nat (length l)) <? 0)%Z; [intros [= <-]; discriminate|].
  generalize (unselected l (clamp selector (Z.of_nat (length l))) deleted) as deleted0.
  generalize (Z.to_nat (clamp selector (Z.of_nat (length l)))) as k.
  clear Hchildren.
  induction l as [|c l IHl]; intros k deleted0; [intros [= <-]; discriminate|].
  apply Forall_cons in IH as [IHc IH].
  destruct k as [|k]; [apply IHc|now apply IHl].
Qed.

Lemma parse_AND_pragmas_stops (orig_buffer : list ascii) Items why :
  parse_AND_pragmas (length Items + 2) orig_buffer Items 0 (Z.of_nat (length Items) - 1)
  = Stop why ->
  why <> NoFuel.
Proof.
  intros Hrun.
  destruct (parse_pragmas_ends orig_buffer Items (length Items + 2)) as [HAND _].
  specialize (HAND 0%Z (Z.of_nat (length Items) - 1)%Z ltac:(lia) ltac:(lia) ltac:(lia)).
  rewrite Hrun in HAND. now apply exits_fuel.
Qed.

Lemma is_identifier_cstr (name : list ascii) :
  is_identifier (cstr name) = is_identifier name.
Proof.
  unfold is_identifier. rewrite strlen_cstr.
  destruct (strlen name =? 0); [reflexivity|].
  apply eq_true_iff_eq. rewrite !forallb_forall.
  split; intros H i Hi; specialize (H i Hi); apply in_seq in Hi;
    destruct (blanked_cstr name) as [_ Hget];
    destruct (Hget i ltac:(lia)) as [E|E].
  - now rewrite <- E.
  - rewrite <- H. f_equal. f_equal.
    unfold cstr. rewrite !get_lookup, lookup_take_lt by lia. reflexivity.
  - now rewrite E.
  - rewrite <- H. f_equal. f_equal.
    unfold cstr. rewrite !get_lookup, lookup_take_lt by lia. reflexivity.
Qed.

Lemma functions_apart_snoc functions (x : fentry) :
  functions_apart functions ->
  Forall (fun f => (fend f < fbegin x)%Z) functions ->
  functions_apart (functions ++ [x]).
Proof.
  intros Hap Hall i j a b Hi Hj Hij.
  assert (Hil : i < length functions).
  { apply lookup_lt_Some in Hj. rewrite length_app in Hj. simpl in Hj. lia. }
  rewrite lookup_app_l in Hi by exact Hil.
  destruct (Nat.lt_ge_cases j (length functions)) as [Hjl|Hjl].
  - rewrite lookup_app_l in Hj by exact Hjl. exact (Hap i j a b Hi Hj Hij).
  - rewrite lookup_app_r in Hj by exact Hjl.
    destruct (j - length functions) as [|k]; [|discriminate].
    injection Hj as <-. rewrite Forall_forall in Hall. apply Hall.
    now apply list_elem_of_lookup_2 in Hi.
Qed.

Lemma functions_apart_overlap buffer functions :
  Forall (function_of buffer) functions -> functions_apart functions ->
  check_func_overlap functions = false.
Proof.
  intros Hall Hap. apply not_true_iff_false. intros Hcheck.
  apply check_func_overlap_true in Hcheck as (i & j & f & f' & Hi & Hj & Hne & H).
  rewrite Forall_lookup in Hall.
  destruct (Hall _ _ Hi) as (_ & ? & _). destruct (Hall _ _ Hj) as (_ & ? & _).
  rewrite !between_spec in H.
  destruct (Nat.lt_ge_cases i j) as [Hlt|Hge].
  - pose proof (Hap i j f f' Hi Hj Hlt). lia.
  - pose proof (Hap j i f' f Hj Hi ltac:(lia)). lia.
Qed.

Lemma next_functions_round (g : globals) newbuffer (error_message : string)
    (st : nat * Z * list fentry) :
  (let '(index, prev_decl_end, functions) := st in
   (prev_decl_end < Z.of_nat index)%Z
   /\ Forall (function_of newbuffer) functions
   /\ functions_apart functions
   /\ Forall (fun f => (fend f <= prev_decl_end)%Z) functions) ->
  match next_functions_step g newbuffer error_message st with
  | Return (inl st') =>
      (let '(index, prev_decl_end, functions) := st' in
       (prev_decl_end < Z.of_nat index)%Z
       /\ Forall (function_of newbuffer) functions
       /\ functions_apart functions
       /\ Forall (fun f => (fend f <= prev_decl_end)%Z) functions)
      /\ strlen newbuffer - fst (fst st') < strlen newbuffer - fst (fst st)
  | Return (inr (index, functions, _)) =>
      (index = END \/ index = ERROR)
      /\ Forall (function_of newbuffer) functions
      /\ functions_apart functions
  | Stop _ => False
  end.
Proof.
  destruct st as [[index prev_decl_end] functions].
  intros (Hprev & Hall & Hap & Hends). unfold next_functions_step.
  pose proof (get_next_function_cases g newbuffer index prev_decl_end Hprev) as Hnext.
  destruct (get_next_function g newbuffer index prev_decl_end) as [r|]; [|contradiction].
  destruct r as [index' name b e| |msg]; simpl.
  - destruct Hnext as (Hid & Hb & He & Hcur & Hclose & -> & _).
    split; [|lia]. split; [lia|]. unfold fadd. split; [|split].
    + apply Forall_app. split; [exact Hall|]. constructor; [|constructor].
      split; [simpl; now rewrite is_identifier_cstr|]. simpl.
      split; [lia|]. split; [lia|]. now rewrite Nat2Z.id.
    + apply functions_apart_snoc; [exact Hap|].
      eapply Forall_impl; [exact Hends|]. simpl. intros f Hf. lia.
    + apply Forall_app. split.
      * eapply Forall_impl; [exact Hends|]. simpl. intros f Hf. lia.
      * constructor; [simpl; lia|constructor].
  - split; [now left|]. split; assumption.
  - split; [now right|]. split; assumption.
Qed.

Lemma function_of_blanked buffer newbuffer (f : fentry) :
  blanked buffer newbuffer -> function_of newbuffer f -> function_of buffer f.
Proof.
  intros [Hs Hget] (Hid & Hb & He & Hclose). rewrite Hs in He.
  split; [exact Hid|]. split; [exact Hb|]. split; [exact He|].
  destruct (Hget (Z.to_nat (fend f)) ltac:(lia)) as [E|E]; [congruence|].
  rewrite E in Hclose. discriminate.
Qed.

Lemma find_functions_internal_ends (g : globals) buffer (choice : Z)
    (error_message : string) :
  match find_functions_internal g buffer choice error_message with
  | Return (index, functions, number_of_choices, _) =>
      (if (choice <? 0)%Z then index = 0%Z /\ functions = []
       else index = END \/ index = ERROR)
      /\ Forall (function_of buffer) functions
      /\ functions_apart functions
  | Stop why => why <> NoFuel
  end.
Proof.
  unfold find_functions_internal.
  destruct (find_comments_and_literals _ (cstr buffer) []) as [Items|why] eqn:Hfcl;
    simpl; [|exact (fcl_stops _ _ _ Hfcl)].
  pose proof (clear_blanks (cstr buffer) Items) as Hc1.
  destruct (clear (cstr buffer) Items) as [nb1|why]; simpl; [|exact Hc1].
  destruct (find_pragmas_returns nb1) as [pragmas ->]. simpl.
  pose proof (clear_blanks nb1 (copy_items_type pragmas PRAGMA_OTHER)) as Hc2.
  destruct (clear nb1 (copy_items_type pragmas PRAGMA_OTHER)) as [nb2|why];
    simpl; [|exact Hc2].
  set (control := delete_items_type pragmas PRAGMA_OTHER).
  match goal with
  | |- match (?inner ≫= _) with _ => _ end =>
      assert (Hinner : match inner with
                       | Return (nb, _) => blanked nb2 nb
                       | Stop why => why <> NoFuel
                       end);
      [|destruct inner as [[nb3 number_of_choices]|why]; simpl; [|exact Hinner]]
  end.
  { destruct (0 <? length control); [|split; [reflexivity|now left]].
    destruct (parse_AND_pragmas (length control + 2) buffer control 0
                                (Z.of_nat (length control) - 1))
      as [[Pragmas val]|why] eqn:Hparse; simpl;
      [|exact (parse_AND_pragmas_stops _ _ _ Hparse)].
    destruct (fill_pdata control Pragmas) as [Pragmas1|why] eqn:Hp; simpl;
      [|exact (fill_pdata_stops _ _ _ Hp)].
    destruct (fill_tdata control Pragmas1) as [Pragmas2|why] eqn:Ht; simpl;
      [|exact (fill_tdata_stops _ _ _ Ht)].
    destruct (choice >=? 0)%Z; [|split; [reflexivity|now left]].
    destruct (create_selectors (compute_depth_width Pragmas2) choice)
      as [selectors|why] eqn:Hsel; simpl; [|exact (create_selectors_stops _ _ _ Hsel)].
    destruct (select_branch Pragmas2 selectors) as [deleted|why] eqn:Hdel; simpl;
      [|exact (select_branch_internal_stops _ _ _ _ _ Hdel)].
    pose proof (clear_blanks nb2 deleted) as Hc.
    destruct (clear nb2 deleted) as [nb|why]; simpl; exact Hc. }
  pose proof (clear_blanks nb3 pragmas) as Hc3.
  destruct (clear nb3 pragmas) as [nb4|why]; simpl; [|exact Hc3].
  assert (Hblank : blanked buffer nb4).
  { eapply blanked_trans; [|exact Hc3]. eapply blanked_trans; [|exact Hinner].
    eapply blanked_trans; [|exact Hc2]. eapply blanked_trans; [|exact Hc1].
    apply blanked_cstr. }
  destruct (Z.geb_spec choice 0) as [Hchoice|Hchoice].
  - pose proof (iterate_ends (next_functions_step g nb4 error_message)
                  (fun st => let '(index, prev_decl_end, functions) := st in
                             (prev_decl_end < Z.of_nat index)%Z
                             /\ Forall (function_of nb4) functions
                             /\ functions_apart functions
                             /\ Forall (fun f => (fend f <= prev_decl_end)%Z) functions)
                  (fun st => strlen nb4 - fst (fst st))
                  (fun r => let '(index, functions, _) := r in
                            (index = END \/ index = ERROR)
                            /\ Forall (function_of nb4) functions
                            /\ functions_apart functions)
                  (fun _ => False)) as Hloop.
    specialize (Hloop (next_functions_round g nb4 error_message)
                      (S (strlen buffer)) (0, (-1)%Z, [])).
    destruct (iterate (next_functions_step g nb4 error_message) (S (strlen buffer))
                      (0, (-1)%Z, []))
      as [[[index functions] msg]|why]; simpl.
    + destruct Hloop as (Hindex & Hall & Hap).
      * split; [lia|]. split; [constructor|]. split; [|constructor].
        intros i j a b Hi. now rewrite lookup_nil in Hi.
      * destruct Hblank as [Hs _]. simpl. lia.
      * assert (Hall' : Forall (function_of buffer) functions).
        { eapply Forall_impl; [exact Hall|]. intros f. now apply function_of_blanked. }
        destruct (Z.ltb_spec choice 0); [lia|].
        split; [exact Hindex|]. split; [exact Hall'|exact Hap].
    + exfalso. apply Hloop.
      * split; [lia|]. split; [constructor|]. split; [|constructor].
        intros i j a b Hi. now rewrite lookup_nil in Hi.
      * destruct Hblank as [Hs _]. simpl. lia.
  - simpl. destruct (Z.ltb_spec choice 0); [|lia].
    split; [now split|]. split; [constructor|].
    intros i j a b Hi. now rewrite lookup_nil in Hi.
Qed.

End Pass.

(** X24: one pass of [find_functions_internal] over a file ends: none of
    its loops runs on, it returns or the process stops on the way.  For a
    choice of branches it returns [END] or [ERROR], and every function it
    has found has an identifier for its name and an extent in the buffer
    that ends at a closing brace of the file; the functions come in the
    order of the file, each ending before the next one begins, so that
    [check_func_overlap] finds no overlap among the functions of one
    pass.  For the choice -1 it returns 0 and finds no function. *)
Theorem find_functions_internal_pass (g : globals) (buffer : list ascii) (choice : Z)
    (error_message : string) :
  match find_functions_internal g buffer choice error_message with
  | Return (index, functions, number_of_choices, _) =>
      (if (choice <? 0)%Z then index = 0%Z /\ functions = []
       else index = END \/ index = ERROR)
      /\ Forall (function_of buffer) functions
      /\ functions_apart functions
      /\ check_func_overlap functions = false
  | Stop why => why <> NoFuel
  end.
Proof.
  pose proof (find_functions_internal_ends g buffer choice error_message) as H.
  destruct (find_functions_internal g buffer choice error_message)
    as [[[[index functions] n] msg]|why];
    [|exact H].
  destruct H as (Hindex & Hall & Hap).
  split; [exact Hindex|]. split; [exact Hall|]. split; [exact Hap|].
  exact (functions_apart_overlap buffer functions Hall Hap).
Qed.

Example find_functions_internal_declaration :
  find_functions_internal (Globals false true true 500) declaration_and_function 0
                          EmptyString
  = Return (END, [FEntry (chars "f") 7 32], 1%Z, EmptyString)
  /\ find_functions_internal (Globals false true true 500) declaration_and_function (-1)
                             EmptyString
    = Return (0%Z, [], 1%Z, EmptyString).
Proof. split; reflexivity. Qed.

(** ** What the calls print, and how they end *)

Section Prints.
Context {O : Type}.
Implicit Types (P : O -> Prop) (Why : stop -> Prop).

Lemma prints_ret {A} P (Q : A -> Prop) Why (a : A) :
  Q a -> prints P Q Why (mret a : printing O A).
Proof. intros Ha. split; [constructor|exact Ha]. Qed.

Lemma prints_say P (Q : unit -> Prop) Why (line : O) :
  P line -> Q tt -> prints P Q Why (say line).
Proof. intros Hl Ht. split; [repeat constructor; exact Hl|exact Ht]. Qed.

Lemma prints_quiet {A} P (Q : A -> Prop) Why (r : run A) :
  match r with Return a => Q a | Stop why => Why why end ->
  prints P Q Why (quiet r : printing O A).
Proof. intros Hr. split; [constructor|exact Hr]. Qed.

Lemma prints_bind {A B} P (Q : A -> Prop) (Q' : B -> Prop) Why
    (m : printing O A) (k : A -> printing O B) :
  prints P Q Why m -> (forall a, Q a -> prints P Q' Why (k a)) ->
  prints P Q' Why (m ≫= k).
Proof.
  destruct m as [out [a|why]]; intros [Hout Hr] Hk; simpl in *.
  - specialize (Hk a Hr). unfold mbind, printing_bind.
    destruct (k a) as [out' r']. destruct Hk as [Hout' Hr']. simpl in *.
    split; [apply Forall_app; now split|exact Hr'].
  - split; [exact Hout|exact Hr].
Qed.

Lemma prints_impl {A} P (Q Q' : A -> Prop) Why (m : printing O A) :
  prints P Q Why m -> (forall a, Q a -> Q' a) -> prints P Q' Why m.
Proof.
  destruct m as [out [a|why]]; intros [Hout Hr] HQ; (split; [exact Hout|]); simpl in *;
    auto.
Qed.
End Prints.

Section FindFunctionsEnds.
Variable g : globals.
Implicit Types (buffer : list ascii) (functions : list fentry).

Lemma call_prints buffer (choice : Z) (error_message : string) :
  prints (fun _ => True)
         (fun r => Forall (function_of buffer) (snd (fst (fst r))))
         (fun why => why <> NoFuel)
         (call (find_functions_internal g) buffer choice error_message).
Proof.
  unfold call. split; [repeat constructor|]. simpl.
  pose proof (find_functions_internal_ends g buffer choice error_message) as Hpass.
  destruct (find_functions_internal g buffer choice error_message)
    as [[[[error funcs] x] msg]|why]; [|exact Hpass].
  simpl. now destruct Hpass as (_ & Hfuncs & _).
Qed.

Lemma eval_choices_prints buffer (number_of_choices capacity : Z) (choices : list Z) :
  forall (counter : nat) (error_message : string),
  prints (fun _ => True)
         (fun r => Forall (Forall (function_of buffer)) (fst r))
         (fun why => why <> NoFuel)
         (eval_choices (find_functions_internal g) buffer number_of_choices capacity
                       choices counter error_message).
Proof.
  induction choices as [|i choices IH]; intros counter error_message;
    cbn [eval_choices].
  { apply prints_ret. constructor. }
  eapply prints_bind with (Q := fun _ => True).
  { apply prints_quiet. now destruct (Z.of_nat counter <? capacity)%Z. }
  intros _ _. eapply prints_bind; [apply call_prints|].
  intros [[[error funcs] x] msg] Hfuncs. simpl in Hfuncs.
  eapply prints_bind with (Q := fun _ => True).
  { apply prints_quiet. unfold assert. now destruct (x =? number_of_choices)%Z. }
  intros _ _. eapply prints_bind; [apply IH|].
  intros [arr msg'] Harr. simpl in Harr. apply prints_ret. simpl.
  destruct (error =? ERROR)%Z; [exact Harr|now constructor].
Qed.

Lemma merged_in_buffer buffer (functions_arr : list (list fentry)) :
  Forall (Forall (function_of buffer)) functions_arr ->
  Forall (function_in_buffer buffer) (select_best_func_limits functions_arr).
Proof.
  intros Hall. destruct (select_best_func_limits_merged functions_arr) as [Hdist Hnames].
  apply Forall_concat in Hall. rewrite Forall_forall in Hall.
  rewrite Forall_lookup. intros k d Hk.
  destruct (Hnames (fname d)) as [Hnone Hsome].
  assert (Hself : named (fname d) d) by apply strcmp_eq_refl.
  destruct (decide (occurrences (fname d) (concat functions_arr) = [])) as [Hocc|Hocc].
  { exfalso. exact (Hnone Hocc k d Hk Hself). }
  destruct (Hsome Hocc) as (k' & e & Hk' & He & Hspan).
  assert (k = k') as <- by exact (Hdist k k' d e Hk Hk' He).
  assert (e = d) as -> by congruence.
  destruct Hspan as ((s1 & Hs1 & Hb) & Hmin & (s2 & Hs2 & He2) & _).
  specialize (Hmin s2 Hs2).
  apply list_elem_of_filter in Hs1 as [_ Hs1]. apply list_elem_of_filter in Hs2 as [_ Hs2].
  destruct (Hall s1 Hs1) as (_ & ? & _). destruct (Hall s2 Hs2) as (_ & ? & ? & _).
  unfold function_in_buffer. lia.
Qed.

Lemma find_functions_prints buffer (limit : Z) (error_message : string) :
  prints (fun _ => True)
         (fun r => distinct_names (fst r) /\ Forall (function_in_buffer buffer) (fst r))
         (fun why => why <> NoFuel)
         (find_functions (find_functions_internal g) limit buffer error_message).
Proof.
  unfold find_functions.
  eapply prints_bind with (Q := fun _ => True).
  { eapply prints_impl; [apply call_prints|]. auto. }
  intros [[[r0 f0] number_of_choices] msg] _.
  eapply prints_bind with (Q := fun _ => True).
  { destruct (number_of_choices >? limit)%Z; [now apply prints_say|now apply prints_ret]. }
  intros _ _. eapply prints_bind with (Q := fun _ => True).
  { apply prints_quiet. unfold Malloc.
    now destruct (wrap ((number_of_choices + 10) * sizeof_fentries) <? 0)%Z. }
  intros _ _. eapply prints_bind; [apply eval_choices_prints|].
  intros [functions_arr msg'] Harr. simpl in Harr.
  destruct (length functions_arr =? 0); [now apply prints_quiet|].
  eapply prints_bind with (Q := fun _ => True).
  { destruct (check_func_duplicates _); [now apply prints_say|now apply prints_ret]. }
  intros _ _. eapply prints_bind with (Q := fun _ => True).
  { destruct (check_func_overlap _); [now apply prints_say|now apply prints_ret]. }
  intros _ _. apply prints_ret. simpl. split.
  - now destruct (select_best_func_limits_merged functions_arr).
  - now apply merged_in_buffer.
Qed.

End FindFunctionsEnds.

(** ** A file against itself *)

Section SameFile.
Variable g : globals.
Variable temporary_files : fentry -> fentry -> run unit.
Hypothesis temporary_files_exit :
  forall f1 f2 why, temporary_files f1 f2 = Stop why -> exits why.
Implicit Types (buffer : list ascii) (functions : list fentry) (f : fentry).

Lemma found_itself functions i f :
  distinct_names functions -> functions !! i = Some f ->
  found (fname f) functions = Some f.
Proof.
  intros Hdist Hi. unfold found.
  destruct (List.find (fun f' => strcmp_eq (fname f) (fname f')) functions) as [f'|] eqn:Hfind.
  - apply find_some in Hfind as [Hin Hcmp].
    apply list_elem_of_In, list_elem_of_lookup in Hin as [j Hj].
    assert (i = j) as <-.
    { apply (Hdist i j f f' Hi Hj). unfold named. now rewrite strcmp_eq_sym. }
    congruence.
  - exfalso. apply list_elem_of_lookup_2, list_elem_of_In in Hi.
    pose proof (find_none _ _ Hfind f Hi) as Hcmp. simpl in Hcmp.
    now rewrite strcmp_eq_refl in Hcmp.
Qed.

Lemma blank_literals_and_comments_ends buffer :
  match blank_literals_and_comments g buffer with
  | Return (newbuffer, _) => strlen newbuffer = strlen buffer
  | Stop why => why <> NoFuel
  end.
Proof.
  unfold blank_literals_and_comments.
  destruct (find_comments_and_literals _ (cstr buffer) []) as [literals|why] eqn:H1;
    simpl; [|exact (fcl_stops _ _ _ H1)].
  pose proof (clear_blanks (cstr buffer) literals) as Hc1.
  destruct (clear (cstr buffer) literals) as [nb1|why]; simpl; [|exact Hc1].
  destruct (find_comments_and_literals _ nb1 []) as [comments|why] eqn:H2;
    simpl; [|exact (fcl_stops _ _ _ H2)].
  pose proof (clear_blanks nb1 comments) as Hc2.
  destruct (clear nb1 comments) as [nb2|why]; simpl; [|exact Hc2].
  destruct Hc1 as [Hs1 _], Hc2 as [Hs2 _]. rewrite Hs2, Hs1. apply strlen_cstr.
Qed.

Lemma duplicate_substr_cases buffer (begin end' : Z) :
  match duplicate_substr buffer begin end' with
  | Return _ => valid_extent buffer begin end'
  | Stop why => why <> NoFuel
  end.
Proof.
  unfold duplicate_substr, valid_extent.
  destruct (Z.gtb_spec begin (Z.of_nat (strlen buffer))); [discriminate|].
  destruct (Z.gtb_spec end' (Z.of_nat (strlen buffer))); [discriminate|].
  destruct (Z.gtb_spec begin end'); [discriminate|]. simpl.
  destruct (Z.ltb_spec begin 0); [discriminate|lia].
Qed.

Lemma diff_itself_cases buffer newbuffer (fbegin fend : Z) (literals : list item) :
  strlen newbuffer = strlen buffer ->
  match diff buffer newbuffer fbegin fend literals
             buffer newbuffer fbegin fend literals with
  | Return (flag, _, _) => flag = false
  | Stop why => why <> NoFuel
  end.
Proof.
  intros Hs. pose proof (duplicate_substr_cases buffer fbegin fend) as Hd.
  destruct (duplicate_substr buffer fbegin fend) as [x|why] eqn:Hdup.
  - destruct (diff_itself buffer newbuffer fbegin fend literals Hd Hs) as (o1 & o2 & ->).
    reflexivity.
  - unfold diff. rewrite Hdup. exact Hd.
Qed.

Lemma diff_function_itself buffer f :
  match diff_function g temporary_files buffer buffer f f with
  | Return reports => Forall (fun r => ~ reports_change r) reports
  | Stop why => why <> NoFuel
  end.
Proof.
  unfold diff_function.
  destruct (temporary_files f f) as [[]|why] eqn:Htmp; simpl;
    [|exact (exits_fuel _ (temporary_files_exit _ _ _ Htmp))].
  pose proof (blank_literals_and_comments_ends buffer) as Hscan.
  destruct (blank_literals_and_comments g buffer) as [[newbuffer literals]|why]; simpl;
    [|exact Hscan].
  pose proof (diff_itself_cases buffer newbuffer (fbegin f) (fend f) literals Hscan) as Hdiff.
  destruct (diff buffer newbuffer (fbegin f) (fend f) literals
                 buffer newbuffer (fbegin f) (fend f) literals)
    as [[[flag offset1] offset2]|why]; simpl; [|exact Hdiff].
  subst flag. destruct (flag_print_all_funcs g); repeat constructor. simpl. tauto.
Qed.

Lemma for_each_prints {A} (body : A -> run (list report)) (P : report -> Prop)
    (Why : stop -> Prop) (l : list A) :
  Forall (fun a => match body a with
                   | Return lines => Forall P lines
                   | Stop why => Why why
                   end) l ->
  prints P (fun _ => True) Why (for_each body l).
Proof.
  induction 1 as [|a l Ha _ IH]; cbn [for_each]; [now apply prints_ret|].
  eapply prints_bind with (Q := fun _ => True); [|intros _ _; exact IH].
  unfold round. destruct (body a) as [lines|why]; split; simpl; auto.
Qed.

Lemma diff_functions_itself buffer functions :
  distinct_names functions ->
  prints (fun r => ~ reports_change r) (fun _ => True) (fun why => why <> NoFuel)
         (diff_functions g temporary_files buffer buffer functions functions).
Proof.
  intros Hdist. unfold diff_functions.
  eapply prints_bind with (Q := fun _ => True); [|intros _ _];
    apply for_each_prints; rewrite Forall_forall; intros f Hf;
    apply list_elem_of_lookup in Hf as [i Hi];
    rewrite (found_itself _ _ _ Hdist Hi).
  - apply diff_function_itself.
  - constructor.
Qed.

Lemma distinct_names_single f : distinct_names [f].
Proof.
  intros i j a b Hi Hj _.
  apply lookup_lt_Some in Hi, Hj. simpl in Hi, Hj. lia.
Qed.

Lemma warnings_unchanged (log : list event) :
  Forall (fun r => ~ reports_change r) (warnings log).
Proof.
  unfold warnings. rewrite Forall_forall. intros r Hr.
  apply list_elem_of_omap in Hr as (e & _ & He).
  destruct e; [discriminate|]. injection He as <-. simpl. tauto.
Qed.

Lemma read_file_returns (fs : list ascii -> option (list ascii)) (src : list ascii) :
  exists buffer,
    prints (fun r => ~ reports_change r) (fun b => b = buffer) (fun _ => False)
           (read_file fs src).
Proof.
  unfold read_file. destruct (fs src) as [bytes|].
  - exists bytes. now apply prints_ret.
  - exists []. eapply prints_bind with (Q := fun _ => True);
      [|intros _ _; now apply prints_ret].
    apply prints_say; [simpl; tauto|exact I].
Qed.

(** The choice -1 leaves [error_message] as it is. *)
Lemma find_functions_internal_probe buffer (error_message error_message' : string) :
  find_functions_internal g buffer (-1) error_message
  = (fun '(index, functions, number_of_choices, _) =>
       (index, functions, number_of_choices, error_message))
    <$> find_functions_internal g buffer (-1) error_message'.
Proof.
  unfold find_functions_internal.
  change (-1 >=? 0)%Z with false. cbv iota.
  destruct (find_comments_and_literals _ (cstr buffer) []) as [Items|]; [|reflexivity].
  simpl. destruct (clear (cstr buffer) Items) as [nb1|]; [|reflexivity].
  simpl. destruct (find_pragmas nb1) as [pragmas|]; [|reflexivity].
  simpl. destruct (clear nb1 (copy_items_type pragmas PRAGMA_OTHER)) as [nb2|];
    [|reflexivity].
  simpl.
  match goal with
  | |- (?inner ≫= _) = _ => destruct inner as [[nb3 number_of_choices]|]; [|reflexivity]
  end.
  simpl. destruct (clear nb3 pragmas) as [nb4|]; reflexivity.
Qed.

(** What [find_functions] returns does not depend on the text that
    [error_message] holds when it is called. *)
Lemma find_functions_again buffer (limit : Z) (error_message error_message' : string)
    log functions msg :
  find_functions (find_functions_internal g) limit buffer error_message
  = (log, Return (functions, msg)) ->
  find_functions (find_functions_internal g) limit buffer error_message'
  = (log, Return (functions, msg)).
Proof.
  unfold find_functions, call.
  rewrite (find_functions_internal_probe buffer error_message error_message').
  destruct (find_functions_internal g buffer (-1) error_message')
    as [[[[r0 f0] number_of_choices] msg0]|why]; [|discriminate].
  cbn -[wrap Malloc Z.div Z.mul Z.add eval_choices].
  destruct (Z.to_nat (if (number_of_choices >? limit)%Z then limit else number_of_choices))
    as [|n]; [|exact (fun H => H)].
  cbn -[wrap Malloc Z.div Z.mul Z.add].
  destruct (number_of_choices >? limit)%Z;
    cbn -[wrap Malloc Z.div Z.mul Z.add];
    destruct (Malloc (wrap ((number_of_choices + 10) * sizeof_fentries)));
    discriminate.
Qed.

Lemma compare_functions_itself (fs : list ascii -> option (list ascii)) (src : list ascii) :
  prints (fun r => ~ reports_change r) (fun _ => True) (fun why => why <> NoFuel)
         (compare_functions g temporary_files fs src src).
Proof.
  unfold compare_functions.
  destruct (read_file_returns fs src) as [buffer Hread].
  assert (Hread' : prints (fun r => ~ reports_change r) (fun b => b = buffer)
                          (fun why => why <> NoFuel) (read_file fs src)).
  { destruct Hread as [Hout Hr]. split; [exact Hout|].
    destruct (snd (read_file fs src)); [exact Hr|contradiction]. }
  eapply prints_bind; [exact Hread'|]. intros ? ->.
  eapply prints_bind; [exact Hread'|]. intros ? ->.
  pose proof (find_functions_prints g buffer (number_of_choices_limit g) EmptyString)
    as [_ Hfind].
  destruct (find_functions (find_functions_internal g) (number_of_choices_limit g)
                           buffer EmptyString)
    as [log [[functions msg]|why]] eqn:Hrun.
  2:{ eapply prints_bind with (Q := fun _ => False); [|contradiction].
      split; [apply warnings_unchanged|exact Hfind]. }
  simpl in Hfind. destruct Hfind as [Hdist Hin].
  eapply prints_bind with (Q := fun r => r = (functions, msg)).
  { split; [apply warnings_unchanged|reflexivity]. }
  intros ? ->.
  rewrite (find_functions_again buffer _ EmptyString msg log functions msg Hrun).
  eapply prints_bind with (Q := fun r => r = (functions, msg)).
  { split; [apply warnings_unchanged|reflexivity]. }
  intros ? ->.
  eapply prints_bind; [exact (diff_functions_itself buffer functions Hdist)|].
  intros _ _.
  pose proof (clear_blanks (cstr buffer) (create_items_from_functions functions)) as Hclear.
  destruct (clear (cstr buffer) (create_items_from_functions functions)) as [buffer_|why].
  2:{ eapply prints_bind with (Q := fun _ => False); [|contradiction].
      apply prints_quiet. exact Hclear. }
  eapply prints_bind with (Q := fun b => b = buffer_); [now apply prints_quiet|].
  intros ? ->.
  eapply prints_bind with (Q := fun b => b = buffer_); [now apply prints_quiet|].
  intros ? ->.
  apply diff_functions_itself, distinct_names_single.
Qed.

End SameFile.

(** X25: a file compared with itself shows no difference.  Whatever the
    file holds, and whether it can be opened or not, a run of
    [compare_functions] on the same name twice ends, provided that the
    temporary files of a comparison can be written or the process exits,
    and none of the lines it prints, until it returns or until the
    process stops, tells of a function that is changed, deleted or
    added: it prints the warnings of [find_functions], and under
    [-show_all] the functions found and the text outside of them as
    being the same. *)
Theorem compare_functions_same (g : globals)
    (temporary_files : fentry -> fentry -> run unit)
    (fs : list ascii -> option (list ascii)) (src : list ascii) :
  (forall f1 f2 why, temporary_files f1 f2 = Stop why -> exits why) ->
  match compare_functions g temporary_files fs src src with
  | (reports, ending) =>
      Forall (fun r => ~ reports_change r) reports
      /\ match ending with
         | Return _ => True
         | Stop why => why <> NoFuel
         end
  end.
Proof.
  intros Hexit.
  pose proof (compare_functions_itself g temporary_files Hexit fs src) as H.
  destruct (compare_functions g temporary_files fs src src) as [reports ending].
  exact H.
Qed.

Example compare_functions_two_files :
  compare_functions (Globals true true true 500) room_for_files two_files
                    (chars "a.c") (chars "b.c")
  = ([Same (chars "f"); Deleted (chars "g") 2; Added (chars "h") 3;
      Changed outside_of_functions 3 2], Return tt)
  /\ compare_functions (Globals false true true 500) room_for_files two_files
                       (chars "a.c") (chars "c.c")
     = ([Missing (chars "c.c"); Deleted (chars "f") 1; Deleted (chars "g") 2;
         Changed outside_of_functions 1 1], Return tt)
  /\ main (fun g => compare_functions_lines g room_for_files two_files)
          (fun _ => None)
          [chars "adiff"; chars "a.c"; chars "a.c"; chars "-show_all"]
     = (["Processing functions in two files started"%string]
        ++ map show_report [Same (chars "f"); Same (chars "g"); Same outside_of_functions]
        ++ ["Processing functions in two files finished"%string],
        Exited 0).
Proof. repeat split; vm_compute; reflexivity. Qed.

(** What was printed before the process exits stays printed: the first
    file is missing, and the second one opens a comment that has no
    end. *)
Example main_missing_and_unterminated :
  main (fun g => compare_functions_lines g room_for_files
                   (fun src => if strcmp_eq src (chars "b.c")
                               then Some (chars "int x; /* no end")
                               else None))
       (fun _ => None) [chars "adiff"; chars "a.c"; chars "b.c"]
  = (["Processing functions in two files started";
      "File a.c is missing";
      "No matching closing comment"]%string,
     Exited (-1)).
Proof. vm_compute. reflexivity. Qed.

Lemma compare_functions_same_witness :
  (forall f1 f2 why, room_for_files f1 f2 = Stop why -> exits why)
  /\ match compare_functions (Globals true true true 500) room_for_files two_files
                             (chars "a.c") (chars "a.c") with
     | (reports, ending) =>
         Forall (fun r => ~ reports_change r) reports
         /\ match ending with
            | Return _ => True
            | Stop why => why <> NoFuel
            end
     end.
Proof.
  assert (H : forall f1 f2 why, room_for_files f1 f2 = Stop why -> exits why)
    by discriminate.
  split; [exact H|].
  exact (compare_functions_same (Globals true true true 500) room_for_files two_files
           (chars "a.c") H).
Defined.

(** ** The functions of a file lie in it *)

Section FoundFunctions.
Variable g : globals.
Implicit Types (buffer : list ascii) (functions : list fentry).

Lemma find_functions_ends buffer (limit : Z) (error_message : string) :
  match find_functions (find_functions_internal g) limit buffer error_message with
  | (_, Return (functions, _)) => Forall (function_in_buffer buffer) functions
  | (_, Stop why) => why <> NoFuel
  end.
Proof.
  destruct (find_functions_prints g buffer limit error_message) as [_ H].
  destruct (find_functions (find_functions_internal g) limit buffer error_message)
    as [log [[functions msg]|why]]; simpl in H; [apply H|exact H].
Qed.

End FoundFunctions.

(** X26: the functions that [find_functions] returns lie in the file.
    [find_functions] ends on every buffer: it returns or the process
    stops on the way.  Each function of its result, merged from the
    passes over the choices of branches, begins before it ends, inside
    the buffer and below the terminator, so that the [clear] by which
    [compare_functions] blanks the functions never fails its assertions:
    it returns the buffer with nothing but blanks written. *)
Theorem find_functions_in_buffer (g : globals) (buffer : list ascii) (limit : Z)
    (error_message : string) :
  match find_functions (find_functions_internal g) limit buffer error_message with
  | (_, Return (functions, _)) =>
      Forall (function_in_buffer buffer) functions
      /\ exists buffer_,
           clear (cstr buffer) (create_items_from_functions functions) = Return buffer_
           /\ blanked buffer buffer_
  | (_, Stop why) => why <> NoFuel
  end.
Proof.
  pose proof (find_functions_ends g buffer limit error_message) as H.
  destruct (find_functions (find_functions_internal g) limit buffer error_message)
    as [log [[functions msg]|why]]; [|exact H].
  split; [exact H|].
  pose proof (clear_blanks (cstr buffer) (create_items_from_functions functions)) as Hc.
  destruct (clear_loop_returns (create_items_from_functions functions) (cstr buffer))
    as [buffer_ Hret].
  { rewrite create_items_from_functions_fmap, Forall_fmap.
    eapply Forall_impl; [exact H|]. intros f [Hb He]. unfold item_in_buffer. simpl.
    rewrite strlen_cstr. lia. }
  unfold clear in *. rewrite Hret in *. exists buffer_. split; [reflexivity|].
  eapply blanked_trans; [apply blanked_cstr|exact Hc].
Qed.

Example find_functions_two_files :
  find_functions (find_functions_internal (Globals false true true 500)) 500 file_a
                 EmptyString
  = ([Call (-1); Call 0],
     Return ([FEntry (chars "f") 7 32; FEntry (chars "g") 34 62], EmptyString))
  /\ find_functions (find_functions_internal (Globals false false true 500)) 500 file_b
                    EmptyString
     = ([Call (-1); Call 0],
        Return ([FEntry (chars "f") 20 34; FEntry (chars "h") 53 72], EmptyString)).
Proof. split; vm_compute; reflexivity. Qed.

(** When no choice gives functions the process exits with the text that
    the last choice has left in [error_message]. *)
Example find_functions_error_message :
  find_functions (find_functions_internal (Globals false true true 500)) 500
                 (chars "int f(int a { }") EmptyString
  = ([Call (-1); Call 0], Stop (ExitCall "ERROR: Cannot find matching ')'"))
  /\ find_functions (find_functions_internal (Globals false true true 500)) 500
                    (chars "int f(int a) { ") EmptyString
     = ([Call (-1); Call 0], Stop (ExitCall "ERROR: Cannot find function body")).
Proof. split; vm_compute; reflexivity. Qed.

(** ** The array of the sets of the choices *)

(** C9 fails on the code.  [deep_file] has a function inside 27
    conditionals, and so 2^27 choices, more than the limit 2.  The
    choices 0 and 1 return, the first with the function.
    [find_functions] prints the warning, and then asks [Malloc] for an
    array with room for the sets of all the choices and ten more, not
    for those of the choices below the limit: its size in bytes is above
    [INT_MAX], [Malloc] takes it for a negative [int], and the process
    exits before a choice is evaluated. *)
Theorem find_functions_cannot_allocate :
  let g := Globals false true true 2 in
  find_functions_internal g deep_file (-1) EmptyString
  = Return (0%Z, [], 134217728%Z, EmptyString)
  /\ (134217728 > number_of_choices_limit g)%Z
  /\ find_functions_internal g deep_file 0 EmptyString
     = Return (END, [FEntry (chars "f") 162 186], 134217728%Z, EmptyString)
  /\ find_functions_internal g deep_file 1 EmptyString
     = Return (END, [], 134217728%Z, EmptyString)
  /\ wrap ((134217728 + 10) * sizeof_fentries) = (-2147483488)%Z
  /\ find_functions (find_functions_internal g) (number_of_choices_limit g) deep_file
                    EmptyString
     = ([Call (-1); Print (warning_too_large 134217728 2)],
        Stop (ExitCall "Cannot allocate -2047.999847 MB of memory")).
Proof. repeat split; vm_compute; reflexivity. Qed.

(** The run of [adiff] on this file against itself with [-vs=2]. *)
Example main_cannot_allocate :
  main (fun g => compare_functions_lines g room_for_files (fun _ => Some deep_file))
       (fun _ => Some 2%Z)
       [chars "adiff"; chars "a.c"; chars "a.c"; chars "-vs=2"]
  = (["Processing functions in two files started";
      "WARNING: search space for pragmas in too large (number_of_choices = 134217728), reducing it to 2: RESULTS CAN BE INCORRECT";
      "Cannot allocate -2047.999847 MB of memory"]%string,
     Exited (-1)).
Proof. vm_compute. reflexivity. Qed.

(** Where the array can be had the cap does what it is meant to do: of
    the four choices of [shallow_file] the first two are evaluated. *)
Example find_functions_capped_shallow :
  find_functions (find_functions_internal (Globals false true true 2)) 2 shallow_file
                 EmptyString
  = ([Call (-1); Print (warning_too_large 4 2); Call 0; Call 1],
     Return ([FEntry (chars "f") 12 36], EmptyString)).
Proof. vm_compute. reflexivity. Qed.
